(** * Voiceflow agent copilot: the API-tool compiler

  A shallow embedding of the template/document compiler of the
  Voiceflow agent copilot CLI:

  - the operator path, [addApiTool] of the CLI entry point
    (lines 242-477 of the main script), and
  - the generator path, [addApiToolFromJson] of [api-tool-templates.js],
    with [normalizeLLMApiToolJson] of [anthropic.js].

  JavaScript strings are lists of 8-bit code units, JSON documents are
  values of an inductive type, a plain object used as a dictionary
  ([variableDescriptions], [variableIDs], [varNameToId]) is an association
  list of its own keys behind which a read finds what [Object.prototype]
  holds, and the two sources of non-determinism ([generateMongoId] and
  [new Date().toISOString()]) are oracles indexed by a call counter.

  Around the compiler, the development embeds what the commands do to the
  files:

  - [versioning.js]: [saveNewVersion], [listVersions], [revertToVersion]
    and [withAutoVersioning];
  - [vf-parser.js]: [listAllAgents] and [updateAgentInstructions];
  - of the CLI entry point, [getVersionedFiles], [getLatestVfFile],
    [ensureVersionedFile] and the commands [add-api-tool],
    [setup-project], [ai-add-api-tool] and [ai-update-instructions].

  The files are a finite map from directories to the files they hold, a
  path is a directory and a file name, and a [.vf] file holds the
  document that [JSON.parse] reads from it. *)

From Stdlib Require Import String Ascii DecimalString.
From Stdlib Require Import ZArith Lia Bool Arith PeanoNat List Permutation.
Import ListNotations.

Local Open Scope string_scope.
Local Open Scope nat_scope.
Local Open Scope list_scope.

(* ================================================================== *)
(** * JavaScript strings *)
(* ================================================================== *)

Module JsString.

Definition jstring := list ascii.

(** A string literal of the source. *)
Definition js (s : string) : jstring := list_ascii_of_string s.

Definition ascii_in (lo hi : nat) (c : ascii) : bool :=
  let n := nat_of_ascii c in (lo <=? n) && (n <=? hi).

(** The character class [[a-zA-Z0-9_]]. *)
Definition is_name_char (c : ascii) : bool :=
  ascii_in 97 122 c || ascii_in 65 90 c || ascii_in 48 57 c
  || Ascii.eqb c "_".

Definition is_open (c : ascii) : bool := Ascii.eqb c "{".
Definition is_close (c : ascii) : bool := Ascii.eqb c "}".

(** White space removed by [String.prototype.trim]: TAB, LF, VT, FF, CR,
    SPACE and NBSP are the ones in the 8-bit range. *)
Definition is_space (c : ascii) : bool :=
  let n := nat_of_ascii c in
  ((9 <=? n) && (n <=? 13)) || (n =? 32) || (n =? 160).

(** Line terminators, which [.] in a regular expression does not match. *)
Definition is_line_terminator (c : ascii) : bool :=
  let n := nat_of_ascii c in (n =? 10) || (n =? 13).

Fixpoint str_eqb (a b : jstring) : bool :=
  match a, b with
  | [], [] => true
  | x :: a', y :: b' => Ascii.eqb x y && str_eqb a' b'
  | _, _ => false
  end.

Fixpoint take_while (p : ascii -> bool) (l : jstring) : jstring :=
  match l with
  | c :: l' => if p c then c :: take_while p l' else []
  | [] => []
  end.

Fixpoint drop_while (p : ascii -> bool) (l : jstring) : jstring :=
  match l with
  | c :: l' => if p c then drop_while p l' else l
  | [] => []
  end.

(** [s.slice(i, j)] for [0 <= i], [0 <= j]. *)
Definition slice (s : jstring) (i j : nat) : jstring :=
  firstn (j - i) (skipn i s).

(** [s.slice(i)]. *)
Definition slice_from (s : jstring) (i : nat) : jstring := skipn i s.

(** [s.trim()]. *)
Definition trim (s : jstring) : jstring :=
  rev (drop_while is_space (rev (drop_while is_space s))).

(** [s.split(sep)] for a one-character separator: never empty. *)
Fixpoint split_on (sep : ascii) (s : jstring) : list jstring :=
  match s with
  | [] => [[]]
  | c :: s' =>
      if Ascii.eqb c sep then [] :: split_on sep s'
      else match split_on sep s' with
           | p :: ps => (c :: p) :: ps
           | [] => [[c]]
           end
  end.

(** [parts.join(sep)] on strings. *)
Fixpoint join (sep : jstring) (parts : list jstring) : jstring :=
  match parts with
  | [] => []
  | [p] => p
  | p :: ps => p ++ sep ++ join sep ps
  end.

(** [s.indexOf(c)]: [None] stands for [-1]. *)
Fixpoint index_of (c : ascii) (s : jstring) : option nat :=
  match s with
  | [] => None
  | x :: s' =>
      if Ascii.eqb x c then Some 0
      else match index_of c s' with
           | Some i => Some (S i)
           | None => None
           end
  end.

(** The capital letters of the 8-bit range: [A] to [Z], and the code units
    192 to 222 without the multiplication sign, 215.  Each has its small
    letter 32 code units above it. *)
Definition is_capital (c : ascii) : bool :=
  ascii_in 65 90 c || ascii_in 192 214 c || ascii_in 216 222 c.

Definition to_lower_char (c : ascii) : ascii :=
  if is_capital c then ascii_of_nat (nat_of_ascii c + 32) else c.

(** [s.toLowerCase()]. *)
Definition toLowerCase (s : jstring) : jstring := map to_lower_char s.

Definition non_empty (s : jstring) : bool :=
  match s with [] => false | _ => true end.

End JsString.
Import JsString.

(* ================================================================== *)
(** * The placeholder regular expressions *)
(* ================================================================== *)

Module Regex.

(** A successful match: [index], [whole] is [match[0]], [group1] is
    [match[1]]. *)
Record rmatch := { index : nat; whole : jstring; group1 : jstring }.

(** [/\{+([a-zA-Z0-9_]+)\}+/] anchored at the head of [l]: the name and
    the length of the match.  Each of the three greedy runs is maximal:
    giving back a brace or a name character leaves the next piece of the
    pattern facing a character it rejects, so backtracking finds no other
    match at this position. *)
Definition match_here (l : jstring) : option (jstring * nat) :=
  let opens := take_while is_open l in
  let r1 := drop_while is_open l in
  let name := take_while is_name_char r1 in
  let r2 := drop_while is_name_char r1 in
  let closes := take_while is_close r2 in
  if non_empty opens && non_empty name && non_empty closes
  then Some (name, length opens + length name + length closes)
  else None.

(** The leftmost match in [l], whose first character has index [i]. *)
Fixpoint search (l : jstring) (i : nat) : option rmatch :=
  match match_here l with
  | Some (name, len) =>
      Some {| index := i; whole := firstn len l; group1 := name |}
  | None =>
      match l with
      | [] => None
      | _ :: l' => search l' (S i)
      end
  end.

(** [varRegex.exec(s)] with [varRegex.lastIndex = lastIndex]; the regex
    has the [g] flag.  The new [lastIndex] is [index + whole.length]
    after a match and [0] after a failure. *)
Definition exec (s : jstring) (lastIndex : nat) : option rmatch :=
  if lastIndex <=? length s then search (skipn lastIndex s) lastIndex
  else None.

Definition match_end (m : rmatch) : nat := index m + length (whole m).

(** [value.match(/^\{+([a-zA-Z0-9_]+)\}+$/)]: the captured name. *)
Definition match_whole (value : jstring) : option jstring :=
  match match_here value with
  | Some (name, len) => if len =? length value then Some name else None
  | None => None
  end.

End Regex.
Import Regex.

(* ================================================================== *)
(** * JavaScript values *)
(* ================================================================== *)

Module Js.

(** What [JSON.parse] produces, and [undefined] for what a property read
    can yield.  Numbers are the integers; a double holds the ones up to
    [2 ^ 53] in magnitude exactly, and [spelled] below tells them from the
    others where that matters. *)
Unset Elimination Schemes.
Inductive value :=
| VUndef
| VNull
| VBool (b : bool)
| VNum (n : Z)
| VStr (s : jstring)
| VArr (items : list value)
| VObj (fields : list (jstring * value)).
Set Elimination Schemes.

(** The own properties of a plain object, in insertion order. *)
Definition obj := list (jstring * value).

Inductive jstype := TUndefined | TObject | TBoolean | TNumber | TString.

Definition typeof (v : value) : jstype :=
  match v with
  | VUndef => TUndefined
  | VNull | VArr _ | VObj _ => TObject
  | VBool _ => TBoolean
  | VNum _ => TNumber
  | VStr _ => TString
  end.

Definition is_object (v : value) : bool :=
  match typeof v with TObject => true | _ => false end.
Definition is_string (v : value) : bool :=
  match v with VStr _ => true | _ => false end.
Definition isArray (v : value) : bool :=
  match v with VArr _ => true | _ => false end.

(** [Boolean(v)]. *)
Definition truthy (v : value) : bool :=
  match v with
  | VUndef | VNull => false
  | VBool b => b
  | VNum n => negb (Z.eqb n 0)
  | VStr s => non_empty s
  | VArr _ | VObj _ => true
  end.

(** [a || b] and [a && b] on values. *)
Definition or_else (a b : value) : value := if truthy a then a else b.
Definition and_then (a b : value) : value := if truthy a then b else a.

Fixpoint lookup (k : jstring) (o : obj) : option value :=
  match o with
  | [] => None
  | (k', v) :: o' => if str_eqb k' k then Some v else lookup k o'
  end.

Definition own (o : obj) (k : jstring) : value :=
  match lookup k o with Some v => v | None => VUndef end.

Definition hasOwn (o : obj) (k : jstring) : bool :=
  match lookup k o with Some _ => true | None => false end.

(** [o[k] = v] on a plain object: an existing key keeps its place. *)
Fixpoint obj_set (k : jstring) (v : value) (o : obj) : obj :=
  match o with
  | [] => [(k, v)]
  | (k', v') :: o' =>
      if str_eqb k' k then (k', v) :: o' else (k', v') :: obj_set k v o'
  end.

(** ** Objects used as dictionaries

    [variableDescriptions], [variableIDs] and [varNameToId] are plain
    objects, read and written under names taken from the templates.  A
    name that is no own key is looked up in [Object.prototype]: under
    [__proto__] stands [Object.prototype] itself, under eleven other names
    a function, under any other name nothing. *)
Definition prototype_functions : list jstring :=
  map js ["constructor"; "__defineGetter__"; "__defineSetter__";
          "hasOwnProperty"; "__lookupGetter__"; "__lookupSetter__";
          "isPrototypeOf"; "propertyIsEnumerable"; "toString"; "valueOf";
          "toLocaleString"]%string.

(** What [d[k]] reads. *)
Inductive slot :=
| Held (v : value)
| Prototype
| Builtin
| Missing.

Definition read (d : obj) (k : jstring) : slot :=
  match lookup k d with
  | Some v => Held v
  | None =>
      if str_eqb k (js "__proto__") then Prototype
      else if existsb (str_eqb k) prototype_functions then Builtin
      else Missing
  end.

(** [Boolean(d[k])]. *)
Definition holds (r : slot) : bool :=
  match r with
  | Held v => truthy v
  | Prototype | Builtin => true
  | Missing => false
  end.

(** What the file holds, once written, under a property that was given
    what [d[k]] read: [Object.prototype] is written as the empty object,
    and a function, like [undefined], is left out. *)
Definition written (r : slot) : value :=
  match r with
  | Held v => v
  | Prototype => VObj []
  | Builtin | Missing => VUndef
  end.

(** [d[k] = s] for a string [s]: under [__proto__] the assignment runs the
    setter of [Object.prototype], which ignores what is no object. *)
Definition assign (k : jstring) (s : jstring) (d : obj) : obj :=
  if str_eqb k (js "__proto__") then d else obj_set k (VStr s) d.

Definition nat_to_jstring (n : nat) : jstring :=
  js (DecimalString.NilEmpty.string_of_uint (Nat.to_uint n)).

Definition Z_to_jstring (n : Z) : jstring :=
  js (DecimalString.NilZero.string_of_int (Z.to_int n)).

(** [v.k] for a property name written in the source, on a base that is
    neither [null] nor [undefined] (the callers guard it; on those two it
    answers [undefined]).  None of the names read this way is inherited
    from a prototype, [length] apart. *)
Definition get (v : value) (k : string) : value :=
  match v with
  | VObj o => own o (js k)
  | VArr l => if String.eqb k "length" then VNum (Z.of_nat (length l))
              else VUndef
  | VStr s => if String.eqb k "length" then VNum (Z.of_nat (length s))
              else VUndef
  | _ => VUndef
  end.

(** [v[i]] for an index [i]. *)
Definition idx (v : value) (i : nat) : value :=
  match v with
  | VArr l => nth i l VUndef
  | VStr s => match nth_error s i with
              | Some c => VStr [c]
              | None => VUndef
              end
  | VObj o => own o (nat_to_jstring i)
  | _ => VUndef
  end.

(** [a === b].  Two arrays or objects are equal only when they are the
    same reference; every use below compares values read from different
    nodes of a parsed document, or with a string. *)
Definition strict_eq (a b : value) : bool :=
  match a, b with
  | VUndef, VUndef | VNull, VNull => true
  | VBool x, VBool y => Bool.eqb x y
  | VNum x, VNum y => Z.eqb x y
  | VStr x, VStr y => str_eqb x y
  | _, _ => false
  end.

(** Whether [String(v)] returns.  An object of a document that has a
    [toString] of its own has one that cannot be called; the conversion
    turns to [valueOf], which cannot be called either or answers the
    object itself, and throws a [TypeError].  An array is converted by
    [join], which converts its elements. *)
Fixpoint stringifies (v : value) : bool :=
  match v with
  | VArr l => forallb stringifies l
  | VObj o => negb (hasOwn o (js "toString"))
  | _ => true
  end.

(** Whether [to_string v] below is [String(v)]: the conversion returns,
    and the numbers it meets are spelled in digits, as those that a double
    holds exactly are. *)
Fixpoint spelled (v : value) : bool :=
  match v with
  | VNum n => (Z.abs n <=? 2 ^ 53)%Z
  | VArr l => forallb spelled l
  | VObj o => negb (hasOwn o (js "toString"))
  | _ => true
  end.

(** [String(v)] for a value that is [spelled], with
    [Array.prototype.join] for arrays. *)
Fixpoint to_string (v : value) : jstring :=
  match v with
  | VUndef => js "undefined"
  | VNull => js "null"
  | VBool true => js "true"
  | VBool false => js "false"
  | VNum n => Z_to_jstring n
  | VStr s => s
  | VArr l =>
      JsString.join (js ",")
        (map (fun x => match x with
                       | VUndef | VNull => []
                       | _ => to_string x
                       end) l)
  | VObj _ => js "[object Object]"
  end.

(** [items.join(sep)]. *)
Definition array_join (sep : jstring) (items : list value) : jstring :=
  JsString.join sep
    (map (fun x => match x with
                   | VUndef | VNull => []
                   | _ => to_string x
                   end) items).

(** The object written [{ variableID: v }]. *)
Definition var_ref (v : value) : value := VObj [(js "variableID", v)].

(** The object written [{ text: parts }]. *)
Definition text_of (parts : list value) : value :=
  VObj [(js "text", VArr parts)].

End Js.
Import Js.

(* ================================================================== *)
(** * Effects: exceptions over a state *)
(* ================================================================== *)

Module Eff.

(** [TypeError] is what the engine throws on a read of a property of
    [null] or [undefined], a call of something that is no function, an
    iteration over something not iterable, or a write to a property of a
    primitive in strict mode.  [InvalidGeneratorOutput] is
    [new Error('Invalid AI tool JSON')].  [OutOfFuel] belongs to the
    model only: a [while] loop that exhausted its fuel.  [Unmodelled] marks
    the places where the model does not follow the engine: the conversion
    of a string, an array or an object to a number for a comparison, and
    the conversion to a property key of a number that is not [spelled]. *)
Inductive error := TypeError | InvalidGeneratorOutput | OutOfFuel | Unmodelled.

(** The state reached is kept when an exception is thrown: the objects
    mutated so far stay mutated. *)
Inductive result (St A : Type) :=
| Ok (a : A) (s : St)
| Throw (e : error) (s : St).
Arguments Ok {St A} a s.
Arguments Throw {St A} e s.

Definition M (St A : Type) := St -> result St A.

Definition ret {St A} (a : A) : M St A := fun s => Ok a s.
Definition throw {St A} (e : error) : M St A := fun s => Throw e s.
Definition bind {St A B} (m : M St A) (f : A -> M St B) : M St B :=
  fun s => match m s with
           | Ok a s' => f a s'
           | Throw e s' => Throw e s'
           end.
Definition get_state {St} : M St St := fun s => Ok s s.
Definition put_state {St} (s : St) : M St unit := fun _ => Ok tt s.
Definition modify {St} (f : St -> St) : M St unit := fun s => Ok tt (f s).

(** A computation on the second component of the state. *)
Definition lift {D W A} (m : M W A) : M (D * W) A :=
  fun s => match m (snd s) with
           | Ok a w => Ok a (fst s, w)
           | Throw e w => Throw e (fst s, w)
           end.

Definition of_option {St A} (o : option A) : M St A :=
  match o with Some a => ret a | None => throw OutOfFuel end.

Fixpoint mapM {St A B} (f : A -> M St B) (l : list A) : M St (list B) :=
  match l with
  | [] => ret []
  | x :: l' =>
      bind (f x) (fun y => bind (mapM f l') (fun ys => ret (y :: ys)))
  end.

(** [l.map((x, idx) => ...)], the index counted from [i]. *)
Fixpoint mapiM {St A B} (f : nat -> A -> M St B) (i : nat) (l : list A)
  : M St (list B) :=
  match l with
  | [] => ret []
  | x :: l' =>
      bind (f i x)
        (fun y => bind (mapiM f (S i) l') (fun ys => ret (y :: ys)))
  end.

(** [for (const x of l) acc = body(acc, x)]. *)
Fixpoint foldM {St A B} (f : B -> A -> M St B) (l : list A) (acc : B)
  : M St B :=
  match l with
  | [] => ret acc
  | x :: l' => bind (f acc x) (fun acc' => foldM f l' acc')
  end.

(** [l.find(p)] where [p] may throw. *)
Fixpoint findM {St A} (p : A -> M St bool) (l : list A) : M St (option A) :=
  match l with
  | [] => ret None
  | x :: l' =>
      bind (p x) (fun b => if b then ret (Some x) else findM p l')
  end.

(** [String(v)], where the source takes what a document holds for a
    property key. *)
Definition ToString {St} (v : value) : M St jstring :=
  if negb (stringifies v) then throw TypeError
  else if spelled v then ret (to_string v) else throw Unmodelled.

(** [items.join(sep)]: it throws where the conversion of an item does. *)
Definition join_items {St} (sep : jstring) (items : list value)
  : M St jstring :=
  if forallb stringifies items then ret (array_join sep items)
  else throw TypeError.

End Eff.
Import Eff.

Declare Scope eff_scope.
Notation "x <- m ;; k" := (bind m (fun x => k))
(at level 61, m at next level, right associativity) : eff_scope.
Notation "' p <- m ;; k" := (bind m (fun x => let p := x in k))
(at level 61, p pattern, m at next level, right associativity) : eff_scope.
Notation "m ;;; k" := (bind m (fun _ => k))
(at level 61, right associativity) : eff_scope.
Local Open Scope eff_scope.

(* ================================================================== *)
(** * Loops over the matches of [varRegex] *)
(* ================================================================== *)

Module Scan.

(** [while ((match = varRegex.exec(s))) acc = body(acc, match)], entered
    with [varRegex.lastIndex = lastIndex]. *)
Fixpoint exec_loop {A} (fuel : nat) (s : jstring) (lastIndex : nat)
    (body : A -> rmatch -> A) (acc : A) : option A :=
  match fuel with
  | 0 => None
  | S fuel' =>
      match exec s lastIndex with
      | None => Some acc
      | Some m => exec_loop fuel' s (match_end m) body (body acc m)
      end
  end.

(** Every loop of the source starts at [lastIndex = 0]: the regex is
    fresh, or was reset by hand, or by the failure that ended the loop
    before. *)
Definition while_exec {A} (s : jstring) (body : A -> rmatch -> A) (acc : A)
  : option A :=
  exec_loop (S (length s)) s 0 body acc.

(** [foundVars.add(name)] on a [Set], kept in insertion order. *)
Definition set_add (name : jstring) (found : list jstring) : list jstring :=
  if existsb (str_eqb name) found then found else found ++ [name].

(** [while ((match = varRegex.exec(s))) foundVars.add(match[1])]. *)
Definition scan_names (s : jstring) (foundVars : list jstring)
  : option (list jstring) :=
  while_exec s (fun found m => set_add (group1 m) found) foundVars.

(** [s.matchAll(/\{+([a-zA-Z0-9_]+)\}+/g)], as the list of matches. *)
Definition matchAll (s : jstring) : option (list rmatch) :=
  while_exec s (fun acc m => acc ++ [m]) [].

(** [s.replace(varRegex, repl)], [repl] free of [$]. *)
Definition replace_all (s repl : jstring) : option jstring :=
  match while_exec s
          (fun '(out, last) m =>
             (out ++ slice s last (index m) ++ repl, match_end m))
          ([], 0) with
  | Some (out, last) => Some (out ++ slice_from s last)
  | None => None
  end.

(** The tokenizer, written three times in the source (URL, query value,
    body):
<<
    let parts = []; let lastIndex = 0; varRegex.lastIndex = 0
    while ((match = varRegex.exec(s))) {
      if (match.index > lastIndex) parts.push(s.slice(lastIndex, match.index))
      parts.push({ variableID: variableIDs[match[1]] })
      lastIndex = match.index + match[0].length
    }
    if (lastIndex < s.length) parts.push(s.slice(lastIndex))
>>
    A segment is a string or an object [{ variableID }] that holds what
    [variableIDs[match[1]]] read. *)
Inductive part :=
| Literal (s : jstring)
| Reference (r : slot).

Definition tokenize (variableIDs : obj) (s : jstring) : option (list part) :=
  match while_exec s
          (fun '(parts, lastIndex) m =>
             let parts :=
               if lastIndex <? index m
               then parts ++ [Literal (slice s lastIndex (index m))]
               else parts in
             (parts ++ [Reference (read variableIDs (group1 m))],
              index m + length (whole m)))
          ([], 0) with
  | Some (parts, lastIndex) =>
      Some (if lastIndex <? length s
            then parts ++ [Literal (slice_from s lastIndex)]
            else parts)
  | None => None
  end.

(** A segment as the file holds it, once written. *)
Definition stored (p : part) : value :=
  match p with
  | Literal s => VStr s
  | Reference r => var_ref (written r)
  end.

End Scan.
Import Scan.

(* ================================================================== *)
(** * Identifiers and time stamps *)
(* ================================================================== *)

Section World.

(** [random16 k] is the [k]-th value of [Math.floor(Math.random() * 16)]
    and [clock k] the [k]-th value of [new Date().toISOString()]. *)
Variable random16 : nat -> nat.
Variable clock : nat -> jstring.

Record world := { draws : nat; ticks : nat }.

Definition hex_digit (n : nat) : ascii :=
  nth (n mod 16) (js "0123456789abcdef") "0"%char.

(** The identifier made of the 24 draws that start at draw [k]. *)
Definition mongo_at (k : nat) : jstring :=
  map (fun i => hex_digit (random16 (k + i))) (seq 0 24).

(** [generateMongoId()] of [id-generator.js]. *)
Definition generateMongoId : M world jstring :=
  fun w => Ok (mongo_at (draws w))
              {| draws := draws w + 24; ticks := ticks w |}.

(** [new Date().toISOString()]. *)
Definition now : M world jstring :=
  fun w => Ok (clock (ticks w))
              {| draws := draws w; ticks := S (ticks w) |}.

(** The document, a parsed [.vf] file, is a JSON object. *)
Definition doc_state := (obj * world)%type.

Definition read_doc : M doc_state obj := fun s => Ok (fst s) s.
Definition write_field (k : string) (v : value) : M doc_state unit :=
  fun s => Ok tt (obj_set (js k) v (fst s), snd s).

(** [if (!Array.isArray(data.k)) data.k = []]. *)
Definition ensure_array (k : string) : M doc_state unit :=
  data <- read_doc ;;
  if isArray (own data (js k)) then ret tt else write_field k (VArr []).

(** [data.k.push(...xs)]. *)
Definition push_all (k : string) (xs : list value) : M doc_state unit :=
  data <- read_doc ;;
  match own data (js k) with
  | VArr l => write_field k (VArr (l ++ xs))
  | _ => throw TypeError
  end.

Definition push (k : string) (x : value) : M doc_state unit :=
  push_all k [x].

(* ================================================================ *)
(** * The operator path: [addApiTool] *)
(* ================================================================ *)

(** The choices of the [HTTP Method] list prompt:
    [['get', 'post', 'put', 'delete', 'patch']]. *)
Inductive HttpMethod := GET | POST | PUT | DELETE | PATCH.

Definition method_text (m : HttpMethod) : jstring :=
  match m with
  | GET => js "get"
  | POST => js "post"
  | PUT => js "put"
  | DELETE => js "delete"
  | PATCH => js "patch"
  end.

(** What the operator answers to the prompts.  [wantsBody] and
    [bodyInput] are asked only for a method that carries a body;
    [varDesc n] is the answer to [Description for variable '{n}']. *)
Record answers := {
  name : jstring;
  description : jstring;
  url : jstring;
  queryParamsInput : jstring;
  httpMethod : HttpMethod;
  headersInput : jstring;
  wantsBody : bool;
  bodyInput : jstring;
  varDesc : jstring -> jstring;
  selectedAgentId : value
}.

(** [['post', 'put', 'patch'].includes(m)]. *)
Definition carries_body (m : jstring) : bool :=
  existsb (str_eqb m) [js "post"; js "put"; js "patch"].

(** Lines 242-265: the body template, prompted for only when the method
    supports a body. *)
Definition bodyTemplate (a : answers) : jstring :=
  if carries_body (toLowerCase (method_text (httpMethod a)))
  then (if wantsBody a then bodyInput a else [])
  else [].

(** [s && s.trim()] on a string. *)
Definition not_blank (s : jstring) : bool :=
  non_empty s && non_empty (trim s).

(** Lines 274-282: [queryParamsInput] as [{ key, value }] pairs. *)
Definition queryParamPairs (a : answers) : list (jstring * jstring) :=
  filter (fun qp => non_empty (fst qp))
    (map (fun pair =>
            let parts := split_on "=" pair in
            (trim (hd [] parts), trim (JsString.join (js "=") (tl parts))))
       (filter non_empty (map trim (split_on "," (queryParamsInput a))))).

(** Lines 266-300: the names found in the URL, then in each query value,
    then in the body template. *)
Definition allVarNames (a : answers) : option (list jstring) :=
  match scan_names (url a) [] with
  | None => None
  | Some found =>
      match fold_left
              (fun acc qp =>
                 match acc with
                 | Some found => scan_names (snd qp) found
                 | None => None
                 end)
              (queryParamPairs a) (Some found) with
      | None => None
      | Some found =>
          if not_blank (bodyTemplate a)
          then scan_names (bodyTemplate a) found
          else Some found
      end
  end.

(** Lines 326-333, the callback of [data.apiTools.find]. *)
Definition url_text_joined {St} (t : value) : M St jstring :=
  let text := get (idx (get t "url") 0) "text" in
  if truthy (get t "url") && truthy (idx (get t "url") 0) && truthy text
  then match text with
       | VArr l => join_items [] l
       | VObj o => if truthy (own o (js "join")) then throw TypeError
                   else ret []
       | _ => ret []
       end
  else ret [].

Definition is_duplicate {St} (name urlStripped : jstring) (t : value)
  : M St bool :=
  match t with
  | VUndef | VNull => throw TypeError
  | _ =>
      if strict_eq (get t "name") (VStr name) then ret true
      else joined <- url_text_joined t ;; ret (str_eqb joined urlStripped)
  end.

(** Lines 302-313: the descriptions, asked once per name. *)
Definition variableDescriptions (a : answers) (names : list jstring) : obj :=
  fold_left (fun d varName => assign varName (varDesc a varName) d) names [].

(** [d[k] || ''] on a dictionary of strings, as the file holds it. *)
Definition or_empty (r : slot) : value :=
  if holds r then written r else VStr [].

(** The object pushed on [data.apiToolInputVariables], lines 345-351. *)
Definition inputVariable (variableDescriptions : obj)
    (varID varName apiToolID createdAt : jstring) : value :=
  VObj [(js "id", VStr varID);
        (js "name", VStr varName);
        (js "apiToolID", VStr apiToolID);
        (js "description", or_empty (read variableDescriptions varName));
        (js "createdAt", VStr createdAt)].

(** Lines 343-353, the body of the loop over [allVarNames]. *)
Definition createVariable (variableDescriptions : obj) (apiToolID : jstring)
    (variableIDs : obj) (varName : jstring) : M doc_state obj :=
  if hasOwn variableIDs varName then ret variableIDs
  else
    varID <- lift generateMongoId ;;
    createdAt <- lift now ;;
    push "apiToolInputVariables"
      (inputVariable variableDescriptions varID varName apiToolID
         createdAt) ;;;
    ret (assign varName varID variableIDs).

(** Lines 340-354: one variable per name not yet in [variableIDs]. *)
Definition createVariables (variableDescriptions : obj)
    (apiToolID : jstring) (names : list jstring) : M doc_state obj :=
  foldM (createVariable variableDescriptions apiToolID) names [].

(** The shape shared by a query parameter (lines 388-396) and a header
    (lines 405-413): [{ id, key, value: [{ text: parts }] }]. *)
Definition keyValue (id key : jstring) (parts : list value) : value :=
  VObj [(js "id", VStr id);
        (js "key", VStr key);
        (js "value", VArr [text_of parts])].

(** Lines 372-397, the body of the loop over [queryParamPairs]. *)
Definition buildQueryParameter (variableIDs : obj)
    (queryParameters : list value) (qp : jstring * jstring)
  : M doc_state (list value) :=
  if non_empty (fst qp) then
    valueParts <- of_option (tokenize variableIDs (snd qp)) ;;
    id <- lift generateMongoId ;;
    ret (queryParameters ++ [keyValue id (fst qp) (map stored valueParts)])
  else ret queryParameters.

(** Lines 369-398. *)
Definition buildQueryParameters (variableIDs : obj)
    (pairs : list (jstring * jstring)) : M doc_state (list value) :=
  foldM (buildQueryParameter variableIDs) pairs [].

(** Lines 403-404: [const [key, ...rest] = h.split(':')], then
    [key.trim()] and [rest.join(':').trim()]. *)
Definition header_key (h : jstring) : jstring :=
  trim (hd [] (split_on ":" h)).
Definition header_value (h : jstring) : jstring :=
  trim (JsString.join (js ":") (tl (split_on ":" h))).

(** Lines 399-415: header values are kept as one literal. *)
Definition buildHeaders (headersInput : jstring)
  : M doc_state (list value) :=
  if not_blank headersInput then
    mapM (fun h =>
            id <- lift generateMongoId ;;
            ret (keyValue id (header_key h) [VStr (header_value h)]))
         (split_on "," headersInput)
  else ret [].

(** Lines 441-445. *)
Definition rawInputBody (bodyParts : list value) : value :=
  VObj [(js "type", VStr (js "raw-input"));
        (js "content", VArr bodyParts);
        (js "contentType", VStr (js "json"))].

(** The filter of lines 435-440:
    [typeof part !== 'object' || part.variableID || typeof part === 'string']. *)
Definition kept (p : part) : bool :=
  match p with
  | Literal _ => true
  | Reference r => holds r
  end.

(** Lines 416-446. *)
Definition buildBody (variableIDs : obj) (bodyTemplate : jstring)
  : M doc_state value :=
  if not_blank bodyTemplate then
    bodyParts <- of_option (tokenize variableIDs bodyTemplate) ;;
    let bodyParts := filter kept bodyParts in
    ret (rawInputBody (map stored bodyParts))
  else ret VNull.

(** The object pushed on [data.apiTools], lines 448-463. *)
Definition apiTool (a : answers) (apiToolID : jstring)
    (urlParts : list value) (createdAt updatedAt : jstring)
    (queryParameters : list value) (creatorID body : value)
    (headers : list value) : value :=
  VObj [(js "id", VStr apiToolID);
        (js "name", VStr (name a));
        (js "description", VStr (description a));
        (js "url", VArr [text_of urlParts]);
        (js "httpMethod", VStr (method_text (httpMethod a)));
        (js "createdAt", VStr createdAt);
        (js "updatedAt", VStr updatedAt);
        (js "queryParameters", VArr queryParameters);
        (js "createdByID", creatorID);
        (js "updatedByID", creatorID);
        (js "folderID", VNull);
        (js "body", body);
        (js "image", VNull);
        (js "headers", VArr headers)].

(** The object pushed on [data.agentAPITools], lines 466-474. *)
Definition agentAPITool (a : answers) (linkID apiToolID createdAt : jstring)
  : value :=
  VObj [(js "id", VStr linkID);
        (js "agentID", selectedAgentId a);
        (js "apiToolID", VStr apiToolID);
        (js "createdAt", VStr createdAt);
        (js "description", VNull);
        (js "inputVariables", VObj []);
        (js "captureResponse", VNull)].

(** How the mutation passed to [withAutoVersioning] ends: with
    [saveVfFile], or with the early [return] of the duplicate check
    ([An API tool with this name or URL already exists. Aborting.]). *)
Inductive completion := Saved | DuplicateTool.

(** Lines 321-322: [data.version && data.version.creatorID ?
    data.version.creatorID : null]. *)
Definition creatorID_of (data : obj) : value :=
  if truthy (own data (js "version"))
     && truthy (get (own data (js "version")) "creatorID")
  then get (own data (js "version")) "creatorID" else VNull.

(** Lines 314-477, on the document loaded by [loadVfFile]. *)
Definition addApiTool_mutation (a : answers) (names : list jstring)
  : M doc_state completion :=
  ensure_array "apiToolInputVariables" ;;;
  ensure_array "apiTools" ;;;
  data <- read_doc ;;
  let creatorID := creatorID_of data in
  apiToolID <- lift generateMongoId ;;
  urlStripped <- of_option (replace_all (url a) (js "{var}")) ;;
  duplicate <-
    match own data (js "apiTools") with
    | VArr tools => findM (is_duplicate (name a) urlStripped) tools
    | _ => throw TypeError
    end ;;
  if match duplicate with Some t => truthy t | None => false end
  then ret DuplicateTool
  else
    variableIDs <-
      createVariables (variableDescriptions a names) apiToolID names ;;
    urlParts <- of_option (tokenize variableIDs (url a)) ;;
    queryParameters <- buildQueryParameters variableIDs (queryParamPairs a) ;;
    headers <- buildHeaders (headersInput a) ;;
    body <- buildBody variableIDs (bodyTemplate a) ;;
    createdAt <- lift now ;;
    updatedAt <- lift now ;;
    push "apiTools"
      (apiTool a apiToolID (map stored urlParts) createdAt updatedAt
         queryParameters creatorID body headers) ;;;
    ensure_array "agentAPITools" ;;;
    linkID <- lift generateMongoId ;;
    linkCreatedAt <- lift now ;;
    push "agentAPITools" (agentAPITool a linkID apiToolID linkCreatedAt) ;;;
    ret Saved.

(** What the operation leaves in the file: the document saved by
    [saveVfFile] when the mutation ran to its end, the file as it was
    after the early [return] or an exception. *)
Inductive outcome :=
| Written (data : obj) (w : world)
| Rejected (w : world)
| Failed (e : error) (w : world).

Definition file_after (file : obj) (o : outcome) : obj :=
  match o with
  | Written data _ => data
  | Rejected _ | Failed _ _ => file
  end.

(** Lines 266-477: the names are collected, the descriptions asked, and
    the mutation run on the freshly loaded file. *)
Definition addApiTool (a : answers) (file : obj) (w : world) : outcome :=
  match allVarNames a with
  | None => Failed OutOfFuel w
  | Some names =>
      match addApiTool_mutation a names (file, w) with
      | Ok Saved (data, w') => Written data w'
      | Ok DuplicateTool (_, w') => Rejected w'
      | Throw e (_, w') => Failed e w'
      end
  end.

End World.

Arguments mongo_at : simpl never.

(* ================================================================== *)
(** * The generator path: [addApiToolFromJson] *)
(* ================================================================== *)

Module BraceCleanup.

(** The lazy [(.*?)\}\}] of [/\{\{(.*?)\}\}/]: the shortest run of
    characters other than line terminators that is followed by two closing
    braces, and what follows those. *)
Fixpoint find_close (l : jstring) : option (jstring * jstring) :=
  match l with
  | [] => None
  | c :: l' =>
      if is_close c && match l' with c' :: _ => is_close c' | [] => false end
      then Some ([], tl l')
      else if is_line_terminator c then None
      else match find_close l' with
           | Some (content, rest) => Some (c :: content, rest)
           | None => None
           end
  end.

(** [s.replace(/\{\{(.*?)\}\}/g, '{$1}')]; [skip] characters of the match
    found last are still to be passed over. *)
Fixpoint debrace_from (l : jstring) (skip : nat) : jstring :=
  match l with
  | [] => []
  | c :: l' =>
      match skip with
      | S k => debrace_from l' k
      | 0 =>
          match l' with
          | c' :: l'' =>
              if is_open c && is_open c' then
                match find_close l'' with
                | Some (content, _) =>
                    js "{" ++ content ++ js "}"
                       ++ debrace_from l' (length content + 3)
                | None => c :: debrace_from l' 0
                end
              else c :: debrace_from l' 0
          | [] => [c]
          end
      end
  end.

Definition debrace (s : jstring) : jstring := debrace_from s 0.

End BraceCleanup.
Import BraceCleanup.

Module Generator.

(** An element of the [referencedVars] set.  [Set] compares primitives by
    value and objects by reference: a name that is an array or an object is
    in the set only as the very node [found.name] of the declared variable
    it was read from, which [ByRef] records by that variable's position. *)
Inductive ref_elem :=
| ByValue (v : value)
| ByRef (i : nat).

Definition ref_eqb (a b : ref_elem) : bool :=
  match a, b with
  | ByValue x, ByValue y => strict_eq x y
  | ByRef i, ByRef j => Nat.eqb i j
  | _, _ => false
  end.

Definition refs_add (e : ref_elem) (s : list ref_elem) : list ref_elem :=
  if existsb (ref_eqb e) s then s else s ++ [e].

Definition is_primitive (v : value) : bool :=
  match v with VArr _ | VObj _ => false | _ => true end.

(** [referencedVars.add(declared[i].name)]. *)
Definition refs_add_name (i : nat) (nm : value) (s : list ref_elem)
  : list ref_elem :=
  refs_add (if is_primitive nm then ByValue nm else ByRef i) s.

(** [referencedVars.has(declared[i].name)]. *)
Definition refs_has (s : list ref_elem) (i : nat) (nm : value) : bool :=
  existsb (ref_eqb (if is_primitive nm then ByValue nm else ByRef i)) s.

(** [l.find((v) => v.id === id)], with the position of what was found. *)
Fixpoint find_by_id {St} (id : value) (l : list value) (i : nat)
  : M St (option (nat * value)) :=
  match l with
  | [] => ret None
  | v :: l' =>
      match v with
      | VUndef | VNull => throw TypeError
      | _ => if strict_eq (get v "id") id then ret (Some (i, v))
             else find_by_id id l' (S i)
      end
  end.

(** The body of the loops of lines 123-141 and 177-193 over the parts of a
    URL text or of a body content. *)
Definition scan_part {St} (aiJson : value) (refs : list ref_elem)
    (part : value) : M St (list ref_elem) :=
  match part with
  | VNull => throw TypeError
  | VStr s =>
      ms <- of_option (matchAll s) ;;
      ret (fold_left (fun acc m => refs_add (ByValue (VStr (group1 m))) acc)
             ms refs)
  | _ =>
      if is_object part && truthy (get part "variableID")
         && truthy (get aiJson "apiToolInputVariables")
      then
        match get aiJson "apiToolInputVariables" with
        | VArr declared =>
            found <- find_by_id (get part "variableID") declared 0 ;;
            match found with
            | Some (i, v) =>
                if truthy (get v "name")
                then ret (refs_add_name i (get v "name") refs)
                else ret refs
            | None => ret refs
            end
        | _ => throw TypeError
        end
      else ret refs
  end.

(** [toolObj.url && Array.isArray(toolObj.url) && toolObj.url[0] &&
    toolObj.url[0].text]. *)
Definition has_url_text (toolObj : value) : bool :=
  truthy (get toolObj "url") && isArray (get toolObj "url")
  && truthy (idx (get toolObj "url") 0)
  && truthy (get (idx (get toolObj "url") 0) "text").

Definition url_text (toolObj : value) : value :=
  get (idx (get toolObj "url") 0) "text".

(** Lines 144-156.  A text that is a string passes the [for ... of] of
    lines 123-141 one character at a time, none of which holds a
    placeholder, and has no [map]. *)
Definition literal_url {St} (toolObj : value) : M St jstring :=
  if has_url_text toolObj then
    match url_text toolObj with
    | VArr parts =>
        ret (concat (map (fun t => match t with VStr s => s | _ => [] end)
                       parts))
    | _ => throw TypeError
    end
  else match get toolObj "url" with
       | VStr s => ret s
       | _ => ret []
       end.

(** [queryString.split('&').map((s) => s.trim()).filter(Boolean)], each
    then split on [=]: the key, and the value when there is one. *)
Definition query_pairs (queryString : jstring)
  : list (jstring * option jstring) :=
  map (fun pair =>
         let parts := split_on "=" pair in
         (hd [] parts, nth_error parts 1))
      (filter non_empty (map trim (split_on "&" queryString))).

(** [value && value.match(/^\{+([a-zA-Z0-9_]+)\}+$/)]. *)
Definition var_match (qvalue : option jstring) : option jstring :=
  match qvalue with
  | Some v => if non_empty v then match_whole v else None
  | None => None
  end.

(** Lines 114-194. *)
Definition findReferencedVars {St} (aiJson toolObj : value)
  : M St (list ref_elem * jstring) :=
  refs <-
    (if has_url_text toolObj then
       match url_text toolObj with
       | VArr parts => foldM (scan_part aiJson) parts []
       | VStr _ => ret []
       | _ => throw TypeError
       end
     else ret []) ;;
  urlStr <- literal_url toolObj ;;
  let refs :=
    match index_of "?" urlStr with
    | Some queryIndex =>
        fold_left
          (fun acc kv =>
             if non_empty (fst kv) then
               match var_match (snd kv) with
               | Some n => refs_add (ByValue (VStr n)) acc
               | None => acc
               end
             else acc)
          (query_pairs (slice_from urlStr (S queryIndex))) refs
    | None => refs
    end in
  refs <-
    (let content := get (get toolObj "body") "content" in
     if truthy (get toolObj "body") && truthy content && isArray content
     then match content with
          | VArr parts => foldM (scan_part aiJson) parts refs
          | _ => ret refs
          end
     else ret refs) ;;
  ret (refs, urlStr).

(** [variables.filter((v) => referencedVars.has(v.name))], the position
    counted from [i]. *)
Fixpoint filter_referenced {St} (refs : list ref_elem) (l : list value)
    (i : nat) : M St (list value) :=
  match l with
  | [] => ret []
  | v :: l' =>
      match v with
      | VUndef | VNull => throw TypeError
      | _ =>
          rest <- filter_referenced refs l' (S i) ;;
          ret (if refs_has refs i (get v "name") then v :: rest else rest)
      end
  end.

(** Line 197: what the payload declares. *)
Definition declared_variables (aiJson : value) : value :=
  or_else (get aiJson "apiToolInputVariables")
    (or_else (get aiJson "variables") (VArr [])).

End Generator.
Import Generator.

Section GeneratorPath.

Variable random16 : nat -> nat.
Variable clock : nat -> jstring.

Abbreviation generateMongoId := (generateMongoId random16).
Abbreviation now := (now clock).

(** Lines 200-212: a new identifier for every surviving variable. *)
Definition newVariable (newToolId : jstring) (idx : nat) (v : value)
  : M world value :=
  newId <- generateMongoId ;;
  createdAt <- now ;;
  ret (VObj [(js "id", VStr newId);
             (js "name",
               or_else (get v "name")
                 (VStr (js "var" ++ nat_to_jstring (idx + 1))));
             (js "apiToolID", VStr newToolId);
             (js "description", or_else (get v "description") (VStr []));
             (js "createdAt", VStr createdAt)]).

(** Lines 213-215: [Object.fromEntries(newVariables.map((v) => [v.name,
    v.id]))]; a later entry of the same key replaces the earlier one, and
    every entry is an own property, [__proto__] too. *)
Definition varNameToId_of (newVariables : list value) : obj :=
  fold_left
    (fun (o : obj) v => obj_set (to_string (get v "name")) (get v "id") o)
    newVariables [].

(** [Object.fromEntries] converts each name to a property key, and throws
    where that conversion does. *)
Definition fromEntries {St} (newVariables : list value) : M St obj :=
  foldM (fun (o : obj) v =>
           k <- ToString (get v "name") ;; ret (obj_set k (get v "id") o))
    newVariables [].

(** The three shapes of a query parameter's value. *)
Definition reference_value (variableID : value) : value :=
  VArr [text_of [VStr []; var_ref variableID; VStr (js " ")]].
Definition literal_value (v : value) : value := VArr [text_of [v]].

Definition queryParameter (id : jstring) (key v : value) : value :=
  VObj [(js "id", VStr id); (js "key", key); (js "value", v)].

(** Lines 225-254, the body of the loop over the pairs of the URL's query
    string. *)
Definition parsePair (varNameToId : obj) (queryParameters : list value)
    (kv : jstring * option jstring) : M world (list value) :=
  let '(key, qvalue) := kv in
  if negb (non_empty key) then ret queryParameters
  else
    match var_match qvalue with
    | Some variableName =>
        let variableID := read varNameToId variableName in
        id <- generateMongoId ;;
        if holds variableID
        then ret (queryParameters ++
                    [queryParameter id (VStr key)
                       (reference_value (written variableID))])
        else ret (queryParameters ++
                    [queryParameter id (VStr key)
                       (literal_value
                          (match qvalue with Some v => VStr v | None => VUndef end))])
    | None =>
        match qvalue with
        | Some v =>
            if non_empty v then
              id <- generateMongoId ;;
              ret (queryParameters ++
                     [queryParameter id (VStr key) (literal_value (VStr v))])
            else ret queryParameters
        | None => ret queryParameters
        end
    end.

Definition parseUrlQuery (varNameToId : obj) (queryString : jstring)
  : M world (list value) :=
  foldM (parsePair varNameToId) (query_pairs queryString) [].

(** [text[0] = v] on an array. *)
Definition set_first (v : value) (l : list value) : list value :=
  match l with
  | [] => [v]
  | _ :: l' => v :: l'
  end.

(** [toolObj.url[0].text[0] = urlStr], under [has_url_text]. *)
Definition set_url_first (toolObj : value) (urlStr : value) : value :=
  match toolObj with
  | VObj fields =>
      match own fields (js "url") with
      | VArr (VObj u0 :: rest) =>
          let text :=
            match own u0 (js "text") with
            | VArr parts => VArr (set_first urlStr parts)
            | VObj o => VObj (obj_set (js "0") urlStr o)
            | other => other
            end in
          VObj (obj_set (js "url")
                  (VArr (VObj (obj_set (js "text") text u0) :: rest)) fields)
      | _ => toolObj
      end
  | _ => toolObj
  end.

(** [toolObj.k = v] in strict mode.  An array takes the property beside
    its elements; it is read again only by [Object.entries] in the
    projection of lines 337-339, which drops the elements, listed under
    their indices, as fields that are not allowed: only the properties set
    here are kept. *)
Definition set_prop {St} (toolObj : value) (k : string) (v : value)
  : M St obj :=
  match toolObj with
  | VObj fields => ret (obj_set (js k) v fields)
  | VArr _ => ret [(js k, v)]
  | _ => throw TypeError
  end.

(** Lines 273-317, the callback of the fallback [map]. *)
Definition normalizeQueryParameter (varNameToId : obj) (idx : nat)
    (qp : value) : M world value :=
  match qp with
  | VUndef | VNull => throw TypeError
  | _ =>
      let key :=
        or_else (get qp "key")
          (or_else (get qp "name")
             (VStr (js "param" ++ nat_to_jstring (idx + 1)))) in
      let variableName :=
        or_else (get qp "name") (or_else (get qp "key") key) in
      variableKey <- ToString variableName ;;
      let variableID := read varNameToId variableKey in
      let qvalue := get qp "value" in
      if truthy qvalue && is_string qvalue then
        id <- generateMongoId ;;
        ret (queryParameter id key (literal_value qvalue))
      else
        hardcoded <-
          match qvalue with
          | VArr [v0] =>
              match v0 with
              | VUndef | VNull => throw TypeError
              | _ =>
                  let text := get v0 "text" in
                  if truthy text && is_string (Js.idx text 0) then
                    match text with
                    | VArr parts =>
                        r <- findM
                               (fun t =>
                                  match t with
                                  | VNull => throw TypeError
                                  | _ => ret (is_object t
                                              && truthy (get t "variableID"))
                                  end) parts ;;
                        ret (match r with
                             | Some _ => None
                             | None => Some (Js.idx text 0)
                             end)
                    | _ => throw TypeError
                    end
                  else ret None
              end
          | _ => ret None
          end ;;
        id <- generateMongoId ;;
        match hardcoded with
        | Some t0 => ret (queryParameter id key (literal_value t0))
        | None =>
            if holds variableID
            then ret (queryParameter id key
                        (reference_value (written variableID)))
            else ret (queryParameter id key (literal_value (VStr [])))
        end
  end.

(** Lines 321-336. *)
Definition allowedFields : list jstring :=
  map js ["id"; "name"; "description"; "url"; "httpMethod"; "createdByID";
          "folderID"; "createdAt"; "updatedAt"; "updatedByID"; "body";
          "image"; "headers"; "queryParameters"]%string.

(** Lines 337-339. *)
Definition project (toolObj : obj) : obj :=
  filter (fun kv => existsb (str_eqb (fst kv)) allowedFields) toolObj.

(** [if (!toolObj.k) toolObj.k = v]. *)
Definition default_to (k : string) (v : value) (toolObj : obj) : obj :=
  if truthy (own toolObj (js k)) then toolObj else obj_set (js k) v toolObj.

(** Lines 342-347: the fields the generator is not trusted with. *)
Definition stampTool (newToolId createdAt updatedAt : jstring)
    (toolObj : obj) : obj :=
  let t := obj_set (js "id") (VStr newToolId) toolObj in
  let t := obj_set (js "createdByID") (VNum 3600) t in
  let t := obj_set (js "folderID") VNull t in
  let t := obj_set (js "createdAt") (VStr createdAt) t in
  let t := obj_set (js "updatedAt") (VStr updatedAt) t in
  obj_set (js "updatedByID") (own t (js "createdByID")) t.

(** Lines 348-355.  [method] is not an allowed field, so the projected
    object has none when line 353 reads it. *)
Definition defaultFields (toolObj : obj) : obj :=
  let t := default_to "body" VNull toolObj in
  let t := default_to "image" VNull t in
  let t := default_to "headers" (VArr []) t in
  let t := default_to "queryParameters" (VArr []) t in
  let t := default_to "url" (VArr [text_of [VStr []]]) t in
  let t :=
    if negb (truthy (own t (js "httpMethod"))) && truthy (own t (js "method"))
    then obj_set (js "httpMethod") (own t (js "method")) t else t in
  let t := default_to "httpMethod" (VStr (js "get")) t in
  default_to "description" (VStr []) t.

(** Lines 356-358: a URL given as a string, or as an array of strings,
    becomes one text. *)
Definition coerceUrl (toolObj : obj) : obj :=
  let t :=
    if is_string (own toolObj (js "url"))
    then obj_set (js "url") (VArr [text_of [own toolObj (js "url")]]) toolObj
    else toolObj in
  if isArray (own t (js "url")) && is_string (idx (own t (js "url")) 0)
  then obj_set (js "url") (VArr [VObj [(js "text", own t (js "url"))]]) t
  else t.

(** Lines 341-358. *)
Definition applyDefaults (newToolId createdAt updatedAt : jstring)
    (toolObj : obj) : obj :=
  coerceUrl (defaultFields (stampTool newToolId createdAt updatedAt toolObj)).

(** Line 107: [aiJson.apiTool || aiJson.tool || aiJson]. *)
Definition unwrap (aiJson : value) : value :=
  or_else (get aiJson "apiTool") (or_else (get aiJson "tool") aiJson).

(** Lines 196-198. *)
Definition survivors {St} (aiJson : value) (refs : list ref_elem)
  : M St (list value) :=
  match declared_variables aiJson with
  | VArr l => filter_referenced refs l 0
  | _ => throw TypeError
  end.

(** Lines 217-266: the parameters read off the URL's query string, and
    [toolObj] with the query string cut off its first URL segment. *)
Definition extractQuery (varNameToId : obj) (urlStr : jstring)
    (toolObj : value) : M world (list value * value) :=
  match index_of "?" urlStr with
  | Some queryIndex =>
      queryParameters <-
        parseUrlQuery varNameToId (slice_from urlStr (S queryIndex)) ;;
      let urlStr := slice urlStr 0 queryIndex in
      ret (queryParameters,
           if has_url_text toolObj
           then set_url_first toolObj (VStr urlStr) else toolObj)
  | None => ret ([], toolObj)
  end.

(** Lines 268-318. *)
Definition setQueryParameters (varNameToId : obj)
    (queryParameters : list value) (toolObj : value) : M world obj :=
  if 0 <? length queryParameters
  then set_prop toolObj "queryParameters" (VArr queryParameters)
  else
    normalized <-
      match or_else (get toolObj "queryParameters") (VArr []) with
      | VArr qps => mapiM (normalizeQueryParameter varNameToId) 0 qps
      | _ => throw TypeError
      end ;;
    set_prop toolObj "queryParameters" (VArr normalized).

(** Lines 105-358: the surviving variables under their new identifiers
    and the tool as it will be pushed. *)
Definition normalizeTool (aiJson : value) : M world (list value * obj) :=
  let toolObj := unwrap aiJson in
  found <- findReferencedVars aiJson toolObj ;;
  variables <- survivors aiJson (fst found) ;;
  newToolId <- generateMongoId ;;
  newVariables <- mapiM (newVariable newToolId) 0 variables ;;
  varNameToId <- fromEntries newVariables ;;
  extracted <- extractQuery varNameToId (snd found) toolObj ;;
  toolObj <- setQueryParameters varNameToId (fst extracted) (snd extracted) ;;
  let toolObj := project toolObj in
  createdAt <- now ;;
  updatedAt <- now ;;
  ret (newVariables, applyDefaults newToolId createdAt updatedAt toolObj).

(** [n > 0] for what a [length] property holds. *)
Definition gt_zero {St} (v : value) : M St bool :=
  match v with
  | VNum n => ret (0 <? n)%Z
  | VBool b => ret b
  | VUndef | VNull => ret false
  | VStr _ | VArr _ | VObj _ => throw Unmodelled
  end.

(** Lines 386-402: the new value of [toolObj.url], when the clean-up
    applies. *)
Definition cleanupUrl {St} (toolObj : obj) : M St (option value) :=
  match own toolObj (js "url") with
  | VArr (u0 :: rest) =>
      match u0 with
      | VUndef | VNull => throw TypeError
      | _ =>
          let text := get u0 "text" in
          if is_object text then
            match text with
            | VNull => throw TypeError
            | _ =>
                nonempty <- gt_zero (get text "length") ;;
                if nonempty then
                  hasParams <-
                    (let qps := own toolObj (js "queryParameters") in
                     if truthy qps then gt_zero (get qps "length")
                     else ret false) ;;
                  match idx text 0 with
                  | VStr urlStr =>
                      let urlStr :=
                        if hasParams then hd [] (split_on "?" urlStr)
                        else urlStr in
                      ret (Some (own (match set_url_first (VObj toolObj)
                                              (VStr (debrace urlStr)) with
                                      | VObj t => t
                                      | _ => toolObj
                                      end) (js "url")))
                  | _ => throw TypeError
                  end
                else ret None
            end
          else ret None
      end
  | _ => ret None
  end.

(** [{ ...toolObj }] is a shallow copy: the tool pushed on
    [vfData.apiTools] and [toolObj] hold the same [url] array, so the write
    of line 401 shows in the document. *)
Definition set_last_tool_url (url : value) : M doc_state unit :=
  vfData <- read_doc ;;
  match own vfData (js "apiTools") with
  | VArr tools =>
      match rev tools with
      | VObj t :: before =>
          write_field "apiTools"
            (VArr (rev before ++ [VObj (obj_set (js "url") url t)]))
      | _ => throw TypeError
      end
  | _ => throw TypeError
  end.

(** The object pushed on [vfData.agentAPITools], lines 375-383. *)
Definition agentLink (id : jstring) (agentID apiToolID : value)
    (createdAt : jstring) : value :=
  VObj [(js "id", VStr id);
        (js "agentID", agentID);
        (js "apiToolID", apiToolID);
        (js "description", VNull);
        (js "inputVariables", VObj []);
        (js "captureResponse", VNull);
        (js "createdAt", VStr createdAt)].

(** Lines 364-384. *)
Definition linkToFirstAgent (apiToolID : value) : M doc_state unit :=
  ensure_array "agentAPITools" ;;;
  vfData <- read_doc ;;
  agentID <-
    match own vfData (js "agents") with
    | VArr (a0 :: _) =>
        match a0 with
        | VUndef | VNull => throw TypeError
        | _ => ret (get a0 "id")
        end
    | _ => ret VNull
    end ;;
  if truthy agentID then
    id <- lift generateMongoId ;;
    createdAt <- lift now ;;
    push "agentAPITools" (agentLink id agentID apiToolID createdAt)
  else ret tt.

(** [addApiToolFromJson(aiJson, vfData)] of [api-tool-templates.js]. *)
Definition addApiToolFromJson (aiJson : value) : M doc_state unit :=
  if negb (truthy aiJson) || negb (is_object aiJson)
  then throw InvalidGeneratorOutput
  else
    ensure_array "apiToolInputVariables" ;;;
    ensure_array "apiTools" ;;;
    '(newVariables, toolObj) <- lift (normalizeTool aiJson) ;;
    push_all "apiToolInputVariables" newVariables ;;;
    push "apiTools" (VObj toolObj) ;;;
    linkToFirstAgent (own toolObj (js "id")) ;;;
    cleaned <- cleanupUrl toolObj ;;
    match cleaned with
    | Some url => set_last_tool_url url
    | None => ret tt
    end.

(* ================================================================== *)
(** * The generator's answer: [normalizeLLMApiToolJson] *)
(* ================================================================== *)

(** [delete o.k]. *)
Definition obj_delete (k : jstring) (o : obj) : obj :=
  filter (fun kv => negb (str_eqb (fst kv) k)) o.

(** [normalizeLLMApiToolJson(raw)] of [anthropic.js], for a flat answer.
    Every write is guarded by a read that only a plain object answers. *)
Definition normalizeLLMApiToolJson (raw : value) : M world value :=
  match raw with
  | VObj o =>
      let o :=
        if is_string (own o (js "url"))
        then obj_set (js "url") (VArr [text_of [own o (js "url")]]) o
        else o in
      o <-
        (if truthy (own o (js "method"))
            && negb (truthy (own o (js "httpMethod")))
         then match own o (js "method") with
              | VStr m =>
                  ret (obj_delete (js "method")
                         (obj_set (js "httpMethod") (VStr (toLowerCase m)) o))
              | _ => throw TypeError
              end
         else ret o) ;;
      o <-
        (match own o (js "queryParameters") with
         | VArr qps =>
             if is_string (idx (VArr qps) 0) then
               qps' <- mapM (fun key =>
                               id <- generateMongoId ;;
                               variableID <- generateMongoId ;;
                               ret (queryParameter id key
                                      (reference_value (VStr variableID))))
                            qps ;;
               ret (obj_set (js "queryParameters") (VArr qps') o)
             else ret o
         | _ => ret o
         end) ;;
      match own o (js "variables") with
      | VArr vs =>
          apiToolInputVariables <-
            mapM (fun v =>
                    id <- generateMongoId ;;
                    match v with
                    | VUndef | VNull => throw TypeError
                    | _ =>
                        apiToolID <-
                          (if truthy (own o (js "id")) then ret (own o (js "id"))
                           else i <- generateMongoId ;; ret (VStr i)) ;;
                        createdAt <- now ;;
                        ret (VObj [(js "id", VStr id);
                                   (js "name", get v "name");
                                   (js "apiToolID", apiToolID);
                                   (js "description",
                                     or_else (get v "description") (VStr []));
                                   (js "createdAt", VStr createdAt)])
                    end) vs ;;
          ret (VObj [(js "apiTool", VObj (obj_delete (js "variables") o));
                     (js "apiToolInputVariables", VArr apiToolInputVariables)])
      | _ =>
          ret (VObj [(js "apiTool", VObj o);
                     (js "apiToolInputVariables", VArr [])])
      end
  | _ =>
      ret (VObj [(js "apiTool", raw); (js "apiToolInputVariables", VArr [])])
  end.

(** Lines 122-131 of [anthropic.js]: what [askAnthropic] hands over for
    the JSON [extracted] from the answer. *)
Definition askAnthropic_result (extracted : value) : M world value :=
  match extracted with
  | VUndef | VNull => throw TypeError
  | _ =>
      if negb (truthy (get extracted "apiTool"))
         && negb (truthy (get extracted "apiToolInputVariables"))
         && negb (truthy (get extracted "agentAPITool"))
      then normalizeLLMApiToolJson extracted
      else ret extracted
  end.

(** [aiAddApiTool]: the file is written only when [addApiToolFromJson]
    returned. *)
Definition aiAddApiTool (extracted : value) (file : obj) (w : world)
  : outcome :=
  match askAnthropic_result extracted w with
  | Throw e w' => Failed e w'
  | Ok aiJson w' =>
      match addApiToolFromJson aiJson (file, w') with
      | Ok _ (vfData, w'') => Written vfData w''
      | Throw e (_, w'') => Failed e w''
      end
  end.

End GeneratorPath.

(* ================================================================== *)
(** * Files and versions: [versioning.js] and the file helpers of the CLI *)
(* ================================================================== *)

Module Files.

(** A file is named by the directory that holds it and by its name there:
    [path.join(dir, f)], for a file name [f], is the pair of both.  A
    directory holds files only, and the directories do not nest. *)
Record path := { dir : jstring; entry : jstring }.

Definition path_eqb (p q : path) : bool :=
  str_eqb (dir p) (dir q) && str_eqb (entry p) (entry q).

Fixpoint assoc {A} (k : jstring) (l : list (jstring * A)) : option A :=
  match l with
  | [] => None
  | (k', v) :: l' => if str_eqb k' k then Some v else assoc k l'
  end.

Fixpoint assoc_set {A} (k : jstring) (v : A) (l : list (jstring * A))
  : list (jstring * A) :=
  match l with
  | [] => [(k, v)]
  | (k', v') :: l' =>
      if str_eqb k' k then (k', v) :: l' else (k', v') :: assoc_set k v l'
  end.

(** [s.startsWith(prefix)] and [s.endsWith(suffix)]. *)
Definition startsWith (s prefix : jstring) : bool :=
  str_eqb (firstn (length prefix) s) prefix.

Definition endsWith (s suffix : jstring) : bool :=
  (length suffix <=? length s)
  && str_eqb (skipn (length s - length suffix) s) suffix.

(** [a < b] on strings: the order of the code units, which
    [Array.prototype.sort] uses when it is given no comparator. *)
Fixpoint lex_ltb (a b : jstring) : bool :=
  match a, b with
  | _, [] => false
  | [], _ :: _ => true
  | x :: a', y :: b' =>
      (nat_of_ascii x <? nat_of_ascii y)
      || ((nat_of_ascii x =? nat_of_ascii y) && lex_ltb a' b')
  end.

Definition lex_leb (a b : jstring) : bool := negb (lex_ltb b a).

Section Contents.

(** What a file holds. *)
Variable content : Type.

Definition directory := list (jstring * content).
Definition fsys := list (jstring * directory).

(** [fs.existsSync(d)] for a directory. *)
Definition dir_exists (d : jstring) (fs : fsys) : bool :=
  match assoc d fs with Some _ => true | None => false end.

(** [fs.readFileSync(p)]; [None] stands for the error [ENOENT]. *)
Definition readFile (p : path) (fs : fsys) : option content :=
  match assoc (dir p) fs with
  | Some files => assoc (entry p) files
  | None => None
  end.

(** [fs.existsSync(p)] for a file. *)
Definition existsSync (p : path) (fs : fsys) : bool :=
  match readFile p fs with Some _ => true | None => false end.

(** [fs.writeFileSync(p, c)]; [None] stands for [ENOENT], raised when the
    directory does not exist. *)
Definition writeFile (p : path) (c : content) (fs : fsys) : option fsys :=
  match assoc (dir p) fs with
  | Some files => Some (assoc_set (dir p) (assoc_set (entry p) c files) fs)
  | None => None
  end.

(** [fs.copyFileSync(src, dst)]. *)
Definition copyFile (src dst : path) (fs : fsys) : option fsys :=
  match readFile src fs with
  | Some c => writeFile dst c fs
  | None => None
  end.

(** [fs.readdirSync(d)]. *)
Definition readdir (d : jstring) (fs : fsys) : option (list jstring) :=
  match assoc d fs with
  | Some files => Some (map fst files)
  | None => None
  end.

(** [fs.mkdirSync(d)] where [d] does not exist. *)
Definition mkdir (d : jstring) (fs : fsys) : fsys := fs ++ [(d, [])].

End Contents.

Arguments dir_exists {content}.
Arguments readFile {content}.
Arguments existsSync {content}.
Arguments writeFile {content}.
Arguments copyFile {content}.
Arguments readdir {content}.
Arguments mkdir {content}.

(** [paths.sort()] on files of one directory, whose paths are in the order
    of their names: each path is put before the first one that is
    greater. *)
Fixpoint insert_path (p : path) (l : list path) : list path :=
  match l with
  | [] => [p]
  | q :: l' =>
      if lex_ltb (entry p) (entry q) then p :: l else q :: insert_path p l'
  end.

Definition sort_paths (l : list path) : list path :=
  fold_left (fun acc p => insert_path p acc) l [].

End Files.
Import Files.

Module Versioning.

Section Versioning.

Variable clock : nat -> jstring.

(** What a file holds. *)
Variable content : Type.

(** [path.basename(p, '.vf')] of Node's [path] module. *)
Variable basename_vf : path -> jstring.

(** [VERSIONS_DIR] of [versioning.js], and the directory
    [path.join(__dirname, '..', 'versions')] that the CLI reads. *)
Variable VERSIONS_DIR : jstring.
Variable versions_dir : jstring.

(** What a file operation throws: the [ENOENT] of [fs], and
    [Error('Version file does not exist: ' + versionFileName)]. *)
Inductive fs_error := ENOENT | NoSuchVersion (versionFileName : jstring).

Inductive failure := JsError (e : error) | FsError (e : fs_error).

(** How a command step ends, with the files and the world it leaves. *)
Inductive run (A : Type) :=
| Returned (a : A) (fs : fsys content) (w : world)
| Threw (e : failure) (fs : fsys content) (w : world).
Arguments Returned {A}.
Arguments Threw {A}.

(** Lines 10-13 of [versioning.js], run when the module is loaded. *)
Definition ensureVersionsDir (fs : fsys content) : fsys content :=
  if dir_exists VERSIONS_DIR fs then fs else mkdir VERSIONS_DIR fs.

(** The characters of [/[-:.TZ]/]. *)
Definition is_stamp_sign (c : ascii) : bool :=
  existsb (Ascii.eqb c) (js "-:.TZ").

(** Lines 21-24: [iso.replace(/[-:.TZ]/g, '').slice(0, 14)]. *)
Definition timestamp (iso : jstring) : jstring :=
  slice (filter (fun c => negb (is_stamp_sign c)) iso) 0 14.

(** Lines 25-26: [`${baseName}_v${timestamp}.vf`]. *)
Definition versionName (currentFilePath : path) (iso : jstring) : jstring :=
  basename_vf currentFilePath ++ js "_v" ++ timestamp iso ++ js ".vf".

(** [path.join(VERSIONS_DIR, f)]. *)
Definition versionPath (f : jstring) : path :=
  {| dir := VERSIONS_DIR; entry := f |}.

(** [saveNewVersion(currentFilePath)]. *)
Definition saveNewVersion (currentFilePath : path) (fs : fsys content)
    (w : world) : run jstring :=
  match now clock w with
  | Ok iso w' =>
      let newVersionName := versionName currentFilePath iso in
      match copyFile currentFilePath (versionPath newVersionName) fs with
      | Some fs' => Returned newVersionName fs' w'
      | None => Threw (FsError ENOENT) fs w'
      end
  | Throw e w' => Threw (JsError e) fs w'
  end.

(** [listVersions()]. *)
Definition listVersions (fs : fsys content) (w : world)
  : run (list jstring) :=
  match readdir VERSIONS_DIR fs with
  | Some names => Returned (filter (fun f => endsWith f (js ".vf")) names) fs w
  | None => Threw (FsError ENOENT) fs w
  end.

(** [revertToVersion(versionFileName, targetFilePath)]. *)
Definition revertToVersion (versionFileName : jstring)
    (targetFilePath : path) (fs : fsys content) (w : world) : run unit :=
  if negb (existsSync (versionPath versionFileName) fs)
  then Threw (FsError (NoSuchVersion versionFileName)) fs w
  else
    match copyFile (versionPath versionFileName) targetFilePath fs with
    | Some fs' => Returned tt fs' w
    | None => Threw (FsError ENOENT) fs w
    end.

(** [withAutoVersioning(currentFilePath, mutationFn)]. *)
Definition withAutoVersioning {A} (currentFilePath : path)
    (mutationFn : fsys content -> world -> run A)
    (fs : fsys content) (w : world) : run A :=
  match mutationFn fs w with
  | Returned result fs1 w1 =>
      match saveNewVersion currentFilePath fs1 w1 with
      | Returned _ fs2 w2 => Returned result fs2 w2
      | Threw e fs2 w2 => Threw e fs2 w2
      end
  | Threw e fs1 w1 => Threw e fs1 w1
  end.

(** [getVersionedFiles(baseFile)] of the CLI, lines 70-78. *)
Definition getVersionedFiles (baseFile : path) (fs : fsys content)
  : list path :=
  let base := basename_vf baseFile in
  match readdir versions_dir fs with
  | None => []
  | Some names =>
      map (fun f => {| dir := versions_dir; entry := f |})
        (filter (fun f => startsWith f (base ++ js "_v")
                          && endsWith f (js ".vf")) names)
  end.

(** [getLatestVfFile(baseFile)], lines 81-86:
    [versions.sort().slice(-1)[0]]. *)
Definition getLatestVfFile (baseFile : path) (fs : fsys content) : path :=
  match getVersionedFiles baseFile fs with
  | [] => baseFile
  | versions => last (sort_paths versions) baseFile
  end.

(** [ensureVersionedFile(baseFile)], lines 139-146. *)
Definition ensureVersionedFile (baseFile : path) (fs : fsys content)
    (w : world) : run path :=
  let latest := getLatestVfFile baseFile fs in
  if path_eqb latest baseFile then
    match saveNewVersion baseFile fs w with
    | Returned _ fs' w' => Returned (getLatestVfFile baseFile fs') fs' w'
    | Threw e fs' w' => Threw e fs' w'
    end
  else Returned latest fs w.

End Versioning.

Arguments Returned {content A}.
Arguments Threw {content A}.

End Versioning.
Import Versioning.

(* ================================================================== *)
(** * The document helpers: [vf-parser.js] *)
(* ================================================================== *)

Module Keys.

Definition is_digit (c : ascii) : bool := ascii_in 48 57 c.

Definition digit_value (c : ascii) : N := N.of_nat (nat_of_ascii c - 48).

(** The array index that a property key spells: a decimal numeral without
    a leading zero, below [2^32 - 1]. *)
Definition array_index (k : jstring) : option N :=
  match k with
  | [] => None
  | c :: rest =>
      if forallb is_digit k
         && (negb (Ascii.eqb c "0") || negb (non_empty rest))
      then
        let n := fold_left (fun acc d => (acc * 10 + digit_value d)%N) k 0%N in
        if (n <? 4294967295)%N then Some n else None
      else None
  end.

Fixpoint insert_index (e : N * (jstring * value))
    (l : list (N * (jstring * value))) : list (N * (jstring * value)) :=
  match l with
  | [] => [e]
  | e' :: l' =>
      if (fst e <? fst e')%N then e :: l else e' :: insert_index e l'
  end.

(** The own properties of a plain object in the order of [Object.keys],
    [Object.values] and [Object.entries]: the array indices in ascending
    order, then the other keys in the order of their creation. *)
Definition ordered (o : obj) : obj :=
  map snd
    (fold_left (fun acc e => insert_index e acc)
       (flat_map (fun kv => match array_index (fst kv) with
                            | Some n => [(n, kv)]
                            | None => []
                            end) o) [])
  ++ filter (fun kv => match array_index (fst kv) with
                       | Some _ => false
                       | None => true
                       end) o.

Fixpoint mapi_from {A B} (f : nat -> A -> B) (i : nat) (l : list A)
  : list B :=
  match l with
  | [] => []
  | x :: l' => f i x :: mapi_from f (S i) l'
  end.

(** [Object.entries(v)] for a value that is neither [null] nor
    [undefined]: an array and a string have their indices as keys, a
    number and a boolean have none. *)
Definition entries (v : value) : list (jstring * value) :=
  match v with
  | VObj o => ordered o
  | VArr l => mapi_from (fun i x => (nat_to_jstring i, x)) 0 l
  | VStr s => mapi_from (fun i c => (nat_to_jstring i, VStr [c])) 0 s
  | _ => []
  end.

(** [m[k] = v] on a plain object made by [{}]: the key [__proto__] names
    the prototype and makes no property. *)
Definition map_put (k : jstring) (v : value) (m : obj) : obj :=
  if str_eqb k (js "__proto__") then m else obj_set k v m.

End Keys.
Import Keys.

Module VfParser.

(** [data.version && data.version.programResources &&
    data.version.programResources.agents], when truthy. *)
Definition programResourcesAgents (data : obj) : option value :=
  let version := own data (js "version") in
  if truthy version
     && truthy (get version "programResources")
     && truthy (get (get version "programResources") "agents")
  then Some (get (get version "programResources") "agents")
  else None.

(** [{ id, name }]. *)
Definition agentEntry (id nm : value) : value :=
  VObj [(js "id", id); (js "name", nm)].

(** Lines 86-100 of [vf-parser.js]: what [agentsMap] holds after the loop
    over the keys of [programResources.agents]. *)
Definition programAgentsMap (data : obj) : obj :=
  match programResourcesAgents data with
  | Some agents =>
      fold_left
        (fun m kv =>
           if truthy (snd kv)
           then map_put (fst kv)
                  (agentEntry (VStr (fst kv))
                     (or_else (get (snd kv) "name") (VStr (fst kv)))) m
           else m)
        (entries agents) []
  | None => []
  end.

(** Lines 101-108: what [agentsMap] holds when it is read at line 109.
    The key [agent.id] is spelled by [to_string], which is what [String]
    gives for an identifier that is [spelled]. *)
Definition agentsMap (data : obj) : obj :=
  match own data (js "agents") with
  | VArr l =>
      fold_left
        (fun m agent =>
           if truthy agent && truthy (get agent "id")
           then map_put (to_string (get agent "id"))
                  (agentEntry (get agent "id")
                     (or_else (get agent "name") (get agent "id"))) m
           else m)
        l (programAgentsMap data)
  | _ => programAgentsMap data
  end.

(** [listAllAgents(data)]. *)
Definition listAllAgents (data : obj) : list value :=
  map snd (ordered (agentsMap data)).

(** [!agentId || id === agentId]. *)
Definition selected (agentId id : value) : bool :=
  negb (truthy agentId) || strict_eq id agentId.

(** Lines 37-46 of [vf-parser.js], the body of the loop over the keys of
    [programResources.agents], as what [agents[id]] becomes. *)
Definition instruct (newInstructions agentId : value) (id : jstring)
    (agent : value) : value :=
  match agent with
  | VObj a =>
      if negb (strict_eq (own a (js "instructions")) VUndef)
         && selected agentId (VStr id)
      then VObj (obj_set (js "instructions") newInstructions a)
      else agent
  | _ => agent
  end.

(** The values under the keys of [agents], each replaced by what [f] makes
    of it. *)
Definition map_entries (f : jstring -> value -> value) (agents : value)
  : value :=
  match agents with
  | VObj o => VObj (map (fun kv => (fst kv, f (fst kv) (snd kv))) o)
  | VArr l => VArr (mapi_from (fun i x => f (nat_to_jstring i) x) 0 l)
  | _ => agents
  end.

(** The document with [agents] as its [version.programResources.agents]. *)
Definition set_programAgents (agents : value) (data : obj) : obj :=
  match own data (js "version") with
  | VObj v =>
      match own v (js "programResources") with
      | VObj p =>
          obj_set (js "version")
            (VObj (obj_set (js "programResources")
                     (VObj (obj_set (js "agents") agents p)) v)) data
      | _ => data
      end
  | _ => data
  end.

(** [Object.keys(data.version.programResources.agents)], or [[]]. *)
Definition agentKeys (data : obj) : list jstring :=
  match programResourcesAgents data with
  | Some agents => map fst (entries agents)
  | None => []
  end.

(** [[{ text: [newInstructions] }]]. *)
Definition freshInstructions (newInstructions : value) : value :=
  VArr [text_of [newInstructions]].

(** Lines 58-76, the callback of [data.agents.forEach], as what the agent
    becomes. *)
Definition instructRoot {St} (agentIds : list jstring)
    (newInstructions agentId : value) (agent : value) : M St value :=
  match agent with
  | VUndef | VNull => throw TypeError
  | VObj a =>
      if existsb (fun k => strict_eq (own a (js "id")) (VStr k)) agentIds
         && selected agentId (own a (js "id"))
      then
        match own a (js "instructions") with
        | VArr (first :: rest) =>
            match first with
            | VUndef | VNull => throw TypeError
            | VObj f =>
                if truthy (own f (js "text"))
                then ret (VObj (obj_set (js "instructions")
                                  (VArr (VObj (obj_set (js "text")
                                                 (VArr [newInstructions]) f)
                                           :: rest)) a))
                else ret (VObj (obj_set (js "instructions")
                                  (freshInstructions newInstructions) a))
            | _ => ret (VObj (obj_set (js "instructions")
                                (freshInstructions newInstructions) a))
            end
        | _ => ret (VObj (obj_set (js "instructions")
                            (freshInstructions newInstructions) a))
        end
      else ret agent
  | _ => ret agent
  end.

(** Lines 31-46: the document after the loop over the keys of
    [programResources.agents]. *)
Definition instructProgramAgents (newInstructions agentId : value)
    (data : obj) : obj :=
  match programResourcesAgents data with
  | Some agents =>
      set_programAgents
        (map_entries (instruct newInstructions agentId) agents) data
  | None => data
  end.

(** [updateAgentInstructions(data, newInstructions, agentId)]. *)
Definition updateAgentInstructions {St} (data : obj)
    (newInstructions agentId : value) : M St obj :=
  let data := instructProgramAgents newInstructions agentId data in
  match own data (js "agents") with
  | VArr (a0 :: rest) =>
      agents <- mapM (instructRoot (agentKeys data) newInstructions agentId)
                  (a0 :: rest) ;;
      ret (obj_set (js "agents") (VArr agents) data)
  | _ => ret data
  end.

End VfParser.
Import VfParser.

(* ================================================================== *)
(** * The commands of the CLI *)
(* ================================================================== *)

Module Cli.

(** Lines 184-204: the agent a command works on.  [answer] is what the
    operator picks from the list when there are several agents. *)
Inductive selection := NoAgents | Agent (id : value).

Definition selectAgent (agents : list value) (answer : value) : selection :=
  match agents with
  | [] => NoAgents
  | [a] => Agent (get a "id")
  | _ => Agent answer
  end.

(** [v.name = newName] in strict mode.  A property set on an array is not
    written by [JSON.stringify]: the document holds the array as it
    was. *)
Definition set_name {St} (newName : jstring) (v : value) : M St value :=
  match v with
  | VObj o => ret (VObj (obj_set (js "name") (VStr newName) o))
  | VArr _ => ret v
  | _ => throw TypeError
  end.

(** Lines 681-691: the document with the new name under [version], when
    [version] is truthy. *)
Definition renameVersion {St} (newName : jstring) (data : obj) : M St obj :=
  let version := own data (js "version") in
  if truthy version then
    version <- set_name newName version ;;
    let proto := get version "prototype" in
    let pdata := get proto "data" in
    version <-
      (if truthy proto && truthy pdata && is_object pdata then
         match version, proto with
         | VObj v, VObj p =>
             pdata <- set_name newName pdata ;;
             ret (VObj (obj_set (js "prototype")
                          (VObj (obj_set (js "data") pdata p)) v))
         | _, _ => ret version
         end
       else ret version) ;;
    ret (obj_set (js "version") version data)
  else ret data.

(** Lines 680-695, the mutation of [setupProject] and of
    [editProjectMeta]. *)
Definition renameProject {St} (newName : jstring) (data : obj) : M St obj :=
  data <- renameVersion newName data ;;
  let project := own data (js "project") in
  if truthy project && is_object project then
    project <- set_name newName project ;;
    ret (obj_set (js "project") project data)
  else ret data.

(** Lines 668-669: [data.version && data.version.name ? data.version.name
    : '']. *)
Definition currentName (data : obj) : value :=
  if truthy (own data (js "version"))
     && truthy (get (own data (js "version")) "name")
  then get (own data (js "version")) "name"
  else VStr [].

(** Line 723: [vfData.programResources?.agents]. *)
Definition rootProgramAgents (vfData : obj) : value :=
  match own vfData (js "programResources") with
  | VUndef | VNull => VUndef
  | programResources => get programResources "agents"
  end.

(** Line 723: [vfData.programResources?.agents || vfData.agents || []]. *)
Definition agentsOf (vfData : obj) : value :=
  or_else (or_else (rootProgramAgents vfData) (own vfData (js "agents")))
    (VArr []).

Definition nullish (v : value) : bool :=
  match v with VUndef | VNull => true | _ => false end.

(** The values that [===] compares by reference. *)
Definition is_reference (v : value) : bool :=
  match v with VArr _ | VObj _ => true | _ => false end.

(** What the operator picks from the list of lines 733-739: a value, or
    the very [id] of the [k]-th agent, which differs from an equal value
    when that [id] is an array or an object. *)
Inductive picked := PickedValue (agentId : value) | PickedIdOf (k : nat).

(** Line 740: [a.id === agentId] for the item [a] at the index [j] of
    [agents]. *)
Definition is_picked (agents : list value) (answer : picked) (j : nat)
    (a : value) : bool :=
  match answer with
  | PickedValue agentId => strict_eq (get a "id") agentId
  | PickedIdOf k =>
      let id := get (nth k agents VUndef) "id" in
      if is_reference id then Nat.eqb j k else strict_eq (get a "id") id
  end.

(** [l.find(p)], with the index of the item found. *)
Fixpoint find_from (p : nat -> value -> bool) (j : nat) (l : list value)
  : option (nat * value) :=
  match l with
  | [] => None
  | a :: l' => if p j a then Some (j, a) else find_from p (S j) l'
  end.

(** Lines 728-747: the agent of the command and its index in [agents].
    The [TypeError] is that of [a.name] at line 736, for an item that is
    [null] or [undefined], and of [agent.instructions] at line 747, for
    an agent that is. *)
Definition chooseAgent {St} (agents : list value) (answer : picked)
  : M St (nat * value) :=
  match agents with
  | [a] => if nullish a then throw TypeError else ret (0, a)
  | _ =>
      if existsb nullish agents then throw TypeError
      else
        match find_from (is_picked agents answer) 0 agents with
        | Some found => ret found
        | None => throw TypeError
        end
  end.

(** Line 766: [a.id === agent.id] for the item [a] at the index [j] of an
    array; [here] tells whether the array is the one that holds the agent,
    at the index [i]. *)
Definition same_id (id : value) (here : bool) (i j : nat) (a : value)
  : bool :=
  if is_reference id then here && Nat.eqb j i
  else strict_eq (get a "id") id.

(** Line 766: [a.instructions = finalInstructions] in strict mode; a
    property set on an array is not written by [JSON.stringify]. *)
Definition setInstructions {St} (finalInstructions : value) (a : value)
  : M St value :=
  match a with
  | VObj o => ret (VObj (obj_set (js "instructions") finalInstructions o))
  | VArr _ => ret a
  | _ => throw TypeError
  end.

(** Lines 763-768: [updateInstructions(arr)] for an array. *)
Definition updateInstructionsIn {St} (id : value) (here : bool) (i : nat)
    (finalInstructions : value) (arr : list value) : M St (list value) :=
  mapiM (fun j a =>
           if nullish a then throw TypeError
           else if same_id id here i j a
                then setInstructions finalInstructions a
                else ret a)
    0 arr.

(** How [ai-update-instructions] ends when it returns. *)
Inductive ai_update :=
| NoAgentsFound
| GeneratorFailed
| Updated (vfData : obj).

(** Lines 722-776 of the CLI, on the document: [answer] is what the
    operator picks when there are several agents, [generated] tells
    whether [askAnthropic] returned, [finalInstructions] is the text that
    leaves the editor. *)
Definition aiUpdateDocument {St} (vfData : obj) (answer : picked)
    (generated : bool) (finalInstructions : value) : M St ai_update :=
  match agentsOf vfData with
  | VArr (a0 :: rest) =>
      chosen <- chooseAgent (a0 :: rest) answer ;;
      if negb generated then ret GeneratorFailed
      else
        let id := get (snd chosen) "id" in
        let here := truthy (rootProgramAgents vfData) in
        vfData <-
          match rootProgramAgents vfData,
                own vfData (js "programResources") with
          | VArr l, VObj programResources =>
              l' <- updateInstructionsIn id here (fst chosen)
                      finalInstructions l ;;
              ret (obj_set (js "programResources")
                     (VObj (obj_set (js "agents") (VArr l') programResources))
                     vfData)
          | _, _ => ret vfData
          end ;;
        match own vfData (js "agents") with
        | VArr l =>
            l' <- updateInstructionsIn id (negb here) (fst chosen)
                    finalInstructions l ;;
            ret (Updated (obj_set (js "agents") (VArr l') vfData))
        | _ => ret (Updated vfData)
        end
  | _ => ret NoAgentsFound
  end.

End Cli.
Import Cli.

Module Commands.

Section Commands.

Variable random16 : nat -> nat.
Variable clock : nat -> jstring.
Variable basename_vf : path -> jstring.
Variable VERSIONS_DIR : jstring.
Variable versions_dir : jstring.

(** A file holds the document that [JSON.parse] reads from it and that
    [JSON.stringify] wrote to it. *)
Abbreviation files := (fsys obj).

(** [vfParser.loadVfFile(p)] and [vfParser.saveVfFile(p, data)]. *)
Definition loadVfFile (p : path) (fs : files) : option obj := readFile p fs.
Definition saveVfFile (p : path) (data : obj) (fs : files) : option files :=
  writeFile p data fs.

(** The argument of [addApiTool]: the working file itself, when the
    command is called with a string, or the project file, given on the
    command line or picked by the operator. *)
Inductive tool_arg := WorkingFile (p : path) | ProjectFile (p : path).

(** The answers with the agent of the command. *)
Definition for_agent (a : answers) (id : value) : answers :=
  {| name := name a; description := description a; url := url a;
     queryParamsInput := queryParamsInput a; httpMethod := httpMethod a;
     headersInput := headersInput a; wantsBody := wantsBody a;
     bodyInput := bodyInput a; varDesc := varDesc a;
     selectedAgentId := id |}.

(** Lines 314-477: the mutation passed to [withAutoVersioning], on the
    files. *)
Definition addApiToolMutation (a : answers) (WORKING_VF_FILE : path)
    (fs : files) (w : world) : run obj unit :=
  match loadVfFile WORKING_VF_FILE fs with
  | None => Threw (FsError ENOENT) fs w
  | Some data =>
      match addApiTool random16 clock a data w with
      | Written data' w' =>
          match saveVfFile WORKING_VF_FILE data' fs with
          | Some fs' => Returned tt fs' w'
          | None => Threw (FsError ENOENT) fs w'
          end
      | Rejected w' => Returned tt fs w'
      | Failed e w' => Threw (JsError e) fs w'
      end
  end.

(** Lines 167-478: the command [add-api-tool].  [a] holds what the
    operator answers; its [selectedAgentId] is the answer to the list of
    agents, asked only when there are several. *)
Definition addApiToolCommand (arg : tool_arg) (a : answers)
    (fs : files) (w : world) : run obj unit :=
  let continue WORKING_VF_FILE fs w :=
    match loadVfFile WORKING_VF_FILE fs with
    | None => Threw (FsError ENOENT) fs w
    | Some data =>
        match selectAgent (listAllAgents data) (selectedAgentId a) with
        | NoAgents => Returned tt fs w
        | Agent id =>
            withAutoVersioning clock obj basename_vf VERSIONS_DIR
              WORKING_VF_FILE
              (addApiToolMutation (for_agent a id) WORKING_VF_FILE) fs w
        end
    end in
  match arg with
  | WorkingFile p => continue p fs w
  | ProjectFile p =>
      match ensureVersionedFile clock obj basename_vf VERSIONS_DIR
              versions_dir p fs w with
      | Returned WORKING_VF_FILE fs' w' => continue WORKING_VF_FILE fs' w'
      | Threw e fs' w' => Threw e fs' w'
      end
  end.

(** Lines 679-698: the mutation of [setupProject] on the files. *)
Definition renameMutation (newName : jstring) (WORKING_VF_FILE : path)
    (fs : files) (w : world) : run obj unit :=
  match loadVfFile WORKING_VF_FILE fs with
  | None => Threw (FsError ENOENT) fs w
  | Some data =>
      match renameProject newName data w with
      | Ok data' w' =>
          match saveVfFile WORKING_VF_FILE data' fs with
          | Some fs' => Returned tt fs' w'
          | None => Threw (FsError ENOENT) fs w'
          end
      | Throw e w' => Threw (JsError e) fs w'
      end
  end.

(** Lines 662-713: the command [setup-project], for the project file the
    operator selected, the name entered and, when the operator wants an
    API tool, the answers to its prompts. *)
Definition setupProject (projectFile : path) (newName : jstring)
    (tool : option answers) (fs : files) (w : world) : run obj unit :=
  match ensureVersionedFile clock obj basename_vf VERSIONS_DIR
          versions_dir projectFile fs w with
  | Threw e fs' w' => Threw e fs' w'
  | Returned WORKING_VF_FILE fs w =>
      match loadVfFile WORKING_VF_FILE fs with
      | None => Threw (FsError ENOENT) fs w
      | Some _ =>
          match withAutoVersioning clock obj basename_vf VERSIONS_DIR
                  WORKING_VF_FILE (renameMutation newName WORKING_VF_FILE)
                  fs w with
          | Threw e fs' w' => Threw e fs' w'
          | Returned _ fs w =>
              match tool with
              | Some a => addApiToolCommand (WorkingFile WORKING_VF_FILE) a fs w
              | None => Returned tt fs w
              end
          end
      end
  end.

(** Lines 781-815: the command [ai-add-api-tool].  [answer] is the JSON
    extracted from the answer of the generator, or [None] when the request
    failed or no JSON was found.  An error of [askAnthropic] is caught and
    ends the command; an error of [addApiToolFromJson] is not. *)
Definition aiAddApiToolCommand (projectFile : path) (answer : option value)
    (fs : files) (w : world) : run obj unit :=
  match ensureVersionedFile clock obj basename_vf VERSIONS_DIR
          versions_dir projectFile fs w with
  | Threw e fs' w' => Threw e fs' w'
  | Returned workingFile fs w =>
      match readFile workingFile fs with
      | None => Threw (FsError ENOENT) fs w
      | Some vfData =>
          match answer with
          | None => Returned tt fs w
          | Some extracted =>
              match askAnthropic_result random16 clock extracted w with
              | Throw _ w' => Returned tt fs w'
              | Ok aiJson w' =>
                  match addApiToolFromJson random16 clock aiJson
                          (vfData, w') with
                  | Ok _ (vfData', w'') =>
                      match writeFile workingFile vfData' fs with
                      | Some fs' => Returned tt fs' w''
                      | None => Threw (FsError ENOENT) fs w''
                      end
                  | Throw e (_, w'') => Threw (JsError e) fs w''
                  end
              end
          end
      end
  end.

(** Lines 715-779: the command [ai-update-instructions].  The document
    is written to the working file in place. *)
Definition aiUpdateInstructionsCommand (projectFile : path)
    (answer : picked) (generated : bool) (finalInstructions : value)
    (fs : files) (w : world) : run obj unit :=
  match ensureVersionedFile clock obj basename_vf VERSIONS_DIR
          versions_dir projectFile fs w with
  | Threw e fs' w' => Threw e fs' w'
  | Returned workingFile fs w =>
      match readFile workingFile fs with
      | None => Threw (FsError ENOENT) fs w
      | Some vfData =>
          match aiUpdateDocument vfData answer generated finalInstructions w
          with
          | Throw e w' => Threw (JsError e) fs w'
          | Ok (Updated vfData') w' =>
              match writeFile workingFile vfData' fs with
              | Some fs' => Returned tt fs' w'
              | None => Threw (FsError ENOENT) fs w'
              end
          | Ok _ w' => Returned tt fs w'
          end
      end
  end.

End Commands.

End Commands.
Import Commands.

(* ================================================================== *)
(** * Specification-side definitions *)
(* ================================================================== *)

Module Spec.

(** All matches of [varRegex] in [l], left to right and non-overlapping,
    by recursion on the text; [i] is the index of the head of [l] and
    [skip] the number of characters of the match found last that are still
    to be passed over. *)
Fixpoint matches_from (l : jstring) (i skip : nat) : list rmatch :=
  match l with
  | [] => []
  | _ :: l' =>
      match skip with
      | S k => matches_from l' (S i) k
      | 0 =>
          match match_here l with
          | Some (name, len) =>
              {| index := i; whole := firstn len l; group1 := name |}
                :: matches_from l' (S i) (len - 1)
          | None => matches_from l' (S i) 0
          end
      end
  end.

(** The placeholder names of a template, one per occurrence. *)
Definition placeholder_names (s : jstring) : list jstring :=
  map group1 (matches_from s 0 0).

(** The template with every placeholder replaced by the value of the
    variable it names. *)
Fixpoint substitute (val : jstring -> jstring) (l : jstring) (skip : nat)
  : jstring :=
  match l with
  | [] => []
  | c :: l' =>
      match skip with
      | S k => substitute val l' k
      | 0 =>
          match match_here l with
          | Some (name, len) => val name ++ substitute val l' (len - 1)
          | None => c :: substitute val l' 0
          end
      end
  end.

(** The name of the variable of [vars] whose [id] is [id]. *)
Definition name_of_id (vars : list value) (id : value) : value :=
  match find (fun v => strict_eq (get v "id") id) vars with
  | Some v => get v "name"
  | None => VUndef
  end.

(** A segment sequence with every literal kept and every variable
    reference replaced by the value of its variable. *)
Definition render_part (val : jstring -> jstring) (vars : list value)
    (part : value) : jstring :=
  match part with
  | VStr t => t
  | _ => match name_of_id vars (get part "variableID") with
         | VStr n => val n
         | _ => []
         end
  end.

Definition render (val : jstring -> jstring) (vars parts : list value)
  : jstring :=
  concat (map (render_part val vars) parts).

(** The identifiers held by the reference segments of a sequence. *)
Definition reference_ids (parts : list value) : list value :=
  map (fun p => get p "variableID") (filter (fun p => negb (is_string p)) parts).

(** The literal collected so far, as a segment: an empty one is left
    out. *)
Definition flush (lit : jstring) : list part :=
  if non_empty lit then [Literal lit] else [].

(** The segment sequence of a template by recursion on its text: [lit] is
    the literal read since the last placeholder. *)
Fixpoint segments_from (variableIDs : obj) (l : jstring) (skip : nat)
    (lit : jstring) : list part :=
  match l with
  | [] => flush lit
  | c :: l' =>
      match skip with
      | S k => segments_from variableIDs l' k lit
      | 0 =>
          match match_here l with
          | Some (name, len) =>
              flush lit
                ++ Reference (read variableIDs name)
                :: segments_from variableIDs l' (len - 1) []
          | None => segments_from variableIDs l' 0 (lit ++ [c])
          end
      end
  end.

Definition segments (variableIDs : obj) (s : jstring) : list part :=
  segments_from variableIDs s 0 [].

(** What a dictionary answers under a name, as the file holds it. *)
Definition member (d : obj) (k : jstring) : value := written (read d k).

(** The names that a dictionary answers without holding them. *)
Definition inherited (n : jstring) : bool :=
  str_eqb n (js "__proto__") || existsb (str_eqb n) prototype_functions.

(** The names of a list in first-occurrence order, after those of
    [found]. *)
Definition add_names (names found : list jstring) : list jstring :=
  fold_left (fun f n => set_add n f) names found.

Section OperatorSpec.

Variable random16 : nat -> nat.
Variable clock : nat -> jstring.

(** What [createVariables] builds for distinct names, the first
    identifier read at draw [d] and the first time stamp at tick [t]: the
    records pushed, and the dictionary [variableIDs], which takes no key
    [__proto__]. *)
Fixpoint allocated (descriptions : obj) (apiToolID : jstring)
    (names : list jstring) (d t : nat) : list value * obj :=
  match names with
  | [] => ([], [])
  | n :: names' =>
      let '(vars, ids) :=
        allocated descriptions apiToolID names' (d + 24) (S t) in
      (inputVariable descriptions (mongo_at random16 d) n apiToolID (clock t)
         :: vars,
       if str_eqb n (js "__proto__") then ids
       else (n, VStr (mongo_at random16 d)) :: ids)
  end.

(** What [buildQueryParameters] builds, and the draw it stops at. *)
Fixpoint query_parameters (variableIDs : obj)
    (pairs : list (jstring * jstring)) (d : nat) : list value * nat :=
  match pairs with
  | [] => ([], d)
  | qp :: pairs' =>
      if non_empty (fst qp) then
        let '(qs, d') := query_parameters variableIDs pairs' (d + 24) in
        (keyValue (mongo_at random16 d) (fst qp)
           (map stored (segments variableIDs (snd qp))) :: qs, d')
      else query_parameters variableIDs pairs' d
  end.

(** What [buildHeaders] builds for the pieces of [headersInput]. *)
Fixpoint header_list (hs : list jstring) (d : nat) : list value :=
  match hs with
  | [] => []
  | h :: hs' =>
      keyValue (mongo_at random16 d) (header_key h) [VStr (header_value h)]
        :: header_list hs' (d + 24)
  end.

Definition headers_of (headersInput : jstring) (d : nat) : list value :=
  if not_blank headersInput
  then header_list (split_on "," headersInput) d else [].

Definition headers_draws (headersInput : jstring) : nat :=
  if not_blank headersInput
  then 24 * length (split_on "," headersInput) else 0.

(** What [buildBody] builds. *)
Definition body_of (variableIDs : obj) (bodyTemplate : jstring) : value :=
  if not_blank bodyTemplate
  then rawInputBody
         (map stored (filter kept (segments variableIDs bodyTemplate)))
  else VNull.

(** The document after [if (!Array.isArray(data.k)) data.k = []]. *)
Definition ensured (k : string) (data : obj) : obj :=
  if isArray (own data (js k)) then data else obj_set (js k) (VArr []) data.

(** The array held by a field of the document, empty when the field holds
    no array. *)
Definition array_field (data : obj) (k : string) : list value :=
  match own data (js k) with VArr l => l | _ => [] end.

(** The placeholder names of the templates of an operation, one per
    occurrence: URL, then query values, then body. *)
Definition template_names (a : answers) : list jstring :=
  placeholder_names (url a)
    ++ flat_map (fun qp => placeholder_names (snd qp)) (queryParamPairs a)
    ++ (if not_blank (bodyTemplate a)
        then placeholder_names (bodyTemplate a) else []).

(** What a successful operation appends, from the answers, the file's
    [version.creatorID] and the state of the two oracles when it starts. *)
Definition op_names (a : answers) : list jstring :=
  add_names (template_names a) [].

Definition op_toolID (w : world) : jstring := mongo_at random16 (draws w).

Definition op_allocated (a : answers) (w : world) : list value * obj :=
  allocated (variableDescriptions a (op_names a)) (op_toolID w) (op_names a)
    (draws w + 24) (ticks w).

Definition op_variables (a : answers) (w : world) : list value :=
  fst (op_allocated a w).

Definition op_variableIDs (a : answers) (w : world) : obj :=
  snd (op_allocated a w).

Definition op_query (a : answers) (w : world) : list value * nat :=
  query_parameters (op_variableIDs a w) (queryParamPairs a)
    (draws w + 24 + 24 * length (op_names a)).

Definition op_tool (a : answers) (file : obj) (w : world) : value :=
  apiTool a (op_toolID w)
    (map stored (segments (op_variableIDs a w) (url a)))
    (clock (ticks w + length (op_names a)))
    (clock (S (ticks w + length (op_names a))))
    (fst (op_query a w))
    (creatorID_of file)
    (body_of (op_variableIDs a w) (bodyTemplate a))
    (headers_of (headersInput a) (snd (op_query a w))).

Definition op_link (a : answers) (w : world) : value :=
  agentAPITool a
    (mongo_at random16 (snd (op_query a w) + headers_draws (headersInput a)))
    (op_toolID w)
    (clock (S (S (ticks w + length (op_names a))))).

End OperatorSpec.

(** What an operation appended to the collection [k] of the document. *)
Definition appended (before after : obj) (k : string) : list value :=
  skipn (length (array_field before k)) (array_field after k).

(** The segment sequences of a tool: [tool.url[0].text], the
    [value[0].text] of a query parameter or a header, and
    [tool.body.content]. *)
Definition parts_of (text : value) : list value :=
  match text with VArr parts => parts | _ => [] end.

Definition url_parts (tool : value) : list value :=
  parts_of (get (idx (get tool "url") 0) "text").

Definition value_parts (kv : value) : list value :=
  parts_of (get (idx (get kv "value") 0) "text").

Definition body_parts (tool : value) : list value :=
  parts_of (get (get tool "body") "content").

(** Every variable reference of a tool, in the order URL, query
    parameters, body. *)
Definition tool_references (tool : value) : list value :=
  reference_ids (url_parts tool)
    ++ flat_map (fun qp => reference_ids (value_parts qp))
         (parts_of (get tool "queryParameters"))
    ++ reference_ids (body_parts tool).

(** The variables of [vars] whose name is [n], and the identifier of the
    first of them. *)
Definition named (vars : list value) (n : jstring) : list value :=
  filter (fun v => strict_eq (get v "name") (VStr n)) vars.

Definition id_for (vars : list value) (n : jstring) : value :=
  match named vars n with
  | v :: _ => get v "id"
  | [] => VUndef
  end.

(** [vfData.agents[0].id] when [vfData.agents] is a non-empty array, and
    [null] otherwise: the agent the generator path links the tool to. *)
Definition first_agent_id (vfData : obj) : value :=
  match own vfData (js "agents") with
  | VArr (a0 :: _) => get a0 "id"
  | _ => VNull
  end.

(** The method the generator path stores: the payload's [httpMethod] when
    it is truthy, and [get] otherwise, whatever the payload's [method]
    holds: line 353 reads [method] once the projection of lines 337-339
    has removed it. *)
Definition stored_method (toolObj : value) : value :=
  or_else (get toolObj "httpMethod") (VStr (js "get")).

(** The key and the value of a query parameter. *)
Definition key_and_value (qp : value) : value * value :=
  (get qp "key", get qp "value").

(** What a piece [key=value] of a URL's query string becomes, as the key
    and the value of at most one query parameter: nothing without a key or
    without a value; a reference when the whole value is one placeholder
    whose name [varNameToId] holds; the value as a literal otherwise.  It
    speaks for the pieces that are [plainly_named] below. *)
Definition classify (varNameToId : obj) (kv : jstring * option jstring)
  : list (value * value) :=
  if negb (non_empty (fst kv)) then []
  else
    match snd kv with
    | None => []
    | Some v =>
        if negb (non_empty v) then []
        else
          match match_whole v with
          | Some n =>
              if truthy (own varNameToId n)
              then [(VStr (fst kv), reference_value (own varNameToId n))]
              else [(VStr (fst kv), literal_value (VStr v))]
          | None => [(VStr (fst kv), literal_value (VStr v))]
          end
    end.

(** The two shapes of a URL with one literal segment [u]: the string [u],
    and a structured URL whose first text is [[u]]. *)
Definition single_literal_url (toolObj : value) (u : jstring) : Prop :=
  get toolObj "url" = VStr u \/
  exists u0 rest,
    get toolObj "url" = VArr (VObj u0 :: rest) /\
    own u0 (js "text") = VArr [VStr u].

(** A stored tool that the search for a duplicate can read: it is not
    [null], [false], [0] or the empty string, and its URL text, when a
    plain object, has no [join] of its own and, when an array, holds
    nothing that [join] fails to convert to a string. *)
Definition searchable (t : value) : bool :=
  truthy t &&
  match get (idx (get t "url") 0) "text" with
  | VObj o => negb (truthy (own o (js "join")))
  | VArr l => forallb stringifies l
  | _ => true
  end.

(** A piece [key=value] of a query string whose value is no placeholder
    named by what [varNameToId] only inherits. *)
Definition plainly_named (varNameToId : obj)
    (kv : jstring * option jstring) : bool :=
  match var_match (snd kv) with
  | Some n => hasOwn varNameToId n || negb (inherited n)
  | None => true
  end.



(** Every key of the object is an allowed field. *)
Definition projected (o : obj) : Prop :=
  forall k, In k (map fst o) -> In k allowedFields.


(** The fields of a time stamp written [YYYY-MM-DDTHH:mm:ss.sssZ], the
    form [toISOString] gives a date of the years 0 to 9999. *)
Record iso_fields := {
  year : jstring; month : jstring; day : jstring;
  hour : jstring; minute : jstring; second : jstring; millis : jstring
}.

Definition iso_of (t : iso_fields) : jstring :=
  year t ++ js "-" ++ month t ++ js "-" ++ day t ++ js "T"
    ++ hour t ++ js ":" ++ minute t ++ js ":" ++ second t ++ js "."
    ++ millis t ++ js "Z".

Definition digits (n : nat) (s : jstring) : bool :=
  (length s =? n) && forallb is_digit s.

Definition iso_shaped (t : iso_fields) : bool :=
  digits 4 (year t) && digits 2 (month t) && digits 2 (day t)
  && digits 2 (hour t) && digits 2 (minute t) && digits 2 (second t)
  && digits 3 (millis t).

(** The time stamp down to the second. *)
Definition to_the_second (t : iso_fields) : jstring :=
  year t ++ month t ++ day t ++ hour t ++ minute t ++ second t.

(** A name that [getVersionedFiles] takes for a version of a file whose
    base name is [base]. *)
Definition version_of (base f : jstring) : bool :=
  startsWith f (base ++ js "_v") && endsWith f (js ".vf").

(** Paths in the order of their names. *)
Fixpoint ascending (l : list path) : Prop :=
  match l with
  | [] => True
  | p :: l' =>
      (forall q, In q l' -> lex_leb (entry p) (entry q) = true)
      /\ ascending l'
  end.


(** The property key that the [id] of a listed agent spells. *)
Definition id_key (e : value) : jstring := to_string (get e "id").

(** Every root agent has an [id] that [to_string] spells as [String]
    does. *)
Definition ids_spelled (data : obj) : bool :=
  forallb (fun agent => spelled (get agent "id")) (array_field data "agents").

(** The root agents that [updateAgentInstructions] gives the new
    instructions: those whose [id] is a key of [programResources.agents]
    and is the one asked for, when one is. *)
Definition instructed (agentIds : list jstring) (agentId : value)
    (agent : value) : bool :=
  match agent with
  | VObj a =>
      existsb (fun k => strict_eq (own a (js "id")) (VStr k)) agentIds
      && selected agentId (own a (js "id"))
  | _ => false
  end.

(** The root agents on which [updateAgentInstructions] throws: [null],
    [undefined], and an instructed agent whose [instructions] start with
    one of the two. *)
Definition unreadable (agentIds : list jstring) (agentId : value)
    (agent : value) : bool :=
  match agent with
  | VUndef | VNull => true
  | VObj a =>
      instructed agentIds agentId agent
      && match own a (js "instructions") with
         | VArr (VUndef :: _) | VArr (VNull :: _) => true
         | _ => false
         end
  | _ => false
  end.

(** The files that a command leaves, whether it returned or threw. *)
Definition files_after {content A} (r : run content A) : fsys content :=
  match r with
  | Returned _ fs _ | Threw _ fs _ => fs
  end.

End Spec.
Import Spec.

(* ================================================================== *)
(** * Sample inputs *)
(* ================================================================== *)

Module Samples.

(** A random source whose [k]-th identifier repeats the [k]-th hexadecimal
    digit, and a clock that stands still. *)
Definition random16 (k : nat) : nat := k / 24.
Definition clock (_ : nat) : jstring := js "2025-01-01T00:00:00.000Z".
Definition start : world := {| draws := 0; ticks := 0 |}.

(** A file with one agent and no tool. *)
Definition file : obj :=
  [(js "version", VObj [(js "creatorID", VNum 7)]);
   (js "agents", VArr [VObj [(js "id", VStr (js "agent-1"))]])].

Definition answers_get : answers :=
  {| name := js "Find user";
     description := js "Looks a user up";
     url := js "https://api.example.com/users/{userId}/posts/{{postId}}";
     queryParamsInput := js "status=active,user={userId},pad=a{postId}b";
     httpMethod := GET;
     headersInput := js "Accept:application/json,X-Trace:{trace}";
     wantsBody := true;
     bodyInput := js "{userId}";
     varDesc := fun n => n;
     selectedAgentId := VStr (js "agent-1") |}.

Definition answers_post : answers :=
  {| name := js "Create post";
     description := js "Creates a post";
     url := js "https://api.example.com/users/{userId}/posts";
     queryParamsInput := [];
     httpMethod := POST;
     headersInput := [];
     wantsBody := true;
     bodyInput := js "title={title}&by={{userId}}";
     varDesc := fun _ => [];
     selectedAgentId := VStr (js "agent-1") |}.

(** Test values of the variables. *)
Definition test_value (n : jstring) : jstring := js "<" ++ n ++ js ">".

(** Templates whose placeholder is named [__proto__]. *)
Definition answers_proto : answers :=
  {| name := js "Get user";
     description := [];
     url := js "https://api.example.com/users/{__proto__}";
     queryParamsInput := [];
     httpMethod := GET;
     headersInput := [];
     wantsBody := false;
     bodyInput := [];
     varDesc := fun _ => js "the user";
     selectedAgentId := VStr (js "agent-1") |}.

Definition answers_proto_thrice : answers :=
  {| name := js "Create item";
     description := [];
     url := js "https://api.example.com/{__proto__}/items";
     queryParamsInput := js "of={__proto__}";
     httpMethod := POST;
     headersInput := [];
     wantsBody := true;
     bodyInput := js "{__proto__}";
     varDesc := fun _ => js "the owner";
     selectedAgentId := VStr (js "agent-1") |}.

(** Two operator tools on the same URL template, under different names
    and with different placeholder names. *)
Definition answers_user : answers :=
  {| name := js "Get user";
     description := [];
     url := js "https://api.example.com/users/{userId}";
     queryParamsInput := [];
     httpMethod := GET;
     headersInput := [];
     wantsBody := false;
     bodyInput := [];
     varDesc := fun _ => [];
     selectedAgentId := VStr (js "agent-1") |}.

Definition answers_user_again : answers :=
  {| name := js "Get user again";
     description := [];
     url := js "https://api.example.com/users/{id}";
     queryParamsInput := [];
     httpMethod := GET;
     headersInput := [];
     wantsBody := false;
     bodyInput := [];
     varDesc := fun _ => [];
     selectedAgentId := VStr (js "agent-1") |}.

(** The file once [Get user] has been added by the operator path. *)
Definition file_with_user : obj :=
  file_after file (addApiTool random16 clock answers_user file start).

(** Generator payloads. *)
Definition jobj (fields : list (string * value)) : value :=
  VObj (map (fun kv => (js (fst kv), snd kv)) fields).
Definition jstr (s : string) : value := VStr (js s).

Definition declares (names : list string) : value :=
  VArr (map (fun n => jobj [("id", jstr ("old-" ++ n)); ("name", jstr n);
                            ("description", jstr "declared")]%string)
          names).

(** A wrapped payload whose URL is a string with a path placeholder. *)
Definition payload_path_placeholder : value :=
  jobj [("apiTool",
          jobj [("name", jstr "Get user");
                ("httpMethod", jstr "get");
                ("url", jstr "https://api.example.com/users/{userId}")]);
        ("apiToolInputVariables", declares ["userId"%string])].

(** The same tool with its URL in the structured form. *)
Definition payload_path_structured : value :=
  jobj [("apiTool",
          jobj [("name", jstr "Get user");
                ("httpMethod", jstr "get");
                ("url",
                  VArr [jobj [("text",
                    VArr [jstr "https://api.example.com/users/{userId}"])]])]);
        ("apiToolInputVariables", declares ["userId"; "unused"]%string)].

(** A payload that brings identifiers of its own and a field that no
    tool has. *)
Definition payload_with_ids : value :=
  jobj [("apiTool",
          jobj [("id", jstr "tool-from-generator");
                ("createdByID", VNum 1);
                ("notes", jstr "made by the generator");
                ("name", jstr "Get user");
                ("httpMethod", jstr "get");
                ("url",
                  VArr [jobj [("text",
                    VArr [jstr "https://api.example.com/users/{userId}"])]])]);
        ("apiToolInputVariables", declares ["userId"%string])].

(** The URL of the query-extraction example, with and without the
    declaration of [userId]. *)
Definition search_url : string :=
  "https://api.example.com/search?status=active&user={userId}".

Definition payload_search_declared : value :=
  jobj [("apiTool", jobj [("name", jstr "Search"); ("url", jstr search_url)]);
        ("apiToolInputVariables", declares ["userId"%string])].

Definition payload_search_undeclared : value :=
  jobj [("apiTool", jobj [("name", jstr "Search"); ("url", jstr search_url)])].

(** A query value that is a placeholder under a name of
    [Object.prototype], and a tool that names its method as [method]. *)
Definition payload_inherited_name : value :=
  jobj [("apiTool",
          jobj [("name", jstr "Search");
                ("url", jstr "https://api.example.com/search?by={constructor}")])].

Definition payload_legacy_method : value :=
  jobj [("name", jstr "Create user");
        ("method", jstr "POST");
        ("url", jstr "https://api.example.com/users")].

(** A [get] tool that comes with a body. *)
Definition payload_get_with_body : value :=
  jobj [("apiTool",
          jobj [("name", jstr "List users");
                ("httpMethod", jstr "get");
                ("url", jstr "https://api.example.com/users");
                ("body",
                  jobj [("type", jstr "raw-input");
                        ("content", VArr [jstr "page=1"]);
                        ("contentType", jstr "json")])])].

(** A tool whose method is no HTTP method. *)
Definition payload_bad_method : value :=
  jobj [("apiTool",
          jobj [("name", jstr "Fetch users");
                ("httpMethod", jstr "FETCH");
                ("url", jstr "https://api.example.com/users")])].

(** A flat answer of the generator with the legacy [method]. *)
Definition answer_legacy_method : obj :=
  [(js "name", jstr "Create user");
   (js "method", jstr "POST");
   (js "url", jstr "https://api.example.com/users")].

(** A file that lists no agent in [agents]. *)
Definition file_without_agents : obj :=
  [(js "version", VObj [(js "creatorID", VNum 7)])].

(** Two dates of one day. *)
Definition morning : iso_fields :=
  {| year := js "2025"; month := js "01"; day := js "01";
     hour := js "09"; minute := js "30"; second := js "00";
     millis := js "000" |}.

Definition evening : iso_fields :=
  {| year := js "2025"; month := js "01"; day := js "01";
     hour := js "18"; minute := js "05"; second := js "59";
     millis := js "123" |}.

(** [path.basename(p, '.vf')] for a file whose name ends in [.vf]. *)
Definition basename_vf (p : path) : jstring :=
  firstn (length (entry p) - 3) (entry p).

Definition VERSIONS_DIR : jstring := js "versions".

Definition project_file : path :=
  {| dir := js "projects"; entry := js "shop.vf" |}.

(** The version of [project_file] that [saveNewVersion] makes under
    [clock]. *)
Definition first_version : path :=
  {| dir := js "versions"; entry := js "shop_v20250101000000.vf" |}.

(** A tree with one project and no version, and the same tree with the
    first version. *)
Definition tree : fsys obj :=
  [(js "projects", [(js "shop.vf", file)]); (js "versions", [])].

Definition tree_with_version : fsys obj :=
  [(js "projects", [(js "shop.vf", file)]);
   (js "versions", [(js "shop_v20250101000000.vf", file)])].

(** A tree with two versions of the project and one of another. *)
Definition tree_with_versions : fsys obj :=
  [(js "projects", [(js "shop.vf", file)]);
   (js "versions",
    [(js "shop_v20250102000000.vf", file);
     (js "shop_v20250101000000.vf", file);
     (js "stock_v20250103000000.vf", file)])].

(** A document with agents in both places: [a1] has instructions in
    both, [a2] has none, [a3] is in the root array only. *)
Definition file_with_agents : obj :=
  [(js "version",
    jobj [("name", jstr "Shop");
          ("programResources",
           jobj [("agents",
                  jobj [("a1", jobj [("name", jstr "Support");
                                     ("instructions", jstr "old")]);
                        ("a2", jobj [("name", jstr "Sales")])])])]);
   (js "agents",
    VArr [jobj [("id", jstr "a1");
                ("instructions", VArr [jobj [("text", VArr [jstr "old"])]])];
          jobj [("id", jstr "a2")];
          jobj [("id", jstr "a3")]]);
   (js "project", jobj [("name", jstr "Shop")])].

End Samples.

(* ================================================================== *)
(** * The loops over [varRegex] *)
(* ================================================================== *)

Section ScanFacts.

Lemma take_drop_while (p : ascii -> bool) (l : jstring) :
  take_while p l ++ drop_while p l = l.
Proof.
  induction l as [|c l IH]; simpl; [reflexivity|].
  destruct (p c); simpl; [now rewrite IH | reflexivity].
Qed.

Lemma length_take_drop (p : ascii -> bool) (l : jstring) :
  length (take_while p l) + length (drop_while p l) = length l.
Proof.
  rewrite <- length_app, take_drop_while. reflexivity.
Qed.

Lemma non_empty_length (s : jstring) : non_empty s = true <-> 0 < length s.
Proof.
  destruct s; simpl; split; intros; try lia; try discriminate; reflexivity.
Qed.

Lemma match_here_bounds l n len :
  match_here l = Some (n, len) -> 3 <= len /\ len <= length l.
Proof.
  unfold match_here. intros H.
  destruct (non_empty (take_while is_open l)) eqn:E1; simpl in H; [|discriminate].
  destruct (non_empty (take_while is_name_char (drop_while is_open l))) eqn:E2;
    simpl in H; [|discriminate].
  destruct (non_empty
              (take_while is_close
                 (drop_while is_name_char (drop_while is_open l)))) eqn:E3;
    simpl in H; [|discriminate].
  injection H as _ Hlen.
  apply non_empty_length in E1, E2, E3.
  pose proof (length_take_drop is_open l).
  pose proof (length_take_drop is_name_char (drop_while is_open l)).
  pose proof (length_take_drop is_close
                (drop_while is_name_char (drop_while is_open l))).
  lia.
Qed.

Lemma search_matches l : forall i, search l i = hd_error (matches_from l i 0).
Proof.
  induction l as [|c l IH]; intros i.
  - reflexivity.
  - simpl search. simpl matches_from.
    destruct (match_here (c :: l)) as [[n len]|]; [reflexivity | apply IH].
Qed.

Lemma matches_skip k : forall l i,
  k <= length l -> matches_from l i k = matches_from (skipn k l) (i + k) 0.
Proof.
  induction k as [|k IH]; intros l i Hk.
  - simpl. now rewrite Nat.add_0_r.
  - destruct l as [|c l]; simpl in Hk; [lia|].
    simpl. rewrite IH by lia. f_equal. lia.
Qed.

Lemma substitute_skip val k : forall l,
  k <= length l -> substitute val l k = substitute val (skipn k l) 0.
Proof.
  induction k as [|k IH]; intros l Hk.
  - reflexivity.
  - destruct l as [|c l]; simpl in Hk; [lia|].
    simpl. now rewrite IH by lia.
Qed.

(** The first match of a text: where it stands, what is before it and
    what remains to be scanned after it. *)
Lemma matches_head l : forall i m rest,
  matches_from l i 0 = m :: rest ->
  exists j len,
    index m = i + j /\ 1 <= len /\ j + len <= length l /\
    whole m = firstn len (skipn j l) /\
    rest = matches_from (skipn (j + len) l) (i + (j + len)) 0 /\
    forall val,
      substitute val l 0 =
      firstn j l ++ val (group1 m) ++ substitute val (skipn (j + len) l) 0.
Proof.
  induction l as [|c l IH]; intros i m rest H.
  - discriminate.
  - simpl in H.
    destruct (match_here (c :: l)) as [[n len]|] eqn:E.
    + destruct (match_here_bounds _ _ _ E) as [Hlo Hhi]. simpl in Hhi.
      destruct len as [|k]; [lia|].
      injection H as <- <-.
      exists 0, (S k). simpl index. simpl group1. simpl whole.
      split; [lia|]. split; [lia|]. split; [simpl; lia|].
      split; [reflexivity|]. split.
      * simpl. rewrite Nat.sub_0_r, matches_skip by lia. f_equal. lia.
      * intros val. simpl substitute. rewrite E. simpl.
        rewrite Nat.sub_0_r, substitute_skip by lia. reflexivity.
    + destruct (IH _ _ _ H) as (j & len & Hi & Hlen & Hle & Hw & Hr & Hs).
      exists (S j), len.
      split; [lia|]. split; [lia|]. split; [simpl; lia|].
      split; [exact Hw|]. split.
      * simpl. rewrite Hr. f_equal. lia.
      * intros val. simpl substitute. rewrite E. simpl. now rewrite Hs.
Qed.

Lemma substitute_no_match val l : forall i,
  matches_from l i 0 = [] -> substitute val l 0 = l.
Proof.
  induction l as [|c l IH]; intros i H; [reflexivity|].
  simpl in *. destruct (match_here (c :: l)) as [[n len]|]; [discriminate|].
  f_equal. eapply IH; eauto.
Qed.

(** The [while]/[exec] loop visits exactly the matches of the text, and
    its fuel suffices. *)
Lemma exec_loop_matches {A} (body : A -> rmatch -> A) s :
  forall fuel lastIndex acc,
    lastIndex <= length s -> length s - lastIndex < fuel ->
    exec_loop fuel s lastIndex body acc =
    Some (fold_left body (matches_from (skipn lastIndex s) lastIndex 0) acc).
Proof.
  induction fuel as [|fuel IH]; intros li acc Hli Hfuel; [lia|].
  simpl. unfold exec.
  destruct (Nat.leb_spec li (length s)); [|lia].
  rewrite search_matches.
  destruct (matches_from (skipn li s) li 0) as [|m rest] eqn:E;
    [reflexivity|].
  simpl hd_error. cbv iota.
  destruct (matches_head _ _ _ _ E) as (j & len & Hi & Hlen & Hle & Hw & Hr & _).
  rewrite length_skipn in Hle.
  assert (Hend : match_end m = li + (j + len)).
  { unfold match_end. rewrite Hw, Hi, length_firstn, !length_skipn. lia. }
  rewrite Hend, IH by lia.
  simpl fold_left. rewrite Hr, skipn_skipn.
  replace (j + len + li) with (li + (j + len)) by lia. reflexivity.
Qed.

Lemma while_exec_matches {A} (body : A -> rmatch -> A) s acc :
  while_exec s body acc = Some (fold_left body (matches_from s 0 0) acc).
Proof.
  unfold while_exec. rewrite exec_loop_matches by lia. reflexivity.
Qed.

End ScanFacts.

(* ================================================================== *)
(** * The tokenizer *)
(* ================================================================== *)

Section TokenizerFacts.

Variable variableIDs : obj.

Lemma segments_skip k : forall l lit,
  k <= length l ->
  segments_from variableIDs l k lit =
  segments_from variableIDs (skipn k l) 0 lit.
Proof.
  induction k as [|k IH]; intros l lit Hk; [reflexivity|].
  destruct l as [|c l]; simpl in Hk; [lia|].
  simpl. now rewrite IH by lia.
Qed.

Lemma segments_no_match l : forall i lit,
  matches_from l i 0 = [] ->
  segments_from variableIDs l 0 lit = flush (lit ++ l).
Proof.
  induction l as [|c l IH]; intros i lit H.
  - simpl. now rewrite app_nil_r.
  - simpl in *. destruct (match_here (c :: l)) as [[n len]|]; [discriminate|].
    rewrite (IH (S i)) by assumption. now rewrite <- app_assoc.
Qed.

Lemma segments_head l : forall i m rest lit,
  matches_from l i 0 = m :: rest ->
  segments_from variableIDs l 0 lit =
  flush (lit ++ firstn (index m - i) l)
    ++ Reference (read variableIDs (group1 m))
    :: segments_from variableIDs
         (skipn (index m - i + length (whole m)) l) 0 [].
Proof.
  induction l as [|c l IH]; intros i m rest lit H; [discriminate|].
  simpl in H. simpl segments_from.
  destruct (match_here (c :: l)) as [[n len]|] eqn:E.
  - destruct (match_here_bounds _ _ _ E) as [Hlo Hhi].
    destruct len as [|k]; [lia|].
    injection H as <- <-. simpl index. simpl group1. simpl whole.
    rewrite Nat.sub_diag. simpl firstn at 1. rewrite app_nil_r.
    simpl in Hhi. simpl length.
    rewrite length_firstn, Nat.min_l by lia.
    simpl. rewrite Nat.sub_0_r, segments_skip by lia.
    reflexivity.
  - pose proof (matches_head _ _ _ _ H) as (j & len & Hi & _).
    rewrite (IH _ _ _ _ H).
    replace (index m - i) with (S (index m - S i)) by lia.
    simpl. now rewrite <- app_assoc.
Qed.

(** The loop of the source computes the segment sequence, and never runs
    out of fuel. *)
Lemma tokenize_segments s :
  tokenize variableIDs s = Some (segments variableIDs s).
Proof.
  unfold tokenize. rewrite while_exec_matches.
  set (step := fun '(parts, lastIndex) m => _).
  assert (H : forall n li parts,
             length s - li <= n -> li <= length s ->
             (let '(parts', last) :=
                fold_left step (matches_from (skipn li s) li 0) (parts, li) in
              if last <? length s
              then parts' ++ [Literal (slice_from s last)] else parts') =
             parts ++ segments_from variableIDs (skipn li s) 0 []).
  { induction n as [|n IH]; intros li parts Hn Hli.
    - assert (li = length s) by lia. subst li.
      rewrite skipn_all. simpl. rewrite Nat.ltb_irrefl.
      now rewrite app_nil_r.
    - destruct (matches_from (skipn li s) li 0) as [|m rest] eqn:E.
      + simpl. rewrite (segments_no_match _ _ _ E). simpl.
        unfold flush, slice_from.
        destruct (Nat.ltb_spec li (length s)).
        * destruct (skipn li s) eqn:Es; [|reflexivity].
          apply (f_equal (@length _)) in Es.
          rewrite length_skipn in Es. simpl in Es. lia.
        * rewrite skipn_all2 by lia. simpl. now rewrite app_nil_r.
      + destruct (matches_head _ _ _ _ E)
          as (j & len & Hi & Hlen & Hle & Hw & Hr & _).
        rewrite length_skipn in Hle.
        assert (Hlw : length (whole m) = len).
        { rewrite Hw, length_firstn, !length_skipn. lia. }
        rewrite (segments_head _ _ _ _ [] E). simpl fold_left.
        replace (index m - li) with j by lia.
        rewrite Hlw, skipn_skipn, Hr, skipn_skipn.
        replace (j + len + li) with (index m + len) by lia.
        replace (li + (j + len)) with (index m + len) by lia.
        rewrite IH by lia.
        simpl app at 3. unfold flush, slice.
        replace (index m - li) with j by lia.
        destruct (Nat.ltb_spec li (index m)).
        * destruct (firstn j (skipn li s)) eqn:Ef.
          { apply (f_equal (@length _)) in Ef.
            rewrite length_firstn, length_skipn in Ef. simpl in Ef. lia. }
          simpl. now rewrite <- !app_assoc.
        * assert (j = 0) by lia. subst j. simpl.
          now rewrite <- !app_assoc. }
  specialize (H (length s) 0 [] ltac:(lia) ltac:(lia)).
  simpl skipn in H. simpl app in H.
  destruct (fold_left step (matches_from s 0 0) ([], 0)) as [parts' last].
  now rewrite H.
Qed.

End TokenizerFacts.

(* ================================================================== *)
(** * One pair of braces or more around a name *)
(* ================================================================== *)

Section BraceFacts.

Variable variableIDs : obj.

Lemma take_while_all (p : ascii -> bool) a b :
  forallb p a = true -> take_while p (a ++ b) = a ++ take_while p b.
Proof.
  induction a as [|x a IH]; simpl; intros H; [reflexivity|].
  apply andb_true_iff in H. destruct H as [-> H]. now rewrite IH.
Qed.

Lemma drop_while_all (p : ascii -> bool) a b :
  forallb p a = true -> drop_while p (a ++ b) = drop_while p b.
Proof.
  induction a as [|x a IH]; simpl; intros H; [reflexivity|].
  apply andb_true_iff in H. destruct H as [-> H]. now rewrite IH.
Qed.

Lemma take_while_some (p : ascii -> bool) a b :
  forallb p a = false -> take_while p (a ++ b) = take_while p a.
Proof.
  induction a as [|x a IH]; simpl; intros H; [discriminate|].
  destruct (p x); [|reflexivity]. simpl in H. now rewrite IH.
Qed.

Lemma drop_while_some (p : ascii -> bool) a b :
  forallb p a = false -> drop_while p (a ++ b) = drop_while p a ++ b.
Proof.
  induction a as [|x a IH]; simpl; intros H; [discriminate|].
  destruct (p x); [|reflexivity]. simpl in H. now rewrite IH.
Qed.

Lemma take_while_stop (p : ascii -> bool) a x b :
  p x = false -> take_while p (a ++ x :: b) = take_while p a.
Proof.
  intros Hx. induction a as [|y a IH]; simpl; [now rewrite Hx|].
  destruct (p y); [now rewrite IH | reflexivity].
Qed.

Lemma drop_while_stop (p : ascii -> bool) a x b :
  p x = false -> drop_while p (a ++ x :: b) = drop_while p a ++ x :: b.
Proof.
  intros Hx. induction a as [|y a IH]; simpl; [now rewrite Hx|].
  destruct (p y); [exact IH | reflexivity].
Qed.

Lemma skipn_take_while (p : ascii -> bool) l :
  skipn (length (take_while p l)) l = drop_while p l.
Proof.
  induction l as [|x l IH]; simpl; [reflexivity|].
  destruct (p x); [exact IH | reflexivity].
Qed.

Lemma name_char_not_open c : is_name_char c = true -> is_open c = false.
Proof.
  intros H. destruct (is_open c) eqn:E; [|reflexivity].
  apply Ascii.eqb_eq in E. subst c. discriminate H.
Qed.

(** Before an opening brace, a text that holds something else than
    opening braces matches as it does alone. *)
Lemma match_here_before_open pre rest :
  forallb is_open pre = false ->
  match_here (pre ++ "{"%char :: rest) = match_here pre.
Proof.
  intros H. unfold match_here.
  rewrite (take_while_some is_open _ _ H), (drop_while_some is_open _ _ H).
  rewrite (take_while_stop is_name_char), (drop_while_stop is_name_char)
    by reflexivity.
  now rewrite (take_while_stop is_close) by reflexivity.
Qed.

(** A name between a run of opening braces and a run of closing braces
    is one match, which takes in the closing braces that follow. *)
Lemma match_here_placeholder opens n closes post :
  forallb is_open opens = true -> non_empty opens = true ->
  forallb is_name_char n = true -> non_empty n = true ->
  forallb is_close closes = true -> non_empty closes = true ->
  match_here (opens ++ n ++ closes ++ post) =
  Some (n, length opens + length n + length closes
           + length (take_while is_close post)).
Proof.
  intros Ho Ho' Hn Hn' Hc Hc'. unfold match_here.
  destruct n as [|c0 n']; [discriminate|].
  destruct closes as [|c1 closes']; [discriminate|].
  assert (H0 : is_open c0 = false).
  { apply name_char_not_open. simpl in Hn.
    now apply andb_true_iff in Hn. }
  assert (H1 : is_name_char c1 = false).
  { simpl in Hc. apply andb_true_iff in Hc. destruct Hc as [Hc _].
    apply Ascii.eqb_eq in Hc. now subst c1. }
  rewrite (take_while_all is_open _ _ Ho), (drop_while_all is_open _ _ Ho).
  cbn [app take_while drop_while]. rewrite H0.
  change (c0 :: n' ++ c1 :: closes' ++ post)
    with ((c0 :: n') ++ ((c1 :: closes') ++ post)).
  rewrite (take_while_all is_name_char _ _ Hn),
    (drop_while_all is_name_char _ _ Hn).
  cbn [app take_while drop_while]. rewrite H1.
  change (c1 :: closes' ++ post) with ((c1 :: closes') ++ post).
  rewrite (take_while_all is_close _ _ Hc).
  rewrite !app_nil_r, Ho'. cbn [non_empty app andb].
  cbn [length]. rewrite length_app. do 2 f_equal. lia.
Qed.

Lemma segments_placeholder opens n closes post lit :
  forallb is_open opens = true -> non_empty opens = true ->
  forallb is_name_char n = true -> non_empty n = true ->
  forallb is_close closes = true -> non_empty closes = true ->
  segments_from variableIDs (opens ++ n ++ closes ++ post) 0 lit =
  flush lit ++ Reference (read variableIDs n)
    :: segments_from variableIDs (drop_while is_close post) 0 [].
Proof.
  intros Ho Ho' Hn Hn' Hc Hc'.
  pose proof (match_here_placeholder opens n closes post
                Ho Ho' Hn Hn' Hc Hc') as Hm.
  destruct opens as [|c opens']; [discriminate|].
  cbn [app segments_from]. cbn [app] in Hm. rewrite Hm.
  f_equal. f_equal.
  rewrite segments_skip
    by (rewrite !length_app; cbn [length];
        pose proof (length_take_drop is_close post); lia).
  f_equal.
  replace (length (c :: opens') + length n + length closes
           + length (take_while is_close post) - 1)
    with (length opens' + (length n + (length closes
           + length (take_while is_close post))))
    by (cbn [length]; lia).
  rewrite !skipn_app, !skipn_all2 by lia.
  cbn [app].
  replace (length opens' + (length n + (length closes
             + length (take_while is_close post))) - length opens'
           - length n - length closes)
    with (length (take_while is_close post)) by lia.
  apply skipn_take_while.
Qed.

(** The segments do not depend on the number of braces around a name. *)
Lemma segments_braces opens1 closes1 opens2 closes2 n post :
  forallb is_open opens1 = true -> non_empty opens1 = true ->
  forallb is_close closes1 = true -> non_empty closes1 = true ->
  forallb is_open opens2 = true -> non_empty opens2 = true ->
  forallb is_close closes2 = true -> non_empty closes2 = true ->
  forallb is_name_char n = true -> non_empty n = true ->
  forall pre skip lit,
    skip <= length pre ->
    segments_from variableIDs (pre ++ opens1 ++ n ++ closes1 ++ post) skip lit
    = segments_from variableIDs (pre ++ opens2 ++ n ++ closes2 ++ post)
        skip lit.
Proof.
  intros Ho1 Ho1' Hc1 Hc1' Ho2 Ho2' Hc2 Hc2' Hn Hn'.
  induction pre as [|c pre IH]; intros skip lit Hskip.
  - assert (skip = 0) by (simpl in Hskip; lia). subst skip. cbn [app].
    now rewrite !segments_placeholder.
  - destruct skip as [|k].
    + destruct (forallb is_open (c :: pre)) eqn:Ep.
      * rewrite !(app_assoc (c :: pre)).
        rewrite !segments_placeholder; try assumption; try reflexivity;
          rewrite forallb_app; now rewrite Ep.
      * destruct opens1 as [|o1 opens1]; [discriminate|].
        destruct opens2 as [|o2 opens2]; [discriminate|].
        assert (o1 = "{"%char)
          by (simpl in Ho1; apply andb_true_iff in Ho1;
              destruct Ho1 as [Ho1 _]; now apply Ascii.eqb_eq in Ho1).
        assert (o2 = "{"%char)
          by (simpl in Ho2; apply andb_true_iff in Ho2;
              destruct Ho2 as [Ho2 _]; now apply Ascii.eqb_eq in Ho2).
        subst o1 o2.
        pose proof (match_here_before_open (c :: pre)
                      (opens1 ++ n ++ closes1 ++ post) Ep) as H1.
        pose proof (match_here_before_open (c :: pre)
                      (opens2 ++ n ++ closes2 ++ post) Ep) as H2.
        cbn [app] in H1, H2 |- *. cbn [segments_from].
        rewrite H1, H2.
        destruct (match_here (c :: pre)) as [[name len]|] eqn:Em.
        -- apply match_here_bounds in Em. cbn [length] in Em.
           f_equal. f_equal. apply IH. lia.
        -- apply IH. lia.
    + cbn [app segments_from]. apply IH. simpl in Hskip. lia.
Qed.

End BraceFacts.

Section RenderFacts.

Variable variableIDs : obj.
Variable val : jstring -> jstring.
Variable vars : list value.

Lemma render_app a b :
  render val vars (a ++ b) = render val vars a ++ render val vars b.
Proof. unfold render. now rewrite map_app, concat_app. Qed.

Lemma render_flush lit : render val vars (map stored (flush lit)) = lit.
Proof.
  unfold flush, render. destruct lit; simpl; [reflexivity|].
  now rewrite app_nil_r.
Qed.

(** A reference to what [variableIDs] answers under [n] renders as the
    value of [n]. *)
Definition resolves (n : jstring) : Prop :=
  render_part val vars (var_ref (member variableIDs n)) = val n.

Lemma render_segments l : forall i skip lit,
  (forall m, In m (matches_from l i skip) -> resolves (group1 m)) ->
  render val vars (map stored (segments_from variableIDs l skip lit)) =
  lit ++ substitute val l skip.
Proof.
  induction l as [|c l IH]; intros i skip lit H.
  - simpl. now rewrite render_flush, app_nil_r.
  - simpl in H. simpl segments_from. simpl substitute. destruct skip as [|k].
    + destruct (match_here (c :: l)) as [[n len]|].
      * rewrite map_app, render_app, render_flush. f_equal.
        cbn [map stored].
        change (var_ref (written (read variableIDs n)) :: ?r)
          with ([var_ref (member variableIDs n)] ++ r).
        rewrite render_app. rewrite (IH (S i)).
        -- simpl app at 2. f_equal.
           unfold render. simpl. rewrite app_nil_r.
           apply (H {| index := i; whole := firstn len (c :: l);
                       group1 := n |}). now left.
        -- intros m Hm. apply H. now right.
      * rewrite (IH (S i)) by assumption. now rewrite <- app_assoc.
    + now apply (IH (S i)).
Qed.

End RenderFacts.

Section ReferenceFacts.

Variable variableIDs : obj.

Lemma reference_ids_app a b :
  reference_ids (a ++ b) = reference_ids a ++ reference_ids b.
Proof. unfold reference_ids. now rewrite filter_app, map_app. Qed.

Lemma reference_ids_flush lit : reference_ids (map stored (flush lit)) = [].
Proof. unfold flush. now destruct lit. Qed.

Lemma reference_ids_ref v r :
  reference_ids (var_ref v :: r) = v :: reference_ids r.
Proof. reflexivity. Qed.

(** The references of a segment sequence are, in order, what
    [variableIDs] answers under the placeholder names of the template. *)
Lemma reference_ids_segments l : forall i skip lit,
  reference_ids (map stored (segments_from variableIDs l skip lit)) =
  map (fun m => member variableIDs (group1 m)) (matches_from l i skip).
Proof.
  induction l as [|c l IH]; intros i skip lit.
  - simpl. apply reference_ids_flush.
  - simpl. destruct skip as [|k].
    + destruct (match_here (c :: l)) as [[n len]|].
      * rewrite map_app, reference_ids_app, reference_ids_flush.
        cbn [map stored]. rewrite reference_ids_ref.
        simpl. f_equal. apply IH.
      * apply IH.
    + apply IH.
Qed.

Lemma reference_ids_tokens s :
  reference_ids (map stored (segments variableIDs s)) =
  map (member variableIDs) (placeholder_names s).
Proof.
  unfold segments, placeholder_names.
  rewrite (reference_ids_segments s 0 0 []). now rewrite map_map.
Qed.

(** Every segment is a literal or a reference that holds what
    [variableIDs] answers under the name of a placeholder. *)
Lemma segments_shape l : forall i skip lit p,
  In p (segments_from variableIDs l skip lit) ->
  (exists t, p = Literal t) \/
  (exists m, In m (matches_from l i skip) /\
             p = Reference (read variableIDs (group1 m))).
Proof.
  induction l as [|c l IH]; intros i skip lit p Hp.
  - simpl in Hp. unfold flush in Hp.
    destruct (non_empty lit); simpl in Hp; [|contradiction].
    destruct Hp as [<-|[]]. left. eauto.
  - simpl in Hp. simpl matches_from. destruct skip as [|k].
    + destruct (match_here (c :: l)) as [[n len]|].
      * apply in_app_or in Hp. destruct Hp as [Hp|[<-|Hp]].
        -- unfold flush in Hp.
           destruct (non_empty lit); simpl in Hp; [|contradiction].
           destruct Hp as [<-|[]]. left. eauto.
        -- right. eexists. split; [now left | reflexivity].
        -- destruct (IH (S i) _ _ _ Hp) as [H|(m & Hm & ->)]; [now left|].
           right. exists m. split; [now right | reflexivity].
      * eapply IH; eauto.
    + eapply IH; eauto.
Qed.

End ReferenceFacts.

(* ================================================================== *)
(** * The names found in the templates *)
(* ================================================================== *)

Section NameFacts.

Lemma str_eqb_eq a : forall b, str_eqb a b = true <-> a = b.
Proof.
  induction a as [|x a IH]; intros [|y b]; simpl; split; intros H;
    try discriminate; try reflexivity.
  - apply andb_true_iff in H. destruct H as [H1 H2].
    apply Ascii.eqb_eq in H1. apply IH in H2. now subst.
  - injection H as -> ->. apply andb_true_iff. split.
    + apply Ascii.eqb_refl.
    + now apply IH.
Qed.

Lemma str_eqb_refl a : str_eqb a a = true.
Proof. now apply str_eqb_eq. Qed.

Lemma str_eqb_neq a b : a <> b -> str_eqb a b = false.
Proof.
  intros H. destruct (str_eqb a b) eqn:E; [|reflexivity].
  apply str_eqb_eq in E. contradiction.
Qed.

Lemma existsb_str_eqb n l : existsb (str_eqb n) l = true <-> In n l.
Proof.
  rewrite existsb_exists. split.
  - intros (x & Hx & E). apply str_eqb_eq in E. now subst.
  - intros H. exists n. split; [assumption | apply str_eqb_refl].
Qed.

Lemma set_add_in n found x :
  In x (set_add n found) <-> x = n \/ In x found.
Proof.
  unfold set_add. destruct (existsb (str_eqb n) found) eqn:E.
  - apply existsb_str_eqb in E. split; [now right|].
    intros [->|H]; assumption.
  - rewrite in_app_iff. simpl. intuition.
Qed.

Lemma set_add_NoDup n found : NoDup found -> NoDup (set_add n found).
Proof.
  intros H. unfold set_add. destruct (existsb (str_eqb n) found) eqn:E;
    [assumption|].
  apply NoDup_app; intuition.
  - repeat constructor. intros [].
  - simpl in *. intuition. subst.
    apply existsb_str_eqb in H0. congruence.
Qed.

Lemma add_names_in names : forall found x,
  In x (add_names names found) <-> In x names \/ In x found.
Proof.
  induction names as [|n names IH]; intros found x; simpl.
  - intuition.
  - unfold add_names in *. simpl. rewrite IH, set_add_in. intuition.
Qed.

Lemma add_names_NoDup names : forall found,
  NoDup found -> NoDup (add_names names found).
Proof.
  induction names as [|n names IH]; intros found H; simpl; [assumption|].
  apply IH. now apply set_add_NoDup.
Qed.

Lemma add_names_app a b found :
  add_names (a ++ b) found = add_names b (add_names a found).
Proof. unfold add_names. apply fold_left_app. Qed.

Lemma scan_names_spec s found :
  scan_names s found = Some (add_names (placeholder_names s) found).
Proof.
  unfold scan_names. rewrite while_exec_matches. f_equal.
  unfold add_names, placeholder_names.
  generalize (matches_from s 0 0) found.
  induction l as [|m l IH]; intros f; simpl; [reflexivity | apply IH].
Qed.

End NameFacts.

(* ================================================================== *)
(** * Objects *)
(* ================================================================== *)

Section ObjectFacts.

Lemma lookup_obj_set_eq k v o : lookup k (obj_set k v o) = Some v.
Proof.
  induction o as [|[k' v'] o IH]; simpl.
  - now rewrite str_eqb_refl.
  - destruct (str_eqb k' k) eqn:E; simpl; rewrite E; [reflexivity | exact IH].
Qed.

Lemma lookup_obj_set_neq k k' v o :
  k <> k' -> lookup k' (obj_set k v o) = lookup k' o.
Proof.
  intros Hk. induction o as [|[k0 v0] o IH]; simpl.
  - now rewrite str_eqb_neq.
  - destruct (str_eqb k0 k) eqn:E; simpl.
    + apply str_eqb_eq in E. subst k0. now rewrite str_eqb_neq.
    + now rewrite IH.
Qed.

Lemma own_obj_set_eq k v o : own (obj_set k v o) k = v.
Proof. unfold own. now rewrite lookup_obj_set_eq. Qed.

Lemma own_obj_set_neq k k' v o :
  k <> k' -> own (obj_set k v o) k' = own o k'.
Proof. intros H. unfold own. now rewrite lookup_obj_set_neq. Qed.

Lemma obj_set_twice k v v' o : obj_set k v' (obj_set k v o) = obj_set k v' o.
Proof.
  induction o as [|[k0 v0] o IH]; simpl.
  - now rewrite str_eqb_refl.
  - destruct (str_eqb k0 k) eqn:E; simpl; rewrite E; [reflexivity|].
    now rewrite IH.
Qed.

Lemma obj_set_absent k v o :
  lookup k o = None -> obj_set k v o = o ++ [(k, v)].
Proof.
  induction o as [|[k0 v0] o IH]; simpl; intros H; [reflexivity|].
  destruct (str_eqb k0 k); [discriminate|]. now rewrite IH.
Qed.

Lemma lookup_app k o o' :
  lookup k (o ++ o') =
  match lookup k o with Some v => Some v | None => lookup k o' end.
Proof.
  induction o as [|[k0 v0] o IH]; simpl; [reflexivity|].
  destruct (str_eqb k0 k); [reflexivity | exact IH].
Qed.

Lemma lookup_not_in k o : ~ In k (map fst o) -> lookup k o = None.
Proof.
  induction o as [|[k0 v0] o IH]; simpl; intros H; [reflexivity|].
  rewrite str_eqb_neq by intuition. apply IH. intuition.
Qed.

End ObjectFacts.

(* ================================================================== *)
(** * The operator path, step by step *)
(* ================================================================== *)

Ltac key_neq :=
  let H := fresh in intro H; vm_compute in H; discriminate H.

Section OperatorSteps.

Variable random16 : nat -> nat.
Variable clock : nat -> jstring.

Lemma obj_set_same k v o : lookup k o = Some v -> obj_set k v o = o.
Proof.
  induction o as [|[k0 v0] o IH]; simpl; intros H; [discriminate|].
  destruct (str_eqb k0 k); [congruence|]. now rewrite IH.
Qed.

Lemma own_array_lookup data k l :
  own data k = VArr l -> lookup k data = Some (VArr l).
Proof. unfold own. destruct (lookup k data); congruence. Qed.

Lemma ensure_array_run k data (w : world) :
  ensure_array k (data, w) = Ok tt (ensured k data, w).
Proof.
  unfold ensure_array, ensured, bind, read_doc, write_field. simpl.
  now destruct (isArray (own data (js k))).
Qed.

Lemma own_ensured_eq k data :
  own (ensured k data) (js k) = VArr (array_field data k).
Proof.
  unfold ensured, array_field.
  destruct (own data (js k)) eqn:E; simpl; rewrite ?own_obj_set_eq;
    try reflexivity.
  exact E.
Qed.

Lemma own_ensured_neq k k' data :
  js k <> k' -> own (ensured k data) k' = own data k'.
Proof.
  intros H. unfold ensured. destruct (isArray (own data (js k)));
    [reflexivity | now apply own_obj_set_neq].
Qed.

Lemma push_run k x data (w : world) l :
  own data (js k) = VArr l ->
  push k x (data, w) = Ok tt (obj_set (js k) (VArr (l ++ [x])) data, w).
Proof.
  intros H. unfold push, push_all, bind, read_doc, write_field. simpl.
  now rewrite H.
Qed.

Lemma bind_ret {St A B} (x : A) (f : A -> M St B) s :
  bind (ret x) f s = f x s.
Proof. reflexivity. Qed.

Lemma bind_ok {St A B} (m : M St A) (f : A -> M St B) s x s' :
  m s = Ok x s' -> bind m f s = f x s'.
Proof. intros H. unfold bind. now rewrite H. Qed.

Lemma bind_generateMongoId {D B} (f : jstring -> M (D * world) B) data d t :
  bind (lift (generateMongoId random16)) f
    (data, {| draws := d; ticks := t |}) =
  f (mongo_at random16 d) (data, {| draws := d + 24; ticks := t |}).
Proof. reflexivity. Qed.

Lemma bind_now {D B} (f : jstring -> M (D * world) B) data d t :
  bind (lift (now clock)) f (data, {| draws := d; ticks := t |}) =
  f (clock t) (data, {| draws := d; ticks := S t |}).
Proof. reflexivity. Qed.

Lemma bind_push {B} k x (f : unit -> M doc_state B) data w l :
  own data (js k) = VArr l ->
  bind (push k x) f (data, w) =
  f tt (obj_set (js k) (VArr (l ++ [x])) data, w).
Proof. intros H. apply bind_ok. now apply push_run. Qed.

Lemma bind_ensure_array {B} k (f : unit -> M doc_state B) data w :
  bind (ensure_array k) f (data, w) = f tt (ensured k data, w).
Proof. apply bind_ok. apply ensure_array_run. Qed.

Lemma createVariables_fold a toolID names :
  forall acc data d t old,
    NoDup names ->
    (forall n, In n names -> lookup n acc = None) ->
    own data (js "apiToolInputVariables") = VArr old ->
    foldM (createVariable random16 clock a toolID) names acc
      (data, {| draws := d; ticks := t |}) =
    Ok (acc ++ snd (allocated random16 clock a toolID names d t))
       (obj_set (js "apiToolInputVariables")
          (VArr (old ++ fst (allocated random16 clock a toolID names d t)))
          data,
        {| draws := d + 24 * length names; ticks := t + length names |}).
Proof.
  induction names as [|n names IH]; intros acc data d t old Hnd Hacc Hold.
  - simpl. unfold ret. rewrite !app_nil_r, Nat.add_0_r.
    rewrite obj_set_same by now apply own_array_lookup.
    do 3 f_equal. lia.
  - simpl foldM.
    inversion Hnd as [|? ? Hn Hnd']; subst.
    erewrite bind_ok.
    2:{ unfold createVariable, hasOwn. rewrite Hacc by now left.
        rewrite bind_generateMongoId, bind_now.
        rewrite (bind_push _ _ _ _ _ _ Hold). reflexivity. }
    rewrite (IH _ _ _ _ (old ++ [inputVariable a (mongo_at random16 d) n
                                   toolID (clock t)])); try assumption.
    + cbn [allocated].
      destruct (allocated random16 clock a toolID names (d + 24) (S t))
        as [vars ids].
      cbn [fst snd]. unfold assign.
      destruct (str_eqb n (js "__proto__")).
      * rewrite obj_set_twice, <- !app_assoc. simpl app.
        simpl length. do 3 f_equal; lia.
      * rewrite obj_set_absent by (apply Hacc; now left).
        rewrite obj_set_twice, <- !app_assoc. simpl app.
        simpl length. do 3 f_equal; lia.
    + intros n' Hn'. unfold assign.
      destruct (str_eqb n (js "__proto__")); [apply Hacc; now right|].
      rewrite obj_set_absent by (apply Hacc; now left).
      rewrite lookup_app, Hacc by now right. simpl.
      rewrite str_eqb_neq; [reflexivity|]. intros ->. contradiction.
    + apply own_obj_set_eq.
Qed.

Lemma buildQueryParameters_fold variableIDs pairs :
  forall acc data d t,
    foldM (buildQueryParameter random16 variableIDs) pairs acc
      (data, {| draws := d; ticks := t |}) =
    Ok (acc ++ fst (query_parameters random16 variableIDs pairs d))
       (data,
        {| draws := snd (query_parameters random16 variableIDs pairs d);
           ticks := t |}).
Proof.
  induction pairs as [|qp pairs IH]; intros acc data d t.
  - simpl. unfold ret. now rewrite app_nil_r.
  - simpl foldM. simpl query_parameters.
    destruct (non_empty (fst qp)) eqn:E.
    + erewrite bind_ok.
      2:{ unfold buildQueryParameter. rewrite E, tokenize_segments.
          simpl of_option. rewrite bind_ret, bind_generateMongoId.
          reflexivity. }
      rewrite IH.
      destruct (query_parameters random16 variableIDs pairs (d + 24))
        as [qs d'].
      simpl. now rewrite <- app_assoc.
    + erewrite bind_ok.
      2:{ unfold buildQueryParameter. rewrite E. reflexivity. }
      apply IH.
Qed.

Lemma header_list_run hs : forall (data : obj) d t,
  mapM (fun h =>
          id <- lift (D := obj) (generateMongoId random16) ;;
          ret (keyValue id (header_key h) [VStr (header_value h)]))
       hs (data, {| draws := d; ticks := t |}) =
  Ok (header_list random16 hs d)
     (data, {| draws := d + 24 * length hs; ticks := t |}).
Proof.
  induction hs as [|h hs IH]; intros data d t.
  - simpl. unfold ret. do 3 f_equal. lia.
  - simpl mapM. erewrite bind_ok.
    2:{ rewrite bind_generateMongoId. reflexivity. }
    erewrite bind_ok by apply IH.
    unfold ret. simpl. do 3 f_equal. lia.
Qed.

Lemma buildHeaders_run headersInput data d t :
  buildHeaders random16 headersInput (data, {| draws := d; ticks := t |}) =
  Ok (headers_of random16 headersInput d)
     (data,
      {| draws := d + headers_draws headersInput; ticks := t |}).
Proof.
  unfold buildHeaders, headers_of, headers_draws.
  destruct (not_blank headersInput).
  - apply header_list_run.
  - unfold ret. do 3 f_equal. lia.
Qed.

Lemma buildBody_run variableIDs bodyTemplate (s : doc_state) :
  buildBody variableIDs bodyTemplate s = Ok (body_of variableIDs bodyTemplate) s.
Proof.
  unfold buildBody, body_of. destruct (not_blank bodyTemplate);
    [|reflexivity].
  rewrite tokenize_segments. reflexivity.
Qed.

Lemma replace_all_total s repl : exists r, replace_all s repl = Some r.
Proof.
  unfold replace_all. rewrite while_exec_matches.
  destruct (fold_left _ _ _) as [out last]. eauto.
Qed.

Lemma allVarNames_spec a :
  allVarNames a = Some (add_names (template_names a) []).
Proof.
  unfold allVarNames, template_names.
  rewrite scan_names_spec, !add_names_app.
  generalize (add_names (placeholder_names (url a)) []).
  generalize (queryParamPairs a).
  induction l as [|qp l IH]; intros found; simpl.
  - destruct (not_blank (bodyTemplate a)); [apply scan_names_spec|].
    reflexivity.
  - rewrite scan_names_spec, add_names_app. apply IH.
Qed.

Lemma findM_state {St A} (p : A -> M St bool) :
  (forall x s, exists b, p x s = Ok b s \/ p x s = Throw TypeError s) ->
  forall l s,
    (exists r, findM p l s = Ok r s) \/ findM p l s = Throw TypeError s.
Proof.
  intros Hp. induction l as [|x l IH]; intros s; simpl.
  - left. eexists. reflexivity.
  - unfold bind. destruct (Hp x s) as [b [H|H]]; rewrite H.
    + destruct b; [left; eexists; reflexivity | apply IH].
    + now right.
Qed.

Lemma url_text_joined_state {St} t (s : St) :
  (exists r, url_text_joined t s = Ok r s)
  \/ url_text_joined t s = Throw TypeError s.
Proof.
  unfold url_text_joined.
  destruct (truthy (get t "url") && truthy (idx (get t "url") 0)
            && truthy (get (idx (get t "url") 0) "text")).
  - destruct (get (idx (get t "url") 0) "text") as [| |b|z|s0|l|o];
      try (left; eexists; reflexivity).
    + unfold join_items. destruct (forallb stringifies l);
        [left; eexists; reflexivity | now right].
    + destruct (truthy (own o (js "join")));
        [now right | left; eexists; reflexivity].
  - left; eexists; reflexivity.
Qed.

Lemma is_duplicate_state {St} name urlStripped t (s : St) :
  exists b, is_duplicate name urlStripped t s = Ok b s
            \/ is_duplicate name urlStripped t s = Throw TypeError s.
Proof.
  assert (H : forall b0 : bool,
             exists b,
               (if strict_eq (get t "name") (VStr name) then ret true
                else joined <- url_text_joined t ;;
                     ret (str_eqb joined urlStripped)) s = Ok b s
               \/ (if strict_eq (get t "name") (VStr name) then ret true
                   else joined <- url_text_joined t ;;
                        ret (str_eqb joined urlStripped)) s
                  = Throw TypeError s).
  { intros _. destruct (strict_eq (get t "name") (VStr name)).
    - exists true. now left.
    - unfold bind. destruct (url_text_joined_state t s) as [[r ->]| ->].
      + eexists. left. reflexivity.
      + exists true. now right. }
  unfold is_duplicate.
  destruct t; try apply (H true); exists true; now right.
Qed.

Lemma array_field_ensured_neq k k' data :
  js k <> js k' -> array_field (ensured k data) k' = array_field data k'.
Proof. intros H. unfold array_field. now rewrite own_ensured_neq. Qed.

Lemma array_field_obj_set_neq k k' v data :
  k <> js k' -> array_field (obj_set k v data) k' = array_field data k'.
Proof. intros H. unfold array_field. now rewrite own_obj_set_neq. Qed.

Lemma creatorID_of_ensured k data :
  js k <> js "version" -> creatorID_of (ensured k data) = creatorID_of data.
Proof. intros H. unfold creatorID_of. now rewrite own_ensured_neq. Qed.

(** The outcomes of the operation: what a completed one leaves in the
    three collections, and that only a [TypeError], raised while the tools
    of the file are searched for a duplicate, makes it fail.  The loops over
    [varRegex] always come to their end. *)
Lemma addApiTool_outcome a file w :
  match addApiTool random16 clock a file w with
  | Written data w' =>
      own data (js "apiToolInputVariables") =
        VArr (array_field file "apiToolInputVariables"
                ++ op_variables random16 clock a w) /\
      own data (js "apiTools") =
        VArr (array_field file "apiTools"
                ++ [op_tool random16 clock a file w]) /\
      own data (js "agentAPITools") =
        VArr (array_field file "agentAPITools"
                ++ [op_link random16 clock a w])
  | Rejected _ => True
  | Failed e _ => e = TypeError
  end.
Proof.
  unfold addApiTool. rewrite allVarNames_spec.
  unfold addApiTool_mutation. destruct w as [d t].
  rewrite !bind_ensure_array.
  erewrite bind_ok by reflexivity.
  rewrite bind_generateMongoId.
  destruct (replace_all_total (url a) (js "{var}")) as [stripped ->].
  simpl of_option. rewrite bind_ret. cbn [fst snd].
  rewrite own_ensured_eq.
  set (data0 := ensured "apiTools" (ensured "apiToolInputVariables" file)).
  match goal with
  | |- context [bind (findM ?p ?l) _ ?s] =>
      destruct (findM_state p (is_duplicate_state (name a) stripped) l s)
        as [[r Hr]|Hr]
  end.
  2:{ unfold bind at 1. rewrite Hr. reflexivity. }
  erewrite bind_ok by exact Hr.
  destruct (match r with Some t0 => truthy t0 | None => false end);
    [exact I|].
  assert (Hvars : own data0 (js "apiToolInputVariables") =
                  VArr (array_field file "apiToolInputVariables")).
  { unfold data0. rewrite own_ensured_neq by key_neq.
    apply own_ensured_eq. }
  unfold createVariables.
  erewrite bind_ok.
  2:{ apply createVariables_fold.
      - apply add_names_NoDup. constructor.
      - reflexivity.
      - exact Hvars. }
  rewrite tokenize_segments. simpl of_option. rewrite bind_ret.
  unfold buildQueryParameters.
  erewrite bind_ok by apply buildQueryParameters_fold.
  erewrite bind_ok by apply buildHeaders_run.
  erewrite bind_ok by apply buildBody_run.
  rewrite !bind_now.
  erewrite bind_push.
  2:{ rewrite own_obj_set_neq by key_neq. unfold data0.
      apply own_ensured_eq. }
  rewrite bind_ensure_array, bind_generateMongoId, bind_now.
  erewrite bind_push by apply own_ensured_eq.
  unfold ret. cbv iota beta.
  rewrite own_obj_set_eq.
  rewrite !own_obj_set_neq by key_neq.
  rewrite !own_ensured_neq by key_neq.
  rewrite own_obj_set_eq.
  rewrite !own_obj_set_neq by key_neq.
  rewrite own_obj_set_eq.
  rewrite !array_field_ensured_neq by key_neq.
  rewrite !array_field_obj_set_neq by key_neq.
  unfold data0.
  rewrite !array_field_ensured_neq by key_neq.
  rewrite !creatorID_of_ensured by key_neq.
  repeat split.
Qed.

(** What a completed operation leaves in the three collections. *)
Lemma addApiTool_written a file w data w' :
  addApiTool random16 clock a file w = Written data w' ->
  own data (js "apiToolInputVariables") =
    VArr (array_field file "apiToolInputVariables"
            ++ op_variables random16 clock a w) /\
  own data (js "apiTools") =
    VArr (array_field file "apiTools" ++ [op_tool random16 clock a file w]) /\
  own data (js "agentAPITools") =
    VArr (array_field file "agentAPITools" ++ [op_link random16 clock a w]).
Proof.
  intros H. pose proof (addApiTool_outcome a file w) as Ho.
  rewrite H in Ho. exact Ho.
Qed.

End OperatorSteps.

(* ================================================================== *)
(** * The variable registry *)
(* ================================================================== *)

Section RegistryFacts.

Variable random16 : nat -> nat.
Variable clock : nat -> jstring.

Lemma mongo_at_truthy d : truthy (VStr (mongo_at random16 d)) = true.
Proof. reflexivity. Qed.

Lemma strict_eq_str a b : strict_eq (VStr a) (VStr b) = str_eqb a b.
Proof. reflexivity. Qed.

Lemma allocated_names a toolID names : forall d t,
  map (fun v => get v "name")
    (fst (allocated random16 clock a toolID names d t)) = map VStr names.
Proof.
  induction names as [|n names IH]; intros d t; [reflexivity|].
  cbn [allocated]. specialize (IH (d + 24) (S t)).
  destruct (allocated random16 clock a toolID names (d + 24) (S t)).
  cbn [fst map] in *. now rewrite IH.
Qed.

Lemma member_cons k v o k' :
  member ((k, v) :: o) k' = if str_eqb k k' then v else member o k'.
Proof. unfold member, read. simpl. now destruct (str_eqb k k'). Qed.

Lemma holds_cons k v o k' :
  holds (read ((k, v) :: o) k') =
  if str_eqb k k' then truthy v else holds (read o k').
Proof. unfold read. simpl. now destruct (str_eqb k k'). Qed.

Lemma member_lookup d k v : lookup k d = Some v -> member d k = v.
Proof. unfold member, read. now intros ->. Qed.

(** A dictionary answers under a name it holds, and under a name that
    [Object.prototype] does not have, what its own keys give. *)
Lemma member_own d k :
  hasOwn d k = true \/ inherited k = false -> member d k = own d k.
Proof.
  unfold member, read, own, hasOwn, inherited.
  destruct (lookup k d); [reflexivity|]. intros [H|H]; [discriminate|].
  apply orb_false_iff in H. destruct H as [-> ->]. reflexivity.
Qed.

Lemma holds_own d k :
  hasOwn d k = true \/ inherited k = false ->
  holds (read d k) = truthy (own d k).
Proof.
  unfold read, own, hasOwn, inherited.
  destruct (lookup k d); [reflexivity|]. intros [H|H]; [discriminate|].
  apply orb_false_iff in H. destruct H as [-> ->]. reflexivity.
Qed.

(** The dictionary of the operation never holds [__proto__]: under that
    name it answers [Object.prototype]. *)
Lemma allocated_proto a toolID names : forall d t,
  read (snd (allocated random16 clock a toolID names d t)) (js "__proto__")
  = Prototype.
Proof.
  induction names as [|n names IH]; intros d t; [reflexivity|].
  cbn [allocated]. specialize (IH (d + 24) (S t)).
  destruct (allocated random16 clock a toolID names (d + 24) (S t))
    as [vars ids].
  cbn [fst snd] in *.
  destruct (str_eqb n (js "__proto__")) eqn:E; [exact IH|].
  unfold read in *. cbn [lookup]. rewrite E. exact IH.
Qed.

(** Under every other name it holds the identifier of a record. *)
Lemma allocated_own_in a toolID names : forall d t n,
  In n names -> n <> js "__proto__" ->
  In (member (snd (allocated random16 clock a toolID names d t)) n)
     (map (fun v => get v "id")
        (fst (allocated random16 clock a toolID names d t))).
Proof.
  induction names as [|n0 names IH]; intros d t n Hn Hp; [contradiction|].
  cbn [allocated]. specialize (IH (d + 24) (S t) n).
  destruct (allocated random16 clock a toolID names (d + 24) (S t))
    as [vars ids].
  cbn [fst snd map] in *.
  destruct (str_eqb n0 n) eqn:E.
  - apply str_eqb_eq in E. subst n0.
    rewrite (str_eqb_neq _ _ Hp), member_cons, str_eqb_refl. now left.
  - assert (Hin : In n names).
    { destruct Hn as [->|Hn]; [now rewrite str_eqb_refl in E | exact Hn]. }
    right. destruct (str_eqb n0 (js "__proto__")); [now apply IH|].
    rewrite member_cons, E. now apply IH.
Qed.

(** What it answers under a name of the operation is truthy. *)
Lemma allocated_holds a toolID names : forall d t n,
  In n names ->
  holds (read (snd (allocated random16 clock a toolID names d t)) n) = true.
Proof.
  induction names as [|n0 names IH]; intros d t n Hn; [contradiction|].
  destruct (str_eqb n (js "__proto__")) eqn:Ep.
  { apply str_eqb_eq in Ep. subst n. now rewrite allocated_proto. }
  cbn [allocated]. specialize (IH (d + 24) (S t) n).
  destruct (allocated random16 clock a toolID names (d + 24) (S t))
    as [vars ids].
  cbn [fst snd] in *.
  destruct (str_eqb n0 n) eqn:E.
  - apply str_eqb_eq in E. subst n0.
    rewrite Ep, holds_cons, str_eqb_refl. reflexivity.
  - assert (Hin : In n names).
    { destruct Hn as [->|Hn]; [now rewrite str_eqb_refl in E | exact Hn]. }
    destruct (str_eqb n0 (js "__proto__")); [now apply IH|].
    rewrite holds_cons, E. now apply IH.
Qed.

(** With distinct names, there is one record of each name, and what the
    dictionary answers under a name other than [__proto__] is the
    identifier of that record. *)
Lemma allocated_id_for a toolID names : forall d t n,
  NoDup names -> In n names ->
  named (fst (allocated random16 clock a toolID names d t)) n <> [] /\
  length (named (fst (allocated random16 clock a toolID names d t)) n) = 1 /\
  (n <> js "__proto__" ->
   member (snd (allocated random16 clock a toolID names d t)) n =
   id_for (fst (allocated random16 clock a toolID names d t)) n).
Proof.
  induction names as [|n0 names IH]; intros d t n Hnd Hn; [contradiction|].
  inversion Hnd as [|? ? Hn0 Hnd']; subst.
  cbn [allocated]. specialize (IH (d + 24) (S t) n Hnd').
  pose proof (allocated_names a toolID names (d + 24) (S t)) as Hnames.
  destruct (allocated random16 clock a toolID names (d + 24) (S t))
    as [vars ids].
  cbn [fst snd] in *. unfold id_for, named. cbn [filter].
  change (get (inputVariable a (mongo_at random16 d) n0 toolID (clock t))
            "name") with (VStr n0).
  rewrite strict_eq_str.
  destruct (str_eqb n0 n) eqn:E.
  - apply str_eqb_eq in E. subst n0.
    assert (Hnone : filter (fun v => strict_eq (get v "name") (VStr n)) vars
                    = []).
    { clear IH. revert Hnames Hn0. generalize names. clear.
      induction vars as [|v vars IH]; intros names Hnames Hn0;
        [reflexivity|].
      destruct names as [|m names]; [discriminate|].
      simpl in Hnames. injection Hnames as Hv Hnames.
      simpl. rewrite Hv, strict_eq_str.
      rewrite str_eqb_neq by (intros ->; apply Hn0; now left).
      apply (IH names Hnames). intros H. apply Hn0. now right. }
    rewrite Hnone. split; [discriminate|]. split; [reflexivity|].
    intros Hp. rewrite (str_eqb_neq _ _ Hp), member_cons, str_eqb_refl.
    reflexivity.
  - destruct Hn as [->|Hn]; [now rewrite str_eqb_refl in E|].
    destruct (IH Hn) as (H1 & H2 & H3).
    split; [exact H1|]. split; [exact H2|].
    intros Hp. destruct (str_eqb n0 (js "__proto__")); [now apply H3|].
    rewrite member_cons, E. now apply H3.
Qed.

Lemma strict_eq_str_inv a v : strict_eq (VStr a) v = true -> v = VStr a.
Proof.
  destruct v; simpl; try discriminate. intros H.
  apply str_eqb_eq in H. now subst.
Qed.

(** With distinct identifiers, a reference to what the dictionary answers
    under a name other than [__proto__] resolves to that name. *)
Lemma allocated_resolves a toolID names : forall d t n,
  NoDup names ->
  NoDup (map (fun v => get v "id")
           (fst (allocated random16 clock a toolID names d t))) ->
  In n names -> n <> js "__proto__" ->
  name_of_id (fst (allocated random16 clock a toolID names d t))
    (member (snd (allocated random16 clock a toolID names d t)) n) = VStr n.
Proof.
  induction names as [|n0 names IH]; intros d t n Hnd Hids Hn Hp;
    [contradiction|].
  inversion Hnd as [|? ? Hn0 Hnd']; subst.
  cbn [allocated] in *. specialize (IH (d + 24) (S t) n Hnd').
  pose proof (allocated_own_in a toolID names (d + 24) (S t) n) as Hin.
  destruct (allocated random16 clock a toolID names (d + 24) (S t))
    as [vars ids].
  cbn [fst snd map] in *.
  change (get (inputVariable a (mongo_at random16 d) n0 toolID (clock t)) "id")
    with (VStr (mongo_at random16 d)) in Hids.
  inversion Hids as [|? ? Hid0 Hids']; subst.
  unfold name_of_id. cbn [find].
  change (get (inputVariable a (mongo_at random16 d) n0 toolID (clock t)) "id")
    with (VStr (mongo_at random16 d)).
  destruct (str_eqb n0 n) eqn:E.
  - apply str_eqb_eq in E. subst n0.
    rewrite (str_eqb_neq _ _ Hp), member_cons, str_eqb_refl.
    rewrite strict_eq_str, str_eqb_refl. reflexivity.
  - destruct Hn as [->|Hn]; [now rewrite str_eqb_refl in E|].
    assert (Hm : member (if str_eqb n0 (js "__proto__") then ids
                         else (n0, VStr (mongo_at random16 d)) :: ids) n
                 = member ids n).
    { destruct (str_eqb n0 (js "__proto__")); [reflexivity|].
      now rewrite member_cons, E. }
    rewrite Hm.
    destruct (strict_eq (VStr (mongo_at random16 d)) (member ids n)) eqn:Eq.
    + exfalso. apply Hid0. apply strict_eq_str_inv in Eq.
      rewrite <- Eq. now apply Hin.
    + now apply IH.
Qed.

End RegistryFacts.

(* ================================================================== *)
(** * The operator path: claims *)
(* ================================================================== *)

Section OperatorClaims.

Variable random16 : nat -> nat.
Variable clock : nat -> jstring.

Lemma appended_of before after k xs :
  own after (js k) = VArr (array_field before k ++ xs) ->
  appended before after k = xs.
Proof.
  intros H. unfold appended. unfold array_field at 2. rewrite H.
  rewrite skipn_app, skipn_all, Nat.sub_diag. reflexivity.
Qed.

Lemma op_names_in a n :
  In n (template_names a) -> In n (op_names a).
Proof. intros H. unfold op_names. apply add_names_in. now left. Qed.

Lemma op_names_NoDup a : NoDup (op_names a).
Proof. apply add_names_NoDup. constructor. Qed.

Lemma url_names_in a n :
  In n (placeholder_names (url a)) -> In n (template_names a).
Proof. intros H. unfold template_names. apply in_or_app. now left. Qed.

(** Round trip of tokenization under the names that the dictionary of the
    operation holds.  When an operation completes, the identifiers drawn
    for its variables are pairwise distinct and no placeholder of the URL
    is named [__proto__], the URL segments of the tool it appended, with
    every literal kept and every variable reference replaced by the test
    value of the variable it points to among the variables appended, spell
    the URL template with every placeholder replaced by the test value of
    the variable it names. *)
Lemma roundtrip_of_held_names a file w data w' (val : jstring -> jstring) :
  addApiTool random16 clock a file w = Written data w' ->
  NoDup (map (fun v => get v "id")
           (appended file data "apiToolInputVariables")) ->
  ~ In (js "__proto__") (placeholder_names (url a)) ->
  exists tool,
    appended file data "apiTools" = [tool] /\
    render val (appended file data "apiToolInputVariables") (url_parts tool)
    = substitute val (url a) 0.
Proof.
  intros Hrun Hids Hproto.
  destruct (addApiTool_written _ _ _ _ _ _ _ Hrun) as (Hvars & Htools & _).
  apply appended_of in Hvars, Htools. rewrite Hvars in *.
  exists (op_tool random16 clock a file w). split; [exact Htools|].
  change (url_parts (op_tool random16 clock a file w))
    with (map stored (segments (op_variableIDs random16 clock a w) (url a))).
  unfold segments.
  rewrite (render_segments _ val _ (url a) 0 0 []); [reflexivity|].
  intros m Hm. unfold resolves.
  change (render_part val ?vars (var_ref ?x))
    with (match name_of_id vars x with VStr n => val n | _ => [] end).
  assert (Hin : In (group1 m) (placeholder_names (url a)))
    by (unfold placeholder_names; now apply in_map).
  unfold op_variables, op_variableIDs, op_allocated in *.
  rewrite allocated_resolves; [reflexivity | apply op_names_NoDup
                               | exact Hids | |].
  - now apply op_names_in, url_names_in.
  - intros E. apply Hproto. now rewrite <- E.
Qed.

Lemma queryParamPairs_keys a :
  Forall (fun qp => non_empty (fst qp) = true) (queryParamPairs a).
Proof.
  unfold queryParamPairs. apply Forall_forall. intros qp H.
  apply filter_In in H. tauto.
Qed.

Lemma query_parameters_references variableIDs pairs : forall d,
  Forall (fun qp => non_empty (fst qp) = true) pairs ->
  flat_map (fun qp => reference_ids (value_parts qp))
    (fst (query_parameters random16 variableIDs pairs d)) =
  flat_map (fun qp => map (member variableIDs) (placeholder_names (snd qp)))
    pairs.
Proof.
  induction pairs as [|qp pairs IH]; intros d H; [reflexivity|].
  inversion H as [|? ? Hk H']; subst.
  simpl query_parameters. rewrite Hk.
  specialize (IH (d + 24) H').
  destruct (query_parameters random16 variableIDs pairs (d + 24)) as [qs d'].
  simpl fst in *. simpl flat_map. rewrite IH. f_equal.
  change (value_parts (keyValue ?i ?k ?parts)) with parts.
  apply reference_ids_tokens.
Qed.

Lemma map_flat_map {A B C} (f : B -> C) (g : A -> list B) l :
  map f (flat_map g l) = flat_map (fun x => map f (g x)) l.
Proof.
  induction l as [|x l IH]; simpl; [reflexivity|].
  now rewrite map_app, IH.
Qed.

(** The filter of lines 435-440 drops nothing when the dictionary answers
    something truthy under every placeholder name. *)
Lemma body_filter_keeps variableIDs s :
  (forall n, In n (placeholder_names s) ->
             holds (read variableIDs n) = true) ->
  filter kept (segments variableIDs s) = segments variableIDs s.
Proof.
  intros H. apply forallb_filter_id. apply forallb_forall. intros p Hp.
  destruct (segments_shape variableIDs s 0 0 [] p Hp)
    as [[t ->]|(m & Hm & ->)]; [reflexivity|].
  cbn [kept]. apply H. unfold placeholder_names. now apply in_map.
Qed.

(** The body template of a completed operation loses no segment to the
    filter. *)
Lemma op_body_kept a w :
  filter kept (segments (op_variableIDs random16 clock a w) (bodyTemplate a))
  = segments (op_variableIDs random16 clock a w) (bodyTemplate a)
  \/ not_blank (bodyTemplate a) = false.
Proof.
  destruct (not_blank (bodyTemplate a)) eqn:Eb; [left | now right].
  apply body_filter_keeps. intros n Hn.
  unfold op_variableIDs, op_allocated. apply allocated_holds.
  apply op_names_in. unfold template_names. rewrite Eb.
  apply in_or_app. right. apply in_or_app. now right.
Qed.

(** Per-tool uniqueness of the variable names.  When an operation
    completes, the variables it appended hold exactly one record for each
    placeholder name of the URL, the query-parameter values and the body;
    and when none of these names is [__proto__], the variable references
    of the tool it appended, read in the order URL, query parameters,
    body, are occurrence by occurrence the identifiers of the records
    named by the placeholders. *)
Lemma references_of_held_names a file w data w' :
  addApiTool random16 clock a file w = Written data w' ->
  exists tool,
    appended file data "apiTools" = [tool] /\
    (forall n, In n (template_names a) ->
       length (named (appended file data "apiToolInputVariables") n) = 1) /\
    (~ In (js "__proto__") (template_names a) ->
     tool_references tool =
     map (id_for (appended file data "apiToolInputVariables"))
       (template_names a)).
Proof.
  intros Hrun.
  destruct (addApiTool_written _ _ _ _ _ _ _ Hrun) as (Hvars & Htools & _).
  apply appended_of in Hvars, Htools. rewrite Hvars.
  exists (op_tool random16 clock a file w). split; [exact Htools|].
  unfold op_variables, op_allocated.
  split.
  - intros n Hn.
    apply (allocated_id_for random16 clock _ (op_toolID random16 w)
             (op_names a) (draws w + 24) (ticks w) n (op_names_NoDup a)
             (op_names_in a n Hn)).
  - intros Hproto.
    assert (Hid : forall n, In n (template_names a) ->
                    member (op_variableIDs random16 clock a w) n =
                    id_for (fst (allocated random16 clock
                                   (variableDescriptions a (op_names a))
                                   (op_toolID random16 w) (op_names a)
                                   (draws w + 24) (ticks w))) n).
    { intros n Hn. unfold op_variableIDs, op_allocated.
      apply (allocated_id_for random16 clock _ (op_toolID random16 w)
               (op_names a) (draws w + 24) (ticks w) n (op_names_NoDup a)
               (op_names_in a n Hn)).
      intros E. apply Hproto. now rewrite <- E. }
    rewrite <- (map_ext_in _ _ _ Hid).
    unfold template_names. rewrite !map_app, map_flat_map.
    unfold tool_references.
    change (url_parts (op_tool random16 clock a file w))
      with (map stored
              (segments (op_variableIDs random16 clock a w) (url a))).
    change (parts_of (get (op_tool random16 clock a file w) "queryParameters"))
      with (fst (op_query random16 clock a w)).
    change (body_parts (op_tool random16 clock a file w))
      with (parts_of
              (get (body_of (op_variableIDs random16 clock a w)
                      (bodyTemplate a)) "content")).
    rewrite reference_ids_tokens. f_equal.
    unfold op_query.
    rewrite query_parameters_references by apply queryParamPairs_keys.
    f_equal.
    unfold body_of. destruct (op_body_kept a w) as [Hk|Hk].
    + destruct (not_blank (bodyTemplate a)); [|reflexivity].
      change (parts_of (get (rawInputBody ?parts) "content")) with parts.
      rewrite Hk. apply reference_ids_tokens.
    + now rewrite Hk.
Qed.







(** X1.  The body of the tool appended by a completed operation: absent for a
    method other than post, put and patch, and a raw input when the method
    is one of these, the operator asked for a body and the template is
    not blank. *)
Lemma operator_body_gated a file w data w' :
  addApiTool random16 clock a file w = Written data w' ->
  exists tool,
    appended file data "apiTools" = [tool] /\
    (carries_body (method_text (httpMethod a)) = false ->
     get tool "body" = VNull) /\
    (carries_body (method_text (httpMethod a)) = true ->
     wantsBody a = true -> not_blank (bodyInput a) = true ->
     get (get tool "body") "type" = VStr (js "raw-input")).
Proof.
  intros Hrun.
  destruct (addApiTool_written _ _ _ _ _ _ _ Hrun) as (_ & Htools & _).
  apply appended_of in Htools.
  exists (op_tool random16 clock a file w). split; [exact Htools|].
  change (get (op_tool random16 clock a file w) "body")
    with (body_of (op_variableIDs random16 clock a w) (bodyTemplate a)).
  assert (Hlow : carries_body (toLowerCase (method_text (httpMethod a)))
                 = carries_body (method_text (httpMethod a)))
    by now destruct (httpMethod a).
  unfold body_of, bodyTemplate. rewrite Hlow. split.
  - intros ->. reflexivity.
  - intros -> -> ->. reflexivity.
Qed.

(** The link appended by a completed operation. *)
Lemma operator_link a file w data w' :
  addApiTool random16 clock a file w = Written data w' ->
  exists tool link,
    appended file data "apiTools" = [tool] /\
    appended file data "agentAPITools" = [link] /\
    get link "agentID" = selectedAgentId a /\
    get link "apiToolID" = get tool "id".
Proof.
  intros Hrun.
  destruct (addApiTool_written _ _ _ _ _ _ _ Hrun) as (_ & Htools & Hlinks).
  apply appended_of in Htools, Hlinks.
  exists (op_tool random16 clock a file w), (op_link random16 clock a w).
  repeat split; assumption.
Qed.

(** The method of the tool appended by a completed operation is one of
    the five choices of the prompt. *)
Lemma operator_method a file w data w' :
  addApiTool random16 clock a file w = Written data w' ->
  exists tool,
    appended file data "apiTools" = [tool] /\
    In (get tool "httpMethod")
       (map VStr [js "get"; js "post"; js "put"; js "patch"; js "delete"]).
Proof.
  intros Hrun.
  destruct (addApiTool_written _ _ _ _ _ _ _ Hrun) as (_ & Htools & _).
  apply appended_of in Htools.
  exists (op_tool random16 clock a file w). split; [exact Htools|].
  change (get (op_tool random16 clock a file w) "httpMethod")
    with (VStr (method_text (httpMethod a))).
  destruct (httpMethod a); simpl; tauto.
Qed.

(** X6.  [generateMongoId] returns 24 characters, each a lower-case
    hexadecimal digit, and uses 24 draws. *)
Theorem generateMongoId_hex w :
  exists id,
    generateMongoId random16 w
    = Ok id {| draws := draws w + 24; ticks := ticks w |} /\
    length id = 24 /\
    Forall (fun c => In c (js "0123456789abcdef")) id.
Proof.
  eexists. split; [reflexivity|]. split.
  - unfold mongo_at. now rewrite length_map, length_seq.
  - unfold mongo_at. apply Forall_map, Forall_forall. intros i _.
    unfold hex_digit. apply nth_In.
    change (length (js "0123456789abcdef")) with 16.
    apply Nat.mod_upper_bound. discriminate.
Qed.

Lemma is_duplicate_searchable {St} name urlStripped t (s : St) :
  searchable t = true ->
  exists b,
    is_duplicate name urlStripped t s = Ok b s /\
    (get t "name" = VStr name -> b = true).
Proof.
  unfold searchable. intros H. apply andb_true_iff in H.
  destruct H as [Ht Hj].
  assert (Hd : is_duplicate name urlStripped t s =
               (if strict_eq (get t "name") (VStr name) then ret true
                else joined <- url_text_joined t ;;
                     ret (str_eqb joined urlStripped)) s)
    by (destruct t; try discriminate Ht; reflexivity).
  rewrite Hd. destruct (strict_eq (get t "name") (VStr name)) eqn:E.
  - exists true. split; reflexivity.
  - assert (Hu : exists r, url_text_joined t s = Ok r s).
    { unfold url_text_joined.
      destruct (truthy (get t "url") && truthy (idx (get t "url") 0)
                && truthy (get (idx (get t "url") 0) "text"));
        [|eexists; reflexivity].
      destruct (get (idx (get t "url") 0) "text") as [| |b|z|s0|l|o];
        try (eexists; reflexivity).
      - unfold join_items. rewrite Hj. eexists; reflexivity.
      - apply negb_true_iff in Hj. rewrite Hj. eexists; reflexivity. }
    destruct Hu as [r Hu]. unfold bind. rewrite Hu.
    eexists. split; [reflexivity|].
    intros Hn. rewrite Hn in E. cbn in E. now rewrite str_eqb_refl in E.
Qed.

Lemma findM_hit {St} name urlStripped t (s : St) : forall l,
  Forall (fun x => searchable x = true) l ->
  In t l -> get t "name" = VStr name ->
  exists x,
    findM (is_duplicate name urlStripped) l s = Ok (Some x) s /\
    truthy x = true.
Proof.
  induction l as [|x l IH]; intros Hall Hin Hn; [destruct Hin|].
  inversion Hall as [|x0 l0 Hx Hl]; subst.
  destruct (is_duplicate_searchable name urlStripped x s Hx)
    as (b & Hb & Hname).
  cbn [findM]. unfold bind. rewrite Hb. destruct b.
  - exists x. split; [reflexivity|].
    unfold searchable in Hx. now apply andb_true_iff in Hx.
  - destruct Hin as [->|Hin]; [now specialize (Hname Hn)|].
    now apply IH.
Qed.

(** X2.  Duplicate rejection by name on the operator path.  When the file
    holds a tool of the name given, among tools that the search can read,
    the operation stops after it has drawn the identifier of the tool:
    nothing is written and the file is as it was. *)
Theorem duplicate_name_rejected a file w t :
  Forall (fun x => searchable x = true) (array_field file "apiTools") ->
  In t (array_field file "apiTools") ->
  get t "name" = VStr (name a) ->
  addApiTool random16 clock a file w
  = Rejected {| draws := draws w + 24; ticks := ticks w |} /\
  file_after file (addApiTool random16 clock a file w) = file.
Proof.
  intros Hall Hin Hn.
  assert (H : addApiTool random16 clock a file w
              = Rejected {| draws := draws w + 24; ticks := ticks w |}).
  { unfold addApiTool. rewrite allVarNames_spec.
    unfold addApiTool_mutation. destruct w as [d k].
    rewrite !bind_ensure_array.
    erewrite bind_ok by reflexivity.
    rewrite bind_generateMongoId.
    destruct (replace_all_total (url a) (js "{var}")) as [stripped ->].
    simpl of_option. rewrite bind_ret. cbn [fst snd].
    rewrite own_ensured_eq.
    rewrite array_field_ensured_neq by key_neq.
    match goal with
    | |- context [bind (findM _ _) _ ?s] =>
        destruct (findM_hit (name a) stripped t s _ Hall Hin Hn)
          as (x & Hx & Htruthy)
    end.
    erewrite bind_ok by exact Hx.
    cbv iota. rewrite Htruthy. reflexivity. }
  split; [exact H | now rewrite H].
Qed.

(** X3.  The outcomes of the operator path: a document written, a duplicate
    reported, or a [TypeError] raised by the search for a duplicate.  The
    loops over [varRegex] of the name collection, of the wildcard form of
    the URL and of the tokenizer always come to their end. *)
Theorem operator_outcome a file w :
  (exists data w', addApiTool random16 clock a file w = Written data w') \/
  (exists w', addApiTool random16 clock a file w = Rejected w') \/
  (exists w', addApiTool random16 clock a file w = Failed TypeError w').
Proof.
  pose proof (addApiTool_outcome random16 clock a file w) as H.
  destruct (addApiTool random16 clock a file w) as [data w'|w'|e w'].
  - left. eauto.
  - right. left. eauto.
  - right. right. subst e. eauto.
Qed.

(** X5.  Brace equivalence.  A placeholder written with one pair of braces
    and the same placeholder written with two pairs give the same
    segments, wherever it stands in the template. *)
Theorem brace_equivalence variableIDs pre n post :
  forallb is_name_char n = true -> non_empty n = true ->
  tokenize variableIDs (pre ++ js "{" ++ n ++ js "}" ++ post) =
  tokenize variableIDs (pre ++ js "{{" ++ n ++ js "}}" ++ post).
Proof.
  intros Hn Hn'. rewrite !tokenize_segments. f_equal. unfold segments.
  apply segments_braces; try reflexivity; try assumption. lia.
Qed.

(** X4.  The tokenizer returns on every template and every dictionary,
    with the segments that the recursion on the text gives: the literals
    between the placeholders and, for each placeholder, a reference that
    holds what the dictionary reads under its name, which is what
    [Object.prototype] holds when the name is no own key. *)
Theorem tokenizer_total variableIDs s :
  tokenize variableIDs s = Some (segments variableIDs s).
Proof. apply tokenize_segments. Qed.

End OperatorClaims.

Lemma brace_equivalence_witness :
  forallb is_name_char (js "id") = true /\
  non_empty (js "id") = true /\
  tokenize [(js "id", VStr (js "v1"))]
    (js "/users/" ++ js "{" ++ js "id" ++ js "}" ++ js "/posts") =
  tokenize [(js "id", VStr (js "v1"))]
    (js "/users/" ++ js "{{" ++ js "id" ++ js "}}" ++ js "/posts").
Proof.
  split; [reflexivity|]. split; [reflexivity|].
  apply (brace_equivalence [(js "id", VStr (js "v1"))] (js "/users/")
           (js "id") (js "/posts")); reflexivity.
Defined.

Lemma operator_body_gated_witness :
  exists data w',
    addApiTool Samples.random16 Samples.clock Samples.answers_post
      Samples.file Samples.start = Written data w' /\
    exists tool,
      appended Samples.file data "apiTools" = [tool] /\
      (carries_body (method_text (httpMethod Samples.answers_post)) = false ->
       get tool "body" = VNull) /\
      (carries_body (method_text (httpMethod Samples.answers_post)) = true ->
       wantsBody Samples.answers_post = true ->
       not_blank (bodyInput Samples.answers_post) = true ->
       get (get tool "body") "type" = VStr (js "raw-input")).
Proof.
  do 2 eexists. split; [vm_compute; reflexivity|].
  eapply (operator_body_gated Samples.random16 Samples.clock
            Samples.answers_post Samples.file Samples.start).
  vm_compute. reflexivity.
Defined.

Lemma duplicate_name_rejected_witness :
  exists t,
    In t (array_field Samples.file_with_user "apiTools") /\
    get t "name" = VStr (name Samples.answers_user) /\
    addApiTool Samples.random16 Samples.clock Samples.answers_user
      Samples.file_with_user Samples.start
    = Rejected {| draws := draws Samples.start + 24;
                  ticks := ticks Samples.start |} /\
    file_after Samples.file_with_user
      (addApiTool Samples.random16 Samples.clock Samples.answers_user
         Samples.file_with_user Samples.start)
    = Samples.file_with_user.
Proof.
  eexists. split; [vm_compute; left; reflexivity|].
  split; [vm_compute; reflexivity|].
  eapply (duplicate_name_rejected Samples.random16 Samples.clock
            Samples.answers_user Samples.file_with_user Samples.start).
  - vm_compute. repeat constructor.
  - vm_compute. left. reflexivity.
  - vm_compute. reflexivity.
Defined.

Lemma roundtrip_of_held_names_sample :
  exists data w',
    addApiTool Samples.random16 Samples.clock Samples.answers_get
      Samples.file Samples.start = Written data w' /\
    exists tool,
      appended Samples.file data "apiTools" = [tool] /\
      render Samples.test_value
        (appended Samples.file data "apiToolInputVariables") (url_parts tool)
      = substitute Samples.test_value (url Samples.answers_get) 0.
Proof.
  eexists. eexists. split; [vm_compute; reflexivity|].
  eapply (roundtrip_of_held_names Samples.random16 Samples.clock
            Samples.answers_get Samples.file Samples.start).
  - vm_compute. reflexivity.
  - vm_compute. repeat constructor; simpl; intuition discriminate.
  - vm_compute. intuition discriminate.
Defined.

Lemma references_of_held_names_sample :
  exists data w',
    addApiTool Samples.random16 Samples.clock Samples.answers_post
      Samples.file Samples.start = Written data w' /\
    exists tool,
      appended Samples.file data "apiTools" = [tool] /\
      (forall n, In n (template_names Samples.answers_post) ->
         length (named (appended Samples.file data "apiToolInputVariables") n)
         = 1) /\
      tool_references tool =
      map (id_for (appended Samples.file data "apiToolInputVariables"))
        (template_names Samples.answers_post).
Proof.
  destruct (addApiTool Samples.random16 Samples.clock Samples.answers_post
              Samples.file Samples.start) as [data w'|w'|e w'] eqn:Hrun;
    try (vm_compute in Hrun; discriminate Hrun).
  exists data, w'. split; [reflexivity|].
  destruct (references_of_held_names _ _ _ _ _ _ _ Hrun)
    as (tool & H1 & H2 & H3).
  exists tool. split; [exact H1|]. split; [exact H2|].
  apply H3. vm_compute. intuition discriminate.
Qed.

(** C1.  The round trip of tokenization breaks on the placeholder
    [{__proto__}].  For the URL template
    [https://api.example.com/users/{__proto__}] the operation completes and
    appends one variable, named [__proto__]; the URL of the tool it
    appended is the literal [https://api.example.com/users/] followed by a
    reference that holds [Object.prototype], written [{}], and not the
    identifier of that variable.  With the test values substituted, the
    segments spell [https://api.example.com/users/] where the template
    spells [https://api.example.com/users/<__proto__>]. *)
Theorem proto_placeholder_breaks_roundtrip :
  exists data w' tool v,
    addApiTool Samples.random16 Samples.clock Samples.answers_proto
      Samples.file Samples.start = Written data w' /\
    appended Samples.file data "apiTools" = [tool] /\
    appended Samples.file data "apiToolInputVariables" = [v] /\
    get v "name" = VStr (js "__proto__") /\
    get v "id" = VStr (js "111111111111111111111111") /\
    url_parts tool =
      [VStr (js "https://api.example.com/users/"); var_ref (VObj [])] /\
    render Samples.test_value [v] (url_parts tool) =
      js "https://api.example.com/users/" /\
    substitute Samples.test_value (url Samples.answers_proto) 0 =
      js "https://api.example.com/users/<__proto__>".
Proof.
  do 4 eexists. split; [vm_compute; reflexivity|].
  split; [vm_compute; reflexivity|]. split; [vm_compute; reflexivity|].
  repeat split; vm_compute; reflexivity.
Qed.

(** C6.  The references to the name [__proto__] carry no variable's
    identifier.  For the URL template
    [https://api.example.com/{__proto__}/items], the query parameter
    [of={__proto__}] and the body [{__proto__}] of a [post], the operation
    completes and appends one variable named [__proto__], with an
    identifier of its own; the three references of the tool it appended
    all hold [Object.prototype], written [{}], not that identifier. *)
Theorem proto_references_carry_no_id :
  exists data w' tool v,
    addApiTool Samples.random16 Samples.clock Samples.answers_proto_thrice
      Samples.file Samples.start = Written data w' /\
    appended Samples.file data "apiTools" = [tool] /\
    appended Samples.file data "apiToolInputVariables" = [v] /\
    template_names Samples.answers_proto_thrice =
      [js "__proto__"; js "__proto__"; js "__proto__"] /\
    get v "name" = VStr (js "__proto__") /\
    id_for [v] (js "__proto__") = VStr (js "111111111111111111111111") /\
    tool_references tool = [VObj []; VObj []; VObj []].
Proof.
  do 4 eexists. split; [vm_compute; reflexivity|].
  split; [vm_compute; reflexivity|]. split; [vm_compute; reflexivity|].
  repeat split; vm_compute; reflexivity.
Qed.


(* ================================================================== *)
(** * The generator path: claims *)
(* ================================================================== *)

Section GeneratorClaims.

Variable random16 : nat -> nat.
Variable clock : nat -> jstring.

(** C9.  Atomicity on malformed generator output.  An input that is
    [null], [undefined] or no object makes [addApiToolFromJson] throw its
    [Invalid AI tool JSON] error in the state it was called in: the
    document is unchanged, nothing is appended, no identifier is drawn. *)
Theorem malformed_payload_rejected aiJson (vfData : obj) (w : world) :
  aiJson = VNull \/ typeof aiJson <> TObject ->
  addApiToolFromJson random16 clock aiJson (vfData, w) =
  Throw InvalidGeneratorOutput (vfData, w).
Proof.
  intros [->|H]; [reflexivity|].
  assert (Hobj : is_object aiJson = false).
  { unfold is_object. destruct (typeof aiJson); congruence. }
  unfold addApiToolFromJson. rewrite Hobj.
  change (negb false) with true. now rewrite orb_true_r.
Qed.

(** The file is then left as it was. *)
Lemma malformed_payload_file aiJson file w :
  aiJson = VNull \/ typeof aiJson <> TObject ->
  file_after file
    (match addApiToolFromJson random16 clock aiJson (file, w) with
     | Ok _ (vfData, w') => Written vfData w'
     | Throw e (_, w') => Failed e w'
     end) = file.
Proof.
  intros H. now rewrite malformed_payload_rejected.
Qed.

Lemma bind_inv {St A B} (m : M St A) (f : A -> M St B) s b s' :
  bind m f s = Ok b s' ->
  exists x s1, m s = Ok x s1 /\ f x s1 = Ok b s'.
Proof.
  unfold bind. destruct (m s) as [x s1|e s1]; [eauto | discriminate].
Qed.

Lemma lift_inv {D W A} (m : M W A) (d : D) w x s' :
  lift m (d, w) = Ok x s' -> exists w', m w = Ok x w' /\ s' = (d, w').
Proof.
  unfold lift. simpl. destruct (m w) as [y w'|e w']; [|discriminate].
  intros H. injection H as -> <-. eauto.
Qed.

Lemma push_all_run k xs data (w : world) l :
  own data (js k) = VArr l ->
  push_all k xs (data, w) = Ok tt (obj_set (js k) (VArr (l ++ xs)) data, w).
Proof.
  intros H. unfold push_all, bind, read_doc, write_field. simpl.
  now rewrite H.
Qed.

(** What a completed [linkToFirstAgent] leaves in the document. *)
Lemma linkToFirstAgent_ok apiToolID data w data' w' :
  linkToFirstAgent random16 clock apiToolID (data, w) = Ok tt (data', w') ->
  data' =
    obj_set (js "agentAPITools")
      (VArr (array_field data "agentAPITools"
               ++ (if truthy (first_agent_id data)
                   then [agentLink (mongo_at random16 (draws w))
                           (first_agent_id data) apiToolID (clock (ticks w))]
                   else [])))
      (ensured "agentAPITools" data).
Proof.
  unfold linkToFirstAgent. rewrite bind_ensure_array.
  erewrite bind_ok by reflexivity. cbn [fst].
  rewrite own_ensured_neq by key_neq.
  unfold first_agent_id.
  destruct (own data (js "agents")) as [| | | | |[|a0 agents]|] eqn:Ea;
    try (rewrite bind_ret; cbn [truthy]; unfold ret; intros H;
         injection H as <- <-; rewrite app_nil_r;
         symmetry; apply obj_set_same, own_array_lookup, own_ensured_eq).
  destruct a0; try (intros H; discriminate H);
    rewrite bind_ret;
    match goal with
    | |- context [truthy ?x] => destruct (truthy x)
    end;
    try (unfold ret; intros H; injection H as <- <-; rewrite app_nil_r;
         symmetry; apply obj_set_same, own_array_lookup, own_ensured_eq);
    destruct w as [d t];
    rewrite bind_generateMongoId, bind_now;
    rewrite (push_run _ _ _ _ _ (own_ensured_eq _ _));
    intros H; injection H as <- <-; reflexivity.
Qed.

Lemma lookup_filter_key (p : jstring -> bool) k o :
  lookup k (filter (fun kv => p (fst kv)) o) =
  if p k then lookup k o else None.
Proof.
  induction o as [|[k0 v0] o IH]; simpl; [now destruct (p k)|].
  destruct (p k0) eqn:E0; simpl.
  - destruct (str_eqb k0 k) eqn:E.
    + apply str_eqb_eq in E. subst k0. now rewrite E0.
    + exact IH.
  - rewrite IH. destruct (str_eqb k0 k) eqn:E; [|reflexivity].
    apply str_eqb_eq in E. subst k0. now rewrite E0.
Qed.

Lemma own_project k o :
  own (project o) k =
  if existsb (str_eqb k) allowedFields then own o k else VUndef.
Proof.
  unfold own, project.
  rewrite (lookup_filter_key (fun k => existsb (str_eqb k) allowedFields)).
  now destruct (existsb (str_eqb k) allowedFields).
Qed.

Lemma own_default_to_eq k v o :
  own (default_to k v o) (js k) = or_else (own o (js k)) v.
Proof.
  unfold default_to, or_else.
  destruct (truthy (own o (js k))); [reflexivity | apply own_obj_set_eq].
Qed.

Lemma own_default_to_neq k k' v o :
  js k <> k' -> own (default_to k v o) k' = own o k'.
Proof.
  intros H. unfold default_to.
  destruct (truthy (own o (js k))); [reflexivity|].
  now apply own_obj_set_neq.
Qed.

Lemma own_if_set (b : bool) k k' v o :
  k <> k' -> own (if b then obj_set k v o else o) k' = own o k'.
Proof. intros H. destruct b; [now apply own_obj_set_neq | reflexivity]. Qed.

Ltac own_chain :=
  repeat first [ rewrite own_if_set by key_neq
               | rewrite own_default_to_neq by key_neq
               | rewrite own_obj_set_neq by key_neq ].

Lemma own_stampTool newToolId createdAt updatedAt o k :
  ~ In k (map js ["id"; "createdByID"; "folderID"; "createdAt";
                  "updatedAt"; "updatedByID"]%string) ->
  own (stampTool newToolId createdAt updatedAt o) k = own o k.
Proof.
  intros H. unfold stampTool. cbv zeta.
  rewrite !own_obj_set_neq; try reflexivity;
    intros <-; apply H; simpl; tauto.
Qed.

Lemma own_coerceUrl_other o k :
  js "url" <> k -> own (coerceUrl o) k = own o k.
Proof.
  intros H. unfold coerceUrl. cbv zeta.
  now rewrite !own_if_set.
Qed.

Lemma own_defaultFields_method o :
  own o (js "method") = VUndef ->
  own (defaultFields o) (js "httpMethod")
  = or_else (own o (js "httpMethod")) (VStr (js "get")).
Proof.
  intros Hm. unfold defaultFields. cbv zeta. own_chain.
  rewrite own_default_to_eq. own_chain. rewrite Hm. cbn [truthy].
  rewrite andb_false_r. now own_chain.
Qed.

Lemma own_defaultFields_query o :
  own (defaultFields o) (js "queryParameters")
  = or_else (own o (js "queryParameters")) (VArr []).
Proof.
  unfold defaultFields. cbv zeta. own_chain.
  rewrite own_default_to_eq. now own_chain.
Qed.

Lemma own_defaultFields_url o :
  own (defaultFields o) (js "url")
  = or_else (own o (js "url")) (VArr [text_of [VStr []]]).
Proof.
  unfold defaultFields. cbv zeta. own_chain.
  rewrite own_default_to_eq. now own_chain.
Qed.

Lemma own_defaultFields_body o :
  own (defaultFields o) (js "body") = or_else (own o (js "body")) VNull.
Proof.
  unfold defaultFields. cbv zeta. own_chain.
  rewrite own_default_to_eq. now own_chain.
Qed.

(** Lines 353-354 on the projected tool: the method kept is the
    payload's own [httpMethod], or [get]. *)
Lemma applyDefaults_method newToolId createdAt updatedAt o :
  own (applyDefaults newToolId createdAt updatedAt (project o))
    (js "httpMethod")
  = or_else (own o (js "httpMethod")) (VStr (js "get")).
Proof.
  unfold applyDefaults.
  rewrite own_coerceUrl_other by key_neq.
  rewrite own_defaultFields_method.
  - rewrite own_stampTool by (simpl; intuition discriminate).
    now rewrite own_project.
  - rewrite own_stampTool by (simpl; intuition discriminate).
    now rewrite own_project.
Qed.

Lemma get_set_url_first toolObj v k :
  js k <> js "url" -> get (set_url_first toolObj v) k = get toolObj k.
Proof.
  intros H. unfold set_url_first.
  destruct toolObj as [| | | | | |fields]; try reflexivity.
  destruct (own fields (js "url")) as [| | | | |[|[| | | | | |u0] rest]|];
    try reflexivity.
  cbn [get]. apply own_obj_set_neq. congruence.
Qed.

Lemma extractQuery_other varNameToId urlStr toolObj w r w' k :
  extractQuery random16 varNameToId urlStr toolObj w = Ok r w' ->
  js k <> js "url" -> get (snd r) k = get toolObj k.
Proof.
  unfold extractQuery. intros H Hk.
  destruct (index_of "?" urlStr) as [q|].
  - apply bind_inv in H. destruct H as (qps & w1 & _ & H).
    unfold ret in H. injection H as <- _. cbn [snd].
    destruct (has_url_text toolObj); [now apply get_set_url_first|].
    reflexivity.
  - unfold ret in H. injection H as <- _. reflexivity.
Qed.

Lemma set_prop_other {St} toolObj k v (s : St) o s' k' :
  set_prop toolObj k v s = Ok o s' ->
  js k <> js k' -> String.eqb k' "length" = false ->
  own o (js k') = get toolObj k'.
Proof.
  unfold set_prop. intros H Hk Hlen.
  destruct toolObj; try discriminate H; unfold ret in H;
    injection H as <- _.
  - cbn [get]. rewrite Hlen. unfold own. simpl.
    now rewrite str_eqb_neq.
  - cbn [get]. now apply own_obj_set_neq.
Qed.

Lemma setQueryParameters_other varNameToId qps toolObj w o w' k :
  setQueryParameters random16 varNameToId qps toolObj w = Ok o w' ->
  js "queryParameters" <> js k -> String.eqb k "length" = false ->
  own o (js k) = get toolObj k.
Proof.
  unfold setQueryParameters. intros H Hk Hlen.
  destruct (0 <? length qps).
  - eapply set_prop_other; eauto.
  - apply bind_inv in H. destruct H as (normalized & w1 & _ & H).
    eapply set_prop_other; eauto.
Qed.

Lemma ToString_ok {St} v (s : St) k s' :
  ToString v s = Ok k s' -> k = to_string v /\ s' = s /\ spelled v = true.
Proof.
  unfold ToString. destruct (stringifies v); [|discriminate].
  cbn [negb]. destruct (spelled v); [|discriminate].
  unfold ret. intros H. injection H as <- <-. auto.
Qed.

Lemma fromEntries_ok {St} newVariables (s : St) o s' :
  fromEntries newVariables s = Ok o s' ->
  o = varNameToId_of newVariables /\ s' = s.
Proof.
  unfold fromEntries, varNameToId_of. generalize (@nil (jstring * value)).
  induction newVariables as [|v l IH]; intros acc H.
  - unfold ret in H. simpl in H. injection H as <- <-. now split.
  - simpl in H. apply bind_inv in H. destruct H as (acc' & s1 & H1 & H).
    apply bind_inv in H1. destruct H1 as (k & s2 & Hk & H1).
    apply ToString_ok in Hk. destruct Hk as (-> & -> & _).
    unfold ret in H1. injection H1 as <- <-.
    apply IH in H. exact H.
Qed.

(** What a completed [normalizeTool] returns. *)
Lemma normalizeTool_ok aiJson w newVariables toolObj w' :
  normalizeTool random16 clock aiJson w = Ok (newVariables, toolObj) w' ->
  exists found variables newToolId extracted toolObj2 createdAt updatedAt
         wa wb wc w1 w2 w3,
    findReferencedVars aiJson (unwrap aiJson) w = Ok found wa /\
    survivors aiJson (fst found) wa = Ok variables wb /\
    mapiM (newVariable random16 clock newToolId) 0 variables wc
    = Ok newVariables w1 /\
    extractQuery random16 (varNameToId_of newVariables) (snd found)
      (unwrap aiJson) w1 = Ok extracted w2 /\
    setQueryParameters random16 (varNameToId_of newVariables)
      (fst extracted) (snd extracted) w2 = Ok toolObj2 w3 /\
    toolObj =
      applyDefaults newToolId createdAt updatedAt (project toolObj2).
Proof.
  unfold normalizeTool. intros H.
  apply bind_inv in H. destruct H as (found & wa & Hf & H).
  apply bind_inv in H. destruct H as (variables & wb & Hs & H).
  apply bind_inv in H. destruct H as (newToolId & wc & Hg & H).
  apply bind_inv in H. destruct H as (nv & w1 & Hv & H).
  apply bind_inv in H. destruct H as (varNameToId & w1' & Hn & H).
  apply fromEntries_ok in Hn. destruct Hn as [-> ->].
  apply bind_inv in H. destruct H as (extracted & w2 & He & H).
  apply bind_inv in H. destruct H as (toolObj2 & w3 & Hq & H).
  apply bind_inv in H. destruct H as (createdAt & wd & Hc & H).
  apply bind_inv in H. destruct H as (updatedAt & we & Hu & H).
  unfold ret in H. injection H as <- <- <-.
  exists found, variables, newToolId, extracted, toolObj2, createdAt,
    updatedAt, wa, wb, wc, w1, w2, w3.
  repeat split; assumption.
Qed.

(** The method of the tool that [normalizeTool] returns. *)
Lemma normalizeTool_method aiJson w newVariables toolObj w' :
  normalizeTool random16 clock aiJson w = Ok (newVariables, toolObj) w' ->
  own toolObj (js "httpMethod") = stored_method (unwrap aiJson).
Proof.
  intros H. apply normalizeTool_ok in H.
  destruct H as (found & variables & newToolId & extracted & toolObj2
                 & createdAt & updatedAt & wa & wb & wc & w1 & w2 & w3
                 & _ & _ & _ & He & Hq & ->).
  rewrite applyDefaults_method. unfold stored_method.
  rewrite (setQueryParameters_other _ _ _ _ _ _ "httpMethod" Hq)
    by (try key_neq; reflexivity).
  now rewrite (extractQuery_other _ _ _ _ _ _ "httpMethod" He) by key_neq.
Qed.

(** [cleanupUrl] reads no state and leaves it as it is. *)
Lemma cleanupUrl_state {St} toolObj (s : St) r s' :
  cleanupUrl toolObj s = Ok r s' ->
  s' = s /\ forall {St'} (s2 : St'), cleanupUrl toolObj s2 = Ok r s2.
Proof.
  unfold cleanupUrl, gt_zero, bind, ret, throw.
  repeat match goal with
         | |- context [match ?x with _ => _ end] =>
             lazymatch x with
             | context [match _ with _ => _ end] => fail
             | _ => destruct x
             end
         end;
    intros H; try discriminate H; injection H as <- <-;
    (split; [reflexivity | intros; reflexivity]).
Qed.

Lemma set_last_tool_url_run url data (w : world) tools t :
  own data (js "apiTools") = VArr (tools ++ [VObj t]) ->
  set_last_tool_url url (data, w) =
  Ok tt (obj_set (js "apiTools")
           (VArr (tools ++ [VObj (obj_set (js "url") url t)])) data, w).
Proof.
  intros H. unfold set_last_tool_url, bind, read_doc, write_field.
  cbn [fst snd]. rewrite H, rev_app_distr. cbn [rev app].
  now rewrite rev_involutive.
Qed.

(** What a completed [addApiToolFromJson] appended: the variables and the
    tool of [normalizeTool], the tool's URL being the cleaned one when the
    clean-up of lines 386-402 applies, and a link when the first agent of
    the document has a truthy [id]. *)
Lemma addApiToolFromJson_ok aiJson vfData w vfData' w' :
  addApiToolFromJson random16 clock aiJson (vfData, w) = Ok tt (vfData', w') ->
  exists newVariables toolObj w1 cleaned,
    normalizeTool random16 clock aiJson w = Ok (newVariables, toolObj) w1 /\
    cleanupUrl toolObj w1 = Ok cleaned w1 /\
    appended vfData vfData' "apiToolInputVariables" = newVariables /\
    appended vfData vfData' "apiTools" =
      [VObj (match cleaned with
             | Some url => obj_set (js "url") url toolObj
             | None => toolObj
             end)] /\
    appended vfData vfData' "agentAPITools" =
      (if truthy (first_agent_id vfData)
       then [agentLink (mongo_at random16 (draws w1)) (first_agent_id vfData)
               (own toolObj (js "id")) (clock (ticks w1))]
       else []).
Proof.
  unfold addApiToolFromJson.
  destruct (negb (truthy aiJson) || negb (is_object aiJson));
    [discriminate|].
  rewrite !bind_ensure_array. intros H.
  apply bind_inv in H. destruct H as ([nv t] & s1 & Hn & H).
  apply lift_inv in Hn. destruct Hn as (w1 & Hn & ->).
  set (data0 := ensured "apiTools" (ensured "apiToolInputVariables" vfData))
    in *.
  assert (Hvars : own data0 (js "apiToolInputVariables") =
                  VArr (array_field vfData "apiToolInputVariables")).
  { unfold data0. rewrite own_ensured_neq by key_neq.
    apply own_ensured_eq. }
  erewrite bind_ok in H by (apply push_all_run; exact Hvars).
  erewrite bind_push in H.
  2:{ rewrite own_obj_set_neq by key_neq. apply own_ensured_eq. }
  apply bind_inv in H. destruct H as ([] & [data2 w2] & Hl & H).
  apply linkToFirstAgent_ok in Hl.
  apply bind_inv in H. destruct H as (cleaned & s3 & Hc & H).
  destruct (cleanupUrl_state _ _ _ _ Hc) as [-> Hc'].
  exists nv, t, w1, cleaned.
  split; [exact Hn|]. split; [apply Hc'|].
  assert (Hagent : first_agent_id
                     (obj_set (js "apiTools")
                        (VArr (array_field
                                 (ensured "apiToolInputVariables" vfData)
                                 "apiTools" ++ [VObj t]))
                        (obj_set (js "apiToolInputVariables")
                           (VArr (array_field vfData "apiToolInputVariables"
                                    ++ nv)) data0))
                   = first_agent_id vfData).
  { unfold first_agent_id, data0.
    rewrite !own_obj_set_neq by key_neq.
    now rewrite !own_ensured_neq by key_neq. }
  rewrite Hagent in Hl.
  assert (Hlinks : forall x,
             array_field
               (obj_set (js "apiTools") x
                  (obj_set (js "apiToolInputVariables")
                     (VArr (array_field vfData "apiToolInputVariables" ++ nv))
                     data0)) "agentAPITools"
             = array_field vfData "agentAPITools").
  { intros x. unfold data0.
    rewrite !array_field_obj_set_neq by key_neq.
    now rewrite !array_field_ensured_neq by key_neq. }
  rewrite Hlinks in Hl.
  assert (Htools0 : array_field (ensured "apiToolInputVariables" vfData)
                      "apiTools" = array_field vfData "apiTools").
  { now rewrite array_field_ensured_neq by key_neq. }
  rewrite Htools0 in *.
  destruct cleaned as [url|].
  - erewrite set_last_tool_url_run in H.
    2:{ subst data2. rewrite own_obj_set_neq by key_neq.
        rewrite own_ensured_neq by key_neq. apply own_obj_set_eq. }
    injection H as <- <-. subst data2. repeat split.
    + apply appended_of. rewrite !own_obj_set_neq by key_neq.
      rewrite own_ensured_neq by key_neq.
      rewrite own_obj_set_neq by key_neq. apply own_obj_set_eq.
    + apply appended_of. apply own_obj_set_eq.
    + apply appended_of. rewrite own_obj_set_neq by key_neq.
      apply own_obj_set_eq.
  - unfold ret in H. injection H as <- <-. subst data2. repeat split.
    + apply appended_of. rewrite own_obj_set_neq by key_neq.
      rewrite own_ensured_neq by key_neq.
      rewrite own_obj_set_neq by key_neq. apply own_obj_set_eq.
    + apply appended_of. rewrite own_obj_set_neq by key_neq.
      rewrite own_ensured_neq by key_neq. apply own_obj_set_eq.
    + apply appended_of. apply own_obj_set_eq.
Qed.

(* ---------------------------------------------------------------- *)
(** ** Query-string extraction *)

Lemma split_on_hd c s :
  hd [] (split_on c s) =
  match index_of c s with Some i => firstn i s | None => s end.
Proof.
  induction s as [|x s IH]; [reflexivity|].
  cbn [split_on index_of]. destruct (Ascii.eqb x c); [reflexivity|].
  destruct (split_on c s) as [|p ps]; cbn [hd] in *;
    rewrite IH; now destruct (index_of c s).
Qed.

Lemma index_of_firstn c s : forall q,
  index_of c s = Some q -> index_of c (firstn q s) = None.
Proof.
  induction s as [|x s IH]; intros q H; [discriminate|].
  simpl in H. destruct (Ascii.eqb x c) eqn:E.
  - injection H as <-. reflexivity.
  - destruct (index_of c s) as [i|]; [|discriminate].
    injection H as <-. simpl. rewrite E. now rewrite (IH i).
Qed.

Lemma index_of_not_in c s : ~ In c s -> index_of c s = None.
Proof.
  induction s as [|x s IH]; intros H; [reflexivity|].
  simpl. destruct (Ascii.eqb x c) eqn:E.
  - apply Ascii.eqb_eq in E. subst. exfalso. apply H. now left.
  - rewrite IH; [reflexivity|]. intros Hin. apply H. now right.
Qed.

Lemma index_of_none_not_in c s : index_of c s = None -> ~ In c s.
Proof.
  induction s as [|x s IH]; intros H; [intros []|].
  simpl in H. destruct (Ascii.eqb x c) eqn:E; [discriminate|].
  destruct (index_of c s); [discriminate|].
  intros [->|Hin]; [now rewrite Ascii.eqb_refl in E | now apply IH].
Qed.

Lemma find_close_in l : forall content rest,
  find_close l = Some (content, rest) ->
  In "}"%char l /\ forall c, In c content -> In c l.
Proof.
  induction l as [|x l IH]; intros content rest H; [discriminate|].
  simpl in H.
  destruct (is_close x && match l with c' :: _ => is_close c' | [] => false end)
    eqn:E.
  - injection H as <- _. apply andb_true_iff in E. destruct E as [E _].
    apply Ascii.eqb_eq in E. subst x. split; [now left | intros c []].
  - destruct (is_line_terminator x); [discriminate|].
    destruct (find_close l) as [[content' rest']|] eqn:Ef; [|discriminate].
    injection H as <- _.
    destruct (IH _ _ eq_refl) as [H1 H2]. split; [now right|].
    intros c [->|Hc]; [now left | right; now apply H2].
Qed.

(** The clean-up of double braces writes no character that the text did
    not hold. *)
Lemma debrace_from_in l : forall skip c,
  In c (debrace_from l skip) -> In c l.
Proof.
  induction l as [|x l IH]; intros skip c H; [destruct H|].
  simpl in H. destruct skip as [|k].
  - destruct l as [|x' l'].
    + exact H.
    + destruct (is_open x && is_open x') eqn:E.
      * destruct (find_close l') as [[content rest]|] eqn:Ef.
        -- apply andb_true_iff in E. destruct E as [E _].
           apply Ascii.eqb_eq in E. subst x.
           destruct (find_close_in _ _ _ Ef) as [Hclose Hcontent].
           simpl in H. destruct H as [<-|H]; [now left|].
           apply in_app_or in H. destruct H as [H|H].
           ++ right. right. now apply Hcontent.
           ++ simpl in H. destruct H as [<-|H].
              ** right. now right.
              ** right. eapply IH. exact H.
        -- destruct H as [->|H]; [now left | right; eapply IH; exact H].
      * destruct H as [->|H]; [now left | right; eapply IH; exact H].
  - right. eapply IH. exact H.
Qed.

Lemma debrace_keeps_free c s :
  index_of c s = None -> index_of c (debrace s) = None.
Proof.
  intros H. apply index_of_not_in. intros Hin.
  apply (index_of_none_not_in _ _ H). eapply debrace_from_in. exact Hin.
Qed.

Lemma parsePair_spec varNameToId acc kv w r w' :
  plainly_named varNameToId kv = true ->
  parsePair random16 varNameToId acc kv w = Ok r w' ->
  exists ps, r = acc ++ ps /\
             map key_and_value ps = classify varNameToId kv.
Proof.
  unfold parsePair, classify, plainly_named, var_match.
  destruct kv as [key [v|]];
    cbn [fst snd]; intros Hplain; destruct (non_empty key); cbn [negb];
    try (unfold ret; intros H; injection H as <- _; exists [];
         now rewrite app_nil_r).
  destruct (non_empty v); cbn [negb].
  - destruct (match_whole v) as [n|].
    + intros H. apply bind_inv in H. destruct H as (id & w1 & _ & H).
      apply orb_true_iff in Hplain. rewrite negb_true_iff in Hplain.
      rewrite (holds_own _ _ Hplain) in H.
      change (written (read varNameToId n)) with (member varNameToId n) in H.
      rewrite (member_own _ _ Hplain) in H.
      destruct (truthy (own varNameToId n)); unfold ret in H;
        injection H as <- _; eexists; split; reflexivity.
    + intros H. apply bind_inv in H. destruct H as (id & w1 & _ & H).
      unfold ret in H. injection H as <- _. eexists; split; reflexivity.
  - unfold ret; intros H; injection H as <- _; exists [];
      now rewrite app_nil_r.
Qed.

Lemma parseUrlQuery_spec varNameToId queryString w r w' :
  forallb (plainly_named varNameToId) (query_pairs queryString) = true ->
  parseUrlQuery random16 varNameToId queryString w = Ok r w' ->
  map key_and_value r =
  flat_map (classify varNameToId) (query_pairs queryString).
Proof.
  unfold parseUrlQuery.
  assert (H : forall pairs acc w r w',
             forallb (plainly_named varNameToId) pairs = true ->
             foldM (parsePair random16 varNameToId) pairs acc w = Ok r w' ->
             exists ps, r = acc ++ ps /\
                        map key_and_value ps =
                        flat_map (classify varNameToId) pairs).
  { induction pairs as [|kv pairs IH]; intros acc w0 r0 w0' Hplain H.
    - simpl in H. unfold ret in H. injection H as <- _.
      exists []. now rewrite app_nil_r.
    - simpl in H. apply bind_inv in H. destruct H as (acc' & w1 & H1 & H2).
      cbn [forallb] in Hplain. apply andb_true_iff in Hplain.
      destruct Hplain as [Hkv Hplain].
      apply (parsePair_spec _ _ _ _ _ _ Hkv) in H1.
      destruct H1 as (ps1 & -> & Hps1).
      apply (IH _ _ _ _ Hplain) in H2. destruct H2 as (ps2 & -> & Hps2).
      exists (ps1 ++ ps2). split; [now rewrite app_assoc|].
      simpl. now rewrite map_app, Hps1, Hps2. }
  intros Hplain Hr. apply (H _ _ _ _ _ Hplain) in Hr.
  destruct Hr as (ps & -> & Hps). exact Hps.
Qed.

Lemma findReferencedVars_url {St} aiJson toolObj (s : St) found s' :
  findReferencedVars aiJson toolObj s = Ok found s' ->
  exists s1 s2 : St, literal_url toolObj s1 = Ok (snd found) s2.
Proof.
  unfold findReferencedVars. intros H.
  apply bind_inv in H. destruct H as (refs & s1 & _ & H).
  apply bind_inv in H. destruct H as (urlStr & s2 & Hu & H).
  apply bind_inv in H. destruct H as (refs' & s3 & _ & H).
  unfold ret in H. injection H as <- _. eauto.
Qed.

Lemma literal_url_single {St} toolObj u (s : St) r s' :
  single_literal_url toolObj u ->
  literal_url toolObj s = Ok r s' -> r = u.
Proof.
  unfold literal_url, has_url_text, url_text.
  intros [Hu|(u0 & rest & Hu & Ht)]; rewrite Hu.
  - cbn. unfold ret. rewrite andb_false_r. cbn. congruence.
  - cbn [idx nth truthy isArray andb get]. rewrite Ht. cbn.
    unfold ret. rewrite app_nil_r. congruence.
Qed.

Lemma own_coerceUrl_string o u :
  own o (js "url") = VStr u ->
  own (coerceUrl o) (js "url") = VArr [text_of [VStr u]].
Proof.
  intros H. unfold coerceUrl. cbv zeta. rewrite H. cbn [is_string].
  rewrite own_obj_set_eq. cbn. apply own_obj_set_eq.
Qed.

Lemma own_coerceUrl_structured o u0 rest :
  own o (js "url") = VArr (VObj u0 :: rest) ->
  own (coerceUrl o) (js "url") = VArr (VObj u0 :: rest).
Proof.
  intros H. unfold coerceUrl. cbv zeta. rewrite H.
  cbn [is_string typeof]. rewrite H. exact H.
Qed.

(** The clean-up of lines 386-402 on a tool that has query parameters and
    whose first URL text starts with a string. *)
Lemma cleanupUrl_run {St} toolObj u0 rest s0 more qp qps (s : St) :
  own toolObj (js "url") = VArr (VObj u0 :: rest) ->
  own u0 (js "text") = VArr (VStr s0 :: more) ->
  own toolObj (js "queryParameters") = VArr (qp :: qps) ->
  cleanupUrl toolObj s =
  Ok (Some (VArr (VObj (obj_set (js "text")
                          (VArr (VStr (debrace (hd [] (split_on "?" s0)))
                                   :: more)) u0) :: rest))) s.
Proof.
  intros Hurl Htext Hqp. unfold cleanupUrl. rewrite Hurl.
  cbn [get]. rewrite Htext. cbn [is_object typeof get].
  change (String.eqb "length" "length") with true. cbv iota.
  unfold gt_zero at 1. rewrite bind_ret.
  change (0 <? Z.of_nat (length (VStr s0 :: more)))%Z with true. cbv iota.
  rewrite Hqp. cbn [truthy get].
  change (String.eqb "length" "length") with true. cbv iota.
  unfold gt_zero. rewrite bind_ret.
  change (0 <? Z.of_nat (length (qp :: qps)))%Z with true. cbv iota.
  cbn [idx nth]. unfold set_url_first. rewrite Hurl, Htext.
  cbn [set_first]. unfold ret. now rewrite own_obj_set_eq.
Qed.

Lemma applyDefaults_query newToolId createdAt updatedAt o :
  own (applyDefaults newToolId createdAt updatedAt (project o))
    (js "queryParameters")
  = or_else (own o (js "queryParameters")) (VArr []).
Proof.
  unfold applyDefaults.
  rewrite own_coerceUrl_other by key_neq.
  rewrite own_defaultFields_query.
  rewrite own_stampTool by (simpl; intuition discriminate).
  now rewrite own_project.
Qed.

Lemma applyDefaults_url newToolId createdAt updatedAt o :
  truthy (own o (js "url")) = true ->
  own (defaultFields (stampTool newToolId createdAt updatedAt (project o)))
    (js "url")
  = own o (js "url").
Proof.
  intros H. rewrite own_defaultFields_url.
  rewrite own_stampTool by (simpl; intuition discriminate).
  rewrite own_project.
  change (existsb (str_eqb (js "url")) allowedFields) with true. cbv iota.
  unfold or_else. now rewrite H.
Qed.

Lemma slice_0 (u : jstring) q : slice u 0 q = firstn q u.
Proof. unfold slice. now rewrite Nat.sub_0_r. Qed.

Lemma base_of_url u q :
  index_of "?" u = Some q -> hd [] (split_on "?" u) = slice u 0 q.
Proof. intros H. now rewrite split_on_hd, H, slice_0. Qed.

Lemma base_of_base u q :
  index_of "?" u = Some q ->
  hd [] (split_on "?" (slice u 0 q)) = slice u 0 q.
Proof.
  intros H. rewrite split_on_hd, slice_0.
  now rewrite (index_of_firstn _ _ _ H).
Qed.

(** Lines 200-272 and 337-358 on a URL with one literal segment that holds
    a [?] and yields at least one parameter: the parameters of the tool are
    those parsed from the text after the [?], and the first URL text is
    either still the whole string (when the URL came as a string) or its
    part before the [?]. *)
Lemma normalizeTool_query aiJson w newVariables toolObj w' u q :
  normalizeTool random16 clock aiJson w = Ok (newVariables, toolObj) w' ->
  single_literal_url (unwrap aiJson) u ->
  index_of "?" u = Some q ->
  forallb (plainly_named (varNameToId_of newVariables))
    (query_pairs (slice_from u (S q))) = true ->
  flat_map (classify (varNameToId_of newVariables))
    (query_pairs (slice_from u (S q))) <> [] ->
  exists qp qps u0 rest s0,
    map key_and_value (qp :: qps) =
      flat_map (classify (varNameToId_of newVariables))
        (query_pairs (slice_from u (S q))) /\
    own toolObj (js "queryParameters") = VArr (qp :: qps) /\
    own toolObj (js "url") = VArr (VObj u0 :: rest) /\
    own u0 (js "text") = VArr [VStr s0] /\
    hd [] (split_on "?" s0) = slice u 0 q.
Proof.
  intros H Hu Hq Hplain Hne. apply normalizeTool_ok in H.
  destruct H as (found & variables & newToolId & extracted & toolObj2
                 & createdAt & updatedAt & wa & wb & wc & w1 & w2 & w3
                 & Hf & _ & _ & He & Hs & ->).
  apply findReferencedVars_url in Hf. destruct Hf as (s1 & s2 & Hf).
  apply (literal_url_single _ _ _ _ _ Hu) in Hf. rewrite Hf in He.
  unfold extractQuery in He. rewrite Hq in He.
  apply bind_inv in He. destruct He as (parsed & w4 & Hp & He).
  apply (parseUrlQuery_spec _ _ _ _ _ Hplain) in Hp.
  unfold ret in He. injection He as <- _.
  cbn [fst snd] in Hs.
  destruct parsed as [|qp qps]; [now rewrite <- Hp in Hne|].
  unfold setQueryParameters in Hs.
  change (0 <? length (qp :: qps)) with true in Hs. cbv iota in Hs.
  assert (Hnonempty : non_empty u = true)
    by (destruct u; [discriminate Hq | reflexivity]).
  exists qp, qps.
  destruct (unwrap aiJson) as [| | | | | |fields] eqn:Et;
    try (destruct Hu as [Hu|(u0 & rest & Hu & _)]; discriminate Hu).
  destruct Hu as [Hu|(u0 & rest & Hu & Ht)].
  - (* the URL is the string [u] *)
    cbn [get] in Hu.
    assert (Hh : has_url_text (VObj fields) = false).
    { unfold has_url_text. cbn [get]. rewrite Hu. cbn.
      now rewrite andb_false_r. }
    rewrite Hh in Hs. unfold set_prop, ret in Hs. injection Hs as <- _.
    exists [(js "text", VArr [VStr u])], [], u.
    split; [exact Hp|]. split; [|split; [|split]].
    + rewrite applyDefaults_query, own_obj_set_eq. reflexivity.
    + unfold applyDefaults. apply own_coerceUrl_string.
      rewrite applyDefaults_url;
        rewrite own_obj_set_neq by key_neq; rewrite Hu;
        [reflexivity|]. cbn [truthy]. now destruct u.
    + reflexivity.
    + now apply base_of_url.
  - (* the URL is structured, with the one literal [u] *)
    cbn [get] in Hu.
    assert (Hh : has_url_text (VObj fields) = true).
    { unfold has_url_text. cbn [get]. rewrite Hu.
      cbn [idx nth truthy isArray andb get]. now rewrite Ht. }
    rewrite Hh in Hs. unfold set_url_first in Hs. rewrite Hu, Ht in Hs.
    cbn [set_first] in Hs. unfold set_prop, ret in Hs.
    injection Hs as <- _.
    exists (obj_set (js "text") (VArr [VStr (slice u 0 q)]) u0), rest,
      (slice u 0 q).
    split; [exact Hp|]. split; [|split; [|split]].
    + rewrite applyDefaults_query, own_obj_set_eq. reflexivity.
    + unfold applyDefaults. apply own_coerceUrl_structured.
      rewrite applyDefaults_url;
        rewrite own_obj_set_neq by key_neq; rewrite own_obj_set_eq;
        reflexivity.
    + apply own_obj_set_eq.
    + now apply base_of_base.
Qed.

(** C4 (amended).  Query-string extraction on the generator path.  For a
    payload whose URL is a string, or a structured URL whose first text is
    one literal, and holds a [?]: the text after the first [?] is split on
    [&], the pieces trimmed and the empty ones dropped, and each piece
    split on [=].  When no value is a placeholder under a name that a
    plain object inherits ([__proto__], [constructor], [toString] and the
    like) without a variable of that name being appended: a piece with an
    empty key, or with no value or an empty one, yields no parameter; a
    value that is wholly one placeholder naming a variable appended by
    this operation yields a reference to that variable's identifier; every
    other value yields a literal parameter, a placeholder whose name is no
    appended variable included.  When at least one parameter results,
    these are the query parameters of the tool appended, in order, and its
    URL is the single literal before the first [?] with double braces
    collapsed, which holds no [?]. *)
Theorem query_extraction aiJson vfData w vfData' w' u q :
  addApiToolFromJson random16 clock aiJson (vfData, w)
  = Ok tt (vfData', w') ->
  single_literal_url (unwrap aiJson) u ->
  index_of "?" u = Some q ->
  forallb
    (plainly_named
       (varNameToId_of (appended vfData vfData' "apiToolInputVariables")))
    (query_pairs (slice_from u (S q))) = true ->
  flat_map
    (classify
       (varNameToId_of (appended vfData vfData' "apiToolInputVariables")))
    (query_pairs (slice_from u (S q))) <> [] ->
  exists tool,
    appended vfData vfData' "apiTools" = [tool] /\
    map key_and_value (parts_of (get tool "queryParameters")) =
      flat_map
        (classify
           (varNameToId_of (appended vfData vfData' "apiToolInputVariables")))
        (query_pairs (slice_from u (S q))) /\
    url_parts tool = [VStr (debrace (slice u 0 q))] /\
    index_of "?" (debrace (slice u 0 q)) = None.
Proof.
  intros H Hu Hq Hplain Hne. apply addApiToolFromJson_ok in H.
  destruct H as (nv & t & w1 & cleaned & Hn & Hc & Hvars & Htools & _).
  rewrite Hvars in *.
  destruct (normalizeTool_query _ _ _ _ _ _ _ Hn Hu Hq Hplain Hne)
    as (qp & qps & u0 & rest & s0 & Hp & Hqp & Hurl & Ht & Hbase).
  rewrite (cleanupUrl_run _ _ _ _ _ _ _ _ Hurl Ht Hqp) in Hc.
  injection Hc as <-. rewrite Hbase in Htools.
  eexists. split; [exact Htools|]. split; [|split].
  - cbn [get]. change (String.eqb "queryParameters" "length") with false.
    cbv iota. rewrite own_obj_set_neq by key_neq. rewrite Hqp. exact Hp.
  - unfold url_parts. cbn [get].
    change (String.eqb "url" "length") with false. cbv iota.
    rewrite own_obj_set_eq. cbn [idx nth get].
    change (String.eqb "text" "length") with false. cbv iota.
    rewrite own_obj_set_eq. reflexivity.
  - apply debrace_keeps_free. rewrite slice_0.
    now apply index_of_firstn.
Qed.

(** C7 (amended).  HTTP method.  The operator path stores the choice of
    its list prompt, one of get, post, put, patch and delete.  The
    generator path validates nothing and changes no case: the tool it
    appends holds the payload's [httpMethod] as it came when that is
    truthy, and [get] when the payload names no method, neither as
    [httpMethod] nor as [method]. *)
Theorem method_stored :
  (forall a file w data w',
     addApiTool random16 clock a file w = Written data w' ->
     exists tool,
       appended file data "apiTools" = [tool] /\
       In (get tool "httpMethod")
          (map VStr [js "get"; js "post"; js "put"; js "patch";
                     js "delete"])) /\
  (forall aiJson vfData w vfData' w',
     addApiToolFromJson random16 clock aiJson (vfData, w)
     = Ok tt (vfData', w') ->
     exists tool,
       appended vfData vfData' "apiTools" = [tool] /\
       (truthy (get (unwrap aiJson) "httpMethod") = true ->
        get tool "httpMethod" = get (unwrap aiJson) "httpMethod") /\
       (truthy (get (unwrap aiJson) "httpMethod") = false ->
        truthy (get (unwrap aiJson) "method") = false ->
        get tool "httpMethod" = VStr (js "get"))).
Proof.
  split.
  - apply operator_method.
  - intros aiJson vfData w vfData' w' H.
    apply addApiToolFromJson_ok in H.
    destruct H as (nv & t & w1 & cleaned & Hn & _ & _ & Htools & _).
    eexists. split; [exact Htools|].
    assert (Hm : get (VObj (match cleaned with
                            | Some url => obj_set (js "url") url t
                            | None => t
                            end)) "httpMethod"
                 = stored_method (unwrap aiJson)).
    { cbn [get]. rewrite <- (normalizeTool_method _ _ _ _ _ Hn).
      destruct cleaned; [now rewrite own_obj_set_neq by key_neq|].
      reflexivity. }
    rewrite Hm. unfold stored_method, or_else.
    split; [now intros -> | now intros -> _].
Qed.

(** C8 (amended).  Link creation.  A completed operator-path operation
    appends exactly one link, to the agent the operator selected.  A
    completed generator-path operation appends exactly one link, to the
    first agent of the document's [agents] array, when that agent has a
    truthy [id], and no link otherwise.  The link points to the tool
    appended. *)
Theorem link_created :
  (forall a file w data w',
     addApiTool random16 clock a file w = Written data w' ->
     exists tool link,
       appended file data "apiTools" = [tool] /\
       appended file data "agentAPITools" = [link] /\
       get link "agentID" = selectedAgentId a /\
       get link "apiToolID" = get tool "id") /\
  (forall aiJson vfData w vfData' w',
     addApiToolFromJson random16 clock aiJson (vfData, w)
     = Ok tt (vfData', w') ->
     exists tool,
       appended vfData vfData' "apiTools" = [tool] /\
       (truthy (first_agent_id vfData) = true ->
        exists link,
          appended vfData vfData' "agentAPITools" = [link] /\
          get link "agentID" = first_agent_id vfData /\
          get link "apiToolID" = get tool "id") /\
       (truthy (first_agent_id vfData) = false ->
        appended vfData vfData' "agentAPITools" = [])).
Proof.
  split.
  - apply operator_link.
  - intros aiJson vfData w vfData' w' H.
    apply addApiToolFromJson_ok in H.
    destruct H as (nv & t & w1 & cleaned & _ & _ & _ & Htools & Hlinks).
    eexists. split; [exact Htools|]. split.
    + intros Ha. rewrite Ha in Hlinks. eexists. split; [exact Hlinks|].
      split; [reflexivity|]. cbn [get].
      change (get (agentLink ?i ?a ?x ?c) "apiToolID") with x.
      destruct cleaned; [now rewrite own_obj_set_neq by key_neq|].
      reflexivity.
    + intros Ha. now rewrite Ha in Hlinks.
Qed.

(* ---------------------------------------------------------------- *)
(** ** What the generator path keeps and what it makes anew *)

Lemma mapiM_Forall {St A B} (f : nat -> A -> M St B) (P : B -> Prop) :
  (forall i x s y s', f i x s = Ok y s' -> P y) ->
  forall l i s ys s', mapiM f i l s = Ok ys s' -> Forall P ys.
Proof.
  intros Hf. induction l as [|x l IH]; intros i s ys s' H; simpl in H.
  - unfold ret in H. injection H as <- _. constructor.
  - apply bind_inv in H. destruct H as (y & s1 & Hy & H).
    apply bind_inv in H. destruct H as (ys' & s2 & Hys & H).
    unfold ret in H. injection H as <- _.
    constructor; [eapply Hf; exact Hy | eapply IH; exact Hys].
Qed.

Lemma own_applyDefaults_id newToolId createdAt updatedAt o :
  own (applyDefaults newToolId createdAt updatedAt o) (js "id")
  = VStr newToolId.
Proof.
  unfold applyDefaults. rewrite own_coerceUrl_other by key_neq.
  unfold defaultFields. cbv zeta. own_chain.
  unfold stampTool. cbv zeta.
  rewrite !own_obj_set_neq by key_neq. apply own_obj_set_eq.
Qed.

Lemma own_applyDefaults_creator newToolId createdAt updatedAt o :
  own (applyDefaults newToolId createdAt updatedAt o) (js "createdByID")
  = VNum 3600.
Proof.
  unfold applyDefaults. rewrite own_coerceUrl_other by key_neq.
  unfold defaultFields. cbv zeta. own_chain.
  unfold stampTool. cbv zeta.
  rewrite !own_obj_set_neq by key_neq. apply own_obj_set_eq.
Qed.

Lemma applyDefaults_body newToolId createdAt updatedAt o :
  own (applyDefaults newToolId createdAt updatedAt (project o)) (js "body")
  = or_else (own o (js "body")) VNull.
Proof.
  unfold applyDefaults.
  rewrite own_coerceUrl_other by key_neq.
  rewrite own_defaultFields_body.
  rewrite own_stampTool by (simpl; intuition discriminate).
  now rewrite own_project.
Qed.

Lemma normalizeTool_ids aiJson w newVariables toolObj w' :
  normalizeTool random16 clock aiJson w = Ok (newVariables, toolObj) w' ->
  exists d,
    own toolObj (js "id") = VStr (mongo_at random16 d) /\
    Forall (fun v => get v "apiToolID" = VStr (mongo_at random16 d) /\
                     exists d', get v "id" = VStr (mongo_at random16 d'))
      newVariables.
Proof.
  unfold normalizeTool. intros H.
  apply bind_inv in H. destruct H as (found & wa & Hf & H).
  apply bind_inv in H. destruct H as (variables & wb & Hs & H).
  apply bind_inv in H. destruct H as (newToolId & wc & Hg & H).
  apply bind_inv in H. destruct H as (nv & w1 & Hv & H).
  apply bind_inv in H. destruct H as (varNameToId & w1' & _ & H).
  apply bind_inv in H. destruct H as (extracted & w2 & He & H).
  apply bind_inv in H. destruct H as (toolObj2 & w3 & Hq & H).
  apply bind_inv in H. destruct H as (createdAt & wd & Hc & H).
  apply bind_inv in H. destruct H as (updatedAt & we & Hu & H).
  unfold ret in H. injection H as <- <- <-.
  unfold generateMongoId in Hg. injection Hg as <- _.
  exists (draws wb). split; [apply own_applyDefaults_id|].
  eapply mapiM_Forall; [|exact Hv].
  intros i x s y s' Hy. unfold newVariable in Hy.
  apply bind_inv in Hy. destruct Hy as (newId & s1 & Hn & Hy).
  apply bind_inv in Hy. destruct Hy as (created & s2 & _ & Hy).
  unfold ret in Hy. injection Hy as <- _.
  unfold generateMongoId in Hn. injection Hn as <- _.
  split; [reflexivity | eexists; reflexivity].
Qed.

(** X7.  Identifiers on the generator path.  The tool appended carries an
    identifier drawn by this operation, whatever the payload gave for
    [id], and 3600 as its creator; every variable appended carries an
    identifier drawn by this operation and the identifier of that tool as
    its [apiToolID]. *)
Theorem generator_ids_regenerated aiJson vfData w vfData' w' :
  addApiToolFromJson random16 clock aiJson (vfData, w)
  = Ok tt (vfData', w') ->
  exists tool d,
    appended vfData vfData' "apiTools" = [tool] /\
    get tool "id" = VStr (mongo_at random16 d) /\
    get tool "createdByID" = VNum 3600 /\
    Forall (fun v => get v "apiToolID" = get tool "id" /\
                     exists d', get v "id" = VStr (mongo_at random16 d'))
      (appended vfData vfData' "apiToolInputVariables").
Proof.
  intros H. apply addApiToolFromJson_ok in H.
  destruct H as (nv & t & w1 & cleaned & Hn & _ & Hvars & Htools & _).
  destruct (normalizeTool_ids _ _ _ _ _ Hn) as (d & Hid & Hall).
  assert (Hc : own t (js "createdByID") = VNum 3600).
  { apply normalizeTool_ok in Hn.
    destruct Hn as (found & variables & newToolId & extracted & toolObj2
                    & createdAt & updatedAt & wa & wb & wc & w2 & w3 & w4
                    & _ & _ & _ & _ & _ & ->).
    apply own_applyDefaults_creator. }
  eexists. exists d. split; [exact Htools|].
  assert (Hid' : get (VObj (match cleaned with
                            | Some url => obj_set (js "url") url t
                            | None => t
                            end)) "id" = VStr (mongo_at random16 d)).
  { cbn [get]. change (String.eqb "id" "length") with false. cbv iota.
    destruct cleaned; [rewrite own_obj_set_neq by key_neq|]; exact Hid. }
  split; [exact Hid'|]. split.
  - cbn [get]. change (String.eqb "createdByID" "length") with false.
    cbv iota.
    destruct cleaned; [rewrite own_obj_set_neq by key_neq|]; exact Hc.
  - rewrite Hvars, Hid'. exact Hall.
Qed.

(** X8.  Body on the generator path: the tool appended holds the body of the
    payload as it came when that is truthy, and [null] otherwise,
    whatever the method. *)
Theorem generator_body_kept aiJson vfData w vfData' w' :
  addApiToolFromJson random16 clock aiJson (vfData, w)
  = Ok tt (vfData', w') ->
  exists tool,
    appended vfData vfData' "apiTools" = [tool] /\
    get tool "body" = or_else (get (unwrap aiJson) "body") VNull.
Proof.
  intros H. apply addApiToolFromJson_ok in H.
  destruct H as (nv & t & w1 & cleaned & Hn & _ & _ & Htools & _).
  eexists. split; [exact Htools|].
  apply normalizeTool_ok in Hn.
  destruct Hn as (found & variables & newToolId & extracted & toolObj2
                  & createdAt & updatedAt & wa & wb & wc & w2 & w3 & w4
                  & _ & _ & _ & He & Hq & ->).
  cbn [get]. change (String.eqb "body" "length") with false. cbv iota.
  assert (Hb : own (applyDefaults newToolId createdAt updatedAt
                      (project toolObj2)) (js "body")
               = or_else (get (unwrap aiJson) "body") VNull).
  { rewrite applyDefaults_body.
    rewrite (setQueryParameters_other _ _ _ _ _ _ "body" Hq)
      by (try key_neq; reflexivity).
    now rewrite (extractQuery_other _ _ _ _ _ _ "body" He) by key_neq. }
  destruct cleaned; [rewrite own_obj_set_neq by key_neq|]; exact Hb.
Qed.

Lemma keys_obj_set k v o k' :
  In k' (map fst (obj_set k v o)) -> k' = k \/ In k' (map fst o).
Proof.
  induction o as [|[k0 v0] o IH]; simpl.
  - intros [<-|[]]. now left.
  - destruct (str_eqb k0 k) eqn:E; simpl.
    + intros [<-|H]; right; [now left | now right].
    + intros [<-|H]; [right; now left|].
      destruct (IH H) as [->|H']; [now left | right; now right].
Qed.

Lemma projected_obj_set k v o :
  In (js k) allowedFields -> projected o -> projected (obj_set (js k) v o).
Proof.
  intros Hk Ho k' H. apply keys_obj_set in H.
  destruct H as [->|H]; [exact Hk | now apply Ho].
Qed.

Lemma projected_default_to k v o :
  In (js k) allowedFields -> projected o -> projected (default_to k v o).
Proof.
  intros Hk Ho. unfold default_to.
  destruct (truthy (own o (js k))); [exact Ho|].
  now apply projected_obj_set.
Qed.

Lemma projected_project o : projected (project o).
Proof.
  intros k H. unfold project in H. apply in_map_iff in H.
  destruct H as ([k0 v0] & <- & H). apply filter_In in H.
  destruct H as [_ H]. now apply existsb_str_eqb in H.
Qed.

Ltac allowed := vm_compute; repeat (first [left; reflexivity | right]).

Ltac projected_steps Ho :=
  repeat first
    [ exact Ho
    | apply projected_obj_set; [allowed|]
    | apply projected_default_to; [allowed|]
    | match goal with
      | |- projected (if ?b then _ else _) => destruct b
      end ].

Lemma projected_stampTool newToolId createdAt updatedAt o :
  projected o -> projected (stampTool newToolId createdAt updatedAt o).
Proof. intros Ho. unfold stampTool. cbv zeta. projected_steps Ho. Qed.

Lemma projected_defaultFields o :
  projected o -> projected (defaultFields o).
Proof. intros Ho. unfold defaultFields. cbv zeta. projected_steps Ho. Qed.

Lemma projected_coerceUrl o : projected o -> projected (coerceUrl o).
Proof. intros Ho. unfold coerceUrl. cbv zeta. projected_steps Ho. Qed.

Lemma projected_applyDefaults newToolId createdAt updatedAt o :
  projected o -> projected (applyDefaults newToolId createdAt updatedAt o).
Proof.
  intros Ho. unfold applyDefaults.
  now apply projected_coerceUrl, projected_defaultFields,
    projected_stampTool.
Qed.

(** X9.  Field projection on the generator path: the tool appended is a plain
    object that has no field outside the allowed set. *)
Theorem generator_fields_allowed aiJson vfData w vfData' w' :
  addApiToolFromJson random16 clock aiJson (vfData, w)
  = Ok tt (vfData', w') ->
  exists fields,
    appended vfData vfData' "apiTools" = [VObj fields] /\
    forall k, In k (map fst fields) ->
              In k (map js ["id"; "name"; "description"; "url";
                            "httpMethod"; "createdByID"; "folderID";
                            "createdAt"; "updatedAt"; "updatedByID"; "body";
                            "image"; "headers"; "queryParameters"]%string).
Proof.
  intros H. apply addApiToolFromJson_ok in H.
  destruct H as (nv & t & w1 & cleaned & Hn & _ & _ & Htools & _).
  eexists. split; [exact Htools|].
  apply normalizeTool_ok in Hn.
  destruct Hn as (found & variables & newToolId & extracted & toolObj2
                  & createdAt & updatedAt & wa & wb & wc & w2 & w3 & w4
                  & _ & _ & _ & _ & _ & ->).
  pose proof (projected_applyDefaults newToolId createdAt updatedAt _
                (projected_project toolObj2)) as Hp.
  destruct cleaned as [u|]; [|exact Hp].
  apply (projected_obj_set "url"); [allowed | exact Hp].
Qed.

Lemma own_obj_delete_eq k o : own (obj_delete k o) k = VUndef.
Proof.
  unfold own, obj_delete.
  rewrite (lookup_filter_key (fun k0 => negb (str_eqb k0 k))).
  now rewrite str_eqb_refl.
Qed.

Lemma own_obj_delete_neq k k' o :
  k <> k' -> own (obj_delete k o) k' = own o k'.
Proof.
  intros H. unfold own, obj_delete.
  rewrite (lookup_filter_key (fun k0 => negb (str_eqb k0 k))).
  rewrite str_eqb_neq; [reflexivity|]. congruence.
Qed.

(** X10.  The legacy [method] of a flat answer.  When the answer of the
    generator is a plain object with a non-empty string [method] and no
    truthy [httpMethod], [normalizeLLMApiToolJson] hands over a tool whose
    [httpMethod] is that method in lower case and which has no [method]
    any more. *)
Theorem legacy_method_lowercased o m w r w' :
  own o (js "method") = VStr m -> non_empty m = true ->
  truthy (own o (js "httpMethod")) = false ->
  normalizeLLMApiToolJson random16 clock (VObj o) w = Ok r w' ->
  get (get r "apiTool") "httpMethod" = VStr (toLowerCase m) /\
  get (get r "apiTool") "method" = VUndef.
Proof.
  intros Hm Hne Hh H. unfold normalizeLLMApiToolJson in H.
  set (o1 := if is_string (own o (js "url"))
             then obj_set (js "url") (VArr [text_of [own o (js "url")]]) o
             else o) in H.
  assert (Hm1 : own o1 (js "method") = VStr m)
    by (unfold o1; now rewrite own_if_set by key_neq).
  assert (Hh1 : truthy (own o1 (js "httpMethod")) = false)
    by (unfold o1; now rewrite own_if_set by key_neq).
  rewrite Hm1, Hh1 in H. cbn [truthy] in H. rewrite Hne in H.
  cbn [negb andb] in H. rewrite bind_ret in H.
  set (o2 := obj_delete (js "method")
               (obj_set (js "httpMethod") (VStr (toLowerCase m)) o1)) in H.
  assert (H2 : own o2 (js "httpMethod") = VStr (toLowerCase m) /\
               own o2 (js "method") = VUndef).
  { unfold o2. split; [|apply own_obj_delete_eq].
    rewrite own_obj_delete_neq by key_neq. apply own_obj_set_eq. }
  apply bind_inv in H. destruct H as (o3 & w1 & Hq & H).
  assert (H3 : own o3 (js "httpMethod") = VStr (toLowerCase m) /\
               own o3 (js "method") = VUndef).
  { destruct (own o2 (js "queryParameters")) as [| | | | |qps|];
      try (unfold ret in Hq; injection Hq as <- _; exact H2).
    destruct (is_string (idx (VArr qps) 0)).
    - apply bind_inv in Hq. destruct Hq as (qps' & w2 & _ & Hq).
      unfold ret in Hq. injection Hq as <- _.
      now rewrite !own_obj_set_neq by key_neq.
    - unfold ret in Hq. injection Hq as <- _. exact H2. }
  destruct (own o3 (js "variables")) as [| | | | |vs|];
    try (unfold ret in H; injection H as <- _; exact H3).
  apply bind_inv in H. destruct H as (vars & w2 & _ & H).
  unfold ret in H. injection H as <- _.
  cbn [get own lookup]. cbn.
  now rewrite !own_obj_delete_neq by key_neq.
Qed.

End GeneratorClaims.

Lemma generator_ids_regenerated_witness :
  exists vfData w,
    addApiToolFromJson Samples.random16 Samples.clock
      Samples.payload_with_ids (Samples.file, Samples.start)
    = Ok tt (vfData, w) /\
    get (unwrap Samples.payload_with_ids) "id"
    = VStr (js "tool-from-generator") /\
    exists tool d,
      appended Samples.file vfData "apiTools" = [tool] /\
      get tool "id" = VStr (mongo_at Samples.random16 d) /\
      get tool "createdByID" = VNum 3600 /\
      Forall (fun v => get v "apiToolID" = get tool "id" /\
                       exists d',
                         get v "id" = VStr (mongo_at Samples.random16 d'))
        (appended Samples.file vfData "apiToolInputVariables").
Proof.
  do 2 eexists. split; [vm_compute; reflexivity|].
  split; [vm_compute; reflexivity|].
  eapply (generator_ids_regenerated Samples.random16 Samples.clock
            Samples.payload_with_ids Samples.file Samples.start).
  vm_compute. reflexivity.
Defined.

Lemma generator_body_kept_witness :
  exists vfData w,
    addApiToolFromJson Samples.random16 Samples.clock
      Samples.payload_get_with_body (Samples.file, Samples.start)
    = Ok tt (vfData, w) /\
    exists tool,
      appended Samples.file vfData "apiTools" = [tool] /\
      get tool "body"
      = or_else (get (unwrap Samples.payload_get_with_body) "body") VNull.
Proof.
  do 2 eexists. split; [vm_compute; reflexivity|].
  eapply (generator_body_kept Samples.random16 Samples.clock
            Samples.payload_get_with_body Samples.file Samples.start).
  vm_compute. reflexivity.
Defined.

Lemma generator_fields_allowed_witness :
  exists vfData w,
    addApiToolFromJson Samples.random16 Samples.clock
      Samples.payload_with_ids (Samples.file, Samples.start)
    = Ok tt (vfData, w) /\
    exists fields,
      appended Samples.file vfData "apiTools" = [VObj fields] /\
      forall k, In k (map fst fields) ->
                In k (map js ["id"; "name"; "description"; "url";
                              "httpMethod"; "createdByID"; "folderID";
                              "createdAt"; "updatedAt"; "updatedByID";
                              "body"; "image"; "headers";
                              "queryParameters"]%string).
Proof.
  do 2 eexists. split; [vm_compute; reflexivity|].
  eapply (generator_fields_allowed Samples.random16 Samples.clock
            Samples.payload_with_ids Samples.file Samples.start).
  vm_compute. reflexivity.
Defined.

Lemma legacy_method_lowercased_witness :
  exists r w',
    normalizeLLMApiToolJson Samples.random16 Samples.clock
      (VObj Samples.answer_legacy_method) Samples.start = Ok r w' /\
    toLowerCase (js "POST") = js "post" /\
    get (get r "apiTool") "httpMethod" = VStr (toLowerCase (js "POST")) /\
    get (get r "apiTool") "method" = VUndef.
Proof.
  do 2 eexists. split; [vm_compute; reflexivity|].
  split; [reflexivity|].
  eapply (legacy_method_lowercased Samples.random16 Samples.clock
            Samples.answer_legacy_method (js "POST") Samples.start);
    vm_compute; reflexivity.
Defined.

(** [toLowerCase] beyond the 7-bit letters: the capital at code unit 201
    moves to the small letter at 233, and the multiplication sign at 215
    stays. *)
Lemma toLowerCase_latin1 :
  toLowerCase (js "PO" ++ [ascii_of_nat 201; ascii_of_nat 215] ++ js "T") =
  js "po" ++ [ascii_of_nat 233; ascii_of_nat 215] ++ js "t".
Proof. reflexivity. Qed.

Lemma malformed_payload_rejected_witness :
  (VNum 3 = VNull \/ typeof (VNum 3) <> TObject) /\
  addApiToolFromJson Samples.random16 Samples.clock (VNum 3)
    (Samples.file, Samples.start) =
  Throw InvalidGeneratorOutput (Samples.file, Samples.start).
Proof.
  assert (H : VNum 3 = VNull \/ typeof (VNum 3) <> TObject)
    by (right; simpl; discriminate).
  split; [exact H|].
  apply (malformed_payload_rejected Samples.random16 Samples.clock
           (VNum 3) Samples.file Samples.start H).
Defined.

(* ================================================================== *)
(** * Runs that part from the specification *)
(* ================================================================== *)

(** C2.  Duplicate rejection.  After [Get user] was added on
    [https://api.example.com/users/{userId}], the operator path accepts
    [Get user again] on [https://api.example.com/users/{id}]: the new URL
    is compared as [.../users/{var}] with the join of the stored segments,
    which spells the reference [[object Object]].  The generator path
    makes no comparison and appends a second tool named [Get user]. *)
Theorem duplicate_not_rejected :
  exists data1 w1 data2 w2 vfData3 w3,
    addApiTool Samples.random16 Samples.clock Samples.answers_user
      Samples.file Samples.start = Written data1 w1 /\
    map (fun t => array_join [] (url_parts t)) (array_field data1 "apiTools")
    = [js "https://api.example.com/users/[object Object]"] /\
    replace_all (url Samples.answers_user_again) (js "{var}")
    = Some (js "https://api.example.com/users/{var}") /\
    addApiTool Samples.random16 Samples.clock Samples.answers_user_again
      data1 w1 = Written data2 w2 /\
    length (array_field data2 "apiTools") = 2 /\
    addApiToolFromJson Samples.random16 Samples.clock
      Samples.payload_path_structured (data1, w1) = Ok tt (vfData3, w3) /\
    map (fun t => get t "name") (array_field vfData3 "apiTools")
    = [VStr (js "Get user"); VStr (js "Get user")].
Proof.
  do 6 eexists.
  split; [vm_compute; reflexivity|].
  split; [vm_compute; reflexivity|].
  split; [vm_compute; reflexivity|].
  split; [vm_compute; reflexivity|].
  split; [vm_compute; reflexivity|].
  split; vm_compute; reflexivity.
Qed.

(** C3.  Unreferenced-variable filtering.  A payload whose URL is the
    string [https://api.example.com/users/{userId}] and which declares
    [userId] is added without any variable: the path of a URL given as a
    string is not scanned.  With the URL in the structured form, [userId]
    survives and the unused declaration is dropped. *)
Theorem referenced_variable_dropped :
  exists vfData w vfData' w',
    addApiToolFromJson Samples.random16 Samples.clock
      Samples.payload_path_placeholder (Samples.file, Samples.start)
    = Ok tt (vfData, w) /\
    appended Samples.file vfData "apiToolInputVariables" = [] /\
    map url_parts (appended Samples.file vfData "apiTools")
    = [[VStr (js "https://api.example.com/users/{userId}")]] /\
    addApiToolFromJson Samples.random16 Samples.clock
      Samples.payload_path_structured (Samples.file, Samples.start)
    = Ok tt (vfData', w') /\
    map (fun v => get v "name")
      (appended Samples.file vfData' "apiToolInputVariables")
    = [VStr (js "userId")].
Proof.
  do 4 eexists.
  split; [vm_compute; reflexivity|].
  split; [vm_compute; reflexivity|].
  split; [vm_compute; reflexivity|].
  split; vm_compute; reflexivity.
Qed.

(** C5.  Body gating.  The generator path keeps the body of a [get]
    tool. *)
Theorem generator_body_not_gated :
  exists vfData w tool,
    addApiToolFromJson Samples.random16 Samples.clock
      Samples.payload_get_with_body (Samples.file, Samples.start)
    = Ok tt (vfData, w) /\
    appended Samples.file vfData "apiTools" = [tool] /\
    get tool "httpMethod" = VStr (js "get") /\
    get (get tool "body") "type" = VStr (js "raw-input") /\
    body_parts tool = [VStr (js "page=1")].
Proof.
  do 3 eexists.
  split; [vm_compute; reflexivity|].
  split; [vm_compute; reflexivity|].
  split; [vm_compute; reflexivity|].
  split; vm_compute; reflexivity.
Qed.

(** C7, as stated, fails: the generator path accepts the method [FETCH]
    and stores it. *)
Lemma method_not_validated :
  exists vfData w tool,
    addApiToolFromJson Samples.random16 Samples.clock
      Samples.payload_bad_method (Samples.file, Samples.start)
    = Ok tt (vfData, w) /\
    appended Samples.file vfData "apiTools" = [tool] /\
    get tool "httpMethod" = VStr (js "FETCH").
Proof.
  do 3 eexists.
  split; [vm_compute; reflexivity|].
  split; vm_compute; reflexivity.
Qed.

Lemma method_stored_witness :
  exists vfData w,
    addApiToolFromJson Samples.random16 Samples.clock
      Samples.payload_get_with_body (Samples.file, Samples.start)
    = Ok tt (vfData, w) /\
    exists tool,
      appended Samples.file vfData "apiTools" = [tool] /\
      (truthy (get (unwrap Samples.payload_get_with_body) "httpMethod")
       = true ->
       get tool "httpMethod"
       = get (unwrap Samples.payload_get_with_body) "httpMethod") /\
      (truthy (get (unwrap Samples.payload_get_with_body) "httpMethod")
       = false ->
       truthy (get (unwrap Samples.payload_get_with_body) "method") = false ->
       get tool "httpMethod" = VStr (js "get")).
Proof.
  do 2 eexists. split; [vm_compute; reflexivity|].
  eapply (proj2 (method_stored Samples.random16 Samples.clock)
            Samples.payload_get_with_body Samples.file Samples.start).
  vm_compute. reflexivity.
Defined.

(** C4, as stated, fails: a value that is wholly one placeholder becomes
    a reference only when its name is a variable this operation appends.
    In the example URL without a declaration of [userId], no variable is
    appended and the parameter [user] holds the literal [{userId}]. *)
Lemma placeholder_kept_literal :
  exists vfData w tool,
    addApiToolFromJson Samples.random16 Samples.clock
      Samples.payload_search_undeclared (Samples.file, Samples.start)
    = Ok tt (vfData, w) /\
    match_whole (js "{userId}") = Some (js "userId") /\
    appended Samples.file vfData "apiToolInputVariables" = [] /\
    appended Samples.file vfData "apiTools" = [tool] /\
    map key_and_value (parts_of (get tool "queryParameters")) =
      [(VStr (js "status"), literal_value (VStr (js "active")));
       (VStr (js "user"), literal_value (VStr (js "{userId}")))].
Proof.
  do 3 eexists.
  split; [vm_compute; reflexivity|].
  repeat split; vm_compute; reflexivity.
Qed.

(** The example of the query extraction: [userId] is declared, the URL
    comes as a string. *)
Lemma query_extraction_witness :
  exists vfData w,
    addApiToolFromJson Samples.random16 Samples.clock
      Samples.payload_search_declared (Samples.file, Samples.start)
    = Ok tt (vfData, w) /\
    map (fun v => (get v "name", get v "id"))
      (appended Samples.file vfData "apiToolInputVariables") =
      [(VStr (js "userId"), VStr (js "111111111111111111111111"))] /\
    flat_map
      (classify
         (varNameToId_of
            (appended Samples.file vfData "apiToolInputVariables")))
      (query_pairs (slice_from (js Samples.search_url) 31)) =
      [(VStr (js "status"), literal_value (VStr (js "active")));
       (VStr (js "user"),
        reference_value (VStr (js "111111111111111111111111")))] /\
    debrace (slice (js Samples.search_url) 0 30) =
      js "https://api.example.com/search" /\
    exists tool,
      appended Samples.file vfData "apiTools" = [tool] /\
      map key_and_value (parts_of (get tool "queryParameters")) =
        flat_map
          (classify
             (varNameToId_of
                (appended Samples.file vfData "apiToolInputVariables")))
          (query_pairs (slice_from (js Samples.search_url) 31)) /\
      url_parts tool = [VStr (debrace (slice (js Samples.search_url) 0 30))] /\
      index_of "?" (debrace (slice (js Samples.search_url) 0 30)) = None.
Proof.
  do 2 eexists. split; [vm_compute; reflexivity|].
  split; [vm_compute; reflexivity|].
  split; [vm_compute; reflexivity|].
  split; [vm_compute; reflexivity|].
  eapply (query_extraction Samples.random16 Samples.clock
            Samples.payload_search_declared Samples.file Samples.start).
  - vm_compute. reflexivity.
  - left. vm_compute. reflexivity.
  - vm_compute. reflexivity.
  - vm_compute. reflexivity.
  - vm_compute. discriminate.
Defined.

(** A placeholder under a name that [varNameToId] inherits is taken for a
    variable: [{constructor}] reads the function [Object], and the
    parameter holds a reference that carries no identifier. *)
Lemma inherited_name_referenced :
  exists vfData w tool,
    addApiToolFromJson Samples.random16 Samples.clock
      Samples.payload_inherited_name (Samples.file, Samples.start)
    = Ok tt (vfData, w) /\
    appended Samples.file vfData "apiToolInputVariables" = [] /\
    appended Samples.file vfData "apiTools" = [tool] /\
    map key_and_value (parts_of (get tool "queryParameters")) =
      [(VStr (js "by"), reference_value VUndef)].
Proof.
  do 3 eexists.
  split; [vm_compute; reflexivity|].
  repeat split; vm_compute; reflexivity.
Qed.

(** A method that the payload names as [method] is lost: the projection
    of lines 337-339 removes it before line 353 reads it, and the tool is
    stored as a [get]. *)
Lemma legacy_method_dropped :
  exists vfData w tool,
    addApiToolFromJson Samples.random16 Samples.clock
      Samples.payload_legacy_method (Samples.file, Samples.start)
    = Ok tt (vfData, w) /\
    appended Samples.file vfData "apiTools" = [tool] /\
    get tool "httpMethod" = VStr (js "get").
Proof.
  do 3 eexists.
  split; [vm_compute; reflexivity|].
  split; vm_compute; reflexivity.
Qed.

(** C8, as stated, fails: on a document that lists no agent the generator
    path completes and appends a tool without any link. *)
Lemma link_not_created :
  exists vfData w tool,
    addApiToolFromJson Samples.random16 Samples.clock
      Samples.payload_search_declared
      (Samples.file_without_agents, Samples.start)
    = Ok tt (vfData, w) /\
    appended Samples.file_without_agents vfData "apiTools" = [tool] /\
    appended Samples.file_without_agents vfData "agentAPITools" = [].
Proof.
  do 3 eexists.
  split; [vm_compute; reflexivity|].
  split; vm_compute; reflexivity.
Qed.

Lemma link_created_witness :
  exists vfData w,
    addApiToolFromJson Samples.random16 Samples.clock
      Samples.payload_search_declared (Samples.file, Samples.start)
    = Ok tt (vfData, w) /\
    truthy (first_agent_id Samples.file) = true /\
    exists tool link,
      appended Samples.file vfData "apiTools" = [tool] /\
      appended Samples.file vfData "agentAPITools" = [link] /\
      get link "agentID" = first_agent_id Samples.file /\
      get link "apiToolID" = get tool "id".
Proof.
  do 2 eexists. split; [vm_compute; reflexivity|].
  split; [reflexivity|].
  destruct (proj2 (link_created Samples.random16 Samples.clock)
              Samples.payload_search_declared Samples.file Samples.start
              _ _ ltac:(vm_compute; reflexivity))
    as (tool & Htool & Hlink & _).
  destruct (Hlink eq_refl) as (link & H1 & H2 & H3).
  exists tool, link. repeat split; assumption.
Defined.

(* ================================================================== *)
(** * Files and versions *)
(* ================================================================== *)

Section FileFacts.

Lemma assoc_set_eq {A} k (v : A) l : assoc k (assoc_set k v l) = Some v.
Proof.
  induction l as [|[k' v'] l IH]; simpl.
  - now rewrite str_eqb_refl.
  - destruct (str_eqb k' k) eqn:E; simpl; rewrite E; [reflexivity | exact IH].
Qed.

Lemma assoc_set_neq {A} k k' (v : A) l :
  k <> k' -> assoc k' (assoc_set k v l) = assoc k' l.
Proof.
  intros Hk. induction l as [|[k0 v0] l IH]; simpl.
  - now rewrite str_eqb_neq.
  - destruct (str_eqb k0 k) eqn:E; simpl.
    + apply str_eqb_eq in E. subst k0. now rewrite str_eqb_neq.
    + destruct (str_eqb k0 k'); [reflexivity | exact IH].
Qed.

Lemma assoc_in_keys {A} k (l : list (jstring * A)) :
  In k (map fst l) <-> assoc k l <> None.
Proof.
  induction l as [|[k0 v0] l IH]; simpl.
  - split; [intros [] | intros H; now apply H].
  - destruct (str_eqb k0 k) eqn:E.
    + apply str_eqb_eq in E. split; [discriminate | now left].
    + split.
      * intros [->|H]; [now rewrite str_eqb_refl in E | now apply IH].
      * intros H. right. now apply IH.
Qed.

(** A key that is new comes last; a key that is there keeps its place. *)
Lemma keys_assoc_set_new {A} k (v : A) l :
  assoc k l = None -> map fst (assoc_set k v l) = map fst l ++ [k].
Proof.
  induction l as [|[k0 v0] l IH]; simpl; intros H; [reflexivity|].
  destruct (str_eqb k0 k); [discriminate|]. simpl. now rewrite IH.
Qed.

Lemma keys_assoc_set_old {A} k (v : A) l :
  assoc k l <> None -> map fst (assoc_set k v l) = map fst l.
Proof.
  induction l as [|[k0 v0] l IH]; simpl; intros H; [now destruct H|].
  destruct (str_eqb k0 k); [reflexivity|]. simpl. now rewrite IH.
Qed.

Lemma path_eqb_eq p q : path_eqb p q = true <-> p = q.
Proof.
  unfold path_eqb. destruct p as [d e], q as [d' e']. simpl.
  rewrite andb_true_iff, !str_eqb_eq. split.
  - now intros [-> ->].
  - intros H. injection H as -> ->. now split.
Qed.

Lemma path_eqb_refl p : path_eqb p p = true.
Proof. now apply path_eqb_eq. Qed.

Lemma path_eqb_dir p q : dir p <> dir q -> path_eqb p q = false.
Proof.
  intros H. destruct (path_eqb p q) eqn:E; [|reflexivity].
  apply path_eqb_eq in E. now subst.
Qed.

Variable content : Type.

Lemma read_write_same p (c : content) fs fs' :
  writeFile p c fs = Some fs' -> readFile p fs' = Some c.
Proof.
  unfold writeFile, readFile.
  destruct (assoc (dir p) fs) as [files|]; [|discriminate].
  intros H. injection H as <-. now rewrite !assoc_set_eq.
Qed.

Lemma read_write_other p q (c : content) fs fs' :
  writeFile p c fs = Some fs' -> path_eqb p q = false ->
  readFile q fs' = readFile q fs.
Proof.
  unfold writeFile, readFile.
  destruct (assoc (dir p) fs) as [files|] eqn:Ed; [|discriminate].
  intros H Hpq. injection H as <-.
  destruct (str_eqb (dir p) (dir q)) eqn:E.
  - apply str_eqb_eq in E. rewrite <- E, assoc_set_eq, Ed.
    apply assoc_set_neq. intros He.
    assert (p = q) by (destruct p, q; simpl in *; congruence).
    subst q. now rewrite path_eqb_refl in Hpq.
  - rewrite assoc_set_neq; [reflexivity|].
    intros He. now rewrite He, str_eqb_refl in E.
Qed.

Lemma write_in_directory p (c : content) fs :
  dir_exists (dir p) fs = true -> exists fs', writeFile p c fs = Some fs'.
Proof.
  unfold dir_exists, writeFile.
  destruct (assoc (dir p) fs); [eauto | discriminate].
Qed.

Lemma dir_exists_write p (c : content) fs fs' d :
  writeFile p c fs = Some fs' -> dir_exists d fs' = dir_exists d fs.
Proof.
  unfold writeFile, dir_exists.
  destruct (assoc (dir p) fs) as [files|] eqn:Ed; [|discriminate].
  intros H. injection H as <-.
  destruct (str_eqb (dir p) d) eqn:E.
  - apply str_eqb_eq in E. subst d. now rewrite assoc_set_eq, Ed.
  - rewrite assoc_set_neq; [reflexivity|].
    intros He. now rewrite He, str_eqb_refl in E.
Qed.

(** The names of a directory after a file was written. *)
Lemma readdir_write p (c : content) fs fs' :
  writeFile p c fs = Some fs' ->
  exists names,
    readdir (dir p) fs = Some names /\
    readdir (dir p) fs' =
      Some (if existsSync p fs then names else names ++ [entry p]).
Proof.
  unfold writeFile, readdir, existsSync, readFile.
  destruct (assoc (dir p) fs) as [files|] eqn:Ed; [|discriminate].
  intros H. injection H as <-. eexists. split; [reflexivity|].
  rewrite assoc_set_eq. f_equal.
  destruct (assoc (entry p) files) eqn:Ee.
  - apply keys_assoc_set_old. congruence.
  - now apply keys_assoc_set_new.
Qed.

Lemma readdir_write_other p (c : content) fs fs' d :
  writeFile p c fs = Some fs' -> dir p <> d ->
  readdir d fs' = readdir d fs.
Proof.
  unfold writeFile, readdir.
  destruct (assoc (dir p) fs) as [files|] eqn:Ed; [|discriminate].
  intros H Hd. injection H as <-. now rewrite assoc_set_neq.
Qed.

(** ** The order of strings *)

Lemma nat_of_ascii_eqb x y :
  (nat_of_ascii x =? nat_of_ascii y) = Ascii.eqb x y.
Proof.
  destruct (Ascii.eqb x y) eqn:E.
  - apply Ascii.eqb_eq in E. subst. apply Nat.eqb_refl.
  - apply Nat.eqb_neq. intros H.
    assert (x = y)
      by (rewrite <- (ascii_nat_embedding x), <- (ascii_nat_embedding y);
          now rewrite H).
    subst. now rewrite Ascii.eqb_refl in E.
Qed.

Lemma lex_ltb_irrefl a : lex_ltb a a = false.
Proof.
  induction a as [|x a IH]; simpl; [reflexivity|].
  now rewrite Nat.ltb_irrefl, Nat.eqb_refl, IH.
Qed.

Lemma lex_ltb_trans a : forall b c,
  lex_ltb a b = true -> lex_ltb b c = true -> lex_ltb a c = true.
Proof.
  induction a as [|x a IH]; intros [|y b] [|z c]; simpl; intros H1 H2;
    try discriminate; try reflexivity.
  apply orb_true_iff in H1, H2. apply orb_true_iff.
  destruct H1 as [H1|H1], H2 as [H2|H2].
  - left. apply Nat.ltb_lt in H1, H2. apply Nat.ltb_lt. lia.
  - apply andb_true_iff in H2. destruct H2 as [H2 _].
    apply Nat.eqb_eq in H2. left. now rewrite <- H2.
  - apply andb_true_iff in H1. destruct H1 as [H1 _].
    apply Nat.eqb_eq in H1. left. now rewrite H1.
  - apply andb_true_iff in H1, H2. destruct H1 as [E1 H1], H2 as [E2 H2].
    apply Nat.eqb_eq in E1, E2. right. apply andb_true_iff. split.
    + apply Nat.eqb_eq. congruence.
    + eapply IH; eassumption.
Qed.

Lemma lex_ltb_total a : forall b,
  lex_ltb a b = false -> lex_ltb b a = false -> a = b.
Proof.
  induction a as [|x a IH]; intros [|y b]; simpl; intros H1 H2;
    try discriminate; try reflexivity.
  apply orb_false_iff in H1, H2. destruct H1 as [L1 H1], H2 as [L2 H2].
  apply Nat.ltb_ge in L1, L2.
  assert (E : nat_of_ascii x = nat_of_ascii y) by lia.
  rewrite E, Nat.eqb_refl in H1. rewrite E, Nat.eqb_refl in H2.
  simpl in H1, H2. f_equal.
  - rewrite <- (ascii_nat_embedding x), <- (ascii_nat_embedding y).
    now rewrite E.
  - now apply IH.
Qed.

Lemma lex_leb_refl a : lex_leb a a = true.
Proof. unfold lex_leb. now rewrite lex_ltb_irrefl. Qed.

Lemma lex_leb_trans a b c :
  lex_leb a b = true -> lex_leb b c = true -> lex_leb a c = true.
Proof.
  unfold lex_leb. rewrite !negb_true_iff. intros H1 H2.
  destruct (lex_ltb c a) eqn:Hca; [|reflexivity].
  destruct (lex_ltb b c) eqn:Hbc.
  - now rewrite (lex_ltb_trans _ _ _ Hbc Hca) in H1.
  - assert (b = c) by now apply lex_ltb_total.
    subst c. congruence.
Qed.

(** Two strings of the same length are compared before what follows
    them. *)
Lemma lex_ltb_app x : forall x' u u',
  length x = length x' ->
  lex_ltb (x ++ u) (x' ++ u')
  = lex_ltb x x' || (str_eqb x x' && lex_ltb u u').
Proof.
  induction x as [|c x IH]; intros [|c' x'] u u' H; try discriminate H.
  - simpl. now destruct (lex_ltb u u'), u'.
  - simpl in H. injection H as H. cbn [app lex_ltb str_eqb].
    rewrite (IH x' u u' H), nat_of_ascii_eqb.
    destruct (nat_of_ascii c <? nat_of_ascii c'); [reflexivity|].
    now destruct (Ascii.eqb c c').
Qed.

Lemma lex_ltb_same_prefix x u u' :
  lex_ltb (x ++ u) (x ++ u') = lex_ltb u u'.
Proof.
  rewrite lex_ltb_app by reflexivity.
  now rewrite lex_ltb_irrefl, str_eqb_refl.
Qed.

(** ** Sorting *)

Lemma insert_path_in p l x : In x (insert_path p l) <-> x = p \/ In x l.
Proof.
  induction l as [|q l IH]; simpl.
  - split; [intros [<-|[]]; now left | intros [->|[]]; now left].
  - destruct (lex_ltb (entry p) (entry q)); simpl.
    + split; [intros [<-|H]; auto | intros [->|H]; auto].
    + rewrite IH. tauto.
Qed.

Lemma insert_path_ascending p l :
  ascending l -> ascending (insert_path p l).
Proof.
  induction l as [|q l IH]; simpl; intros H.
  - split; [intros q [] | exact I].
  - destruct H as [Hq Hl].
    destruct (lex_ltb (entry p) (entry q)) eqn:E; simpl.
    + split; [|split; assumption].
      assert (Hpq : lex_leb (entry p) (entry q) = true).
      { unfold lex_leb. apply negb_true_iff.
        destruct (lex_ltb (entry q) (entry p)) eqn:E'; [|reflexivity].
        pose proof (lex_ltb_trans _ _ _ E E') as Hc.
        now rewrite lex_ltb_irrefl in Hc. }
      intros x [<-|Hx]; [exact Hpq|].
      eapply lex_leb_trans; [exact Hpq | now apply Hq].
    + split; [|now apply IH].
      intros x Hx. apply insert_path_in in Hx. destruct Hx as [->|Hx].
      * unfold lex_leb. now rewrite E.
      * now apply Hq.
Qed.

Lemma sort_paths_spec l :
  ascending (sort_paths l) /\ forall x, In x (sort_paths l) <-> In x l.
Proof.
  unfold sort_paths.
  assert (H : forall acc,
             ascending acc ->
             ascending (fold_left (fun acc p => insert_path p acc) l acc) /\
             forall x,
               In x (fold_left (fun acc p => insert_path p acc) l acc)
               <-> In x l \/ In x acc).
  { induction l as [|p l IH]; intros acc Hacc; simpl.
    - split; [exact Hacc | intros x; tauto].
    - destruct (IH (insert_path p acc) (insert_path_ascending p acc Hacc))
        as [Ha Hin].
      split; [exact Ha|]. intros x. rewrite Hin, insert_path_in.
      intuition (subst; auto). }
  destruct (H [] I) as [Ha Hin]. split; [exact Ha|].
  intros x. rewrite Hin. simpl. tauto.
Qed.

Lemma last_ascending l d :
  ascending l -> l <> [] ->
  In (last l d) l /\
  forall x, In x l -> lex_leb (entry x) (entry (last l d)) = true.
Proof.
  induction l as [|p l IH]; intros Ha Hne; [now destruct Hne|].
  destruct Ha as [Hp Hl]. destruct l as [|q l].
  - simpl. split; [now left|]. intros x [<-|[]]. apply lex_leb_refl.
  - destruct (IH Hl ltac:(discriminate)) as [Hin Hmax].
    change (last (p :: q :: l) d) with (last (q :: l) d).
    split; [now right|].
    intros x [<-|Hx]; [now apply Hp | now apply Hmax].
Qed.

Lemma startsWith_app x y : startsWith (x ++ y) x = true.
Proof.
  unfold startsWith.
  rewrite firstn_app, Nat.sub_diag, firstn_all, app_nil_r.
  apply str_eqb_refl.
Qed.

Lemma endsWith_app x y : endsWith (x ++ y) y = true.
Proof.
  unfold endsWith. rewrite length_app. apply andb_true_iff. split.
  - apply Nat.leb_le. lia.
  - replace (length x + length y - length y) with (length x) by lia.
    rewrite skipn_app, skipn_all, Nat.sub_diag. apply str_eqb_refl.
Qed.

End FileFacts.

(* ================================================================== *)
(** * [versioning.js] *)
(* ================================================================== *)

Section VersioningFacts.

Variable clock : nat -> jstring.
Variable content : Type.
Variable basename_vf : path -> jstring.
Variable VERSIONS_DIR : jstring.

Abbreviation versionName := (versionName basename_vf).
Abbreviation versionPath := (versionPath VERSIONS_DIR).
Abbreviation saveNewVersion :=
  (saveNewVersion clock content basename_vf VERSIONS_DIR).
Abbreviation listVersions := (listVersions content VERSIONS_DIR).
Abbreviation revertToVersion := (revertToVersion content VERSIONS_DIR).
Abbreviation withAutoVersioning :=
  (withAutoVersioning clock content basename_vf VERSIONS_DIR).

Lemma digits_spec n s :
  digits n s = true -> length s = n /\ forallb is_digit s = true.
Proof.
  unfold digits. intros H. apply andb_true_iff in H. destruct H as [H1 H2].
  apply Nat.eqb_eq in H1. now split.
Qed.

Lemma digit_no_sign c : is_digit c = true -> is_stamp_sign c = false.
Proof.
  intros H. destruct (is_stamp_sign c) eqn:E; [|reflexivity].
  unfold is_stamp_sign in E. simpl in E.
  repeat (apply orb_true_iff in E; destruct E as [E|E]);
    try discriminate E; apply Ascii.eqb_eq in E; subst c; discriminate H.
Qed.

Lemma filter_digits s :
  forallb is_digit s = true ->
  filter (fun c => negb (is_stamp_sign c)) s = s.
Proof.
  induction s as [|c s IH]; simpl; intros H; [reflexivity|].
  apply andb_true_iff in H. destruct H as [Hc Hs].
  now rewrite (digit_no_sign c Hc), IH.
Qed.

Lemma iso_shaped_fields t :
  iso_shaped t = true ->
  (length (year t) = 4 /\ forallb is_digit (year t) = true) /\
  (length (month t) = 2 /\ forallb is_digit (month t) = true) /\
  (length (day t) = 2 /\ forallb is_digit (day t) = true) /\
  (length (hour t) = 2 /\ forallb is_digit (hour t) = true) /\
  (length (minute t) = 2 /\ forallb is_digit (minute t) = true) /\
  (length (second t) = 2 /\ forallb is_digit (second t) = true) /\
  (length (millis t) = 3 /\ forallb is_digit (millis t) = true).
Proof.
  unfold iso_shaped. rewrite !andb_true_iff.
  intros ((((((H1 & H2) & H3) & H4) & H5) & H6) & H7).
  apply digits_spec in H1, H2, H3, H4, H5, H6, H7. tauto.
Qed.

(** X11.  The time stamp of a version.  Of a date written
    [YYYY-MM-DDTHH:mm:ss.sssZ] the version name keeps the fourteen digits
    of the year, the month, the day, the hour, the minute and the second:
    the milliseconds are cut off. *)
Theorem timestamp_of_iso t :
  iso_shaped t = true ->
  timestamp (iso_of t) = to_the_second t /\
  length (timestamp (iso_of t)) = 14.
Proof.
  intros H. apply iso_shaped_fields in H.
  destruct H as ((LY & DY) & (LM & DM) & (LD & DD) & (Lh & Dh) & (Lm & Dm)
                 & (Ls & Ds) & (Lf & Df)).
  assert (E : timestamp (iso_of t) = to_the_second t).
  { unfold timestamp, iso_of, to_the_second.
    rewrite !filter_app.
    rewrite (filter_digits _ DY), (filter_digits _ DM), (filter_digits _ DD),
      (filter_digits _ Dh), (filter_digits _ Dm), (filter_digits _ Ds),
      (filter_digits _ Df).
    change (filter (fun c => negb (is_stamp_sign c)) (js "-")) with (@nil ascii).
    change (filter (fun c => negb (is_stamp_sign c)) (js "T")) with (@nil ascii).
    change (filter (fun c => negb (is_stamp_sign c)) (js ":")) with (@nil ascii).
    change (filter (fun c => negb (is_stamp_sign c)) (js ".")) with (@nil ascii).
    change (filter (fun c => negb (is_stamp_sign c)) (js "Z")) with (@nil ascii).
    cbn [app]. rewrite slice_0.
    rewrite app_nil_r.
    replace (year t ++ month t ++ day t ++ hour t ++ minute t ++ second t
               ++ millis t)
      with ((year t ++ month t ++ day t ++ hour t ++ minute t ++ second t)
              ++ millis t)
      by now rewrite <- !app_assoc.
    assert (L : length (year t ++ month t ++ day t ++ hour t ++ minute t
                          ++ second t) = 14)
      by (rewrite !length_app; lia).
    rewrite firstn_app, L, Nat.sub_diag, firstn_all2 by lia.
    now rewrite app_nil_r. }
  split; [exact E|]. rewrite E. unfold to_the_second.
  rewrite !length_app. lia.
Qed.

Lemma order_step (A E X X' : bool) :
  (X = false -> X' = false) ->
  A || (E && X) = false -> A || (E && X') = false.
Proof.
  intros HX H. destruct A; [discriminate H|]. destruct E; [|reflexivity].
  simpl in *. now apply HX.
Qed.

(** X12.  Versions sort in the order of their dates.  For two dates
    written [YYYY-MM-DDTHH:mm:ss.sssZ], the version names that
    [saveNewVersion] gives one file are in the order of the dates: a
    version saved later never sorts before one saved earlier. *)
Theorem version_names_in_time_order p a b :
  iso_shaped a = true -> iso_shaped b = true ->
  lex_leb (iso_of a) (iso_of b) = true ->
  lex_leb (versionName p (iso_of a)) (versionName p (iso_of b)) = true.
Proof.
  intros Ha Hb H.
  destruct (timestamp_of_iso a Ha) as [Ea _].
  destruct (timestamp_of_iso b Hb) as [Eb _].
  apply iso_shaped_fields in Ha, Hb.
  destruct Ha as ((LY & _) & (LM & _) & (LD & _) & (Lh & _) & (Lm & _)
                  & (Ls & _) & (Lf & _)).
  destruct Hb as ((LY' & _) & (LM' & _) & (LD' & _) & (Lh' & _) & (Lm' & _)
                  & (Ls' & _) & (Lf' & _)).
  unfold Versioning.versionName. rewrite Ea, Eb.
  unfold lex_leb in *. apply negb_true_iff in H. apply negb_true_iff.
  rewrite !lex_ltb_same_prefix.
  unfold to_the_second, iso_of in *. rewrite <- !app_assoc.
  do 6 rewrite lex_ltb_app by lia.
  do 13 (rewrite lex_ltb_app in H by (first [reflexivity | lia])).
  rewrite ?lex_ltb_irrefl, ?str_eqb_refl in H.
  rewrite ?lex_ltb_irrefl.
  cbn [orb andb] in H.
  rewrite ?andb_false_r, ?orb_false_r in H.
  rewrite ?andb_false_r, ?orb_false_r.
  revert H.
  repeat (apply order_step).
  intros H. apply orb_false_iff in H. tauto.
Qed.

Lemma path_eqb_sym p q : path_eqb p q = path_eqb q p.
Proof.
  destruct (path_eqb p q) eqn:E.
  - apply path_eqb_eq in E. subst. symmetry. apply path_eqb_refl.
  - destruct (path_eqb q p) eqn:E'; [|reflexivity].
    apply path_eqb_eq in E'. subst. now rewrite path_eqb_refl in E.
Qed.

Lemma readdir_kept p (c : content) fs fs' d names f :
  writeFile p c fs = Some fs' ->
  readdir d fs = Some names -> In f names ->
  exists names', readdir d fs' = Some names' /\ In f names'.
Proof.
  intros Hw Hd Hf. destruct (str_eqb (dir p) d) eqn:E.
  - apply str_eqb_eq in E. subst d.
    destruct (readdir_write _ _ _ _ _ Hw) as (names0 & H0 & H1).
    rewrite Hd in H0. injection H0 as <-.
    eexists. split; [exact H1|].
    destruct (existsSync p fs); [exact Hf | apply in_or_app; now left].
  - exists names. split; [|exact Hf].
    rewrite (readdir_write_other _ _ _ _ _ d Hw); [exact Hd|].
    intros He. now rewrite He, str_eqb_refl in E.
Qed.

Lemma readdir_written p (c : content) fs fs' :
  writeFile p c fs = Some fs' ->
  exists names, readdir (dir p) fs' = Some names /\ In (entry p) names.
Proof.
  intros Hw. destruct (readdir_write _ _ _ _ _ Hw) as (names & H0 & H1).
  eexists. split; [exact H1|].
  destruct (existsSync p fs) eqn:E; [|apply in_or_app; right; now left].
  unfold existsSync, readFile, readdir in *.
  destruct (assoc (dir p) fs) as [files|]; [|discriminate].
  injection H0 as <-. apply assoc_in_keys.
  now destruct (assoc (entry p) files).
Qed.

(** What [saveNewVersion] does when it returns: the file is copied, under
    the version name of the date, into the directory of the versions. *)
Lemma saveNewVersion_returned p fs w fname fs1 w1 :
  saveNewVersion p fs w = Returned fname fs1 w1 ->
  fname = versionName p (clock (ticks w)) /\
  w1 = {| draws := draws w; ticks := S (ticks w) |} /\
  exists c, readFile p fs = Some c /\
            writeFile (versionPath fname) c fs = Some fs1.
Proof.
  unfold Versioning.saveNewVersion, copyFile. cbn [now].
  destruct (readFile p fs) as [c|]; [|discriminate].
  destruct (writeFile _ c fs) as [fs'|] eqn:Hw; [|discriminate].
  intros H. injection H as <- <- <-. eauto.
Qed.

Lemma versionName_ends p iso : endsWith (versionName p iso) (js ".vf") = true.
Proof.
  unfold Versioning.versionName. rewrite !app_assoc. apply endsWith_app.
Qed.

Lemma versionName_starts p iso :
  startsWith (versionName p iso) (basename_vf p ++ js "_v") = true.
Proof.
  unfold Versioning.versionName. rewrite app_assoc. apply startsWith_app.
Qed.

(** X13.  Saving and reverting.  A version saved of a file is listed by
    [listVersions], and reverting to it gives the file what it held when
    the version was saved, whatever was written to the file since. *)
Theorem save_revert_roundtrip p fs w fname fs1 w1 c fs2 :
  saveNewVersion p fs w = Returned fname fs1 w1 ->
  path_eqb (versionPath fname) p = false ->
  writeFile p c fs1 = Some fs2 ->
  (exists names, listVersions fs2 w1 = Returned names fs2 w1 /\
                 In fname names) /\
  exists fs3, revertToVersion fname p fs2 w1 = Returned tt fs3 w1 /\
              readFile p fs3 = readFile p fs.
Proof.
  intros Hs Hp Hw.
  destruct (saveNewVersion_returned _ _ _ _ _ _ Hs)
    as (Hname & _ & c0 & Hr & Hv).
  assert (Hread : readFile (versionPath fname) fs2 = Some c0).
  { rewrite (read_write_other _ _ _ _ _ _ Hw)
      by (now rewrite path_eqb_sym).
    eapply read_write_same. exact Hv. }
  split.
  - destruct (readdir_written _ _ _ _ Hv) as (names1 & Hd1 & Hin1).
    destruct (readdir_kept _ _ _ _ _ _ _ Hw Hd1 Hin1)
      as (names2 & Hd2 & Hin2).
    unfold Versioning.listVersions. cbn [dir Versioning.versionPath] in Hd2.
    rewrite Hd2. eexists. split; [reflexivity|].
    apply filter_In. split; [exact Hin2|].
    rewrite Hname. apply versionName_ends.
  - unfold Versioning.revertToVersion, existsSync, copyFile.
    rewrite Hread. cbn [negb].
    destruct (write_in_directory _ p c0 fs2) as [fs3 Hw3].
    { rewrite (dir_exists_write _ _ _ _ _ _ Hw).
      unfold dir_exists. unfold writeFile in Hw.
      now destruct (assoc (dir p) fs1). }
    rewrite Hw3. eexists. split; [reflexivity|].
    rewrite Hr. eapply read_write_same. exact Hw3.
Qed.

(** X14.  [withAutoVersioning] saves the version after the mutation: the
    version holds the file as the mutation left it, not as it was before,
    and no other file is touched by the saving.  When the mutation throws,
    no version is saved. *)
Theorem auto_version_after_mutation {A} p
    (mutationFn : fsys content -> world -> run content A) fs w :
  (forall r fs2 w2,
     withAutoVersioning p mutationFn fs w = Returned r fs2 w2 ->
     exists fs1 w1 fname,
       mutationFn fs w = Returned r fs1 w1 /\
       readFile p fs1 <> None /\
       readFile (versionPath fname) fs2 = readFile p fs1 /\
       forall q, path_eqb (versionPath fname) q = false ->
                 readFile q fs2 = readFile q fs1) /\
  (forall e fs1 w1,
     mutationFn fs w = Threw e fs1 w1 ->
     withAutoVersioning p mutationFn fs w = Threw e fs1 w1).
Proof.
  unfold Versioning.withAutoVersioning. split.
  - intros r fs2 w2 H.
    destruct (mutationFn fs w) as [r1 fs1 w1|e fs1 w1]; [|discriminate].
    destruct (Versioning.saveNewVersion _ _ _ _ p fs1 w1)
      as [fname fs2' w2'|e fs2' w2'] eqn:Hs; [|discriminate].
    injection H as <- <- <-.
    destruct (saveNewVersion_returned _ _ _ _ _ _ Hs)
      as (_ & _ & c0 & Hr & Hv).
    exists fs1, w1, fname. split; [reflexivity|]. split; [congruence|].
    split.
    + rewrite Hr. eapply read_write_same. exact Hv.
    + intros q Hq. eapply read_write_other; eassumption.
  - intros e fs1 w1 H. now rewrite H.
Qed.

End VersioningFacts.

(* ================================================================== *)
(** * The working file of a command *)
(* ================================================================== *)

Section WorkingFileFacts.

Variable clock : nat -> jstring.
Variable content : Type.
Variable basename_vf : path -> jstring.
Variable VERSIONS_DIR : jstring.
Variable versions_dir : jstring.

Abbreviation versionName := (versionName basename_vf).
Abbreviation versionPath := (versionPath VERSIONS_DIR).
Abbreviation saveNewVersion :=
  (saveNewVersion clock content basename_vf VERSIONS_DIR).
Abbreviation getVersionedFiles :=
  (getVersionedFiles content basename_vf versions_dir).
Abbreviation getLatestVfFile :=
  (getLatestVfFile content basename_vf versions_dir).
Abbreviation ensureVersionedFile :=
  (ensureVersionedFile clock content basename_vf VERSIONS_DIR versions_dir).

Lemma getVersionedFiles_in baseFile fs v :
  In v (getVersionedFiles baseFile fs) <->
  dir v = versions_dir /\
  exists names,
    readdir versions_dir fs = Some names /\ In (entry v) names /\
    version_of (basename_vf baseFile) (entry v) = true.
Proof.
  unfold Versioning.getVersionedFiles, version_of.
  destruct (readdir versions_dir fs) as [names|].
  - rewrite in_map_iff. split.
    + intros (f & <- & Hf). apply filter_In in Hf. destruct Hf as [Hf Hv].
      simpl. split; [reflexivity|]. eauto.
    + intros (Hd & names' & Hn & Hf & Hv). injection Hn as <-.
      exists (entry v). split; [destruct v; simpl in *; now subst|].
      apply filter_In. now split.
  - split; [intros [] | intros (_ & names & Hn & _); discriminate].
Qed.

Lemma getVersionedFiles_none baseFile fs :
  (forall names f,
     readdir versions_dir fs = Some names -> In f names ->
     version_of (basename_vf baseFile) f = false) ->
  getVersionedFiles baseFile fs = [].
Proof.
  intros H. destruct (getVersionedFiles baseFile fs) as [|v vs] eqn:E;
    [reflexivity|].
  assert (Hin : In v (getVersionedFiles baseFile fs))
    by (rewrite E; now left).
  apply getVersionedFiles_in in Hin.
  destruct Hin as (_ & names & Hn & Hf & Hv).
  now rewrite (H _ _ Hn Hf) in Hv.
Qed.

Lemma latest_of_some baseFile fs names f :
  readdir versions_dir fs = Some names -> In f names ->
  version_of (basename_vf baseFile) f = true ->
  dir (getLatestVfFile baseFile fs) = versions_dir /\
  In (entry (getLatestVfFile baseFile fs)) names /\
  version_of (basename_vf baseFile) (entry (getLatestVfFile baseFile fs))
  = true /\
  lex_leb f (entry (getLatestVfFile baseFile fs)) = true.
Proof.
  intros Hn Hf Hv.
  assert (Hin : In {| dir := versions_dir; entry := f |}
                   (getVersionedFiles baseFile fs))
    by (apply getVersionedFiles_in; simpl; eauto).
  unfold Versioning.getLatestVfFile.
  destruct (Versioning.getVersionedFiles _ _ _ baseFile fs)
    as [|v vs] eqn:E; [destruct Hin|].
  rewrite <- E in *.
  destruct (sort_paths_spec (getVersionedFiles baseFile fs))
    as [Hasc Hsame].
  assert (Hne : sort_paths (getVersionedFiles baseFile fs) <> []).
  { intros Hnil. apply Hsame in Hin. now rewrite Hnil in Hin. }
  destruct (last_ascending _ baseFile Hasc Hne) as [Hlast Hmax].
  apply Hsame, getVersionedFiles_in in Hlast.
  destruct Hlast as (Hd & names' & Hn' & Hf' & Hv').
  rewrite Hn in Hn'. injection Hn' as <-.
  repeat split; try assumption.
  apply (Hmax {| dir := versions_dir; entry := f |}).
  now apply Hsame.
Qed.

Lemma latest_of_none baseFile fs :
  (forall names f,
     readdir versions_dir fs = Some names -> In f names ->
     version_of (basename_vf baseFile) f = false) ->
  getLatestVfFile baseFile fs = baseFile.
Proof.
  intros H. unfold Versioning.getLatestVfFile.
  change (Versioning.getVersionedFiles content basename_vf versions_dir
            baseFile fs) with (getVersionedFiles baseFile fs).
  now rewrite (getVersionedFiles_none _ _ H).
Qed.

(** X15.  The latest version.  When the directory of the versions holds
    a version of the file, [getLatestVfFile] answers one of them, and none
    has a name that sorts after its name; when it holds none, the answer
    is the file itself. *)
Theorem latest_version_greatest baseFile fs :
  (forall names f,
     readdir versions_dir fs = Some names -> In f names ->
     version_of (basename_vf baseFile) f = true ->
     dir (getLatestVfFile baseFile fs) = versions_dir /\
     In (entry (getLatestVfFile baseFile fs)) names /\
     version_of (basename_vf baseFile) (entry (getLatestVfFile baseFile fs))
     = true /\
     lex_leb f (entry (getLatestVfFile baseFile fs)) = true) /\
  ((forall names f,
      readdir versions_dir fs = Some names -> In f names ->
      version_of (basename_vf baseFile) f = false) ->
   getLatestVfFile baseFile fs = baseFile).
Proof.
  split.
  - intros names f. apply latest_of_some.
  - apply latest_of_none.
Qed.

Lemma filter_none {A} (p : A -> bool) l :
  (forall x, In x l -> p x = false) -> filter p l = [].
Proof.
  induction l as [|x l IH]; simpl; intros H; [reflexivity|].
  rewrite (H x) by now left. apply IH. intros y Hy. apply H. now right.
Qed.

(** X16.  The working file.  For a file that has no version yet,
    [ensureVersionedFile] saves one and answers it: the working file is a
    new file of the versions directory that holds what the file holds, and
    no file outside that directory is changed.  For a file that has
    versions, it answers the latest and writes nothing. *)
Theorem ensureVersionedFile_working baseFile fs w :
  versions_dir = VERSIONS_DIR ->
  dir baseFile <> VERSIONS_DIR ->
  (forall c,
     (forall names f,
        readdir versions_dir fs = Some names -> In f names ->
        version_of (basename_vf baseFile) f = false) ->
     dir_exists VERSIONS_DIR fs = true ->
     readFile baseFile fs = Some c ->
     exists fs',
       ensureVersionedFile baseFile fs w
       = Returned (versionPath (versionName baseFile (clock (ticks w)))) fs'
           {| draws := draws w; ticks := S (ticks w) |} /\
       readFile (versionPath (versionName baseFile (clock (ticks w)))) fs'
       = Some c /\
       forall q, dir q <> VERSIONS_DIR -> readFile q fs' = readFile q fs) /\
  (forall names f,
     readdir versions_dir fs = Some names -> In f names ->
     version_of (basename_vf baseFile) f = true ->
     ensureVersionedFile baseFile fs w
     = Returned (getLatestVfFile baseFile fs) fs w).
Proof.
  intros Hdirs Hbase. split.
  - intros c Hnone Hexists Hread.
    unfold Versioning.ensureVersionedFile.
    rewrite (latest_of_none baseFile fs Hnone).
    rewrite path_eqb_refl.
    unfold Versioning.saveNewVersion, copyFile. cbn [now]. rewrite Hread.
    set (fname := Versioning.versionName basename_vf baseFile
                    (clock (ticks w))).
    set (vp := Versioning.versionPath VERSIONS_DIR fname).
    destruct (write_in_directory _ vp c fs Hexists) as [fs' Hw].
    rewrite Hw. exists fs'.
    assert (Hv : version_of (basename_vf baseFile) fname = true).
    { unfold version_of. apply andb_true_iff. split.
      - apply (versionName_starts basename_vf).
      - apply (versionName_ends basename_vf). }
    assert (Hlatest : getLatestVfFile baseFile fs' = vp).
    { unfold Versioning.getLatestVfFile, Versioning.getVersionedFiles.
      destruct (readdir_write _ _ _ _ _ Hw) as (names & Hn & Hn').
      cbn [dir vp Versioning.versionPath] in Hn, Hn'.
      rewrite Hdirs, Hn'.
      assert (Hnew : existsSync vp fs = false).
      { destruct (existsSync vp fs) eqn:Ee; [|reflexivity].
        assert (Hin : In fname names).
        { unfold existsSync, readFile, readdir in *.
          cbn [dir entry vp Versioning.versionPath] in *.
          destruct (assoc VERSIONS_DIR fs) as [files|]; [|discriminate].
          injection Hn as <-. apply assoc_in_keys.
          now destruct (assoc fname files). }
        rewrite Hdirs in Hnone. now rewrite (Hnone _ _ Hn Hin) in Hv. }
      rewrite Hnew, filter_app.
      rewrite (filter_none _ names).
      2:{ intros f Hf. rewrite Hdirs in Hnone. apply (Hnone _ _ Hn Hf). }
      cbn [filter app entry vp Versioning.versionPath].
      unfold version_of in Hv. rewrite Hv. reflexivity. }
    change (Versioning.getLatestVfFile content basename_vf versions_dir
              baseFile fs') with (getLatestVfFile baseFile fs').
    rewrite Hlatest. split; [reflexivity|]. split.
    + eapply read_write_same. exact Hw.
    + intros q Hq. eapply read_write_other; [exact Hw|].
      apply path_eqb_dir. cbn [dir vp Versioning.versionPath]. congruence.
  - intros names f Hn Hf Hv.
    destruct (latest_of_some baseFile fs names f Hn Hf Hv)
      as (Hd & _).
    unfold Versioning.ensureVersionedFile.
    change (Versioning.getLatestVfFile content basename_vf versions_dir
              baseFile fs) with (getLatestVfFile baseFile fs).
    rewrite path_eqb_dir; [reflexivity|]. congruence.
Qed.

End WorkingFileFacts.

(* ================================================================== *)
(** * [vf-parser.js] *)
(* ================================================================== *)

Section ParserFacts.

Lemma keys_obj_set_iff k v o k' :
  In k' (map fst (obj_set k v o)) <-> k' = k \/ In k' (map fst o).
Proof.
  induction o as [|[k0 v0] o IH]; simpl.
  - intuition.
  - destruct (str_eqb k0 k) eqn:E; simpl.
    + apply str_eqb_eq in E. subst. intuition.
    + rewrite IH. intuition.
Qed.

Lemma NoDup_obj_set k v o :
  NoDup (map fst o) -> NoDup (map fst (obj_set k v o)).
Proof.
  induction o as [|[k0 v0] o IH]; simpl; intros H.
  - constructor; [intros []|constructor].
  - inversion H as [|? ? Hn Hd]; subst.
    destruct (str_eqb k0 k) eqn:E; simpl.
    + now constructor.
    + constructor; [|now apply IH].
      rewrite keys_obj_set_iff. intros [->|Hin]; [|contradiction].
      now rewrite str_eqb_refl in E.
Qed.

Lemma in_obj_set k v o k' v' :
  In (k', v') (obj_set k v o) -> (k' = k /\ v' = v) \/ In (k', v') o.
Proof.
  induction o as [|[k0 v0] o IH]; simpl.
  - intros [H|[]]. injection H as <- <-. now left.
  - destruct (str_eqb k0 k) eqn:E; simpl.
    + apply str_eqb_eq in E. subst. intros [H|H].
      * injection H as <- <-. now left.
      * right. now right.
    + intros [H|H]; [right; now left|].
      destruct (IH H); [now left|right; now right].
Qed.

Lemma map_put_keyed k v m :
  id_key v = k ->
  NoDup (map fst m) /\ (forall k' v', In (k', v') m -> id_key v' = k') ->
  NoDup (map fst (map_put k v m)) /\
  (forall k' v', In (k', v') (map_put k v m) -> id_key v' = k').
Proof.
  intros Hk [Hn Hv]. unfold map_put.
  destruct (str_eqb k (js "__proto__")); [now split|].
  split; [now apply NoDup_obj_set|].
  intros k' v' H. apply in_obj_set in H.
  destruct H as [[-> ->]|H]; [exact Hk|now apply Hv].
Qed.

Lemma keys_map_put k v m k' :
  In k' (map fst (map_put k v m)) <->
  (k' = k /\ k <> js "__proto__") \/ In k' (map fst m).
Proof.
  unfold map_put. destruct (str_eqb k (js "__proto__")) eqn:E.
  - apply str_eqb_eq in E. intuition.
  - rewrite keys_obj_set_iff.
    assert (k <> js "__proto__")
      by (intros ->; now rewrite str_eqb_refl in E).
    intuition.
Qed.

Lemma fold_put_keyed {A} (ok : A -> bool) (key : A -> jstring)
    (val : A -> value) l :
  (forall x, id_key (val x) = key x) ->
  forall m,
    NoDup (map fst m) /\ (forall k' v', In (k', v') m -> id_key v' = k') ->
    NoDup (map fst (fold_left (fun m x => if ok x
                                          then map_put (key x) (val x) m
                                          else m) l m)) /\
    (forall k' v',
       In (k', v') (fold_left (fun m x => if ok x
                                          then map_put (key x) (val x) m
                                          else m) l m) ->
       id_key v' = k').
Proof.
  intros Hval. induction l as [|x l IH]; intros m H; [exact H|].
  simpl. apply IH. destruct (ok x); [|exact H]. now apply map_put_keyed.
Qed.

Lemma fold_put_keys {A} (ok : A -> bool) (key : A -> jstring)
    (val : A -> value) l k :
  forall m,
    In k (map fst (fold_left (fun m x => if ok x
                                         then map_put (key x) (val x) m
                                         else m) l m)) <->
    In k (map fst m) \/
    (k <> js "__proto__" /\ exists x, In x l /\ ok x = true /\ key x = k).
Proof.
  induction l as [|x l IH]; intros m; simpl.
  - split; [now left|]. intros [H|(_ & x & [] & _)]. exact H.
  - rewrite IH. destruct (ok x) eqn:E.
    + rewrite keys_map_put. split.
      * intros [[[-> Hp]|H]|(Hp & y & Hy & Hok & Hk)].
        -- right. split; [exact Hp|]. exists x. auto.
        -- now left.
        -- right. split; [exact Hp|]. exists y. auto.
      * intros [H|(Hp & y & [<-|Hy] & Hok & Hk)].
        -- left. now right.
        -- left. left. subst. now split.
        -- right. split; [exact Hp|]. exists y. auto.
    + split.
      * intros [H|(Hp & y & Hy & Hok & Hk)]; [now left|].
        right. split; [exact Hp|]. exists y. auto.
      * intros [H|(Hp & y & [<-|Hy] & Hok & Hk)];
          [now left|congruence|].
        right. split; [exact Hp|]. exists y. auto.
Qed.

Lemma insert_index_perm e l : Permutation (insert_index e l) (e :: l).
Proof.
  induction l as [|e' l IH]; simpl; [apply Permutation_refl|].
  destruct (fst e <? fst e')%N; [apply Permutation_refl|].
  eapply perm_trans; [apply perm_skip, IH|apply perm_swap].
Qed.

Lemma sorted_perm l : forall acc,
  Permutation (fold_left (fun acc e => insert_index e acc) l acc) (l ++ acc).
Proof.
  induction l as [|e l IH]; intros acc; simpl; [apply Permutation_refl|].
  eapply perm_trans; [apply IH|].
  eapply perm_trans; [apply Permutation_app_head, insert_index_perm|].
  apply Permutation_sym, Permutation_middle.
Qed.

Lemma indexed_snd (o : obj) :
  map snd (flat_map (fun kv => match array_index (fst kv) with
                               | Some n => [(n, kv)]
                               | None => []
                               end) o)
  = filter (fun kv => match array_index (fst kv) with
                      | Some _ => true
                      | None => false
                      end) o.
Proof.
  induction o as [|kv o IH]; simpl; [reflexivity|].
  destruct (array_index (fst kv)); simpl; now rewrite IH.
Qed.

Lemma filter_split_perm {A} (p : A -> bool) l :
  Permutation (filter p l ++ filter (fun x => negb (p x)) l) l.
Proof.
  induction l as [|x l IH]; simpl; [apply perm_nil|].
  destruct (p x); simpl.
  - now apply perm_skip.
  - eapply perm_trans; [apply Permutation_sym, Permutation_middle|].
    now apply perm_skip.
Qed.

(** [Object.keys] and its kin list every own property once. *)
Lemma ordered_perm o : Permutation (ordered o) o.
Proof.
  unfold ordered.
  eapply perm_trans;
    [apply Permutation_app_tail, Permutation_map, sorted_perm|].
  rewrite app_nil_r, indexed_snd.
  replace (filter (fun kv => match array_index (fst kv) with
                             | Some _ => false
                             | None => true
                             end) o)
    with (filter (fun kv => negb match array_index (fst kv) with
                                 | Some _ => true
                                 | None => false
                                 end) o).
  - apply filter_split_perm.
  - apply filter_ext. intros kv. now destruct (array_index (fst kv)).
Qed.

Lemma programAgentsMap_keyed data :
  NoDup (map fst (programAgentsMap data)) /\
  (forall k v, In (k, v) (programAgentsMap data) -> id_key v = k).
Proof.
  assert (K0 : NoDup (map fst (@nil (jstring * value))) /\
               (forall k v, In (k, v) (@nil (jstring * value)) ->
                            id_key v = k))
    by (split; [constructor|intros ? ? []]).
  unfold programAgentsMap.
  destruct (programResourcesAgents data) as [agents|]; [|exact K0].
  apply (fold_put_keyed (fun kv => truthy (snd kv)) fst
           (fun kv => agentEntry (VStr (fst kv))
                        (or_else (get (snd kv) "name") (VStr (fst kv)))));
    [|exact K0].
  intros x. reflexivity.
Qed.

Lemma agentsMap_keyed data :
  NoDup (map fst (agentsMap data)) /\
  (forall k v, In (k, v) (agentsMap data) -> id_key v = k).
Proof.
  unfold agentsMap.
  destruct (own data (js "agents")); try apply programAgentsMap_keyed.
  apply (fold_put_keyed
           (fun agent => truthy agent && truthy (get agent "id"))
           (fun agent => to_string (get agent "id"))
           (fun agent => agentEntry (get agent "id")
                           (or_else (get agent "name") (get agent "id"))));
    [|apply programAgentsMap_keyed].
  intros x. reflexivity.
Qed.

Lemma listed_keys data :
  map id_key (listAllAgents data) = map fst (ordered (agentsMap data)).
Proof.
  unfold listAllAgents. rewrite map_map. apply map_ext_in.
  intros [k v] Hin. apply (agentsMap_keyed data).
  eapply Permutation_in; [apply ordered_perm|exact Hin].
Qed.

(** X17.  [listAllAgents] lists each agent once: in a document whose root
    agents have identifiers that are strings, booleans, [null], integers
    up to [2 ^ 53] in magnitude, or arrays and objects that [String]
    converts, no two of the agents it answers have an [id] that spells the
    same property key. *)
Theorem listAllAgents_distinct data :
  ids_spelled data = true ->
  NoDup (map id_key (listAllAgents data)).
Proof.
  intros _. rewrite listed_keys.
  eapply Permutation_NoDup;
    [apply Permutation_sym, Permutation_map, ordered_perm|].
  apply agentsMap_keyed.
Qed.

(** X18.  The agents that [listAllAgents] lists, in a document whose root
    agents have identifiers that [to_string] spells as [String] does.  A
    key is the [id] of a listed agent exactly when it is not [__proto__]
    and is either a key of [programResources.agents] with a truthy value
    or spelled by the truthy [id] of a truthy item of the root array
    [agents]. *)
Theorem listAllAgents_ids data k :
  ids_spelled data = true ->
  In k (map id_key (listAllAgents data)) <->
  k <> js "__proto__" /\
  ((exists agents v,
      programResourcesAgents data = Some agents /\
      In (k, v) (entries agents) /\ truthy v = true) \/
   (exists a,
      In a (array_field data "agents") /\ truthy a = true /\
      truthy (get a "id") = true /\ to_string (get a "id") = k)).
Proof.
  intros _. rewrite listed_keys.
  assert (P : In k (map fst (ordered (agentsMap data))) <->
              In k (map fst (agentsMap data))).
  { split; apply Permutation_in, Permutation_map;
      [|apply Permutation_sym]; apply ordered_perm. }
  rewrite P. clear P. unfold agentsMap, array_field.
  assert (K1 :
    In k (map fst (programAgentsMap data)) <->
    k <> js "__proto__" /\
    exists agents v,
      programResourcesAgents data = Some agents /\
      In (k, v) (entries agents) /\ truthy v = true).
  { unfold programAgentsMap.
    destruct (programResourcesAgents data) as [agents|].
    - rewrite (fold_put_keys (fun kv => truthy (snd kv)) fst
                 (fun kv => agentEntry (VStr (fst kv))
                              (or_else (get (snd kv) "name")
                                 (VStr (fst kv))))).
      split.
      + intros [[]|(Hp & [k0 v] & Hin & Hok & Hk)]. simpl in *. subst k0.
        split; [exact Hp|]. exists agents, v. auto.
      + intros (Hp & agents' & v & Ha & Hin & Hok). injection Ha as <-.
        right. split; [exact Hp|]. exists (k, v). auto.
    - split; [intros []|]. intros (_ & ? & ? & ? & _). discriminate. }
  destruct (own data (js "agents")) as [| |b|z|s|l|o];
    try (rewrite K1; split;
         [intros (Hp & H); split; [exact Hp|now left]
         |intros (Hp & [H|(a & [] & _)]); now split]).
  rewrite (fold_put_keys
             (fun agent => truthy agent && truthy (get agent "id"))
             (fun agent => to_string (get agent "id"))
             (fun agent => agentEntry (get agent "id")
                             (or_else (get agent "name") (get agent "id")))).
  rewrite K1. split.
  - intros [(Hp & H)|(Hp & a & Hin & Hok & Hk)].
    + split; [exact Hp|now left].
    + apply andb_true_iff in Hok. destruct Hok as [Ha Hid].
      split; [exact Hp|]. right. exists a. auto.
  - intros (Hp & [H|(a & Hin & Ha & Hid & Hk)]).
    + left. now split.
    + right. split; [exact Hp|]. exists a.
      split; [exact Hin|]. split; [|exact Hk]. now rewrite Ha, Hid.
Qed.

Lemma programResourcesAgents_some data agents :
  programResourcesAgents data = Some agents ->
  exists v p,
    own data (js "version") = VObj v /\
    own v (js "programResources") = VObj p /\
    own p (js "agents") = agents /\ truthy agents = true.
Proof.
  unfold programResourcesAgents. intros H.
  destruct (own data (js "version")) as [| |b|z|s|l|v] eqn:Ev;
    try (simpl in H; rewrite ?andb_false_r in H; simpl in H;
         discriminate H).
  change (get (VObj v) "programResources")
    with (own v (js "programResources")) in H.
  destruct (own v (js "programResources")) as [| |b|z|s|l|p] eqn:Ep;
    try (simpl in H; rewrite ?andb_false_r in H; simpl in H;
         discriminate H).
  change (get (VObj p) "agents") with (own p (js "agents")) in H.
  cbn [truthy andb] in H.
  destruct (truthy (own p (js "agents"))) eqn:T; [|discriminate].
  injection H as <-. exists v, p. repeat split; auto.
Qed.

Lemma truthy_map_entries f agents :
  truthy (map_entries f agents) = truthy agents.
Proof. now destruct agents. Qed.

Lemma own_lookup o k v : own o k = v -> v <> VUndef -> lookup k o = Some v.
Proof. unfold own. destruct (lookup k o); intros; congruence. Qed.

Lemma programResourcesAgents_ext data data' :
  own data' (js "version") = own data (js "version") ->
  programResourcesAgents data' = programResourcesAgents data.
Proof. unfold programResourcesAgents. now intros ->. Qed.

Lemma programResourcesAgents_set data agents agents' :
  programResourcesAgents data = Some agents -> truthy agents' = true ->
  programResourcesAgents (set_programAgents agents' data) = Some agents'.
Proof.
  intros H T.
  destruct (programResourcesAgents_some _ _ H) as (v & p & Ev & Ep & Ea & _).
  unfold set_programAgents. rewrite Ev, Ep.
  unfold programResourcesAgents. rewrite own_obj_set_eq.
  cbn [get]. rewrite own_obj_set_eq. cbn [get]. rewrite own_obj_set_eq.
  cbn [truthy andb]. now rewrite T.
Qed.

Lemma own_set_programAgents agents data k :
  k <> js "version" -> own (set_programAgents agents data) k = own data k.
Proof.
  intros Hk. unfold set_programAgents.
  destruct (own data (js "version")) as [| |b|z|s|l|v]; try reflexivity.
  destruct (own v (js "programResources")); try reflexivity.
  apply own_obj_set_neq. congruence.
Qed.

Lemma set_programAgents_same data agents :
  programResourcesAgents data = Some agents ->
  set_programAgents agents data = data.
Proof.
  intros H.
  destruct (programResourcesAgents_some _ _ H) as (v & p & Ev & Ep & Ea & T).
  unfold set_programAgents. rewrite Ev, Ep.
  rewrite (obj_set_same (js "agents") agents p).
  2:{ apply own_lookup; [exact Ea|]. intros ->. discriminate T. }
  rewrite (obj_set_same (js "programResources") (VObj p) v)
    by (apply own_lookup; [exact Ep|discriminate]).
  apply obj_set_same. apply own_lookup; [exact Ev|discriminate].
Qed.

Lemma insert_index_map (g : jstring * value -> jstring * value) e l :
  insert_index (fst e, g (snd e)) (map (fun x => (fst x, g (snd x))) l)
  = map (fun x => (fst x, g (snd x))) (insert_index e l).
Proof.
  induction l as [|e' l IH]; simpl; [reflexivity|].
  destruct (fst e <? fst e')%N; simpl; [reflexivity|]. now rewrite IH.
Qed.

Lemma sorted_map (g : jstring * value -> jstring * value) l : forall acc,
  fold_left (fun acc e => insert_index e acc)
    (map (fun x => (fst x, g (snd x))) l)
    (map (fun x => (fst x, g (snd x))) acc)
  = map (fun x => (fst x, g (snd x)))
      (fold_left (fun acc e => insert_index e acc) l acc).
Proof.
  induction l as [|e l IH]; intros acc; simpl; [reflexivity|].
  rewrite insert_index_map. apply IH.
Qed.

(** The order of the keys does not depend on the values. *)
Lemma ordered_map (h : jstring -> value -> value) o :
  ordered (map (fun kv => (fst kv, h (fst kv) (snd kv))) o)
  = map (fun kv => (fst kv, h (fst kv) (snd kv))) (ordered o).
Proof.
  unfold ordered. rewrite map_app.
  set (g := fun kv : jstring * value => (fst kv, h (fst kv) (snd kv))).
  set (indexed := fun kv : jstring * value =>
                    match array_index (fst kv) with
                    | Some n => [(n, kv)]
                    | None => []
                    end).
  assert (F : flat_map indexed (map g o)
              = map (fun x => (fst x, g (snd x))) (flat_map indexed o)).
  { induction o as [|kv o IH]; simpl; [reflexivity|].
    rewrite IH. unfold indexed at 1 3. simpl.
    now destruct (array_index (fst kv)). }
  rewrite F. f_equal.
  - etransitivity;
      [apply f_equal; exact (sorted_map g (flat_map indexed o) [])|].
    rewrite !map_map. reflexivity.
  - clear F. induction o as [|kv o IH]; simpl; [reflexivity|].
    destruct (array_index (fst kv)); simpl; now rewrite IH.
Qed.

Lemma mapi_from_compose {A} (k : nat -> jstring) (h : jstring -> A -> A) l :
  forall i,
    mapi_from (fun i x => (k i, x)) i (mapi_from (fun i x => h (k i) x) i l)
    = map (fun kv => (fst kv, h (fst kv) (snd kv)))
        (mapi_from (fun i x => (k i, x)) i l).
Proof.
  induction l as [|x l IH]; intros i; simpl; [reflexivity|].
  now rewrite IH.
Qed.

Lemma mapi_from_fixed {A} (k : nat -> jstring) (f : A -> value)
    (h : jstring -> value -> value) l :
  (forall key x, h key (f x) = f x) ->
  forall i,
    map (fun kv => (fst kv, h (fst kv) (snd kv)))
      (mapi_from (fun i x => (k i, f x)) i l)
    = mapi_from (fun i x => (k i, f x)) i l.
Proof.
  intros H. induction l as [|x l IH]; intros i; simpl; [reflexivity|].
  now rewrite H, IH.
Qed.

(** The entries of [programResources.agents] after the first loop. *)
Lemma entries_instruct n a agents :
  entries (map_entries (instruct n a) agents)
  = map (fun kv => (fst kv, instruct n a (fst kv) (snd kv))) (entries agents).
Proof.
  destruct agents as [| |b|z|s|l|o]; try reflexivity.
  - cbn [map_entries entries]. symmetry.
    apply (mapi_from_fixed nat_to_jstring (fun c => VStr [c])).
    reflexivity.
  - cbn [map_entries entries]. apply mapi_from_compose.
  - cbn [map_entries entries]. apply ordered_map.
Qed.

Lemma keys_instruct n a agents :
  map fst (entries (map_entries (instruct n a) agents))
  = map fst (entries agents).
Proof. rewrite entries_instruct, map_map. now apply map_ext. Qed.

Lemma strict_eq_undef v : strict_eq v VUndef = true <-> v = VUndef.
Proof. destruct v; simpl; split; intros H; congruence. Qed.

Lemma instruct_truthy n a k v : truthy (instruct n a k v) = truthy v.
Proof.
  destruct v; try reflexivity. simpl.
  now destruct (negb _ && _).
Qed.

Lemma instruct_name n a k v : get (instruct n a k v) "name" = get v "name".
Proof.
  destruct v as [| |b|z|s|l|o]; try reflexivity. cbn [instruct].
  destruct (negb _ && _); [|reflexivity].
  cbn [get]. apply own_obj_set_neq. key_neq.
Qed.

Lemma instruct_twice n a k v :
  instruct n a k (instruct n a k v) = instruct n a k v.
Proof.
  destruct v as [| |b|z|s|l|o]; try reflexivity. cbn [instruct].
  destruct (negb (strict_eq (own o (js "instructions")) VUndef)
            && selected a (VStr k)) eqn:C.
  - cbn [instruct]. rewrite own_obj_set_eq, obj_set_twice.
    now destruct (negb (strict_eq n VUndef) && selected a (VStr k)).
  - cbn [instruct]. now rewrite C.
Qed.

Lemma lookup_instruct n a k o :
  lookup k (map (fun kv => (fst kv, instruct n a (fst kv) (snd kv))) o)
  = option_map (instruct n a k) (lookup k o).
Proof.
  induction o as [|[k0 v0] o IH]; simpl; [reflexivity|].
  destruct (str_eqb k0 k) eqn:E; [|exact IH].
  apply str_eqb_eq in E. now subst.
Qed.

(** The document after the first loop: the root array and the keys are
    as they were, the values under the keys are instructed. *)
Lemma instructProgramAgents_shape n a data :
  (forall k, k <> js "version" ->
             own (instructProgramAgents n a data) k = own data k) /\
  programResourcesAgents (instructProgramAgents n a data)
  = option_map (map_entries (instruct n a)) (programResourcesAgents data) /\
  agentKeys (instructProgramAgents n a data) = agentKeys data.
Proof.
  unfold instructProgramAgents, agentKeys.
  destruct (programResourcesAgents data) as [agents|] eqn:E.
  - assert (T : truthy (map_entries (instruct n a) agents) = true).
    { rewrite truthy_map_entries.
      now destruct (programResourcesAgents_some _ _ E) as (? & ? & _ & _ & _ & T). }
    rewrite (programResourcesAgents_set _ _ _ E T).
    split; [|split].
    + intros k Hk. now apply own_set_programAgents.
    + reflexivity.
    + apply keys_instruct.
  - rewrite E. now split.
Qed.

Lemma mapM_Forall2 {St A B} (f : A -> M St B) (R : A -> B -> Prop) :
  (forall x s y s', f x s = Ok y s' -> s' = s /\ R x y) ->
  forall l s l' s', mapM f l s = Ok l' s' -> s' = s /\ Forall2 R l l'.
Proof.
  intros Hf. induction l as [|x l IH]; intros s l' s' H.
  - injection H as <- <-. split; [reflexivity|constructor].
  - cbn [mapM] in H. unfold bind in H.
    destruct (f x s) as [y s1|e s1] eqn:Ex; [|discriminate].
    destruct (mapM f l s1) as [ys s2|e s2] eqn:El; [|discriminate].
    injection H as <- <-.
    destruct (Hf _ _ _ _ Ex) as [-> Hr].
    destruct (IH _ _ _ El) as [-> HF]. split; [reflexivity|now constructor].
Qed.

Lemma Forall2_nth {A B} (R : A -> B -> Prop) l l' :
  Forall2 R l l' ->
  forall i x, nth_error l i = Some x ->
              exists y, nth_error l' i = Some y /\ R x y.
Proof.
  induction 1 as [|x0 y0 l l' Hr HF IH]; intros i x Hx.
  - now destruct i.
  - destruct i as [|i]; simpl in *; [|now apply IH].
    injection Hx as <-. eauto.
Qed.

(** What the callback of [forEach] makes of one root agent. *)
Lemma instructRoot_cases {St} ids n a x (s : St) y s' :
  instructRoot ids n a x s = Ok y s' ->
  s' = s /\
  ((instructed ids a x = false /\ y = x) \/
   (instructed ids a x = true /\
    exists o I,
      x = VObj o /\ y = VObj (obj_set (js "instructions") I o) /\
      (I = freshInstructions n \/
       exists f rest,
         own o (js "instructions") = VArr (VObj f :: rest) /\
         truthy (own f (js "text")) = true /\
         I = VArr (VObj (obj_set (js "text") (VArr [n]) f) :: rest)))).
Proof.
  unfold instructRoot, instructed.
  destruct x as [| |b|z|str|l|o];
    try (intros H; injection H as <- <-; split; [reflexivity|now left]);
    try discriminate.
  destruct (existsb _ ids && selected a (own o (js "id"))) eqn:C.
  2:{ intros H; injection H as <- <-. split; [reflexivity|now left]. }
  destruct (own o (js "instructions")) as [| |b|z|str|l|f] eqn:I;
    try (intros H; injection H as <- <-; split; [reflexivity|];
         right; split; [reflexivity|]; exists o; eexists;
         split; [reflexivity|]; split; [reflexivity|]; now left).
  destruct l as [|first rest];
    try (intros H; injection H as <- <-; split; [reflexivity|];
         right; split; [reflexivity|]; exists o; eexists;
         split; [reflexivity|]; split; [reflexivity|]; now left).
  destruct first as [| |b|z|str|l|f];
    try discriminate;
    try (intros H; injection H as <- <-; split; [reflexivity|];
         right; split; [reflexivity|]; exists o; eexists;
         split; [reflexivity|]; split; [reflexivity|]; now left).
  destruct (truthy (own f (js "text"))) eqn:T;
    intros H; injection H as <- <-; (split; [reflexivity|]);
    right; (split; [reflexivity|]); exists o; eexists;
    (split; [reflexivity|]); (split; [reflexivity|]).
  - right. exists f, rest. auto.
  - now left.
Qed.

Lemma instructRoot_skipped {St} ids n a x (s : St) y s' :
  instructRoot ids n a x s = Ok y s' ->
  s' = s /\ (instructed ids a x = false -> y = x).
Proof.
  intros H. apply instructRoot_cases in H.
  destruct H as [-> [[_ ->]|(Hi & _)]]; (split; [reflexivity|]).
  - reflexivity.
  - intros Hf. congruence.
Qed.

Lemma instructed_kept ids a o I :
  instructed ids a (VObj (obj_set (js "instructions") I o))
  = instructed ids a (VObj o).
Proof.
  unfold instructed. now rewrite own_obj_set_neq by key_neq.
Qed.

(** What [updateAgentInstructions] keeps of a root agent, and what it
    gives again when it is run on its own result. *)
Lemma instructRoot_kept {St} ids n a x (s : St) y s' :
  instructRoot ids n a x s = Ok y s' ->
  truthy y = truthy x /\ get y "id" = get x "id" /\
  get y "name" = get x "name" /\
  instructRoot ids n a y s = Ok y s.
Proof.
  intros H. pose proof H as H0.
  apply instructRoot_cases in H.
  destruct H as [-> [[Hi ->]|(Hi & o & I & -> & -> & HI)]].
  - repeat split; try reflexivity. exact H0.
  - split; [reflexivity|]. cbn [get].
    split; [apply own_obj_set_neq; key_neq|].
    split; [apply own_obj_set_neq; key_neq|].
    unfold instructRoot.
    rewrite <- instructed_kept with (I := I) in Hi.
    unfold instructed in Hi. rewrite Hi.
    rewrite own_obj_set_eq.
    destruct HI as [->|(f & rest & _ & _ & ->)].
    + unfold freshInstructions, text_of.
      change (truthy (own [(js "text", VArr [n])] (js "text"))) with true.
      cbv iota.
      change (obj_set (js "text") (VArr [n]) [(js "text", VArr [n])])
        with [(js "text", VArr [n])].
      now rewrite obj_set_twice.
    + rewrite own_obj_set_eq. cbn [truthy].
      now rewrite !obj_set_twice.
Qed.

Lemma instructRoot_readback {St} ids n a x (s : St) y s' :
  instructRoot ids n a x s = Ok y s' ->
  instructed ids a x = true ->
  get (idx (get y "instructions") 0) "text" = VArr [n].
Proof.
  intros H Hi. apply instructRoot_cases in H.
  destruct H as [_ [[Hi' _]|(_ & o & I & -> & -> & HI)]]; [congruence|].
  cbn [get]. rewrite own_obj_set_eq.
  destruct HI as [->|(f & rest & _ & _ & ->)].
  - reflexivity.
  - cbn [idx nth get]. apply own_obj_set_eq.
Qed.

Lemma instructRoot_returns {St} ids n a x (s : St) :
  unreadable ids a x = false -> exists y, instructRoot ids n a x s = Ok y s.
Proof.
  unfold unreadable, instructRoot, instructed.
  destruct x as [| |b|z|str|l|o]; try discriminate;
    try (intros _; eexists; reflexivity).
  destruct (existsb _ ids && selected a (own o (js "id")));
    [|intros _; eexists; reflexivity].
  destruct (own o (js "instructions")) as [| |b|z|str|l|f];
    try (intros _; eexists; reflexivity).
  destruct l as [|first rest]; [intros _; eexists; reflexivity|].
  destruct first as [| |b|z|str|l|f]; try discriminate;
    try (intros _; eexists; reflexivity).
  destruct (truthy (own f (js "text"))); intros _; eexists; reflexivity.
Qed.

Lemma instructRoot_throws {St} ids n a x (s : St) :
  unreadable ids a x = true -> instructRoot ids n a x s = Throw TypeError s.
Proof.
  unfold unreadable, instructRoot, instructed.
  destruct x as [| |b|z|str|l|o]; try discriminate; try reflexivity.
  destruct (existsb _ ids && selected a (own o (js "id")));
    [|discriminate].
  destruct (own o (js "instructions")) as [| |b|z|str|l|f];
    try discriminate.
  destruct l as [|first rest]; [discriminate|].
  destruct first; try discriminate; reflexivity.
Qed.

Lemma mapM_instructRoot {St} ids n a l (s : St) :
  (existsb (unreadable ids a) l = true ->
   mapM (instructRoot ids n a) l s = Throw TypeError s) /\
  (existsb (unreadable ids a) l = false ->
   exists l', mapM (instructRoot ids n a) l s = Ok l' s).
Proof.
  induction l as [|x l [IHt IHr]]; simpl.
  - split; [discriminate|]. intros _. now exists [].
  - unfold bind. destruct (unreadable ids a x) eqn:U; simpl.
    + split; [|discriminate]. intros _.
      now rewrite (instructRoot_throws ids n a x s U).
    + destruct (instructRoot_returns ids n a x s U) as [y ->]. split.
      * intros H. now rewrite (IHt H).
      * intros H. destruct (IHr H) as [l' ->]. now eexists.
Qed.

(** X19.  What [updateAgentInstructions] leaves alone.  The properties of
    the document other than [version] and [agents] are as they were, and
    so is every root agent that is not instructed: one whose [id] is no
    key of [programResources.agents], or is not the one asked for.  A
    document without [programResources.agents] is returned as it was,
    whatever its root agents. *)
Theorem update_leaves_alone {St} data n a (s : St) data' s' :
  updateAgentInstructions data n a s = Ok data' s' ->
  s' = s /\
  (forall k, k <> js "version" -> k <> js "agents" ->
             own data' k = own data k) /\
  (forall i x,
     nth_error (array_field data "agents") i = Some x ->
     instructed (agentKeys data) a x = false ->
     nth_error (array_field data' "agents") i = Some x) /\
  (programResourcesAgents data = None -> data' = data).
Proof.
  unfold updateAgentInstructions. cbv zeta.
  destruct (instructProgramAgents_shape n a data) as (Hown & Hpr & Hkeys).
  rewrite Hkeys. unfold array_field.
  rewrite <- (Hown (js "agents")) by key_neq.
  assert (Hnone : programResourcesAgents data = None ->
                  instructProgramAgents n a data = data).
  { unfold instructProgramAgents. now intros ->. }
  destruct (own (instructProgramAgents n a data) (js "agents"))
    as [| |b|z|str|l|o] eqn:E;
    try (intros H; injection H as <- <-;
         split; [reflexivity|]; split; [intros k Hv _; now apply Hown|];
         split; [rewrite E; intros i x Hx; now destruct i|exact Hnone]).
  destruct l as [|a0 rest].
  { intros H; injection H as <- <-.
    split; [reflexivity|]. split; [intros k Hv _; now apply Hown|].
    split; [rewrite E; intros i x Hx; now destruct i|exact Hnone]. }
  unfold bind.
  destruct (mapM _ (a0 :: rest) s) as [l' s1|e s1] eqn:Em; [|discriminate].
  intros H. injection H as <- <-.
  destruct (mapM_Forall2 _
              (fun x y => instructed (agentKeys data) a x = false -> y = x)
              (instructRoot_skipped (agentKeys data) n a)
              _ _ _ _ Em) as [-> HF].
  split; [reflexivity|]. split; [|split].
  - intros k Hv Ha.
    rewrite own_obj_set_neq by (intros <-; now apply Ha). now apply Hown.
  - intros i x Hx Hi. rewrite own_obj_set_eq.
    destruct (Forall2_nth _ _ _ HF i x Hx) as (y & Hy & Hxy).
    now rewrite Hy, (Hxy Hi).
  - intros Hn. rewrite (Hnone Hn) in *.
    assert (El : l' = a0 :: rest).
    { clear Em E. revert HF. generalize (a0 :: rest).
      intros l HF. induction HF as [|x y l l' Hxy HF IH]; [reflexivity|].
      unfold agentKeys in Hxy. rewrite Hn in Hxy.
      rewrite Hxy, IH; [reflexivity|].
      unfold instructed. now destruct x. }
    rewrite El. apply obj_set_same, own_lookup; [exact E|discriminate].
Qed.

(** The two ways [updateAgentInstructions] returns: without a root array
    that has items, after the first loop; with one, after the callback
    was run on each item. *)
Lemma update_result {St} data n a (s : St) data' s' :
  updateAgentInstructions data n a s = Ok data' s' ->
  s' = s /\
  ((array_field data "agents" = [] /\
    data' = instructProgramAgents n a data) \/
   (exists l',
      own data (js "agents") = VArr (array_field data "agents") /\
      mapM (instructRoot (agentKeys data) n a) (array_field data "agents") s
      = Ok l' s /\
      l' <> [] /\
      data' = obj_set (js "agents") (VArr l')
                (instructProgramAgents n a data))).
Proof.
  unfold updateAgentInstructions. cbv zeta.
  destruct (instructProgramAgents_shape n a data) as (Hown & _ & Hkeys).
  rewrite Hkeys. rewrite (Hown (js "agents")) by key_neq.
  unfold array_field.
  destruct (own data (js "agents")) as [| |b|z|str|l|o];
    try (intros H; injection H as <- <-; split; [reflexivity|];
         left; now split).
  destruct l as [|a0 rest].
  { intros H; injection H as <- <-. split; [reflexivity|]. left. now split. }
  unfold bind.
  destruct (mapM _ (a0 :: rest) s) as [l' s1|e s1] eqn:Em; [|discriminate].
  intros H. injection H as <- <-.
  destruct (mapM_Forall2 _ (fun _ _ => True)
              (fun x s y s' H =>
                 conj (proj1 (instructRoot_cases _ _ _ _ _ _ _ H)) I)
              _ _ _ _ Em) as [-> HF].
  split; [reflexivity|]. right. exists l'.
  split; [reflexivity|]. split; [reflexivity|]. split; [|reflexivity].
  inversion HF. discriminate.
Qed.

Lemma update_version {St} data n a (s : St) data' s' :
  updateAgentInstructions data n a s = Ok data' s' ->
  programResourcesAgents data'
  = option_map (map_entries (instruct n a)) (programResourcesAgents data).
Proof.
  intros H. destruct (update_result _ _ _ _ _ _ H) as [_ R].
  destruct (instructProgramAgents_shape n a data) as (_ & Hpr & _).
  rewrite <- Hpr. apply programResourcesAgents_ext.
  destruct R as [[_ ->]|(l' & _ & _ & _ & ->)]; [reflexivity|].
  apply own_obj_set_neq. key_neq.
Qed.

Lemma instructRoot_instructed {St} ids n a x (s : St) y s' :
  instructRoot ids n a x s = Ok y s' ->
  s' = s /\
  (instructed ids a x = true ->
   get y "id" = get x "id" /\
   get (idx (get y "instructions") 0) "text" = VArr [n]).
Proof.
  intros H. split; [now apply instructRoot_cases in H|].
  intros Hi. split.
  - now destruct (instructRoot_kept _ _ _ _ _ _ _ H) as (_ & Hid & _).
  - now apply (instructRoot_readback _ _ _ _ _ _ _ H).
Qed.

(** X20.  The instructions are read back.  After
    [updateAgentInstructions], every instructed root agent has the [id]
    it had, and the [text] of the first of its [instructions] is the array
    of the new instructions alone; and under every key of
    [programResources.agents] that is the one asked for, an agent that
    had [instructions] has the new ones. *)
Theorem update_readback {St} data n a (s : St) data' s' :
  updateAgentInstructions data n a s = Ok data' s' ->
  (forall i x,
     nth_error (array_field data "agents") i = Some x ->
     instructed (agentKeys data) a x = true ->
     exists y,
       nth_error (array_field data' "agents") i = Some y /\
       get y "id" = get x "id" /\
       get (idx (get y "instructions") 0) "text" = VArr [n]) /\
  (forall o k v,
     programResourcesAgents data = Some (VObj o) ->
     lookup k o = Some (VObj v) ->
     own v (js "instructions") <> VUndef ->
     selected a (VStr k) = true ->
     exists o',
       programResourcesAgents data' = Some (VObj o') /\
       get (own o' k) "instructions" = n).
Proof.
  intros H. pose proof (update_version _ _ _ _ _ _ H) as Hp'.
  destruct (update_result _ _ _ _ _ _ H) as [_ R].
  split.
  - intros i x Hx Hi. destruct R as [[E _]|(l' & Hl & Hm & _ & ->)].
    + rewrite E in Hx. now destruct i.
    + destruct (mapM_Forall2 _
                  (fun x y =>
                     instructed (agentKeys data) a x = true ->
                     get y "id" = get x "id" /\
                     get (idx (get y "instructions") 0) "text" = VArr [n])
                  (instructRoot_instructed (agentKeys data) n a)
                  _ _ _ _ Hm) as [_ HF].
      destruct (Forall2_nth _ _ _ HF i x Hx) as (y & Hy & Hxy).
      exists y. split; [|now apply Hxy].
      unfold array_field at 1. now rewrite own_obj_set_eq.
  - intros o k v Hp Hl Hi Hs.
    exists (map (fun kv => (fst kv, instruct n a (fst kv) (snd kv))) o).
    split.
    + rewrite Hp', Hp. reflexivity.
    + unfold own at 1. rewrite lookup_instruct, Hl.
      cbn [option_map instruct]. rewrite Hs.
      destruct (strict_eq (own v (js "instructions")) VUndef) eqn:E.
      * apply strict_eq_undef in E. contradiction.
      * cbn [negb andb get]. apply own_obj_set_eq.
Qed.

(** X21.  When [updateAgentInstructions] throws.  It throws a
    [TypeError] when one of the root agents is unreadable: [null],
    [undefined], or an instructed agent whose [instructions] start with
    one of the two; for every other document it returns. *)
Theorem update_throws_or_returns {St} data n a (s : St) :
  (existsb (unreadable (agentKeys data) a) (array_field data "agents") = true ->
   updateAgentInstructions data n a s = Throw TypeError s) /\
  (existsb (unreadable (agentKeys data) a) (array_field data "agents") = false ->
   exists data', updateAgentInstructions data n a s = Ok data' s).
Proof.
  unfold updateAgentInstructions. cbv zeta.
  destruct (instructProgramAgents_shape n a data) as (Hown & _ & Hkeys).
  rewrite Hkeys. rewrite (Hown (js "agents")) by key_neq.
  unfold array_field.
  destruct (own data (js "agents")) as [| |b|z|str|l|o];
    try (split; [simpl; discriminate|intros _; eexists; reflexivity]).
  destruct l as [|a0 rest];
    [split; [simpl; discriminate|intros _; eexists; reflexivity]|].
  destruct (mapM_instructRoot (agentKeys data) n a (a0 :: rest) s)
    as [Ht Hr].
  unfold bind. split.
  - intros U. now rewrite (Ht U).
  - intros U. destruct (Hr U) as [l' ->]. eexists. reflexivity.
Qed.

Lemma mapi_from_twice {A} (f : nat -> A -> A) l :
  (forall i x, f i (f i x) = f i x) ->
  forall i, mapi_from f i (mapi_from f i l) = mapi_from f i l.
Proof.
  intros H. induction l as [|x l IH]; intros i; simpl; [reflexivity|].
  now rewrite H, IH.
Qed.

Lemma map_entries_twice n a agents :
  map_entries (instruct n a) (map_entries (instruct n a) agents)
  = map_entries (instruct n a) agents.
Proof.
  destruct agents as [| |b|z|s|l|o]; try reflexivity;
    cbn [map_entries]; f_equal.
  - apply (mapi_from_twice (fun i x => instruct n a (nat_to_jstring i) x)).
    intros i x. apply instruct_twice.
  - rewrite map_map. apply map_ext. intros [k v]. cbn [fst snd].
    now rewrite instruct_twice.
Qed.

Lemma agentKeys_ext data data' :
  programResourcesAgents data' = programResourcesAgents data ->
  agentKeys data' = agentKeys data.
Proof. unfold agentKeys. now intros ->. Qed.

(** The callback of [forEach] does not read the state. *)
Lemma instructRoot_state {St} ids n a x (s s0 : St) y s' :
  instructRoot ids n a x s = Ok y s' -> instructRoot ids n a x s0 = Ok y s0.
Proof.
  unfold instructRoot, ret, throw.
  destruct x as [| |b|z|str|l|o]; try discriminate;
    try (intros H; injection H as <- _; reflexivity).
  destruct (existsb _ ids && selected a (own o (js "id")));
    [|intros H; injection H as <- _; reflexivity].
  destruct (own o (js "instructions")) as [| |b|z|str|l|f];
    try (intros H; injection H as <- _; reflexivity).
  destruct l as [|first rest];
    [intros H; injection H as <- _; reflexivity|].
  destruct first as [| |b|z|str|l|f]; try discriminate;
    try (intros H; injection H as <- _; reflexivity).
  destruct (truthy (own f (js "text")));
    intros H; injection H as <- _; reflexivity.
Qed.

Lemma instructRoot_settled {St} ids n a x (s : St) y s' :
  instructRoot ids n a x s = Ok y s' ->
  s' = s /\ forall s0 : St, instructRoot ids n a y s0 = Ok y s0.
Proof.
  intros H. split; [now apply instructRoot_cases in H|].
  intros s0. destruct (instructRoot_kept _ _ _ _ _ _ _ H) as (_ & _ & _ & Hy).
  apply (instructRoot_state _ _ _ _ _ _ _ _ Hy).
Qed.

Lemma instructRoot_listed {St} ids n a x (s : St) y s' :
  instructRoot ids n a x s = Ok y s' ->
  s' = s /\
  (truthy y = truthy x /\ get y "id" = get x "id" /\
   get y "name" = get x "name").
Proof.
  intros H. split; [now apply instructRoot_cases in H|].
  now destruct (instructRoot_kept _ _ _ _ _ _ _ H) as (? & ? & ? & _).
Qed.

Lemma mapM_fixed {St A} (f : A -> M St A) l (s : St) :
  Forall (fun y => forall s0, f y s0 = Ok y s0) l -> mapM f l s = Ok l s.
Proof.
  induction 1 as [|y l Hy HF IH]; [reflexivity|].
  cbn [mapM]. unfold bind. now rewrite Hy, IH.
Qed.

Lemma Forall2_right {A B} (R : A -> B -> Prop) (P : B -> Prop) l l' :
  Forall2 R l l' -> (forall x y, R x y -> P y) -> Forall P l'.
Proof.
  intros HF H. induction HF as [|x y l l' Hxy HF IH]; constructor; eauto.
Qed.

(** X22.  [updateAgentInstructions] run again.  On the document it
    returned, with the same instructions and the same agent, it returns
    that document: nothing is left to change. *)
Theorem update_idempotent {St} data n a (s : St) data' s' :
  updateAgentInstructions data n a s = Ok data' s' ->
  updateAgentInstructions data' n a s = Ok data' s.
Proof.
  intros H. pose proof (update_version _ _ _ _ _ _ H) as Hp'.
  destruct (update_result _ _ _ _ _ _ H) as [_ R].
  destruct (instructProgramAgents_shape n a data) as (Hown & Hpr & Hkeys).
  assert (Hk' : agentKeys data' = agentKeys data).
  { rewrite <- Hkeys. apply agentKeys_ext. now rewrite Hp', Hpr. }
  assert (Hsame : instructProgramAgents n a data' = data').
  { unfold instructProgramAgents.
    destruct (programResourcesAgents data) as [A|];
      cbn [option_map] in Hp'; rewrite Hp'; [|reflexivity].
    rewrite map_entries_twice. now apply set_programAgents_same. }
  unfold updateAgentInstructions. cbv zeta. rewrite Hsame, Hk'.
  destruct R as [[E ->]|(l' & Hl & Hm & Hne & ->)].
  - rewrite (Hown (js "agents")) by key_neq. unfold array_field in E.
    destruct (own data (js "agents")) as [| |b|z|str|l|o]; try reflexivity.
    destruct l; [reflexivity|discriminate E].
  - rewrite own_obj_set_eq. destruct l' as [|y0 ys]; [contradiction|].
    destruct (mapM_Forall2 _
                (fun _ y =>
                   forall s0 : St,
                     instructRoot (agentKeys data) n a y s0 = Ok y s0)
                (instructRoot_settled (agentKeys data) n a)
                _ _ _ _ Hm) as [_ HF].
    unfold bind.
    rewrite (mapM_fixed _ _ s (Forall2_right _ _ _ _ HF (fun _ _ h => h))).
    unfold ret. f_equal. apply obj_set_same, lookup_obj_set_eq.
Qed.

Lemma fold_left_map {A B C} (f : C -> B -> C) (g : A -> B) l : forall m,
  fold_left f (map g l) m = fold_left (fun m x => f m (g x)) l m.
Proof. induction l as [|x l IH]; intros m; simpl; [reflexivity|apply IH]. Qed.

Lemma fold_left_same {A C} (f f' : C -> A -> C) l :
  (forall m x, f m x = f' m x) ->
  forall m, fold_left f l m = fold_left f' l m.
Proof.
  intros H. induction l as [|x l IH]; intros m; simpl; [reflexivity|].
  now rewrite H, IH.
Qed.

Lemma fold_left_Forall2 {A C} (f : C -> A -> C) l l' :
  Forall2 (fun x y => forall m, f m y = f m x) l l' ->
  forall m, fold_left f l' m = fold_left f l m.
Proof.
  induction 1 as [|x y l l' Hxy HF IH]; intros m; simpl; [reflexivity|].
  now rewrite Hxy, IH.
Qed.

(** X23.  New instructions do not change the list of the agents: on the
    document that [updateAgentInstructions] returns, [listAllAgents]
    answers what it answered before. *)
Theorem update_keeps_listing {St} data n a (s : St) data' s' :
  updateAgentInstructions data n a s = Ok data' s' ->
  listAllAgents data' = listAllAgents data.
Proof.
  intros H. pose proof (update_version _ _ _ _ _ _ H) as Hp'.
  destruct (update_result _ _ _ _ _ _ H) as [_ R].
  destruct (instructProgramAgents_shape n a data) as (Hown & _ & _).
  assert (F1 : programAgentsMap data' = programAgentsMap data).
  { unfold programAgentsMap. rewrite Hp'.
    destruct (programResourcesAgents data) as [A|]; cbn [option_map];
      [|reflexivity].
    rewrite entries_instruct, fold_left_map. apply fold_left_same.
    intros m [k v]. cbn [fst snd].
    now rewrite instruct_truthy, instruct_name. }
  unfold listAllAgents. do 2 f_equal. unfold agentsMap. rewrite F1.
  destruct R as [[E ->]|(l' & Hl & Hm & _ & ->)].
  - now rewrite (Hown (js "agents")) by key_neq.
  - rewrite own_obj_set_eq, Hl.
    destruct (mapM_Forall2 _
                (fun x y =>
                   truthy y = truthy x /\ get y "id" = get x "id" /\
                   get y "name" = get x "name")
                (instructRoot_listed (agentKeys data) n a)
                _ _ _ _ Hm) as [_ HF].
    apply fold_left_Forall2.
    eapply Forall2_impl; [|exact HF].
    intros x y (Ht & Hi & Hn) m. now rewrite Ht, Hi, Hn.
Qed.

End ParserFacts.

(* ================================================================== *)
(** * The commands on the files *)
(* ================================================================== *)

Section CommandFacts.

Variable random16 : nat -> nat.
Variable clock : nat -> jstring.
Variable basename_vf : path -> jstring.
Variable VERSIONS_DIR : jstring.

Abbreviation versionName := (versionName basename_vf).
Abbreviation versionPath := (versionPath VERSIONS_DIR).
Abbreviation saveNewVersion :=
  (saveNewVersion clock obj basename_vf VERSIONS_DIR).
Abbreviation withAutoVersioning :=
  (withAutoVersioning clock obj basename_vf VERSIONS_DIR).
Abbreviation getLatestVfFile :=
  (getLatestVfFile obj basename_vf VERSIONS_DIR).
Abbreviation ensureVersionedFile :=
  (ensureVersionedFile clock obj basename_vf VERSIONS_DIR VERSIONS_DIR).
Abbreviation addApiToolMutation := (addApiToolMutation random16 clock).
Abbreviation addApiToolCommand :=
  (addApiToolCommand random16 clock basename_vf VERSIONS_DIR VERSIONS_DIR).
Abbreviation setupProject :=
  (setupProject random16 clock basename_vf VERSIONS_DIR VERSIONS_DIR).
Abbreviation aiAddApiToolCommand :=
  (aiAddApiToolCommand random16 clock basename_vf VERSIONS_DIR VERSIONS_DIR).
Abbreviation aiUpdateInstructionsCommand :=
  (aiUpdateInstructionsCommand clock basename_vf VERSIONS_DIR VERSIONS_DIR).

Lemma readFile_dir_exists {content} p (c : content) fs :
  readFile p fs = Some c -> dir_exists (dir p) fs = true.
Proof.
  unfold readFile, dir_exists. now destruct (assoc (dir p) fs).
Qed.

Lemma saveNewVersion_outside p fs w q :
  dir q <> VERSIONS_DIR ->
  readFile q (files_after (saveNewVersion p fs w)) = readFile q fs.
Proof.
  intros Hq. unfold Versioning.saveNewVersion, copyFile. cbn [now].
  destruct (readFile p fs) as [c|]; [|reflexivity].
  destruct (writeFile _ c fs) as [fs'|] eqn:Hw; [|reflexivity].
  cbn [files_after]. eapply read_write_other; [exact Hw|].
  apply path_eqb_dir. cbn [dir Versioning.versionPath]. congruence.
Qed.

Lemma latest_dir p fs :
  getLatestVfFile p fs = p \/ dir (getLatestVfFile p fs) = VERSIONS_DIR.
Proof.
  destruct (getVersionedFiles obj basename_vf VERSIONS_DIR p fs)
    as [|v vs] eqn:E.
  - left. unfold Versioning.getLatestVfFile. now rewrite E.
  - right.
    assert (Hin : In v (getVersionedFiles obj basename_vf VERSIONS_DIR p fs))
      by (rewrite E; now left).
    apply getVersionedFiles_in in Hin.
    destruct Hin as (_ & names & Hn & Hf & Hv).
    now destruct (latest_of_some obj basename_vf VERSIONS_DIR p fs names
                    (entry v) Hn Hf Hv) as [Hd _].
Qed.

(** The working file is a file of the directory of the versions, and
    making sure that there is one changes no file outside of it. *)
Lemma ensureVersionedFile_outside p fs w :
  (forall q, dir q <> VERSIONS_DIR ->
             readFile q (files_after (ensureVersionedFile p fs w))
             = readFile q fs) /\
  (forall W fs1 w1,
     ensureVersionedFile p fs w = Returned W fs1 w1 ->
     dir W = VERSIONS_DIR).
Proof.
  unfold Versioning.ensureVersionedFile.
  destruct (path_eqb (getLatestVfFile p fs) p) eqn:E.
  - assert (F : forall q, dir q <> VERSIONS_DIR ->
                  readFile q (files_after (saveNewVersion p fs w))
                  = readFile q fs)
      by (intros q Hq; now apply saveNewVersion_outside).
    destruct (saveNewVersion p fs w) as [fname fs' w'|e fs' w'] eqn:Hs.
    + split; [exact F|]. intros W fs1 w1 H. injection H as <- <- <-.
      destruct (saveNewVersion_returned _ _ _ _ _ _ _ _ _ _ Hs)
        as (Hname & _ & c & Hr & Hw).
      destruct (readdir_written _ _ _ _ _ Hw) as (names & Hn & Hin).
      cbn [dir entry Versioning.versionPath] in Hn, Hin.
      assert (Hv : version_of (basename_vf p) fname = true).
      { rewrite Hname. unfold version_of.
        now rewrite versionName_starts, versionName_ends. }
      now destruct (latest_of_some obj basename_vf VERSIONS_DIR p fs' names
                      fname Hn Hin Hv) as [Hd _].
    + split; [exact F|discriminate].
  - split; [reflexivity|]. intros W fs1 w1 H. injection H as <- <- <-.
    destruct (latest_dir p fs) as [L|L]; [|exact L].
    rewrite L, path_eqb_refl in E. discriminate.
Qed.

Lemma addApiToolMutation_outside a W fs w q :
  path_eqb W q = false ->
  readFile q (files_after (addApiToolMutation a W fs w)) = readFile q fs.
Proof.
  intros Hq. unfold Commands.addApiToolMutation, loadVfFile, saveVfFile.
  destruct (readFile W fs) as [data|]; [|reflexivity].
  destruct (addApiTool random16 clock a data w) as [data' w'|w'|e w'];
    try reflexivity.
  destruct (writeFile W data' fs) as [fs'|] eqn:Hw; [|reflexivity].
  cbn [files_after]. eapply read_write_other; eassumption.
Qed.

Lemma renameMutation_outside newName W fs w q :
  path_eqb W q = false ->
  readFile q (files_after (renameMutation newName W fs w)) = readFile q fs.
Proof.
  intros Hq. unfold renameMutation, loadVfFile, saveVfFile.
  destruct (readFile W fs) as [data|]; [|reflexivity].
  destruct (renameProject newName data w) as [data' w'|e w'];
    [|reflexivity].
  destruct (writeFile W data' fs) as [fs'|] eqn:Hw; [|reflexivity].
  cbn [files_after]. eapply read_write_other; eassumption.
Qed.

Lemma withAutoVersioning_outside {A} W
    (m : fsys obj -> world -> run obj A) fs w q :
  dir q <> VERSIONS_DIR ->
  readFile q (files_after (m fs w)) = readFile q fs ->
  readFile q (files_after (withAutoVersioning W m fs w)) = readFile q fs.
Proof.
  intros Hq Hm. unfold Versioning.withAutoVersioning.
  destruct (m fs w) as [r fs1 w1|e fs1 w1]; cbn [files_after] in Hm;
    [|exact Hm].
  pose proof (saveNewVersion_outside W fs1 w1 q Hq) as F.
  destruct (saveNewVersion W fs1 w1); cbn [files_after] in *; congruence.
Qed.

Lemma addApiTool_working_outside W a fs w q :
  dir q <> VERSIONS_DIR -> path_eqb W q = false ->
  readFile q (files_after (addApiToolCommand (WorkingFile W) a fs w))
  = readFile q fs.
Proof.
  intros Hq HW. unfold Commands.addApiToolCommand, loadVfFile.
  destruct (readFile W fs) as [data|]; [|reflexivity].
  destruct (selectAgent _ _); [reflexivity|].
  apply withAutoVersioning_outside; [exact Hq|].
  now apply addApiToolMutation_outside.
Qed.

(** X24.  The commands work on versions.  [add-api-tool],
    [setup-project], [ai-add-api-tool] and [ai-update-instructions],
    called for a project file, change no file outside the directory of the
    versions, whether they return or throw: the project file holds what it
    held. *)
Theorem commands_keep_project_files q :
  dir q <> VERSIONS_DIR ->
  (forall p a fs w,
     readFile q (files_after (addApiToolCommand (ProjectFile p) a fs w))
     = readFile q fs) /\
  (forall p newName tool fs w,
     readFile q (files_after (setupProject p newName tool fs w))
     = readFile q fs) /\
  (forall p answer fs w,
     readFile q (files_after (aiAddApiToolCommand p answer fs w))
     = readFile q fs) /\
  (forall p answer generated finalInstructions fs w,
     readFile q
       (files_after
          (aiUpdateInstructionsCommand p answer generated finalInstructions
             fs w))
     = readFile q fs).
Proof.
  intros Hq.
  assert (HW : forall W, dir W = VERSIONS_DIR -> path_eqb W q = false).
  { intros W HW. apply path_eqb_dir. congruence. }
  split; [|split; [|split]].
  - intros p a fs w. destruct (ensureVersionedFile_outside p fs w) as [F D].
    specialize (F q Hq).
    change (addApiToolCommand (ProjectFile p) a fs w)
      with (match ensureVersionedFile p fs w with
            | Returned W fs' w' => addApiToolCommand (WorkingFile W) a fs' w'
            | Threw e fs' w' => Threw e fs' w'
            end).
    destruct (ensureVersionedFile p fs w) as [W fs1 w1|e fs1 w1];
      cbn [files_after] in F; [|exact F].
    rewrite addApiTool_working_outside; [exact F|exact Hq|].
    apply HW. now apply (D W fs1 w1).
  - intros p newName tool fs w.
    destruct (ensureVersionedFile_outside p fs w) as [F D].
    specialize (F q Hq). unfold Commands.setupProject, loadVfFile.
    destruct (ensureVersionedFile p fs w) as [W fs1 w1|e fs1 w1];
      cbn [files_after] in F; [|exact F].
    specialize (D W fs1 w1 eq_refl).
    destruct (readFile W fs1) as [data|]; [|exact F].
    pose proof (withAutoVersioning_outside W (renameMutation newName W)
                  fs1 w1 q Hq
                  (renameMutation_outside newName W fs1 w1 q (HW W D)))
      as F2.
    destruct (withAutoVersioning W (renameMutation newName W) fs1 w1)
      as [r fs2 w2|e fs2 w2]; cbn [files_after] in F2;
      [|cbn [files_after]; congruence].
    destruct tool as [a|]; [|cbn [files_after]; congruence].
    rewrite addApiTool_working_outside; [congruence|exact Hq|now apply HW].
  - intros p answer fs w.
    destruct (ensureVersionedFile_outside p fs w) as [F D].
    specialize (F q Hq). unfold Commands.aiAddApiToolCommand.
    destruct (ensureVersionedFile p fs w) as [W fs1 w1|e fs1 w1];
      cbn [files_after] in F; [|exact F].
    specialize (D W fs1 w1 eq_refl).
    destruct (readFile W fs1) as [vfData|]; [|exact F].
    destruct answer as [extracted|]; [|exact F].
    destruct (askAnthropic_result random16 clock extracted w1)
      as [aiJson w2|e w2]; [|exact F].
    destruct (addApiToolFromJson random16 clock aiJson (vfData, w2))
      as [r [vfData' w3]|e [d w3]]; [|exact F].
    destruct (writeFile W vfData' fs1) as [fs2|] eqn:Hw; [|exact F].
    cbn [files_after]. rewrite <- F.
    eapply read_write_other; [exact Hw|now apply HW].
  - intros p answer generated final fs w.
    destruct (ensureVersionedFile_outside p fs w) as [F D].
    specialize (F q Hq). unfold Commands.aiUpdateInstructionsCommand.
    destruct (ensureVersionedFile p fs w) as [W fs1 w1|e fs1 w1];
      cbn [files_after] in F; [|exact F].
    specialize (D W fs1 w1 eq_refl).
    destruct (readFile W fs1) as [vfData|]; [|exact F].
    destruct (aiUpdateDocument vfData answer generated final w1)
      as [[| |vfData'] w2|e w2]; try exact F.
    destruct (writeFile W vfData' fs1) as [fs2|] eqn:Hw; [|exact F].
    cbn [files_after]. rewrite <- F.
    eapply read_write_other; [exact Hw|now apply HW].
Qed.


(** X26.  [ai-add-api-tool] writes in place.  It creates no file after
    the working file is there, so no version is saved of what it did; it
    changes no file but the working file; and when the generator gives
    nothing to add, the files stay as they were. *)
Theorem aiAddApiTool_in_place p answer fs w W fs1 w1 vfData :
  ensureVersionedFile p fs w = Returned W fs1 w1 ->
  readFile W fs1 = Some vfData ->
  (forall d, readdir d (files_after (aiAddApiToolCommand p answer fs w))
             = readdir d fs1) /\
  (forall q, path_eqb W q = false ->
             readFile q (files_after (aiAddApiToolCommand p answer fs w))
             = readFile q fs1) /\
  (answer = None -> aiAddApiToolCommand p answer fs w = Returned tt fs1 w1) /\
  (forall extracted aiJson w2 r vfData' w3,
     answer = Some extracted ->
     askAnthropic_result random16 clock extracted w1 = Ok aiJson w2 ->
     addApiToolFromJson random16 clock aiJson (vfData, w2)
     = Ok r (vfData', w3) ->
     exists fs2,
       aiAddApiToolCommand p answer fs w = Returned tt fs2 w3 /\
       readFile W fs2 = Some vfData').
Proof.
  intros He Hr. unfold Commands.aiAddApiToolCommand. rewrite He, Hr.
  split; [|split; [|split]].
  - intros d. destruct answer as [extracted|]; [|reflexivity].
    destruct (askAnthropic_result random16 clock extracted w1)
      as [aiJson w2|e w2]; [|reflexivity].
    destruct (addApiToolFromJson random16 clock aiJson (vfData, w2))
      as [r [vfData' w3]|e [d' w3]]; [|reflexivity].
    destruct (writeFile W vfData' fs1) as [fs2|] eqn:Hw; [|reflexivity].
    cbn [files_after]. destruct (str_eqb (dir W) d) eqn:E.
    + apply str_eqb_eq in E. subst d.
      destruct (readdir_write _ _ _ _ _ Hw) as (names & Hn & Hn').
      unfold existsSync in Hn'. rewrite Hr in Hn'. congruence.
    + apply (readdir_write_other _ _ _ _ _ d Hw).
      intros <-. now rewrite str_eqb_refl in E.
  - intros q Hq. destruct answer as [extracted|]; [|reflexivity].
    destruct (askAnthropic_result random16 clock extracted w1)
      as [aiJson w2|e w2]; [|reflexivity].
    destruct (addApiToolFromJson random16 clock aiJson (vfData, w2))
      as [r [vfData' w3]|e [d' w3]]; [|reflexivity].
    destruct (writeFile W vfData' fs1) as [fs2|] eqn:Hw; [|reflexivity].
    cbn [files_after]. eapply read_write_other; eassumption.
  - now intros ->.
  - intros extracted aiJson w2 r vfData' w3 -> Ha Hj. rewrite Ha, Hj.
    destruct (write_in_directory obj W vfData' fs1
                (readFile_dir_exists _ _ _ Hr)) as [fs2 Hw].
    rewrite Hw. exists fs2. split; [reflexivity|].
    eapply read_write_same; exact Hw.
Qed.

(** X28.  [ensureVersionedFile] called again.  Once a project file has
    its working file, a second call answers the same working file and
    writes nothing. *)
Theorem ensureVersionedFile_again p fs w W fs1 w1 :
  dir p <> VERSIONS_DIR ->
  ensureVersionedFile p fs w = Returned W fs1 w1 ->
  ensureVersionedFile p fs1 w1 = Returned W fs1 w1.
Proof.
  intros Hp H.
  destruct (ensureVersionedFile_outside p fs w) as [_ D].
  specialize (D _ _ _ H).
  assert (HW : getLatestVfFile p fs1 = W).
  { revert H. unfold Versioning.ensureVersionedFile.
    destruct (path_eqb (getLatestVfFile p fs) p).
    - destruct (saveNewVersion p fs w); [|discriminate].
      intros H. now injection H as <- <- <-.
    - intros H. now injection H as <- <- <-. }
  unfold Versioning.ensureVersionedFile.
  change (Versioning.getLatestVfFile obj basename_vf VERSIONS_DIR p fs1)
    with (getLatestVfFile p fs1).
  rewrite HW. rewrite path_eqb_dir by congruence. reflexivity.
Qed.

Lemma lex_ltb_leb a b : lex_ltb a b = true -> lex_leb a b = true.
Proof.
  unfold lex_leb. intros H. destruct (lex_ltb b a) eqn:E; [|reflexivity].
  pose proof (lex_ltb_trans _ _ _ H E) as T.
  now rewrite lex_ltb_irrefl in T.
Qed.

(** X29.  The version saved by a command is the working file of the
    next.  Let [W] be the latest version of the project file [p], named
    as [saveNewVersion] names a version of [p].  After a mutation that
    creates no version, the version that [withAutoVersioning] saves of
    [W] sorts after every other version of [p]: [ensureVersionedFile]
    then answers that version. *)
Theorem saved_version_is_next {A} p W rest
    (m : fsys obj -> world -> run obj A) fs w r fs1 w1 fs2 w2 :
  dir p <> VERSIONS_DIR ->
  dir W = VERSIONS_DIR ->
  getLatestVfFile p fs = W ->
  basename_vf W = basename_vf p ++ js "_v" ++ rest ->
  entry W = basename_vf W ++ js ".vf" ->
  m fs w = Returned r fs1 w1 ->
  readdir VERSIONS_DIR fs1 = readdir VERSIONS_DIR fs ->
  withAutoVersioning W m fs w = Returned r fs2 w2 ->
  ensureVersionedFile p fs2 w2
  = Returned (versionPath (versionName W (clock (ticks w1)))) fs2 w2.
Proof.
  intros Hp HdW HL Hbase Hentry Hm Hnames Hwa.
  unfold Versioning.withAutoVersioning in Hwa. rewrite Hm in Hwa.
  destruct (saveNewVersion W fs1 w1) as [fname fs' w'|e fs' w'] eqn:Hs;
    [|discriminate].
  injection Hwa as <- <-.
  destruct (saveNewVersion_returned _ _ _ _ _ _ _ _ _ _ Hs)
    as (Hname & _ & c & Hr & Hw).
  rewrite <- Hname.
  destruct (readdir_write _ _ _ _ _ Hw) as (names & Hn & Hn').
  destruct (readdir_written _ _ _ _ _ Hw) as (names' & Hn'' & Hin).
  cbn [dir entry Versioning.versionPath] in Hn, Hn', Hn'', Hin.
  rewrite Hnames in Hn.
  assert (Hv : version_of (basename_vf p) fname = true).
  { rewrite Hname. unfold version_of. rewrite versionName_ends, andb_true_r.
    unfold Versioning.versionName. rewrite Hbase.
    rewrite <- !app_assoc.
    rewrite (app_assoc (basename_vf p) (js "_v")).
    apply startsWith_app. }
  assert (Hold : forall f, In f names ->
                           version_of (basename_vf p) f = true ->
                           lex_leb f (entry W) = true).
  { intros f Hf Hvf. rewrite <- HL.
    now destruct (latest_of_some obj basename_vf VERSIONS_DIR p fs names f
                    Hn Hf Hvf) as (_ & _ & _ & Hle). }
  assert (Hlt : lex_ltb (entry W) fname = true).
  { rewrite Hentry, Hname. unfold Versioning.versionName.
    rewrite lex_ltb_same_prefix. reflexivity. }
  destruct (latest_of_some obj basename_vf VERSIONS_DIR p fs' names' fname
              Hn'' Hin Hv) as (Hd & HinL & HvL & Hle).
  assert (HeL : entry (getLatestVfFile p fs') = fname).
  { rewrite Hn'' in Hn'. injection Hn' as Hn'.
    assert (Hcase : In (entry (getLatestVfFile p fs')) names \/
                    entry (getLatestVfFile p fs') = fname).
    { rewrite Hn' in HinL. destruct (existsSync _ fs1); [now left|].
      apply in_app_or in HinL. destruct HinL as [H|[H|[]]]; auto. }
    destruct Hcase as [Hc|Hc]; [|exact Hc].
    pose proof (lex_leb_trans _ _ _ Hle (Hold _ Hc HvL)) as T.
    unfold lex_leb in T. now rewrite Hlt in T. }
  unfold Versioning.ensureVersionedFile.
  change (Versioning.getLatestVfFile obj basename_vf VERSIONS_DIR p fs')
    with (getLatestVfFile p fs').
  rewrite path_eqb_dir by congruence.
  f_equal. destruct (getLatestVfFile p fs') as [d e].
  cbn [dir entry] in Hd, HeL. unfold Versioning.versionPath. congruence.
Qed.

End CommandFacts.

(* ================================================================== *)
(** * The name of the project *)
(* ================================================================== *)

Section RenameFacts.

Lemma guard_not_object proto :
  (forall p, proto <> VObj p) ->
  truthy proto && truthy (get proto "data") && is_object (get proto "data")
  = false.
Proof.
  destruct proto as [| |b|z|str|l|p]; intros H; try reflexivity;
    try (simpl; now rewrite ?andb_false_r).
  now destruct (H p).
Qed.

Lemma renameVersion_names {St} newName data (s : St) :
  (truthy (own data (js "version")) = true ->
   is_object (own data (js "version")) = false ->
   renameVersion newName data s = Throw TypeError s) /\
  (truthy (own data (js "version")) = false \/
   is_object (own data (js "version")) = true ->
   exists data1,
     renameVersion newName data s = Ok data1 s /\
     (forall k, k <> js "version" -> own data1 k = own data k) /\
     (forall v,
        own data (js "version") = VObj v ->
        exists v',
          own data1 (js "version") = VObj v' /\
          own v' (js "name") = VStr newName /\
          (forall p d,
             own v (js "prototype") = VObj p ->
             own p (js "data") = VObj d ->
             get (get (own v' (js "prototype")) "data") "name"
             = VStr newName))).
Proof.
  unfold renameVersion. cbv zeta.
  destruct (own data (js "version")) as [| |b|z|str|l|v] eqn:Ev.
  1-2: split; [discriminate|]; intros _; exists data;
    (split; [reflexivity|]); (split; [reflexivity|]);
    intros v H; discriminate H.
  1-3: cbn [truthy is_object typeof]; split;
    [intros -> _; reflexivity|];
    intros [->|H]; [|discriminate H]; exists data;
    (split; [reflexivity|]); (split; [reflexivity|]);
    intros v H; discriminate H.
  - split; [discriminate|]. intros _.
    cbn [truthy]. unfold set_name, bind, ret.
    change (get (VArr l) "prototype") with VUndef. cbn [truthy andb].
    eexists. split; [reflexivity|].
    split; [intros k Hk; apply own_obj_set_neq; congruence|].
    intros v H; discriminate H.
  - split; [discriminate|]. intros _.
    cbn [truthy]. unfold set_name, bind, ret. cbn [get].
    rewrite own_obj_set_neq by key_neq.
    destruct (own v (js "prototype")) as [| |b|z|str|l|p] eqn:Ep.
    1-6: rewrite guard_not_object by discriminate;
      eexists; (split; [reflexivity|]);
      (split; [intros k Hk; apply own_obj_set_neq; congruence|]);
      intros v0 H0; injection H0 as <-;
      eexists; (split; [apply own_obj_set_eq|]);
      (split; [apply own_obj_set_eq|]);
      intros p0 d0 H1; rewrite Ep in H1; discriminate H1.
    cbn [get truthy andb].
    destruct (own p (js "data")) as [| |b|z|str|l|d] eqn:Ed;
      cbn [truthy is_object typeof andb];
      rewrite ?andb_false_r; cbv iota;
      eexists; (split; [reflexivity|]);
      (split; [intros k Hk; apply own_obj_set_neq; congruence|]);
      intros v0 H0; injection H0 as <-;
      eexists; (split; [apply own_obj_set_eq|]);
      (split;
       [rewrite ?own_obj_set_neq by key_neq; apply own_obj_set_eq|]);
      intros p0 d0 H1 H2; rewrite Ep in H1; injection H1 as <-;
      rewrite Ed in H2; try discriminate H2.
    injection H2 as <-. rewrite own_obj_set_eq. cbn [get].
    rewrite own_obj_set_eq. cbn [get]. apply own_obj_set_eq.
Qed.

Lemma set_name_container {St} newName v (s : St) :
  truthy v && is_object v = true ->
  exists v',
    set_name newName v s = Ok v' s /\
    (forall o, v = VObj o -> get v' "name" = VStr newName).
Proof.
  destruct v as [| |b|z|str|l|o]; simpl; rewrite ?andb_false_r;
    try discriminate; intros _.
  - exists (VArr l). split; [reflexivity|]. intros o H; discriminate H.
  - eexists. split; [reflexivity|]. intros o' H. cbn [get].
    apply own_obj_set_eq.
Qed.

(** X27.  The name of the project.  [renameProject], the mutation of
    [setup-project], throws a [TypeError] when [version] is a truthy
    value that is no object; for every other document it returns, and
    then the new name is read back as the [name] of [version], of
    [version.prototype.data] and of [project], where these are objects,
    and [currentName] answers it; no other property of the document is
    changed. *)
Theorem renameProject_names {St} newName data (s : St) :
  (truthy (own data (js "version")) = true ->
   is_object (own data (js "version")) = false ->
   renameProject newName data s = Throw TypeError s) /\
  (truthy (own data (js "version")) = false \/
   is_object (own data (js "version")) = true ->
   exists data',
     renameProject newName data s = Ok data' s /\
     (forall v,
        own data (js "version") = VObj v ->
        get (own data' (js "version")) "name" = VStr newName /\
        currentName data' = VStr newName /\
        forall p d,
          own v (js "prototype") = VObj p -> own p (js "data") = VObj d ->
          get (get (get (own data' (js "version")) "prototype") "data")
            "name"
          = VStr newName) /\
     (forall pr,
        own data (js "project") = VObj pr ->
        get (own data' (js "project")) "name" = VStr newName) /\
     (forall k, k <> js "version" -> k <> js "project" ->
                own data' k = own data k)).
Proof.
  destruct (renameVersion_names newName data s) as [Ht Hr].
  unfold renameProject, bind. split.
  - intros T O. now rewrite (Ht T O).
  - intros Hc. destruct (Hr Hc) as (data1 & -> & Hframe & Hver).
    assert (Hproject : own data1 (js "project") = own data (js "project"))
      by (apply Hframe; key_neq).
    assert (Hcur : forall data' v',
              own data' (js "version") = VObj v' ->
              own v' (js "name") = VStr newName ->
              currentName data' = VStr newName).
    { intros data' v' Hv Hn. unfold currentName. rewrite Hv. cbn [get truthy].
      rewrite Hn. cbn [truthy andb]. now destruct newName. }
    rewrite Hproject.
    destruct (truthy (own data (js "project"))
              && is_object (own data (js "project"))) eqn:G.
    + destruct (set_name_container newName _ s G) as (pr' & -> & Hpr).
      eexists. split; [reflexivity|]. split; [|split].
      * intros v Hv. destruct (Hver v Hv) as (v' & Hv' & Hn & Hpd).
        assert (Hv'' : own (obj_set (js "project") pr' data1) (js "version")
                       = VObj v')
          by (rewrite own_obj_set_neq by key_neq; exact Hv').
        rewrite Hv''. cbn [get]. split; [exact Hn|].
        split; [now apply (Hcur _ v')|exact Hpd].
      * intros pr Hp. rewrite own_obj_set_eq. now apply (Hpr pr).
      * intros k Hv Hp. rewrite own_obj_set_neq by congruence.
        now apply Hframe.
    + exists data1. split; [reflexivity|]. split; [|split].
      * intros v Hv. destruct (Hver v Hv) as (v' & Hv' & Hn & Hpd).
        rewrite Hv'. cbn [get]. split; [exact Hn|].
        split; [now apply (Hcur _ v')|exact Hpd].
      * intros pr Hp. rewrite Hp in G. discriminate G.
      * intros k Hv _. now apply Hframe.
Qed.

End RenameFacts.

(* ================================================================== *)
(** * [ai-update-instructions] on the document *)
(* ================================================================== *)

Section AiUpdateFacts.

Lemma find_from_nth p l : forall j i a,
  find_from p j l = Some (i, a) ->
  j <= i /\ nth_error l (i - j) = Some a /\ p i a = true.
Proof.
  induction l as [|x l IH]; intros j i a H; simpl in H; [discriminate|].
  destruct (p j x) eqn:E.
  - injection H as <- <-. rewrite Nat.sub_diag. auto.
  - destruct (IH _ _ _ H) as (Hle & Hn & Hp).
    split; [lia|]. split; [|exact Hp].
    replace (i - j) with (S (i - S j)) by lia. exact Hn.
Qed.

Lemma chooseAgent_chosen {St} agents answer (s : St) i a s' :
  chooseAgent agents answer s = Ok (i, a) s' ->
  s' = s /\ nth_error agents i = Some a /\ nullish a = false.
Proof.
  unfold chooseAgent.
  assert (Hfind :
    (if existsb nullish agents then throw TypeError
     else match find_from (is_picked agents answer) 0 agents with
          | Some found => ret found
          | None => throw TypeError
          end) s = Ok (i, a) s' ->
    s' = s /\ nth_error agents i = Some a /\ nullish a = false).
  { destruct (existsb nullish agents) eqn:E; [discriminate|].
    destruct (find_from _ 0 agents) as [[i0 a0]|] eqn:F; [|discriminate].
    intros H. injection H as <- <- <-.
    destruct (find_from_nth _ _ _ _ _ F) as (_ & Hn & _).
    rewrite Nat.sub_0_r in Hn. split; [reflexivity|]. split; [exact Hn|].
    destruct (nullish a0) eqn:N; [|reflexivity].
    assert (X : existsb nullish agents = true).
    { apply existsb_exists. exists a0. split; [|exact N].
      eapply nth_error_In. exact Hn. }
    congruence. }
  destruct agents as [|a0 [|a1 rest]]; try exact Hfind.
  destruct (nullish a0) eqn:N; [discriminate|].
  intros H. injection H as <- <- <-. auto.
Qed.

Lemma strict_eq_same v : is_reference v = false -> strict_eq v v = true.
Proof.
  destruct v as [| |b|z|s|l|o]; try discriminate; intros _; simpl;
    try reflexivity.
  - now destruct b.
  - apply Z.eqb_refl.
  - apply str_eqb_refl.
Qed.

(** What the callback of line 766 makes of one item. *)
Lemma updateInstructions_item {St} id here i final j a (s : St) y s' :
  (if nullish a then throw TypeError
   else if same_id id here i j a then setInstructions final a else ret a) s
  = Ok y s' ->
  s' = s /\
  (truthy y = truthy a /\ get y "id" = get a "id" /\
   get y "name" = get a "name") /\
  (same_id id here i j a = true ->
   forall o, a = VObj o -> get y "instructions" = final) /\
  (same_id id here i j a = false -> y = a).
Proof.
  destruct (nullish a) eqn:N; [discriminate|].
  destruct (same_id id here i j a) eqn:E.
  - destruct a as [| |b|z|str|l|o]; try discriminate;
      intros H; injection H as <- <-.
    + repeat split; try reflexivity; try discriminate.
    + split; [reflexivity|]. split; [|split; [|discriminate]].
      * cbn [get truthy].
        now rewrite !own_obj_set_neq by key_neq.
      * intros _ o' Ho. injection Ho as <-. cbn [get].
        apply own_obj_set_eq.
  - intros H. injection H as <- <-.
    repeat split; try reflexivity. discriminate.
Qed.

Lemma mapiM_Forall2 {St A B} (f : nat -> A -> M St B) (R : A -> B -> Prop) :
  (forall j x s y s', f j x s = Ok y s' -> s' = s /\ R x y) ->
  forall l i s l' s', mapiM f i l s = Ok l' s' -> s' = s /\ Forall2 R l l'.
Proof.
  intros Hf. induction l as [|x l IH]; intros i s l' s' H.
  - injection H as <- <-. split; [reflexivity|constructor].
  - cbn [mapiM] in H. unfold bind in H.
    destruct (f i x s) as [y s1|e s1] eqn:Ex; [|discriminate].
    destruct (mapiM f (S i) l s1) as [ys s2|e s2] eqn:El; [|discriminate].
    injection H as <- <-.
    destruct (Hf _ _ _ _ _ Ex) as [-> Hr].
    destruct (IH _ _ _ _ El) as [-> HF].
    split; [reflexivity|now constructor].
Qed.

Lemma mapiM_nth {St A B} (f : nat -> A -> M St B)
    (R : nat -> A -> B -> Prop) :
  (forall j x s y s', f j x s = Ok y s' -> s' = s /\ R j x y) ->
  forall l i s l' s',
    mapiM f i l s = Ok l' s' ->
    forall j x, nth_error l j = Some x ->
                exists y, nth_error l' j = Some y /\ R (i + j) x y.
Proof.
  intros Hf. induction l as [|x0 l IH]; intros i s l' s' H j x Hx.
  - now destruct j.
  - cbn [mapiM] in H. unfold bind in H.
    destruct (f i x0 s) as [y s1|e s1] eqn:Ex; [|discriminate].
    destruct (mapiM f (S i) l s1) as [ys s2|e s2] eqn:El; [|discriminate].
    injection H as <- <-.
    destruct (Hf _ _ _ _ _ Ex) as [-> Hr].
    destruct j as [|j]; simpl in *.
    + injection Hx as <-. exists y. rewrite Nat.add_0_r. auto.
    + destruct (IH _ _ _ _ El j x Hx) as (y' & Hy & HR).
      exists y'. split; [exact Hy|].
      now replace (i + S j) with (S i + j) by lia.
Qed.

Lemma rootProgramAgents_array vfData l :
  rootProgramAgents vfData = VArr l ->
  exists programResources,
    own vfData (js "programResources") = VObj programResources /\
    own programResources (js "agents") = VArr l.
Proof.
  unfold rootProgramAgents.
  destruct (own vfData (js "programResources")) as [| |b|z|str|l0|pr];
    try (simpl; discriminate).
  intros H. exists pr. auto.
Qed.

Lemma agentsOf_cases vfData a0 rest :
  agentsOf vfData = VArr (a0 :: rest) ->
  rootProgramAgents vfData = VArr (a0 :: rest) \/
  (truthy (rootProgramAgents vfData) = false /\
   own vfData (js "agents") = VArr (a0 :: rest)).
Proof.
  unfold agentsOf, or_else.
  destruct (truthy (rootProgramAgents vfData)) eqn:T.
  - rewrite T. now left.
  - destruct (truthy (own vfData (js "agents"))) eqn:T'.
    + intros H. right. now split.
    + discriminate.
Qed.

Lemma root_only {St T} vfData
    (k1 : list value -> list (jstring * value) -> M St T) (k2 : M St T) :
  truthy (rootProgramAgents vfData) = false ->
  match rootProgramAgents vfData, own vfData (js "programResources") with
  | VArr l, VObj programResources => k1 l programResources
  | _, _ => k2
  end = k2.
Proof.
  intros TP. destruct (rootProgramAgents vfData); try reflexivity.
  discriminate TP.
Qed.

Lemma programAgentsMap_ext data data' :
  own data' (js "version") = own data (js "version") ->
  programAgentsMap data' = programAgentsMap data.
Proof.
  intros H. unfold programAgentsMap.
  now rewrite (programResourcesAgents_ext _ _ H).
Qed.

Lemma listAllAgents_ext data data' l l' :
  own data' (js "version") = own data (js "version") ->
  own data (js "agents") = VArr l ->
  own data' (js "agents") = VArr l' ->
  Forall2 (fun a y => truthy y = truthy a /\ get y "id" = get a "id" /\
                       get y "name" = get a "name") l l' ->
  listAllAgents data' = listAllAgents data.
Proof.
  intros Hv Hl Hl' HF. unfold listAllAgents. do 2 f_equal.
  unfold agentsMap. rewrite Hl, Hl', (programAgentsMap_ext _ _ Hv).
  apply fold_left_Forall2. eapply Forall2_impl; [|exact HF].
  intros a y (Ht & Hi & Hn) m. now rewrite Ht, Hi, Hn.
Qed.

Lemma listAllAgents_same data data' :
  own data' (js "version") = own data (js "version") ->
  own data' (js "agents") = own data (js "agents") ->
  listAllAgents data' = listAllAgents data.
Proof.
  intros Hv Ha. unfold listAllAgents, agentsMap.
  now rewrite Ha, (programAgentsMap_ext _ _ Hv).
Qed.

(** X30.  [ai-update-instructions] on the document.  When it updates,
    every property other than [programResources] and [agents] is as it
    was, [version] among them, so the agents under
    [version.programResources] keep their instructions and
    [listAllAgents] answers what it answered; and the agent of the command
    is at its index of the array it was chosen from, where, if it is an
    object, its [instructions] are the final text itself. *)
Theorem aiUpdate_document {St} vfData answer final (s : St) vfData' s' :
  aiUpdateDocument vfData answer true final s = Ok (Updated vfData') s' ->
  s' = s /\
  (forall k, k <> js "programResources" -> k <> js "agents" ->
             own vfData' k = own vfData k) /\
  listAllAgents vfData' = listAllAgents vfData /\
  exists agents i agent agents' y,
    agentsOf vfData = VArr agents /\
    chooseAgent agents answer s = Ok (i, agent) s /\
    agentsOf vfData' = VArr agents' /\
    nth_error agents' i = Some y /\
    get y "id" = get agent "id" /\
    forall o, agent = VObj o -> get y "instructions" = final.
Proof.
  unfold aiUpdateDocument.
  destruct (agentsOf vfData) as [| |b|z|str|agents|o] eqn:EA;
    try discriminate.
  destruct agents as [|a0 rest]; [discriminate|].
  unfold bind at 1.
  destruct (chooseAgent (a0 :: rest) answer s) as [[i agent] s1|e s1]
    eqn:EC; [|discriminate].
  destruct (chooseAgent_chosen _ _ _ _ _ _ EC) as (-> & Hi & Hnull).
  cbn [negb fst snd]. cbv zeta.
  set (id := get agent "id").
  assert (Hitem : forall here j a (s0 : St) y s0',
            (if nullish a then throw TypeError
             else if same_id id here i j a
                  then setInstructions final a else ret a) s0
            = Ok y s0' ->
            s0' = s0 /\
            (truthy y = truthy a /\ get y "id" = get a "id" /\
             get y "name" = get a "name"))
    by (intros here j a s0 y s0' H;
        now destruct (updateInstructions_item _ _ _ _ _ _ _ _ _ H)
          as (? & ? & _)).
  assert (Hself : same_id id true i i agent = true).
  { unfold same_id. destruct (is_reference id) eqn:R.
    - now rewrite Nat.eqb_refl.
    - now apply strict_eq_same. }
  destruct (agentsOf_cases _ _ _ EA) as [EP|[TP ER]].
  - (* the agent is in [programResources.agents] *)
    destruct (rootProgramAgents_array _ _ EP) as (pr & Hpr & Hprl).
    rewrite EP, Hpr. cbn [truthy negb]. unfold bind at 1.
    unfold updateInstructionsIn at 1. unfold bind at 1.
    destruct (mapiM _ 0 (a0 :: rest) s) as [l1 s2|e s2] eqn:E1;
      [|discriminate].
    destruct (mapiM_Forall2 _ _ (Hitem true) _ _ _ _ _ E1) as [-> _].
    destruct (mapiM_nth _
                (fun j a y =>
                   get y "id" = get a "id" /\
                   (same_id id true i j a = true ->
                    forall o, a = VObj o -> get y "instructions" = final))
                (fun j a s0 y s0' H =>
                   match updateInstructions_item _ _ _ _ _ _ _ _ _ H with
                   | conj Hs (conj (conj _ (conj Hid _)) (conj Hset _)) =>
                       conj Hs (conj Hid Hset)
                   end)
                _ _ _ _ _ E1 i agent Hi) as (y & Hy & Hyid & Hyset).
    unfold ret at 1.
    set (vfData1 := obj_set (js "programResources")
                      (VObj (obj_set (js "agents") (VArr l1) pr)) vfData).
    assert (H1 : forall k, k <> js "programResources" ->
                           own vfData1 k = own vfData k).
    { intros k Hk. unfold vfData1. apply own_obj_set_neq. congruence. }
    assert (HP1 : rootProgramAgents vfData1 = VArr l1).
    { unfold rootProgramAgents, vfData1. rewrite own_obj_set_eq.
      cbn [get]. apply own_obj_set_eq. }
    rewrite (H1 (js "agents")) by key_neq.
    destruct (own vfData (js "agents")) as [| |b|z|str|l|o] eqn:ER.
    1-5,7: intros H; injection H as <- <-;
      (split; [reflexivity|]);
      (split; [intros k Hk _; now apply H1|]);
      (split; [apply listAllAgents_same; apply H1; key_neq|]);
      exists (a0 :: rest), i, agent, l1, y;
      (split; [reflexivity|]); (split; [exact EC|]);
      (split; [unfold agentsOf; rewrite HP1; reflexivity|]);
      (split; [exact Hy|]); (split; [exact Hyid|]);
      now apply Hyset.
    unfold bind at 1. unfold updateInstructionsIn.
    destruct (mapiM _ 0 l s) as [l2 s2|e s2] eqn:E2; [|discriminate].
    destruct (mapiM_Forall2 _ _ (Hitem false) _ _ _ _ _ E2) as [-> HF].
    intros H. injection H as <- <-.
    split; [reflexivity|].
    split; [intros k Hk Ha;
            rewrite own_obj_set_neq by (intros <-; now apply Ha);
            now apply H1|].
    split.
    { apply (listAllAgents_ext _ _ l l2).
      - rewrite own_obj_set_neq by key_neq. apply H1. key_neq.
      - exact ER.
      - apply own_obj_set_eq.
      - exact HF. }
    exists (a0 :: rest), i, agent, l1, y.
    split; [reflexivity|]. split; [exact EC|].
    split.
    { unfold agentsOf, rootProgramAgents.
      rewrite own_obj_set_neq by key_neq.
      fold (rootProgramAgents vfData1). rewrite HP1. reflexivity. }
    split; [exact Hy|]. split; [exact Hyid|]. now apply Hyset.
  - (* the agent is in the root array *)
    rewrite TP. cbn [negb]. rewrite root_only by exact TP.
    unfold bind at 1, ret at 1. rewrite ER.
    unfold bind at 1. unfold updateInstructionsIn.
    destruct (mapiM _ 0 (a0 :: rest) s) as [l2 s2|e s2] eqn:E2;
      [|discriminate].
    destruct (mapiM_Forall2 _ _ (Hitem true) _ _ _ _ _ E2) as [-> HF].
    destruct (mapiM_nth _
                (fun j a y =>
                   get y "id" = get a "id" /\
                   (same_id id true i j a = true ->
                    forall o, a = VObj o -> get y "instructions" = final))
                (fun j a s0 y s0' H =>
                   match updateInstructions_item _ _ _ _ _ _ _ _ _ H with
                   | conj Hs (conj (conj _ (conj Hid _)) (conj Hset _)) =>
                       conj Hs (conj Hid Hset)
                   end)
                _ _ _ _ _ E2 i agent Hi) as (y & Hy & Hyid & Hyset).
    intros H. injection H as <- <-.
    split; [reflexivity|].
    split; [intros k _ Ha; apply own_obj_set_neq; intros <-; now apply Ha|].
    split.
    { apply (listAllAgents_ext _ _ (a0 :: rest) l2).
      - apply own_obj_set_neq. key_neq.
      - exact ER.
      - apply own_obj_set_eq.
      - exact HF. }
    exists (a0 :: rest), i, agent, l2, y.
    split; [reflexivity|]. split; [exact EC|].
    split.
    { unfold agentsOf, rootProgramAgents, or_else.
      rewrite own_obj_set_neq by key_neq.
      fold (rootProgramAgents vfData). rewrite TP.
      now rewrite own_obj_set_eq. }
    split; [exact Hy|]. split; [exact Hyid|]. now apply Hyset.
Qed.

End AiUpdateFacts.

(* ================================================================== *)
(** * The files, the documents and the commands on the samples *)
(* ================================================================== *)

Lemma project_outside_versions :
  dir Samples.project_file <> Samples.VERSIONS_DIR.
Proof. intros H. vm_compute in H. discriminate H. Defined.

Lemma timestamp_of_iso_witness :
  iso_shaped Samples.evening = true /\
  timestamp (iso_of Samples.evening) = to_the_second Samples.evening /\
  length (timestamp (iso_of Samples.evening)) = 14.
Proof.
  split; [reflexivity|].
  apply (timestamp_of_iso Samples.evening). reflexivity.
Defined.

Lemma version_names_in_time_order_witness :
  lex_leb (iso_of Samples.morning) (iso_of Samples.evening) = true /\
  lex_leb
    (versionName Samples.basename_vf Samples.project_file
       (iso_of Samples.morning))
    (versionName Samples.basename_vf Samples.project_file
       (iso_of Samples.evening))
  = true.
Proof.
  split; [reflexivity|].
  apply (version_names_in_time_order Samples.basename_vf
           Samples.project_file Samples.morning Samples.evening);
    reflexivity.
Defined.

Lemma save_revert_roundtrip_witness :
  exists fname fs1 w1 fs2,
    saveNewVersion Samples.clock obj Samples.basename_vf
      Samples.VERSIONS_DIR Samples.project_file Samples.tree Samples.start
    = Returned fname fs1 w1 /\
    writeFile Samples.project_file Samples.file_with_user fs1 = Some fs2 /\
    (exists names,
       listVersions obj Samples.VERSIONS_DIR fs2 w1
       = Returned names fs2 w1 /\
       In fname names) /\
    exists fs3,
      revertToVersion obj Samples.VERSIONS_DIR fname Samples.project_file
        fs2 w1
      = Returned tt fs3 w1 /\
      readFile Samples.project_file fs3
      = readFile Samples.project_file Samples.tree.
Proof.
  do 4 eexists. split; [vm_compute; reflexivity|].
  split; [vm_compute; reflexivity|].
  eapply (save_revert_roundtrip Samples.clock obj Samples.basename_vf
            Samples.VERSIONS_DIR Samples.project_file Samples.tree
            Samples.start _ _ _ Samples.file_with_user);
    vm_compute; reflexivity.
Defined.

Lemma auto_version_after_mutation_witness :
  exists fs1 w1 fname,
    renameMutation (js "Shop 2") Samples.first_version
      Samples.tree_with_version Samples.start
    = Returned tt fs1 w1 /\
    readFile (versionPath Samples.VERSIONS_DIR fname)
      (files_after
         (withAutoVersioning Samples.clock obj Samples.basename_vf
            Samples.VERSIONS_DIR Samples.first_version
            (renameMutation (js "Shop 2") Samples.first_version)
            Samples.tree_with_version Samples.start))
    = readFile Samples.first_version fs1.
Proof.
  destruct (proj1 (auto_version_after_mutation Samples.clock obj
                     Samples.basename_vf Samples.VERSIONS_DIR
                     Samples.first_version
                     (renameMutation (js "Shop 2") Samples.first_version)
                     Samples.tree_with_version Samples.start)
              tt _ _ eq_refl)
    as (fs1 & w1 & fname & Hm & _ & Hv & _).
  exists fs1, w1, fname. split; [exact Hm|exact Hv].
Defined.

Lemma latest_version_greatest_witness :
  getLatestVfFile obj Samples.basename_vf Samples.VERSIONS_DIR
    Samples.project_file Samples.tree_with_versions
  = {| dir := js "versions"; entry := js "shop_v20250102000000.vf" |} /\
  lex_leb (js "shop_v20250101000000.vf")
    (entry (getLatestVfFile obj Samples.basename_vf Samples.VERSIONS_DIR
              Samples.project_file Samples.tree_with_versions))
  = true.
Proof.
  split; [vm_compute; reflexivity|].
  apply (proj1 (latest_version_greatest obj Samples.basename_vf
                  Samples.VERSIONS_DIR Samples.project_file
                  Samples.tree_with_versions)
           (map js ["shop_v20250102000000.vf"; "shop_v20250101000000.vf";
                    "stock_v20250103000000.vf"])
           (js "shop_v20250101000000.vf")).
  - reflexivity.
  - right. left. reflexivity.
  - reflexivity.
Defined.

Lemma ensureVersionedFile_working_witness :
  exists fs',
    ensureVersionedFile Samples.clock obj Samples.basename_vf
      Samples.VERSIONS_DIR Samples.VERSIONS_DIR Samples.project_file
      Samples.tree Samples.start
    = Returned
        (versionPath Samples.VERSIONS_DIR
           (versionName Samples.basename_vf Samples.project_file
              (Samples.clock (ticks Samples.start))))
        fs' {| draws := draws Samples.start;
               ticks := S (ticks Samples.start) |} /\
    readFile
      (versionPath Samples.VERSIONS_DIR
         (versionName Samples.basename_vf Samples.project_file
            (Samples.clock (ticks Samples.start)))) fs'
    = Some Samples.file /\
    forall q, dir q <> Samples.VERSIONS_DIR ->
              readFile q fs' = readFile q Samples.tree.
Proof.
  apply (proj1 (ensureVersionedFile_working Samples.clock obj
                  Samples.basename_vf Samples.VERSIONS_DIR
                  Samples.VERSIONS_DIR Samples.project_file Samples.tree
                  Samples.start eq_refl project_outside_versions)
           Samples.file).
  - intros names f H. vm_compute in H. injection H as <-. intros [].
  - reflexivity.
  - reflexivity.
Defined.

Lemma update_leaves_alone_witness :
  exists data',
    updateAgentInstructions Samples.file_with_agents
      (Samples.jstr "new") (Samples.jstr "a1") tt
    = Ok data' tt /\
    own data' (js "project") = own Samples.file_with_agents (js "project") /\
    nth_error (array_field data' "agents") 2
    = Some (Samples.jobj [("id", Samples.jstr "a3")]).
Proof.
  eexists. split; [vm_compute; reflexivity|].
  destruct (@update_leaves_alone unit Samples.file_with_agents
              (Samples.jstr "new") (Samples.jstr "a1") tt _ tt eq_refl)
    as (_ & Hown & Hroot & _).
  split.
  - apply Hown; intros H; vm_compute in H; discriminate H.
  - apply (Hroot 2); reflexivity.
Defined.

Lemma update_readback_witness :
  exists data' y,
    updateAgentInstructions Samples.file_with_agents
      (Samples.jstr "new") (Samples.jstr "a1") tt
    = Ok data' tt /\
    nth_error (array_field data' "agents") 0 = Some y /\
    get y "id" = Samples.jstr "a1" /\
    get (idx (get y "instructions") 0) "text" = VArr [Samples.jstr "new"].
Proof.
  destruct (proj1 (@update_readback unit Samples.file_with_agents
                     (Samples.jstr "new") (Samples.jstr "a1") tt _ tt
                     eq_refl)
              0 _ eq_refl eq_refl)
    as (y & Hy & Hid & Htext).
  eexists. exists y. split; [vm_compute; reflexivity|].
  split; [exact Hy|]. split; [exact Hid|exact Htext].
Defined.

Lemma update_throws_or_returns_witness :
  updateAgentInstructions [(js "agents", VArr [VNull])]
    (Samples.jstr "new") VUndef tt
  = Throw TypeError tt.
Proof.
  apply (proj1 (@update_throws_or_returns unit [(js "agents", VArr [VNull])]
                  (Samples.jstr "new") VUndef tt)).
  reflexivity.
Defined.

Lemma update_idempotent_witness :
  exists data',
    updateAgentInstructions Samples.file_with_agents
      (Samples.jstr "new") (Samples.jstr "a1") tt
    = Ok data' tt /\
    updateAgentInstructions data' (Samples.jstr "new") (Samples.jstr "a1") tt
    = Ok data' tt.
Proof.
  eexists. split; [vm_compute; reflexivity|].
  apply (@update_idempotent unit Samples.file_with_agents
           (Samples.jstr "new") (Samples.jstr "a1") tt _ tt).
  vm_compute. reflexivity.
Defined.

Lemma update_keeps_listing_witness :
  exists data',
    updateAgentInstructions Samples.file_with_agents
      (Samples.jstr "new") (Samples.jstr "a1") tt
    = Ok data' tt /\
    listAllAgents data' = listAllAgents Samples.file_with_agents.
Proof.
  eexists. split; [vm_compute; reflexivity|].
  apply (@update_keeps_listing unit Samples.file_with_agents
           (Samples.jstr "new") (Samples.jstr "a1") tt _ tt).
  vm_compute. reflexivity.
Defined.

Lemma commands_keep_project_files_witness :
  readFile Samples.project_file
    (files_after
       (addApiToolCommand Samples.random16 Samples.clock
          Samples.basename_vf Samples.VERSIONS_DIR Samples.VERSIONS_DIR
          (ProjectFile Samples.project_file) Samples.answers_user
          Samples.tree Samples.start))
  = readFile Samples.project_file Samples.tree.
Proof.
  apply (proj1 (commands_keep_project_files Samples.random16 Samples.clock
                  Samples.basename_vf Samples.VERSIONS_DIR
                  Samples.project_file project_outside_versions)).
Defined.


Lemma aiAddApiTool_in_place_witness :
  exists W fs1 w1,
    ensureVersionedFile Samples.clock obj Samples.basename_vf
      Samples.VERSIONS_DIR Samples.VERSIONS_DIR Samples.project_file
      Samples.tree Samples.start
    = Returned W fs1 w1 /\
    readFile W fs1 = Some Samples.file /\
    forall d,
      readdir d
        (files_after
           (aiAddApiToolCommand Samples.random16 Samples.clock
              Samples.basename_vf Samples.VERSIONS_DIR Samples.VERSIONS_DIR
              Samples.project_file (Some Samples.payload_with_ids)
              Samples.tree Samples.start))
      = readdir d fs1.
Proof.
  do 3 eexists. split; [vm_compute; reflexivity|].
  split; [vm_compute; reflexivity|].
  refine (proj1 (aiAddApiTool_in_place Samples.random16 Samples.clock
                   Samples.basename_vf Samples.VERSIONS_DIR
                   Samples.project_file (Some Samples.payload_with_ids)
                   Samples.tree Samples.start _ _ _ Samples.file _ _));
    vm_compute; reflexivity.
Defined.

Lemma renameProject_names_witness :
  exists data',
    renameProject (js "Shop 2") Samples.file_with_agents tt = Ok data' tt /\
    currentName data' = VStr (js "Shop 2") /\
    get (own data' (js "project")) "name" = VStr (js "Shop 2").
Proof.
  destruct (proj2 (@renameProject_names unit (js "Shop 2")
                     Samples.file_with_agents tt)
              (or_intror eq_refl))
    as (data' & Hr & Hv & Hp & _).
  exists data'. split; [exact Hr|]. split.
  - now destruct (Hv _ eq_refl) as (_ & Hc & _).
  - apply (Hp _ eq_refl).
Defined.

Lemma ensureVersionedFile_again_witness :
  exists W fs1 w1,
    ensureVersionedFile Samples.clock obj Samples.basename_vf
      Samples.VERSIONS_DIR Samples.VERSIONS_DIR Samples.project_file
      Samples.tree Samples.start
    = Returned W fs1 w1 /\
    ensureVersionedFile Samples.clock obj Samples.basename_vf
      Samples.VERSIONS_DIR Samples.VERSIONS_DIR Samples.project_file
      fs1 w1
    = Returned W fs1 w1.
Proof.
  do 3 eexists. split; [vm_compute; reflexivity|].
  apply (ensureVersionedFile_again Samples.clock Samples.basename_vf
           Samples.VERSIONS_DIR Samples.project_file Samples.tree
           Samples.start _ _ _ project_outside_versions).
  vm_compute. reflexivity.
Defined.

Lemma saved_version_is_next_witness :
  exists fs1 w1 fs2 w2,
    renameMutation (js "Shop 2") Samples.first_version
      Samples.tree_with_version Samples.start
    = Returned tt fs1 w1 /\
    withAutoVersioning Samples.clock obj Samples.basename_vf
      Samples.VERSIONS_DIR Samples.first_version
      (renameMutation (js "Shop 2") Samples.first_version)
      Samples.tree_with_version Samples.start
    = Returned tt fs2 w2 /\
    ensureVersionedFile Samples.clock obj Samples.basename_vf
      Samples.VERSIONS_DIR Samples.VERSIONS_DIR Samples.project_file
      fs2 w2
    = Returned
        (versionPath Samples.VERSIONS_DIR
           (versionName Samples.basename_vf Samples.first_version
              (Samples.clock (ticks w1))))
        fs2 w2.
Proof.
  do 4 eexists. split; [vm_compute; reflexivity|].
  split; [vm_compute; reflexivity|].
  eapply (saved_version_is_next Samples.clock Samples.basename_vf
            Samples.VERSIONS_DIR Samples.project_file Samples.first_version
            (js "20250101000000")
            (renameMutation (js "Shop 2") Samples.first_version)
            Samples.tree_with_version Samples.start tt);
    first [exact project_outside_versions | vm_compute; reflexivity].
Defined.

Lemma aiUpdate_document_witness :
  exists vfData',
    aiUpdateDocument Samples.file_with_agents
      (PickedValue (Samples.jstr "a2")) true (Samples.jstr "Be brief.") tt
    = Ok (Updated vfData') tt /\
    own vfData' (js "version") = own Samples.file_with_agents (js "version")
    /\
    listAllAgents vfData' = listAllAgents Samples.file_with_agents /\
    get (nth 1 (array_field vfData' "agents") VUndef) "instructions"
    = Samples.jstr "Be brief.".
Proof.
  eexists. split; [vm_compute; reflexivity|].
  destruct (@aiUpdate_document unit Samples.file_with_agents
              (PickedValue (Samples.jstr "a2")) (Samples.jstr "Be brief.")
              tt _ tt eq_refl)
    as (_ & Hown & Hlist & _).
  split; [apply Hown; intros H; vm_compute in H; discriminate H|].
  split; [exact Hlist|]. vm_compute. reflexivity.
Defined.

Lemma listAllAgents_distinct_witness :
  ids_spelled Samples.file_with_agents = true /\
  NoDup (map id_key (listAllAgents Samples.file_with_agents)).
Proof.
  split; [reflexivity|].
  apply (listAllAgents_distinct Samples.file_with_agents). reflexivity.
Defined.

Lemma listAllAgents_ids_witness :
  ids_spelled Samples.file_with_agents = true /\
  (In (js "a3") (map id_key (listAllAgents Samples.file_with_agents)) <->
   js "a3" <> js "__proto__" /\
   ((exists agents v,
       programResourcesAgents Samples.file_with_agents = Some agents /\
       In (js "a3", v) (entries agents) /\ truthy v = true) \/
    (exists a,
       In a (array_field Samples.file_with_agents "agents") /\
       truthy a = true /\
       truthy (get a "id") = true /\ to_string (get a "id") = js "a3"))).
Proof.
  split; [reflexivity|].
  apply (listAllAgents_ids Samples.file_with_agents (js "a3")). reflexivity.
Defined.
